(* ===== verification/_CoqProject ===== *)
-Q . S2P
Prelude.v
Bytes.v
CStdlib.v
Sorted.v
FileSystem.v
SnapshotFile.v
Ring.v
Event.v
Codec.v
CommandProtocol.v
Command.v
CommandRetry.v
FboSchedule.v
FboScheduleFacts.v
FboInterleaving.v
FtpProtocol.v
Fwu.v
FwuLite.v
Health.v
ParamTypes.v
Param.v
ParamFacts.v
ParamService.v
ParamText.v
ParamWire.v
ParamPersist.v
ParamSnapshot.v
Table.v
TableFacts.v
TableImage.v
Limits.v
