(* ===== verification/Prelude.v ===== *)
(** * K-FSW services: a verification library

    (header to be completed) *)

From stdpp Require Export prelude list numbers strings gmap.
From Stdlib Require Export ZArith Lia.

#[export] Set Default Goal Selector "!".
#[global] Open Scope Z_scope.

(** ** Automation *)

(** Arithmetic goals mention [mod] and [/] by constants everywhere (wrap-around
    of machine integers), so [lia] is told to eliminate them. *)
Ltac Zify.zify_post_hook ::= Z.to_euclidean_division_equations.

Create HintDb kfsw discriminated.

(** Split every boolean or [option] test of the goal (a C guard). *)
Ltac guards := repeat case_match; simplify_eq/=; try done.

(** The same for a hypothesis obtained from running an operation. *)
Ltac guards_in H := repeat (case_match; simplify_eq/=; try done).

(** A run that did not return early passed every guard. *)
Ltac pass_guards H :=
  repeat match type of H with
  | (if ?b then _ else _) = _ => let G := fresh "G" in destruct b eqn:G; [discriminate H|]
  end.

(** Take the branch of a guard whose test arithmetic decides. *)
Ltac decide_guards :=
  repeat match goal with
  | |- context [if ?b then _ else _] =>
      let Hg := fresh "Hg" in
      first [assert (b = false) as Hg by lia | assert (b = true) as Hg by lia];
      rewrite Hg; clear Hg
  end.

(** ** Machine integers

    An integer object of [w] bits holds a [Z]; a store or a conversion wraps. *)
Definition u8 (z : Z) : Z := z mod 2 ^ 8.
Definition u16 (z : Z) : Z := z mod 2 ^ 16.
Definition u32 (z : Z) : Z := z mod 2 ^ 32.
Definition u64 (z : Z) : Z := z mod 2 ^ 64.
Definition i8 (z : Z) : Z := (z + 2 ^ 7) mod 2 ^ 8 - 2 ^ 7.
Definition i16 (z : Z) : Z := (z + 2 ^ 15) mod 2 ^ 16 - 2 ^ 15.
Definition i32 (z : Z) : Z := (z + 2 ^ 31) mod 2 ^ 32 - 2 ^ 31.
Definition i64 (z : Z) : Z := (z + 2 ^ 63) mod 2 ^ 64 - 2 ^ 63.

Definition UINT8_MAX : Z := 2 ^ 8 - 1.
Definition UINT16_MAX : Z := 2 ^ 16 - 1.
Definition UINT32_MAX : Z := 2 ^ 32 - 1.
Definition INT32_MAX : Z := 2 ^ 31 - 1.
Definition INT32_MIN : Z := - 2 ^ 31.

Definition is_u8 (z : Z) : Prop := 0 <= z < 2 ^ 8.
Definition is_u16 (z : Z) : Prop := 0 <= z < 2 ^ 16.
Definition is_u32 (z : Z) : Prop := 0 <= z < 2 ^ 32.
Definition is_u64 (z : Z) : Prop := 0 <= z < 2 ^ 64.
Definition is_i32 (z : Z) : Prop := - 2 ^ 31 <= z < 2 ^ 31.
Definition is_i64 (z : Z) : Prop := - 2 ^ 63 <= z < 2 ^ 63.

#[export] Instance is_u8_dec z : Decision (is_u8 z) := _.
#[export] Instance is_u16_dec z : Decision (is_u16 z) := _.
#[export] Instance is_u32_dec z : Decision (is_u32 z) := _.
#[export] Instance is_u64_dec z : Decision (is_u64 z) := _.

(** Arithmetic up to the integer model. *)
Ltac clia :=
  unfold u8, u16, u32, u64, i8, i16, i32, i64, is_u8, is_u16, is_u32, is_u64,
    is_i32, is_i64, UINT8_MAX, UINT16_MAX, UINT32_MAX, INT32_MAX, INT32_MIN in *;
  lia.

Lemma u8_id z : is_u8 z → u8 z = z.
Proof. clia. Qed.
Lemma u16_id z : is_u16 z → u16 z = z.
Proof. clia. Qed.
Lemma u32_id z : is_u32 z → u32 z = z.
Proof. clia. Qed.
Lemma u64_id z : is_u64 z → u64 z = z.
Proof. clia. Qed.
Lemma u8_range z : is_u8 (u8 z).
Proof. clia. Qed.
Lemma u16_range z : is_u16 (u16 z).
Proof. clia. Qed.
Lemma u32_range z : is_u32 (u32 z).
Proof. clia. Qed.
Lemma u64_range z : is_u64 (u64 z).
Proof. clia. Qed.
#[export] Hint Resolve u8_range u16_range u32_range u64_range : kfsw.

(** A saturating 32-bit counter: an increment guarded by [c < UINT32_MAX]. *)
Definition sat_inc (c : Z) : Z := if c <? UINT32_MAX then u32 (c + 1) else c.

Lemma sat_inc_u32 c : is_u32 c → is_u32 (sat_inc c).
Proof. unfold sat_inc. case_match; clia. Qed.
Lemma sat_inc_mono c : is_u32 c → c <= sat_inc c.
Proof. unfold sat_inc. case_match; clia. Qed.
Lemma sat_inc_val c : is_u32 c → sat_inc c = Z.min (c + 1) UINT32_MAX.
Proof. unfold sat_inc. case_match; clia. Qed.
#[export] Hint Resolve sat_inc_u32 sat_inc_mono : kfsw.

(** ** Lists *)

Lemma NoDup_snoc_iff {A} (l : list A) x : NoDup (l ++ [x]) ↔ NoDup l ∧ x ∉ l.
Proof.
  rewrite NoDup_app. split.
  - intros (? & Hd & _). split; [done|]. intros Hx. apply (Hd x Hx). by apply list_elem_of_singleton.
  - intros [? Hx]. split_and!; [done| |apply NoDup_singleton].
    intros y Hy ->%list_elem_of_singleton. done.
Qed.

(** ** Error numbers

    The library's [errno.h] values. The code only relies on their being
    positive and distinct (they label distinct [case]s of one [switch]). *)
Definition EPERM := 1.
Definition ENOENT := 2.
Definition EIO := 5.
Definition ENXIO := 6.
Definition E2BIG := 7.
Definition EAGAIN := 11.
Definition EACCES := 13.
Definition EBUSY := 16.
Definition EEXIST := 17.
Definition ENODEV := 19.
Definition ENOTDIR := 20.
Definition EISDIR := 21.
Definition EINVAL := 22.
Definition EFBIG := 27.
Definition ENOSPC := 28.
Definition ESPIPE := 29.
Definition EROFS := 30.
Definition ERANGE := 34.
Definition ENODATA := 61.
Definition ETIME := 62.
Definition EBADMSG := 77.
Definition ENAMETOOLONG := 91.
Definition ECONNRESET := 104.
Definition ECONNREFUSED := 111.
Definition ETIMEDOUT := 116.
Definition EALREADY := 120.
Definition EMSGSIZE := 122.
Definition EPROTONOSUPPORT := 123.
Definition ENOTSUP := 134.
Definition EILSEQ := 138.
Definition EOVERFLOW := 139.
Definition ECANCELED := 140.
