(* ===== verification/Bytes.v ===== *)
(** * Byte buffers, C strings and the platform's byte helpers *)

From S2P Require Import Prelude.

(** ** Memory

    An array object is the list of its elements; offsets are [nat]. *)
Definition zlen {A} (l : list A) : Z := Z.of_nat (length l).

Lemma zlen_nonneg {A} (l : list A) : 0 <= zlen l.
Proof. unfold zlen. lia. Qed.
Lemma zlen_nil {A} : zlen (@nil A) = 0.
Proof. done. Qed.
Lemma zlen_cons {A} (x : A) l : zlen (x :: l) = zlen l + 1.
Proof. unfold zlen. cbn [length]. lia. Qed.
Lemma zlen_app {A} (l l' : list A) : zlen (l ++ l') = zlen l + zlen l'.
Proof. unfold zlen. rewrite length_app. lia. Qed.
Lemma zlen_zero {A} (l : list A) : zlen l = 0 → l = [].
Proof. destruct l; [done|]. rewrite zlen_cons. pose proof (zlen_nonneg l). lia. Qed.

Definition bytes (l : list Z) : Prop := Forall is_u8 l.
#[export] Instance bytes_dec l : Decision (bytes l) := _.

(** [buf[i]], read below the end of the object. *)
Definition byte_at (buf : list Z) (i : nat) : Z := nth i buf 0.
(** The [n] elements from offset [off]. *)
Definition slice {A} (off n : nat) (buf : list A) : list A := take n (drop off buf).
(** [memcpy(&buf[off], bs, length bs)]. *)
Definition buf_put {A} (off : nat) (bs buf : list A) : list A :=
  take off buf ++ bs ++ drop (off + length bs) buf.
(** [memset(&buf[off], v, n)]. *)
Definition mem_set (off : nat) (v : Z) (n : nat) (buf : list Z) : list Z :=
  buf_put off (replicate n v) buf.
(** [memcmp(a, b, n) == 0]. *)
Definition mem_eq (a b : list Z) (n : nat) : bool := bool_decide (take n a = take n b).
(** [memchr(p, v, n) != NULL]. *)
Definition mem_has (v : Z) (l : list Z) : bool := existsb (Z.eqb v) l.

Lemma length_buf_put {A} off (bs buf : list A) :
  (off + length bs <= length buf)%nat → length (buf_put off bs buf) = length buf.
Proof. unfold buf_put. rewrite !length_app, length_take, length_drop. lia. Qed.

Lemma buf_put_0 {A} (bs buf : list A) : buf_put 0 bs buf = bs ++ drop (length bs) buf.
Proof. done. Qed.

Lemma buf_put_nil {A} off (buf : list A) : buf_put off [] buf = buf.
Proof. unfold buf_put. simpl. by rewrite Nat.add_0_r, take_drop. Qed.

(** Adjacent copies are one copy. *)
Lemma buf_put_app {A} off (a b buf : list A) :
  (off + length a <= length buf)%nat →
  buf_put (off + length a) b (buf_put off a buf) = buf_put off (a ++ b) buf.
Proof.
  intros H. unfold buf_put. rewrite length_app.
  assert (length (take off buf ++ a) = off + length a)%nat as Hl
    by (rewrite length_app, length_take; lia).
  rewrite !(app_assoc (take off buf) a), <- Hl, take_app_length, drop_app_add, drop_drop, Hl.
  rewrite <- !app_assoc. do 4 f_equal. lia.
Qed.

(** A store to one element is a copy of one element. *)
Lemma insert_buf_put {A} i (x : A) l : (i < length l)%nat → <[i:=x]> l = buf_put i [x] l.
Proof.
  intros H. unfold buf_put. rewrite insert_take_drop by done. simpl. do 3 f_equal. lia.
Qed.

Lemma byte_at_app_r a b c n : n = length a → byte_at (a ++ b :: c) n = b.
Proof. intros ->. unfold byte_at. by rewrite app_nth2, Nat.sub_diag by lia. Qed.

Lemma slice_app {A} (a b c : list A) off n :
  off = length a → n = length b → slice off n (a ++ b ++ c) = b.
Proof. intros -> ->. unfold slice. by rewrite drop_app_length, take_app_length. Qed.

Lemma length_slice {A} off n (l : list A) :
  (off + n <= length l)%nat → length (slice off n l) = n.
Proof. intros. unfold slice. rewrite length_take, length_drop. lia. Qed.

Lemma slice_slice {A} off n m (l : list A) :
  (m <= n)%nat → take m (slice off n l) = slice off m l.
Proof. intros. unfold slice. rewrite take_take. f_equal. lia. Qed.

Lemma bytes_app a b : bytes (a ++ b) ↔ bytes a ∧ bytes b.
Proof. apply Forall_app. Qed.
Lemma bytes_take n a : bytes a → bytes (take n a).
Proof. apply Forall_take. Qed.
Lemma bytes_drop n a : bytes a → bytes (drop n a).
Proof. apply Forall_drop. Qed.
Lemma bytes_slice off n a : bytes a → bytes (slice off n a).
Proof. intros. by apply bytes_take, bytes_drop. Qed.
Lemma byte_at_range buf i : bytes buf → is_u8 (byte_at buf i).
Proof.
  intros H. unfold byte_at.
  destruct (decide (i < length buf)%nat) as [Hi|Hi].
  - eapply Forall_nth; [exact H|done].
  - rewrite nth_overflow by lia. clia.
Qed.
Lemma buf_put_bytes off bs buf : bytes bs → bytes buf → bytes (buf_put off bs buf).
Proof. intros. unfold buf_put. rewrite !bytes_app. auto using bytes_take, bytes_drop. Qed.
#[export] Hint Resolve bytes_take bytes_drop bytes_slice byte_at_range buf_put_bytes : kfsw.

Lemma mem_has_false v l : mem_has v l = false ↔ v ∉ l.
Proof.
  unfold mem_has. rewrite <- not_true_iff_false, existsb_exists, list_elem_of_In.
  split.
  - intros H Hin. apply H. exists v. by rewrite Z.eqb_refl.
  - intros H (x & Hin & ->%Z.eqb_eq). done.
Qed.

(** ** C strings

    A string is the list of the bytes before its terminator. *)
Definition cstr (s : string) : list Z :=
  (λ a, Z.of_N (Ascii.N_of_ascii a)) <$> String.list_ascii_of_string s.
Definition is_cstr (s : list Z) : Prop := Forall (λ b, 0 < b < 256) s.
#[export] Instance is_cstr_dec s : Decision (is_cstr s) := _.

(** The string an array of characters holds. *)
Fixpoint cut_nul (l : list Z) : list Z :=
  match l with
  | [] => []
  | c :: l => if c =? 0 then [] else c :: cut_nul l
  end.
(** [s[i]]: the terminator is read at the length. *)
Definition char_at (s : list Z) (i : nat) : Z := nth i s 0.
Definition strlen (s : list Z) : Z := zlen s.
Definition str_eq (a b : list Z) : bool := bool_decide (a = b).
(** [strncmp(a, b, n) == 0]: a terminator ends the comparison. *)
Definition strn_eq (a b : list Z) (n : nat) : bool :=
  bool_decide (take n (a ++ [0]) = take n (b ++ [0])).
(** [memchr(s, '\0', n) != NULL] on a string: the terminator is in the first [n] bytes. *)
Definition terminated_within (s : list Z) (n : Z) : bool := strlen s <? n.
(** [strncpy(dst, s, n - 1); dst[n - 1] = '\0']. *)
Definition str_truncate (s : list Z) (n : nat) : list Z := take (n - 1) s.

Lemma cstr_app_nul s t : is_cstr s → is_cstr t → s ++ [0] = t ++ [0] → s = t.
Proof. intros _ _ H. by apply app_inv_tail in H. Qed.

(** ** The platform's byte-order helpers

    [sys_put_be16/32/64] and [sys_get_be16/32/64] are Zephyr's; their documented
    behaviour is big-endian storage of an unsigned value. *)
Class ByteOrder := {
  put_be : nat → Z → list Z;
  get_be : list Z → Z;
  put_be_length n v : length (put_be n v) = n;
  put_be_bytes n v : bytes (put_be n v);
  get_put_be n v : get_be (put_be n v) = v mod 2 ^ (8 * Z.of_nat n);
  put_get_be l : bytes l → put_be (length l) (get_be l) = l;
}.

Section byte_order.
Context {BO : ByteOrder}.

Definition put_be16 (v : Z) : list Z := put_be 2 v.
Definition put_be32 (v : Z) : list Z := put_be 4 v.
Definition put_be64 (v : Z) : list Z := put_be 8 v.
Definition get_be16 (off : nat) (buf : list Z) : Z := get_be (slice off 2 buf).
Definition get_be32 (off : nat) (buf : list Z) : Z := get_be (slice off 4 buf).
Definition get_be64 (off : nat) (buf : list Z) : Z := get_be (slice off 8 buf).

Lemma get_be_range l : bytes l → 0 <= get_be l < 2 ^ (8 * zlen l).
Proof.
  intros Hl. assert (get_be l = get_be l mod 2 ^ (8 * zlen l)) as ->.
  { unfold zlen. rewrite <- get_put_be. by rewrite put_get_be. }
  apply Z.mod_pos_bound. apply Z.pow_pos_nonneg; unfold zlen; lia.
Qed.

(** Each store is a short list of bytes that reads back. *)
Lemma put_be16_shape v : ∃ a b, put_be16 v = [a; b] ∧ bytes [a; b] ∧ get_be [a; b] = u16 v.
Proof.
  pose proof (put_be_length 2 v). pose proof (put_be_bytes 2 v).
  pose proof (get_put_be 2 v). unfold put_be16.
  destruct (put_be 2 v) as [|a [|b [|]]]; simplify_eq/=. eauto.
Qed.
Lemma put_be32_shape v :
  ∃ a b c d, put_be32 v = [a; b; c; d] ∧ bytes [a; b; c; d] ∧ get_be [a; b; c; d] = u32 v.
Proof.
  pose proof (put_be_length 4 v). pose proof (put_be_bytes 4 v).
  pose proof (get_put_be 4 v). unfold put_be32.
  destruct (put_be 4 v) as [|a [|b [|c [|d [|]]]]]; simplify_eq/=. eauto 10.
Qed.
Lemma put_be64_shape v :
  ∃ a b c d e f g h, put_be64 v = [a; b; c; d; e; f; g; h] ∧
    bytes [a; b; c; d; e; f; g; h] ∧ get_be [a; b; c; d; e; f; g; h] = u64 v.
Proof.
  pose proof (put_be_length 8 v). pose proof (put_be_bytes 8 v).
  pose proof (get_put_be 8 v). unfold put_be64.
  destruct (put_be 8 v) as [|a [|b [|c [|d [|e [|f [|g [|h [|]]]]]]]]]; simplify_eq/=.
  eauto 20.
Qed.

(** Storing what was read gives the bytes back. *)
Lemma put_get_be16 a b : bytes [a; b] → put_be16 (get_be [a; b]) = [a; b].
Proof. apply (put_get_be [a; b]). Qed.
Lemma put_get_be32 a b c d : bytes [a; b; c; d] → put_be32 (get_be [a; b; c; d]) = [a; b; c; d].
Proof. apply (put_get_be [a; b; c; d]). Qed.
Lemma put_get_be64 a b c d e f g h :
  bytes [a; b; c; d; e; f; g; h] →
  put_be64 (get_be [a; b; c; d; e; f; g; h]) = [a; b; c; d; e; f; g; h].
Proof. apply (put_get_be [a; b; c; d; e; f; g; h]). Qed.

Lemma get_be16_range off buf : bytes buf → is_u16 (get_be16 off buf).
Proof.
  intros Hb. pose proof (get_be_range _ (bytes_slice off 2 _ Hb)) as Hr.
  unfold get_be16, is_u16, zlen in *. split; [lia|].
  eapply Z.lt_le_trans; [apply Hr|]. apply Z.pow_le_mono_r; [lia|].
  unfold slice. rewrite length_take. lia.
Qed.
Lemma get_be32_range off buf : bytes buf → is_u32 (get_be32 off buf).
Proof.
  intros Hb. pose proof (get_be_range _ (bytes_slice off 4 _ Hb)) as Hr.
  unfold get_be32, is_u32, zlen in *. split; [lia|].
  eapply Z.lt_le_trans; [apply Hr|]. apply Z.pow_le_mono_r; [lia|].
  unfold slice. rewrite length_take. lia.
Qed.
Lemma get_be64_range off buf : bytes buf → is_u64 (get_be64 off buf).
Proof.
  intros Hb. pose proof (get_be_range _ (bytes_slice off 8 _ Hb)) as Hr.
  unfold get_be64, is_u64, zlen in *. split; [lia|].
  eapply Z.lt_le_trans; [apply Hr|]. apply Z.pow_le_mono_r; [lia|].
  unfold slice. rewrite length_take. lia.
Qed.

Lemma get_be16_cells a b : is_u8 a → is_u8 b → is_u16 (get_be [a; b]).
Proof. intros. apply (get_be16_range 0 [a; b]). by repeat (apply Forall_cons; split; [done|]). Qed.
Lemma get_be32_cells a b c d :
  is_u8 a → is_u8 b → is_u8 c → is_u8 d → is_u32 (get_be [a; b; c; d]).
Proof. intros. apply (get_be32_range 0 [a; b; c; d]). by repeat (apply Forall_cons; split; [done|]). Qed.
Lemma get_be64_cells a b c d e f g h :
  bytes [a; b; c; d; e; f; g; h] → is_u64 (get_be [a; b; c; d; e; f; g; h]).
Proof. apply (get_be64_range 0 [a; b; c; d; e; f; g; h]). Qed.
End byte_order.
#[export] Hint Resolve get_be16_range get_be32_range get_be64_range : kfsw.

(** Replace every store of the goal by its bytes. *)
Ltac split_stores :=
  repeat match goal with
  | |- context [put_be16 ?v] =>
      let Hp := fresh "Hp" in
      destruct (put_be16_shape v) as (? & ? & Hp & ? & ?); rewrite ?Hp in *; clear Hp
  | |- context [put_be32 ?v] =>
      let Hp := fresh "Hp" in
      destruct (put_be32_shape v) as (? & ? & ? & ? & Hp & ? & ?); rewrite ?Hp in *; clear Hp
  | |- context [put_be64 ?v] =>
      let Hp := fresh "Hp" in
      destruct (put_be64_shape v) as (? & ? & ? & ? & ? & ? & ? & ? & Hp & ? & ?);
      rewrite ?Hp in *; clear Hp
  end.

(** Rebuild the stored fields of a frame of bytes. *)
Ltac byte_cells := repeat (apply Forall_cons; split; [assumption|]); try assumption; try constructor.
Ltac rebuild_fields :=
  repeat first [rewrite put_get_be16 by byte_cells | rewrite put_get_be32 by byte_cells
               | rewrite put_get_be64 by byte_cells].
(** Split [bytes (x :: ...)] hypotheses into one fact per cell. *)
Ltac split_bytes :=
  repeat match goal with
  | H : bytes (_ :: _) |- _ => apply Forall_cons in H as [? H]
  | H : Forall is_u8 (_ :: _) |- _ => apply Forall_cons in H as [? H]
  end.

(** Read the stored fields of a list of cells back. *)
Ltac read_fields :=
  cbv [get_be16 get_be32 get_be64 slice byte_at]; cbn [take drop nth]; rewrite ?take_0, ?drop_0;
  repeat match goal with H : get_be ?l = _ |- _ => rewrite !H end;
  repeat first [rewrite u16_id by (done || clia) | rewrite u32_id by (done || clia)
               | rewrite u64_id by (done || clia)].

(** The big-endian implementation, for evaluation. *)
Fixpoint put_big (n : nat) (v : Z) : list Z :=
  match n with O => [] | S n => put_big n (v / 256) ++ [v mod 256] end.
Definition get_big (l : list Z) : Z := fold_left (λ acc b, acc * 256 + b) l 0.

Lemma get_big_snoc l b : get_big (l ++ [b]) = get_big l * 256 + b.
Proof. unfold get_big. by rewrite fold_left_app. Qed.
Lemma put_big_length n v : length (put_big n v) = n.
Proof. revert v. induction n; intros v; simpl; [done|]. rewrite length_app, IHn. simpl. lia. Qed.
Lemma put_big_bytes n v : bytes (put_big n v).
Proof.
  revert v. induction n as [|n IH]; intros v; simpl; [constructor|].
  apply bytes_app. split; [apply IH|]. repeat constructor; clia.
Qed.
Lemma get_put_big n v : get_big (put_big n v) = v mod 2 ^ (8 * Z.of_nat n).
Proof.
  revert v. induction n as [|n IH]; intros v.
  { change (2 ^ (8 * Z.of_nat 0)) with 1. rewrite Z.mod_1_r. done. }
  cbn [put_big]. rewrite get_big_snoc, IH.
  replace (8 * Z.of_nat (S n)) with (8 + 8 * Z.of_nat n) by lia.
  rewrite Z.pow_add_r by lia. change (2 ^ 8) with 256.
  rewrite Z.rem_mul_r by lia. lia.
Qed.
Lemma put_get_big l : bytes l → put_big (length l) (get_big l) = l.
Proof.
  induction l as [|b l IH] using rev_ind; intros Hb; [done|].
  apply bytes_app in Hb as [Hl Hb]. apply Forall_cons in Hb as [Hb _].
  rewrite length_app, Nat.add_1_r. cbn [put_big]. rewrite get_big_snoc.
  replace ((get_big l * 256 + b) / 256) with (get_big l) by clia.
  replace ((get_big l * 256 + b) mod 256) with b by clia.
  by rewrite IH.
Qed.

#[export] Instance big_endian : ByteOrder := {
  put_be := put_big; get_be := get_big;
  put_be_length := put_big_length; put_be_bytes := put_big_bytes;
  get_put_be := get_put_big; put_get_be := put_get_big }.

(** ** CRC-32

    [crc32_ieee] and [crc32_ieee_update] are Zephyr's. The code relies on an
    update being a 32-bit function of the bytes seen so far. *)
Class Crc32 := {
  crc32_update : Z → list Z → Z;
  crc32_update_range c l : is_u32 (crc32_update c l);
  crc32_update_nil c : is_u32 c → crc32_update c [] = c;
  crc32_update_app c a b : crc32_update (crc32_update c a) b = crc32_update c (a ++ b);
}.
Definition crc32_ieee {CRC : Crc32} (l : list Z) : Z := crc32_update 0 l.

(** The reflected polynomial, bit by bit. *)
Definition crc_bit (x : Z) : Z :=
  if Z.testbit x 0 then Z.lxor (Z.shiftr x 1) 3988292384 else Z.shiftr x 1.
Definition crc_byte (x b : Z) : Z := u32 (Nat.iter 8 crc_bit (Z.lxor x b)).
Definition crc_not (x : Z) : Z := UINT32_MAX - u32 x.
Definition crc32_bits (c : Z) (l : list Z) : Z := crc_not (fold_left crc_byte l (crc_not c)).

Lemma crc_not_range x : is_u32 (crc_not x).
Proof. unfold crc_not. clia. Qed.
Lemma crc_fold_range l x : is_u32 x → is_u32 (fold_left crc_byte l x).
Proof. revert x. induction l as [|b l IH]; intros x Hx; [done|]. apply IH, u32_range. Qed.
Lemma crc32_bits_app c a b : crc32_bits (crc32_bits c a) b = crc32_bits c (a ++ b).
Proof.
  unfold crc32_bits. rewrite fold_left_app. do 2 f_equal.
  pose proof (crc_fold_range a (crc_not c) (crc_not_range c)) as H. revert H.
  generalize (fold_left crc_byte a (crc_not c)). intros z Hz. unfold crc_not. clia.
Qed.

Lemma crc32_bits_nil c : is_u32 c → crc32_bits c [] = c.
Proof. unfold crc32_bits, crc_not. cbn. clia. Qed.

Definition crc32_bitwise : Crc32 := {|
  crc32_update := crc32_bits;
  crc32_update_range c l := crc_not_range _;
  crc32_update_nil := crc32_bits_nil; crc32_update_app := crc32_bits_app |}.

(** The check value of the standard. *)
Example crc32_check : crc32_ieee (CRC := crc32_bitwise) (cstr "123456789") = 3421780262.
Proof. vm_compute. reflexivity. Qed.
