(* ===== verification/CStdlib.v ===== *)
(** * The C library's number parsing

    [strtoul] and [strtol] as the C standard defines them, on a terminated string:
    they answer the value, the rest of the string the end pointer designates, and
    whether [errno] became [ERANGE]. *)

From S2P Require Import Prelude Bytes.

(** [unsigned long] is 32 bits on the targets and 64 on a simulator. *)
Class CLong := {
  LONG_WIDTH : Z;
  LONG_WIDTH_cases : LONG_WIDTH = 32 ∨ LONG_WIDTH = 64;
}.
#[program] Definition clong32 : CLong := {| LONG_WIDTH := 32 |}.
Next Obligation. by left. Qed.

Definition isspace (c : Z) : bool := (c =? 32) || ((9 <=? c) && (c <=? 13)).
Definition isdigit (c : Z) : bool := (48 <=? c) && (c <=? 57).

(** The digit a character stands for, if it is one in this base. *)
Definition digit_of (base c : Z) : option Z :=
  let d := if isdigit c then c - 48
           else if (97 <=? c) && (c <=? 122) then c - 87
           else if (65 <=? c) && (c <=? 90) then c - 55
           else 36 in
  if d <? base then Some d else None.

Fixpoint skip_spaces (s : list Z) : list Z :=
  match s with
  | c :: s' => if isspace c then skip_spaces s' else s
  | [] => []
  end.

Definition take_sign (s : list Z) : bool * list Z :=
  match s with
  | 45 :: s' => (true, s')
  | 43 :: s' => (false, s')
  | _ => (false, s)
  end.

(** Base detection: a [0x] prefix counts only in front of a hexadecimal digit. *)
Definition take_base (base : Z) (s : list Z) : Z * list Z :=
  let hex := match s with
             | 48 :: x :: c :: _ =>
                 ((x =? 120) || (x =? 88)) && bool_decide (is_Some (digit_of 16 c))
             | _ => false
             end in
  if ((base =? 0) || (base =? 16)) && hex then (16, drop 2 s)
  else if base =? 0 then (if char_at s 0 =? 48 then 8 else 10, s)
  else (base, s).

Fixpoint take_digits (base : Z) (s : list Z) (acc : Z) : Z * list Z :=
  match s with
  | c :: s' =>
      match digit_of base c with
      | Some d => take_digits base s' (acc * base + d)
      | None => (acc, s)
      end
  | [] => (acc, [])
  end.

(** The sign, the magnitude and the rest; [None] when there is no digit. *)
Definition scan_number (s : list Z) (base : Z) : option (bool * Z * list Z) :=
  let '(negative, s1) := take_sign (skip_spaces s) in
  let '(b, s2) := take_base base s1 in
  let '(v, rest) := take_digits b s2 0 in
  if (length rest <? length s2)%nat then Some (negative, v, rest) else None.

(** The conversions to an unsigned and a signed type of [w] bits. *)
Definition unsigned_of (w : Z) (s : list Z) (base : Z) : Z * list Z * bool :=
  match scan_number s base with
  | None => (0, s, false)
  | Some (negative, v, rest) =>
      if v <? 2 ^ w
      then ((if negative then (- v) mod 2 ^ w else v), rest, false)
      else (2 ^ w - 1, rest, true)
  end.

Definition signed_of (w : Z) (s : list Z) (base : Z) : Z * list Z * bool :=
  match scan_number s base with
  | None => (0, s, false)
  | Some (negative, v, rest) =>
      let z := if negative then - v else v in
      if z <? - 2 ^ (w - 1) then (- 2 ^ (w - 1), rest, true)
      else if z >? 2 ^ (w - 1) - 1 then (2 ^ (w - 1) - 1, rest, true)
      else (z, rest, false)
  end.

(** [long long] has 64 bits. *)
Definition strtoull : list Z → Z → Z * list Z * bool := unsigned_of 64.
Definition strtoll : list Z → Z → Z * list Z * bool := signed_of 64.

Section strto.
Context {CL : CLong}.

Definition strtoul (s : list Z) (base : Z) : Z * list Z * bool := unsigned_of LONG_WIDTH s base.
Definition strtol (s : list Z) (base : Z) : Z * list Z * bool := signed_of LONG_WIDTH s base.

Lemma long_width_pow : 2 ^ 32 <= 2 ^ LONG_WIDTH.
Proof. destruct LONG_WIDTH_cases as [-> | ->]; lia. Qed.

Lemma take_digits_nonneg base s acc : 0 <= base → 0 <= acc → 0 <= (take_digits base s acc).1.
Proof.
  intros Hb. revert acc. induction s as [|c s IH]; intros acc Ha; simpl; [done|].
  destruct (digit_of base c) eqn:E; [|done]. apply IH.
  unfold digit_of in E. repeat case_match; simplify_eq; unfold isdigit in *; nia.
Qed.

Lemma take_base_nonneg base s : 0 <= base → 0 <= (take_base base s).1.
Proof. intros. unfold take_base. repeat case_match; cbn; lia. Qed.

Lemma scan_number_nonneg s base n v rest :
  0 <= base → scan_number s base = Some (n, v, rest) → 0 <= v.
Proof.
  intros Hb H. unfold scan_number in H. destruct (take_sign _) as [n' s1].
  pose proof (take_base_nonneg base s1 Hb). destruct (take_base base s1) as [b s2].
  pose proof (take_digits_nonneg b s2 0). destruct (take_digits b s2 0).
  case_match; simplify_eq/=. auto with lia.
Qed.

Lemma strtoul_nonneg s base : 0 <= base → 0 <= (strtoul s base).1.1.
Proof.
  intros Hb. unfold strtoul, unsigned_of. pose proof long_width_pow.
  destruct (scan_number s base) as [[[n v] rest]|] eqn:E; [|done].
  apply scan_number_nonneg in E; [|done].
  destruct (v <? 2 ^ LONG_WIDTH); [|cbn; lia].
  destruct n; [|done]. apply Z.mod_pos_bound. lia.
Qed.
End strto.

(** The value a run of decimal digits denotes. *)
Definition dec_value (ds : list Z) : Z := fold_left (λ v c, v * 10 + (c - 48)) ds 0.

Lemma isdigit_facts c : isdigit c = true → isspace c = false ∧ digit_of 10 c = Some (c - 48).
Proof.
  unfold isdigit, isspace, digit_of. intros H. unfold isdigit. rewrite H. split; [lia|].
  by decide_guards || (replace (c - 48 <? 10) with true by lia; done).
Qed.

Lemma take_digits_decimal ds acc :
  forallb isdigit ds = true →
  take_digits 10 ds acc = (fold_left (λ v c, v * 10 + (c - 48)) ds acc, []).
Proof.
  revert acc. induction ds as [|c ds IH]; intros acc H; [done|]. cbn in H.
  apply andb_true_iff in H as [Hc H]. cbn [take_digits fold_left].
  rewrite (proj2 (isdigit_facts c Hc)). by apply IH.
Qed.

Lemma take_base_decimal c ds :
  isdigit c = true → c ≠ 48 → take_base 0 (c :: ds) = (10, c :: ds).
Proof.
  intros Hc H0. unfold take_base, char_at, isdigit in *. cbn in *.
  assert ((c =? 48) = false) as -> by lia.
  repeat (case_match; try done); lia.
Qed.

(** Decimal digits, with a minus sign or without. *)
Lemma scan_signed_decimal (negative : bool) ds :
  forallb isdigit ds = true → ds ≠ [] → char_at ds 0 ≠ 48 →
  scan_number ((if negative then [45] else [] : list Z) ++ ds) 0 = Some (negative, dec_value ds, []).
Proof.
  intros H Hne H0. destruct ds as [|c ds]; [done|]. pose proof H as H'. cbn in H'.
  apply andb_true_iff in H' as [Hc _]. pose proof (isdigit_facts c Hc) as [Hs _].
  unfold scan_number.
  assert (take_sign (skip_spaces ((if negative then [45] else [] : list Z) ++ c :: ds)) = (negative, c :: ds)) as ->.
  { destruct negative; [done|]. cbn [app skip_spaces]. rewrite Hs. unfold take_sign, isdigit in *.
    destruct (decide (c = 45)); [lia|]. destruct (decide (c = 43)); [lia|].
    repeat (case_match; try done). }
  rewrite take_base_decimal by done. by rewrite take_digits_decimal.
Qed.
Lemma scan_decimal ds :
  forallb isdigit ds = true → ds ≠ [] → char_at ds 0 ≠ 48 →
  scan_number ds 0 = Some (false, dec_value ds, []).
Proof. apply (scan_signed_decimal false). Qed.
Example strtoul_hex : strtoul (CL := clong32) (cstr " 0x1f!") 0 = (31, cstr "!", false).
Proof. vm_compute. reflexivity. Qed.
Example strtol_neg : strtol (CL := clong32) (cstr "-12") 0 = (-12, [], false).
Proof. vm_compute. reflexivity. Qed.
