(* ===== verification/Sorted.v ===== *)
(** * Sorted arrays

    The services keep some arrays sorted by a key: an element is inserted in front of
    the first greater one ([memmove] and a store), and a key is found by bisection. *)

From S2P Require Import Prelude.
From Stdlib Require Export Sorting.Sorted.

(** The position of the first element that [after] holds of, or the length. *)
Fixpoint insert_position {A} (after : A → bool) (l : list A) : nat :=
  match l with
  | [] => O
  | x :: l => if after x then O else S (insert_position after l)
  end.
Definition insert_at {A} (i : nat) (x : A) (l : list A) : list A := take i l ++ [x] ++ drop i l.

(** Binary search over the positions [low, high): the interval shrinks with every turn,
    so its width bounds the turns. *)
Fixpoint bisect {A} (key : A → Z) (fuel : nat) (k : Z) (low high : nat) (l : list A) : option A :=
  match fuel with
  | O => None
  | S fuel =>
      if (low <? high)%nat then
        let middle := (low + (high - low) / 2)%nat in
        match l !! middle with
        | None => None
        | Some x =>
            if key x =? k then Some x
            else if key x <? k then bisect key fuel k (middle + 1) high l
            else bisect key fuel k low middle l
        end
      else None
  end.

Section sorted.
Context {A : Type} (key : A → Z).
Implicit Types (x y : A) (l : list A).

Definition sorted_by l : Prop := StronglySorted (λ x y, key x < key y) l.

Lemma insert_at_perm i x l : insert_at i x l ≡ₚ x :: l.
Proof.
  unfold insert_at. rewrite <- (take_drop i l) at 3. cbn [app]. symmetry. apply Permutation_middle.
Qed.

Lemma insert_at_length i x l : length (insert_at i x l) = S (length l).
Proof. by rewrite insert_at_perm. Qed.

Lemma insert_at_cons x y l i : insert_at (S i) x (y :: l) = y :: insert_at i x l.
Proof. done. Qed.

(** Being sorted is a matter of the keys. *)
Lemma sorted_by_keys l : sorted_by l ↔ StronglySorted Z.lt (key <$> l).
Proof.
  unfold sorted_by. induction l as [|x l IH]; [split; constructor|]. cbn [fmap list_fmap].
  split; intros [Hs Hx]%StronglySorted_inv; (constructor; [by apply IH|]).
  - apply Forall_fmap. exact Hx.
  - rewrite Forall_fmap in Hx. exact Hx.
Qed.

(** Inserting a new key in front of the first greater one keeps the order. *)
Lemma insert_sorted x l :
  sorted_by l → key x ∉ (key <$> l) →
  sorted_by (insert_at (insert_position (λ y, key y >? key x) l) x l).
Proof.
  unfold sorted_by. induction l as [|y l IH]; intros Hs Hx; [repeat constructor|].
  apply StronglySorted_inv in Hs as [Hs Hy]. cbn [insert_position].
  cbn [fmap list_fmap] in Hx. apply not_elem_of_cons in Hx as [Hne Hx].
  destruct (key y >? key x) eqn:E.
  - unfold insert_at. cbn. constructor; [by constructor|]. constructor; [lia|].
    eapply Forall_impl; [exact Hy|]. cbn. lia.
  - rewrite insert_at_cons. constructor; [by apply IH|].
    rewrite insert_at_perm. constructor; [lia|done].
Qed.

Lemma sorted_lookup l i j x y :
  sorted_by l → l !! i = Some x → l !! j = Some y → (i < j)%nat → key x < key y.
Proof.
  unfold sorted_by. intros Hs. revert i j. induction Hs as [|z l Hs IH Hz]; intros i j Hi Hj Hij.
  { done. }
  destruct j as [|j]; [lia|]. destruct i as [|i]; cbn in Hi, Hj.
  - injection Hi as <-. rewrite Forall_lookup in Hz. by eapply Hz.
  - eapply IH; [done..|]. lia.
Qed.

Lemma sorted_key_inj l x y : sorted_by l → x ∈ l → y ∈ l → key x = key y → x = y.
Proof.
  intros Hs [i Hi]%list_elem_of_lookup [j Hj]%list_elem_of_lookup Hk.
  destruct (Nat.lt_trichotomy i j) as [H|[->|H]]; [|congruence|].
  - pose proof (sorted_lookup l i j x y Hs Hi Hj H). lia.
  - pose proof (sorted_lookup l j i y x Hs Hj Hi H). lia.
Qed.

Lemma sorted_keys_NoDup l : sorted_by l → NoDup (key <$> l).
Proof.
  induction l as [|x l IH]; cbn; [constructor|]. intros [Hs Hx]%StronglySorted_inv. apply NoDup_cons.
  split; [|by apply IH]. intros (y & Hy & Hin)%list_elem_of_fmap.
  pose proof (proj1 (Forall_forall _ _) Hx y Hin) as Hlt. cbn in Hlt. lia.
Qed.

Lemma bisect_sound fuel k low high l x :
  bisect key fuel k low high l = Some x → x ∈ l ∧ key x = k.
Proof.
  revert low high. induction fuel as [|fuel IH]; intros low high; cbn [bisect]; [done|].
  cbv zeta. destruct (low <? high)%nat; [|done]. destruct (l !! _) as [y|] eqn:E; [|done].
  destruct (key y =? k) eqn:Ek; [|destruct (key y <? k); apply IH].
  intros [= <-]. split; [by eapply list_elem_of_lookup_2|lia].
Qed.

Lemma bisect_complete fuel k low high l i x :
  sorted_by l → l !! i = Some x → key x = k → (low <= i < high)%nat → (high <= length l)%nat →
  (high - low < fuel)%nat → bisect key fuel k low high l = Some x.
Proof.
  intros Hs Hi Hk. revert low high. induction fuel as [|fuel IH]; intros low high Hin Hh Hf; [lia|].
  cbn [bisect]. rewrite (proj2 (Nat.ltb_lt low high)) by lia.
  set (m := (low + (high - low) / 2)%nat).
  assert (low <= m < high)%nat as Hm.
  { subst m. pose proof (Nat.div_lt (high - low) 2). lia. }
  destruct (l !! m) as [y|] eqn:Em; [|apply lookup_ge_None in Em; lia].
  destruct (key y =? k) eqn:Ek.
  { f_equal. apply (sorted_key_inj l); [done| | |lia]; by eapply list_elem_of_lookup_2. }
  destruct (key y <? k) eqn:El.
  - apply IH; [|lia..]. split; [|lia]. destruct (decide (i <= m)%nat) as [H|]; [exfalso|lia].
    destruct (decide (i = m)) as [->|]; [simplify_eq; lia|].
    pose proof (sorted_lookup l i m x y Hs Hi Em). lia.
  - apply IH; [|lia..]. split; [lia|]. destruct (decide (m <= i)%nat) as [H|]; [exfalso|lia].
    destruct (decide (i = m)) as [->|]; [simplify_eq; lia|].
    pose proof (sorted_lookup l m i y x Hs Em Hi). lia.
Qed.

(** Bisection over the whole array finds what a linear search finds. *)
Lemma bisect_find k l :
  sorted_by l → bisect key (S (length l)) k 0 (length l) l = List.find (λ x, key x =? k) l.
Proof.
  intros Hs. destruct (List.find _ l) as [x|] eqn:E.
  - apply List.find_some in E as [Hx Hk]. apply list_elem_of_In, list_elem_of_lookup in Hx as [i Hi].
    pose proof (lookup_lt_Some _ _ _ Hi). apply (bisect_complete _ _ _ _ _ i); [done..|lia| |lia|lia]. lia.
  - destruct (bisect _ _ _ _ _ _) as [x|] eqn:Eb; [exfalso|done].
    apply bisect_sound in Eb as [Hx Hk]. apply list_elem_of_In in Hx.
    pose proof (List.find_none _ _ E x Hx) as Hn. cbn in Hn. lia.
Qed.
End sorted.
