(* ===== verification/FileSystem.v ===== *)
(** * The file system

    Zephyr's file system calls as the services use them: the operations, and what their
    documentation promises of the contents seen at a path and of the contents that survive
    a reset. [traced] records the state after every call, for the properties of what a
    reset in the middle of an operation leaves. [mem_ops] is an implementation for
    evaluation. *)

From S2P Require Import Prelude Bytes.

Definition FS_O_READ : Z := 1.
Definition FS_O_WRITE : Z := 2.
Definition FS_O_CREATE : Z := 16.
Definition FS_O_APPEND : Z := 32.
Definition FS_O_TRUNC : Z := 64.

Definition FS_DIR_ENTRY_FILE : Z := 0.
Definition FS_DIR_ENTRY_DIR : Z := 1.

(** [struct fs_dirent]: the type and the size. *)
Record fs_dirent := { de_type : Z; de_size : Z }.

(** An open file is at a position of the file at a path. *)
Record fs_file_t := { file_path : list Z; file_offset : Z }.

Class FileOps (F : Type) := {
  kfsw_storage_is_ready : F → bool;
  kfsw_storage_free_bytes : F → Z * Z;
  fs_stat : list Z → F → Z * fs_dirent;
  fs_mkdir : list Z → F → Z * F;
  fs_unlink : list Z → F → Z * F;
  fs_rename : list Z → list Z → F → Z * F;
  fs_open : list Z → Z → F → Z * fs_file_t * F;
  fs_read : fs_file_t → Z → F → Z * list Z * fs_file_t * F;
  fs_write : fs_file_t → list Z → F → Z * fs_file_t * F;
  fs_sync : fs_file_t → F → Z * F;
  fs_close : fs_file_t → F → Z * F;
}.

(** What a path shows now, and what it shows after a reset. *)
Class FileView (F : Type) := {
  fs_file : F → list Z → option (list Z);
  fs_durable : F → list Z → option (list Z);
}.

Section views.
Context `{FV : FileView F}.
Implicit Types (f : F) (p q : list Z).

Definition same_at q f f' : Prop := fs_file f' q = fs_file f q ∧ fs_durable f' q = fs_durable f q.
(** Nothing but the file at [p] changed. *)
Definition only_at p f f' : Prop := ∀ q, q ≠ p → same_at q f f'.
Definition same_files f f' : Prop := ∀ q, same_at q f f'.

Lemma same_at_refl q f : same_at q f f.
Proof. done. Qed.
Lemma same_at_trans q f1 f2 f3 : same_at q f1 f2 → same_at q f2 f3 → same_at q f1 f3.
Proof. intros [? ?] [? ?]. split; congruence. Qed.
Lemma only_at_trans p f1 f2 f3 : only_at p f1 f2 → only_at p f2 f3 → only_at p f1 f3.
Proof. intros H1 H2 q Hq. eapply same_at_trans; [by apply H1|by apply H2]. Qed.
End views.

(** The calls touch the file they name; data reaches the storage by a sync, and a rename
    replaces its target at once. *)
Class FileLaws (F : Type) `{FO : FileOps F} `{FV : FileView F} := {
  mkdir_law p f : let '(rc, f') := fs_mkdir p f in same_files f f';
  unlink_law p f : let '(rc, f') := fs_unlink p f in
    only_at p f f' ∧ (rc = 0 → fs_file f' p = None);
  stat_law p f entry : fs_stat p f = (0, entry) → de_type entry = FS_DIR_ENTRY_FILE →
    ∃ c, fs_file f p = Some c ∧ de_size entry = zlen c;
  create_law p f : let '(rc, h, f') := fs_open p (FS_O_CREATE + FS_O_WRITE + FS_O_TRUNC) f in
    only_at p f f' ∧ (rc = 0 → h = {| file_path := p; file_offset := 0 |} ∧ fs_file f' p = Some []);
  open_read_law p f : let '(rc, h, f') := fs_open p FS_O_READ f in
    same_files f f' ∧ (rc = 0 → h = {| file_path := p; file_offset := 0 |});
  read_law h n f : 0 <= n → let '(k, data, h', f') := fs_read h n f in
    same_files f f' ∧ file_path h' = file_path h ∧ k <= n ∧
    (0 <= k → file_offset h' = file_offset h + k ∧
      ∃ c, fs_file f (file_path h) = Some c ∧ zlen data = k ∧
        data = take (Z.to_nat k) (drop (Z.to_nat (file_offset h)) c));
  write_law h data f : let '(k, h', f') := fs_write h data f in
    only_at (file_path h) f f' ∧ file_path h' = file_path h ∧ k <= zlen data ∧
    (0 <= k → file_offset h' = file_offset h + k ∧
      ∀ c, fs_file f (file_path h) = Some c → file_offset h = zlen c →
        fs_file f' (file_path h) = Some (c ++ take (Z.to_nat k) data));
  sync_law h f : let '(rc, f') := fs_sync h f in
    only_at (file_path h) f f' ∧ fs_file f' (file_path h) = fs_file f (file_path h) ∧
    (rc = 0 → fs_durable f' (file_path h) = fs_file f (file_path h));
  close_law h f : let '(rc, f') := fs_close h f in
    only_at (file_path h) f f' ∧ fs_file f' (file_path h) = fs_file f (file_path h) ∧
    (fs_durable f' (file_path h) = fs_durable f (file_path h) ∨
     fs_durable f' (file_path h) = fs_file f (file_path h));
  rename_law p q f : p ≠ q → let '(rc, f') := fs_rename p q f in
    (rc = 0 → fs_file f' q = fs_file f p ∧ fs_durable f' q = fs_durable f p ∧
      ∀ r, r ≠ p → r ≠ q → same_at r f f') ∧
    (rc ≠ 0 → same_files f f');
}.

(** ** Tracing

    The same calls, with the states they go through. *)
Definition logged {F} (f : F) (log : list F) : F * list F := (f, log ++ [f]).

#[export] Instance traced `{FO : FileOps F} : FileOps (F * list F) := {
  kfsw_storage_is_ready s := kfsw_storage_is_ready s.1;
  kfsw_storage_free_bytes s := kfsw_storage_free_bytes s.1;
  fs_stat p s := fs_stat p s.1;
  fs_mkdir p s := let '(rc, f) := fs_mkdir p s.1 in (rc, logged f s.2);
  fs_unlink p s := let '(rc, f) := fs_unlink p s.1 in (rc, logged f s.2);
  fs_rename p q s := let '(rc, f) := fs_rename p q s.1 in (rc, logged f s.2);
  fs_open p flags s := let '(rc, h, f) := fs_open p flags s.1 in (rc, h, logged f s.2);
  fs_read h n s := let '(k, data, h, f) := fs_read h n s.1 in (k, data, h, logged f s.2);
  fs_write h data s := let '(k, h, f) := fs_write h data s.1 in (k, h, logged f s.2);
  fs_sync h s := let '(rc, f) := fs_sync h s.1 in (rc, logged f s.2);
  fs_close h s := let '(rc, f) := fs_close h s.1 in (rc, logged f s.2);
}.

(** ** A file system in memory

    A map of files, in which a reset loses nothing. *)
Definition mem_write (h : fs_file_t) (data : list Z) (f : (gmap (list Z) (list Z))) : Z * fs_file_t * (gmap (list Z) (list Z)) :=
  match f !! file_path h with
  | Some c =>
      (zlen data, {| file_path := file_path h; file_offset := file_offset h + zlen data |},
       <[file_path h := buf_put (Z.to_nat (file_offset h)) data c]> f)
  | None => (- EIO, h, f)
  end.
Definition mem_read (h : fs_file_t) (n : Z) (f : (gmap (list Z) (list Z))) : Z * list Z * fs_file_t * (gmap (list Z) (list Z)) :=
  match f !! file_path h with
  | Some c =>
      let data := take (Z.to_nat n) (drop (Z.to_nat (file_offset h)) c) in
      (zlen data, data, {| file_path := file_path h; file_offset := file_offset h + zlen data |}, f)
  | None => (- EIO, [], h, f)
  end.
Definition mem_open (p : list Z) (flags : Z) (f : (gmap (list Z) (list Z))) : Z * fs_file_t * (gmap (list Z) (list Z)) :=
  let h := {| file_path := p; file_offset := 0 |} in
  if negb (Z.land flags FS_O_TRUNC =? 0) then (0, h, <[p := []]> f)
  else match f !! p with Some _ => (0, h, f) | None => (- ENOENT, h, f) end.

Definition mem_ops : FileOps (gmap (list Z) (list Z)) := {|
  kfsw_storage_is_ready f := true;
  kfsw_storage_free_bytes f := (0, 65536);
  fs_stat p f := match f !! p with
                 | Some c => (0, {| de_type := FS_DIR_ENTRY_FILE; de_size := zlen c |})
                 | None => (- ENOENT, {| de_type := 0; de_size := 0 |})
                 end;
  fs_mkdir p f := (0, f);
  fs_unlink p f := match f !! p with Some _ => (0, delete p f) | None => (- ENOENT, f) end;
  fs_rename p q f := match f !! p with
                     | Some c => (0, <[q := c]> (delete p f))
                     | None => (- ENOENT, f)
                     end;
  fs_open := mem_open; fs_read := mem_read; fs_write := mem_write;
  fs_sync h f := (0, f); fs_close h f := (0, f) |}.
Definition mem_view : FileView (gmap (list Z) (list Z)) := {|
  fs_file (f : (gmap (list Z) (list Z))) p := f !! p; fs_durable (f : (gmap (list Z) (list Z))) p := f !! p |}.

Section mem.
#[local] Existing Instance mem_ops.
#[local] Existing Instance mem_view.
Implicit Types (f : (gmap (list Z) (list Z))) (p : list Z).

Lemma mem_only p v f : only_at p f (<[p := v]> f).
Proof. intros q Hq. split; cbn; by rewrite lookup_insert_ne. Qed.
Lemma mem_only_delete p f : only_at p f (delete p f).
Proof. intros q Hq. split; cbn; by rewrite lookup_delete_ne. Qed.
Lemma mem_only_refl p f : only_at p f f.
Proof. by intros q _. Qed.
End mem.

#[program] Definition mem_laws : @FileLaws (gmap (list Z) (list Z)) mem_ops mem_view := {| mkdir_law p f := _ |}.
Next Obligation. done. Qed.
Next Obligation.
  intros p f. cbn. destruct (f !! p) eqn:E; [|by split; [apply mem_only_refl|]].
  split; [apply mem_only_delete|intros _]. cbn. apply lookup_delete_eq.
Qed.
Next Obligation. intros p f entry. cbn. destruct (f !! p) eqn:E; intros [= <-]; cbn; eauto. Qed.
Next Obligation.
  intros p f. cbn. split; [apply mem_only|intros _]. split; [done|]. cbn. apply lookup_insert_eq.
Qed.
Next Obligation. intros p f. cbn. unfold mem_open. cbn. destruct (f !! p); by split. Qed.
Next Obligation.
  intros h n f Hn. cbn. unfold mem_read. destruct (f !! file_path h) as [c|] eqn:E.
  - split; [done|]. split; [done|]. split; [unfold zlen; rewrite length_take; lia|]. intros _. split; [done|].
    exists c. split_and!; [done|done|]. unfold zlen. rewrite Nat2Z.id. symmetry.
    set (d := drop _ c). rewrite length_take. destruct (decide (Z.to_nat n <= length d)%nat).
    + by rewrite Nat.min_l by lia.
    + rewrite Nat.min_r by lia. by rewrite !take_ge by lia.
  - split; [done|]. split; [done|]. split; [unfold EIO; lia|]. unfold EIO. lia.
Qed.
Next Obligation.
  intros h data f. cbn. unfold mem_write. destruct (f !! file_path h) as [c|] eqn:E.
  - split; [apply mem_only|]. split; [done|]. split; [lia|]. intros _. split; [done|]. intros c' Hc' Ho.
    injection Hc' as <-. rewrite lookup_insert_eq. f_equal. unfold buf_put, zlen in *.
    rewrite Ho, !Nat2Z.id, !take_ge by lia. rewrite drop_ge by lia. by rewrite app_nil_r.
  - split; [apply mem_only_refl|]. split; [done|]. split; [pose proof (zlen_nonneg data); unfold EIO; lia|]. unfold EIO. lia.
Qed.
Next Obligation. intros h f. cbn. split; [apply mem_only_refl|done]. Qed.
Next Obligation. intros h f. cbn. split; [apply mem_only_refl|]. split; [done|by left]. Qed.
Next Obligation.
  intros p q f Hpq. cbn. destruct (f !! p) as [c|] eqn:E; [|done]. split; [intros _|done].
  cbn. rewrite lookup_insert_eq. split_and!; [done|done|]. intros r Hp Hq. split; cbn;
    by rewrite lookup_insert_ne, lookup_delete_ne.
Qed.

(** ** Reading a file

    A read may answer less than it was asked for, so the services read in a loop; an end of
    file that comes early is answered as [short]. [size - offset] bytes are left to read, and
    a read answers at least one of them, so their number bounds the turns. *)
Section reading.
Context {F : Type} `{FO : FileOps F}.

Fixpoint read_up_to (short : Z) (fuel : nat) (file : fs_file_t) (data : list Z) (offset size : Z) (f : F)
    : Z * list Z * fs_file_t * F :=
  match fuel with
  | O => (short, data, file, f)
  | S fuel =>
      if negb (offset <? size) then (0, data, file, f)
      else
        let '(bytes_read, bytes, file, f) := fs_read file (size - offset) f in
        if bytes_read <? 0 then (bytes_read, data, file, f)
        else if bytes_read =? 0 then (short, data, file, f)
        else read_up_to short fuel file (buf_put (Z.to_nat offset) bytes data) (offset + bytes_read) size f
  end.

(** More fuel than bytes to read changes nothing. *)
Lemma read_up_to_fuel short n m h data offset size f :
  Z.max 0 (size - offset) < Z.of_nat n → Z.max 0 (size - offset) < Z.of_nat m →
  read_up_to short n h data offset size f = read_up_to short m h data offset size f.
Proof.
  revert m h data offset f. induction n as [|n IH]; intros [|m] h data offset f Hn Hm; cbn [read_up_to]; [lia..|].
  destruct (negb (offset <? size)) eqn:E; [done|].
  destruct (fs_read h (size - offset) f) as [[[k bs] h'] f']. destruct (k <? 0) eqn:E1; [done|].
  destruct (k =? 0) eqn:E2; [done|]. apply IH; lia.
Qed.
End reading.

Section reading_laws.
Context {F : Type} `{FL : FileLaws F}.

(** Reading to the end gives the contents of the file. *)
Lemma read_up_to_spec short n h data offset size (f : F) c data' h' f' :
  fs_file f (file_path h) = Some c → zlen c = size → file_offset h = offset → 0 <= offset <= size →
  size <= zlen data → short ≠ 0 → read_up_to short n h data offset size f = (0, data', h', f') →
  same_files f f' ∧ file_path h' = file_path h ∧ length data' = length data ∧
  take (Z.to_nat size) data' = take (Z.to_nat offset) data ++ drop (Z.to_nat offset) c.
Proof.
  intros Hc Hsize. revert h data offset f Hc.
  induction n as [|n IH]; intros h data offset f Hc Ho Hr Hd Hshort H; cbn [read_up_to] in H; [by injection H as ->|].
  destruct (negb (offset <? size)) eqn:E.
  { injection H as <- <- <-. split_and!; [by intros q|done|done|]. replace offset with size by lia.
    rewrite (drop_ge c), app_nil_r by (unfold zlen in *; lia). done. }
  pose proof (read_law h (size - offset) f ltac:(lia)) as Hlaw.
  destruct (fs_read h (size - offset) f) as [[[k bs] h1] f1]. destruct Hlaw as (Hsame & Hp & Hk & Hread).
  destruct (k <? 0) eqn:E1; [injection H as -> _ _ _; lia|]. destruct (k =? 0) eqn:E2; [by injection H as ->|].
  destruct (Hread ltac:(lia)) as (Ho1 & c' & Hc' & Hlen & Hbs). rewrite Hc in Hc'. injection Hc' as <-.
  assert (length (buf_put (Z.to_nat offset) bs data) = length data) as Hl1.
  { apply length_buf_put. unfold zlen in *. lia. }
  apply IH in H as (Hs' & Hp' & Hl' & Htake);
    [|by rewrite Hp; destruct (Hsame (file_path h)) as [-> _]|lia|lia|unfold zlen in *; lia|done].
  split_and!; [by intros q; eapply same_at_trans|congruence|congruence|]. rewrite Htake. unfold buf_put.
  rewrite Ho in Hbs. replace (Z.to_nat (offset + k)) with (Z.to_nat offset + length bs)%nat by (unfold zlen in *; lia).
  rewrite app_assoc, take_app_length' by (rewrite length_app, length_take; unfold zlen in *; lia).
  rewrite <- app_assoc. f_equal. rewrite <- drop_drop.
  rewrite <- (take_drop (Z.to_nat k) (drop (Z.to_nat offset) c)) at 2. rewrite <- Hbs. f_equal. f_equal.
  unfold zlen in *. lia.
Qed.
End reading_laws.
