(* ===== verification/SnapshotFile.v ===== *)
(** * Atomic file replacement ([src/snapshot_file.c])

    The contents go to a temporary file, which is synced, closed and renamed over the
    target. Whatever call a reset comes after, the target shows its old contents or the
    new ones. *)

From S2P Require Import Prelude Bytes FileSystem.

Section snapshot_file.
Context {F : Type} `{FO : FileOps F}.
Implicit Types (f : F) (h : fs_file_t) (data : list Z).

(** [data] is what is left to write: a call writes a part of it, so its length bounds
    the turns. *)
Fixpoint write_all (fuel : nat) h data f : Z * fs_file_t * F :=
  match fuel with
  | O => (- EIO, h, f)
  | S fuel =>
      match data with
      | [] => (0, h, f)
      | _ =>
          let '(written, h, f) := fs_write h data f in
          if written <? 0 then (written, h, f)
          else if written =? 0 then (- EIO, h, f)
          else write_all fuel h (drop (Z.to_nat written) data) f
      end
  end.

(** The temporary file is written, synced and closed. *)
Definition fill_temporary (file : fs_file_t) (content : list Z) f : Z * F :=
  let '(result, file, f) := write_all (S (length content)) file content f in
  let '(result, f) := if result =? 0 then fs_sync file f else (result, f) in
  let '(close_result, f) := fs_close file f in
  (if result =? 0 then close_result else result, f).

(** It replaces the target, or is removed. *)
Definition replace_target (path temporary_path : list Z) (result : Z) f : Z * F :=
  if negb (result =? 0) then
    let '(_, f) := fs_unlink temporary_path f in (result, f)
  else
    let '(result, f) := fs_rename temporary_path path f in
    if negb (result =? 0) then let '(_, f) := fs_unlink temporary_path f in (result, f)
    else (result, f).

Definition kfsw_snapshot_write (path temporary_path data : option (list Z)) (size : Z) f : Z * F :=
  match path, temporary_path, data with
  | Some path, Some temporary_path, Some data =>
      if negb (kfsw_storage_is_ready f) then (- ENODEV, f)
      else
        let '(_, f) := fs_unlink temporary_path f in
        let '(result, file, f) := fs_open temporary_path (FS_O_CREATE + FS_O_WRITE + FS_O_TRUNC) f in
        if negb (result =? 0) then (result, f)
        else
          let '(result, f) := fill_temporary file (take (Z.to_nat size) data) f in
          replace_target path temporary_path result f
  | _, _, _ => (- EINVAL, f)
  end.

(** More fuel than the data has bytes changes nothing. *)
Lemma write_all_fuel n m h data f :
  (length data < n)%nat → (length data < m)%nat → write_all n h data f = write_all m h data f.
Proof.
  revert m h data f. induction n as [|n IH]; intros [|m] h data f Hn Hm; [lia..|]. cbn [write_all].
  destruct data as [|b data]; [done|]. destruct (fs_write h (b :: data) f) as [[written h'] f'].
  destruct (written <? 0) eqn:E1; [done|]. destruct (written =? 0) eqn:E2; [done|].
  apply IH; rewrite length_drop; cbn [length] in *; lia.
Qed.
End snapshot_file.

(** ** What a reset leaves *)

Section atomic.
Context {F : Type} `{FL : FileLaws F}.
Implicit Types (f g : F) (h : fs_file_t) (data : list Z) (log : list F).

(** The states of a log after [f] differ from it at [p] only. *)
Definition steps_at p f log log' : Prop := ∃ steps, log' = log ++ steps ∧ Forall (only_at p f) steps.

Lemma steps_at_nil p f log : steps_at p f log log.
Proof. exists []. by rewrite app_nil_r. Qed.
Lemma steps_at_snoc p f f1 f2 log log' :
  only_at p f f1 → only_at p f1 f2 → steps_at p f log log' → steps_at p f log (logged f2 log').2.
Proof.
  intros H1 H2 (steps & -> & Hs). exists (steps ++ [f2]). cbn. rewrite app_assoc. split; [done|].
  apply Forall_app. split; [done|]. constructor; [|done]. by eapply only_at_trans.
Qed.
Lemma steps_at_trans p f f1 log log1 log2 :
  only_at p f f1 → steps_at p f log log1 → steps_at p f1 log1 log2 → steps_at p f log log2.
Proof.
  intros H (s1 & -> & H1) (s2 & -> & H2). exists (s1 ++ s2). rewrite app_assoc. split; [done|].
  apply Forall_app. split; [done|]. eapply Forall_impl; [exact H2|]. intros g Hg. by eapply only_at_trans.
Qed.

Lemma write_all_traced fuel h data f log rc h' f' log' :
  write_all fuel h data (f, log) = (rc, h', (f', log')) →
  write_all fuel h data f = (rc, h', f') ∧ steps_at (file_path h) f log log' ∧
  only_at (file_path h) f f' ∧ file_path h' = file_path h ∧
  (rc = 0 → ∀ c, fs_file f (file_path h) = Some c → file_offset h = zlen c →
     fs_file f' (file_path h) = Some (c ++ data)).
Proof.
  revert h data f log. induction fuel as [|fuel IH]; intros h data f log H; cbn [write_all] in *.
  { injection H as <- <- <- <-. split_and!; [done|apply steps_at_nil|by intros q _|done|done]. }
  destruct data as [|b data].
  { injection H as <- <- <- <-. split_and!; [done|apply steps_at_nil|by intros q _|done|].
    intros _ c Hc _. by rewrite app_nil_r. }
  cbn [fs_write traced fst snd] in H. pose proof (write_law h (b :: data) f) as Hw.
  destruct (fs_write h (b :: data) f) as [[k h1] f1]. destruct Hw as (Ho & Hp & Hk & Hok).
  assert (steps_at (file_path h) f log (logged f1 log).2) as Hlog.
  { apply (steps_at_snoc _ _ f); [by intros q _|done|apply steps_at_nil]. }
  destruct (k <? 0) eqn:E1.
  { injection H as <- <- <- <-. split_and!; [done|done|done|done|lia]. }
  destruct (k =? 0) eqn:E2.
  { injection H as <- <- <- <-. split_and!; [done|done|done|done|done]. }
  apply IH in H as (Hrun & Hlog' & Ho' & Hp' & Hc'). rewrite Hp in *. split_and!; [done| | |done|].
  - by eapply steps_at_trans.
  - by eapply only_at_trans.
  - intros Hrc c Hc Hoff. destruct (Hok ltac:(lia)) as [Hoff1 Hc1].
    rewrite (Hc' Hrc (c ++ take (Z.to_nat k) (b :: data))); [by rewrite <- app_assoc, take_drop|by apply Hc1|].
    rewrite Hoff1, zlen_app, Hoff. f_equal. unfold zlen in *. rewrite length_take. lia.
Qed.

(** The target as the run found it, or with the new contents. *)
Definition old_or_new p content f g : Prop :=
  same_at p f g ∨ (fs_file g p = Some content ∧ fs_durable g p = Some content).

Lemma steps_safe p q content f log log' :
  p ≠ q → steps_at q f log log' → Forall (old_or_new p content f) log → Forall (old_or_new p content f) log'.
Proof.
  intros Hpq (steps & -> & Hs) Hl. apply Forall_app. split; [done|].
  eapply Forall_impl; [exact Hs|]. intros g Hg. left. by apply Hg.
Qed.

Lemma fill_traced h content f log rc f' log' :
  fill_temporary h content (f, log) = (rc, (f', log')) →
  fs_file f (file_path h) = Some [] → file_offset h = 0 →
  fill_temporary h content f = (rc, f') ∧ steps_at (file_path h) f log log' ∧
  only_at (file_path h) f f' ∧
  (rc = 0 → fs_file f' (file_path h) = Some content ∧ fs_durable f' (file_path h) = Some content).
Proof.
  intros H Hf Ho. unfold fill_temporary in *.
  destruct (write_all _ h content (f, log)) as [[rc1 h1] [f1 log1]] eqn:E1.
  apply write_all_traced in E1 as (-> & Hs1 & Ho1 & Hp1 & Hc1).
  destruct (rc1 =? 0) eqn:Erc.
  - cbn [fs_sync fs_close traced fst snd] in H.
    specialize (Hc1 ltac:(lia) [] Hf ltac:(by rewrite Ho)). rewrite <- Hp1 in *.
    pose proof (sync_law h1 f1) as Hsync. destruct (fs_sync h1 f1) as [rc2 f2].
    destruct Hsync as (Ho2 & Hc2 & Hd2). cbn [logged fst snd] in H.
    pose proof (close_law h1 f2) as Hclose. destruct (fs_close h1 f2) as [rc3 f3].
    destruct Hclose as (Ho3 & Hc3 & Hd3). injection H as <- <- <-.
    assert (only_at (file_path h1) f f2) as Ho12 by (by eapply only_at_trans). split_and!.
    + destruct (rc2 =? 0); reflexivity.
    + apply (steps_at_snoc _ f f2 f3 _ (logged f2 log1).2); [done|done|]. by apply (steps_at_snoc _ f f1 f2).
    + by eapply only_at_trans.
    + destruct (rc2 =? 0) eqn:E2; [|lia]. intros _. cbn [app] in Hc1. rewrite Hc3, Hc2, Hc1. split; [done|].
      destruct Hd3 as [-> | ->]; [rewrite Hd2 by lia; done|congruence].
  - cbn [fs_close traced fst snd] in H. rewrite <- Hp1 in *.
    pose proof (close_law h1 f1) as Hclose. destruct (fs_close h1 f1) as [rc3 f3].
    destruct Hclose as (Ho3 & _). injection H as <- <- <-. rewrite Erc in *. split_and!; [done| | |lia].
    + by apply (steps_at_snoc _ f f1 f3).
    + by eapply only_at_trans.
Qed.

Lemma replace_traced p q content f0 f log result rc f' log' :
  p ≠ q → only_at q f0 f → Forall (old_or_new p content f0) log →
  (result = 0 → fs_file f q = Some content ∧ fs_durable f q = Some content) →
  replace_target p q result (f, log) = (rc, (f', log')) →
  replace_target p q result f = (rc, f') ∧ Forall (old_or_new p content f0) log' ∧
  (rc = 0 → fs_file f' p = Some content ∧ fs_durable f' p = Some content) ∧
  (rc ≠ 0 → same_at p f0 f') ∧ (∀ r, r ≠ p → r ≠ q → same_at r f0 f').
Proof.
  intros Hpq H0 Hlog Hres H. unfold replace_target in *.
  assert (∀ g, only_at q f0 g → Forall (old_or_new p content f0) (log ++ [g])) as Hgood.
  { intros g Hg. apply Forall_app. split; [done|]. constructor; [|done]. left. by apply Hg. }
  destruct (result =? 0) eqn:Er; cbn [negb] in *.
  2: { cbn [fs_unlink traced fst snd] in H. pose proof (unlink_law q f) as Hu.
       destruct (fs_unlink q f) as [rc1 f1]. destruct Hu as (Hu & _). injection H as <- <- <-.
       assert (only_at q f0 f1) as Ho by (by eapply only_at_trans).
       split_and!; [done|by apply Hgood|lia|intros _; by apply Ho|intros r _ Hr; by apply Ho]. }
  destruct (Hres ltac:(lia)) as [Hq Hqd]. cbn [fs_rename traced fst snd] in H.
  pose proof (rename_law q p f ltac:(done)) as Hr. destruct (fs_rename q p f) as [rc1 f1].
  destruct Hr as [Hr0 Hr1]. destruct (rc1 =? 0) eqn:E1; cbn [negb] in *.
  - injection H as <- <- <-. destruct (Hr0 ltac:(lia)) as (Hp & Hpd & Hrest). rewrite Hq in Hp. rewrite Hqd in Hpd.
    split_and!; [done| |done|lia|].
    + apply Forall_app. split; [done|]. constructor; [by right|done].
    + intros r Hrp Hrq. eapply same_at_trans; [by apply H0|by apply Hrest].
  - specialize (Hr1 ltac:(lia)). cbn [fs_unlink traced logged fst snd] in H. pose proof (unlink_law q f1) as Hu.
    destruct (fs_unlink q f1) as [rc2 f2]. destruct Hu as (Hu & _). injection H as <- <- <-.
    assert (only_at q f0 f1) as Ho1 by (eapply only_at_trans; [exact H0|]; by intros r _).
    assert (only_at q f0 f2) as Ho2 by (by eapply only_at_trans).
    split_and!; [done| |lia|intros _; by apply Ho2|intros r _ Hr; by apply Ho2].
    apply Forall_app. split; [by apply Hgood|]. constructor; [|done]. left. by apply Ho2.
Qed.

Lemma snapshot_traced p q data size f rc f' log :
  p ≠ q → kfsw_snapshot_write (Some p) (Some q) (Some data) size (f, []) = (rc, (f', log)) →
  let content := take (Z.to_nat size) data in
  kfsw_snapshot_write (Some p) (Some q) (Some data) size f = (rc, f') ∧
  Forall (old_or_new p content f) log ∧
  (rc = 0 → fs_file f' p = Some content ∧ fs_durable f' p = Some content) ∧
  (rc ≠ 0 → same_at p f f') ∧ (∀ r, r ≠ p → r ≠ q → same_at r f f').
Proof.
  intros Hpq H content. unfold kfsw_snapshot_write in *.
  cbn [kfsw_storage_is_ready fs_unlink fs_open traced fst snd] in H. destruct (negb (kfsw_storage_is_ready f)).
  { injection H as <- <- <-. split_and!; [done|done|done|done|by intros r _ _]. }
  pose proof (unlink_law q f) as Hu. destruct (fs_unlink q f) as [rc1 f1]. destruct Hu as (Hu & _).
  cbn [logged fst snd] in H.
  pose proof (create_law q f1) as Ho. destruct (fs_open q _ f1) as [[rc2 h] f2]. destruct Ho as (Ho & Hh).
  assert (only_at q f f2) as Ho2 by (by eapply only_at_trans).
  assert (steps_at q f [] (logged f2 (logged f1 []).2).2) as Hs2.
  { apply (steps_at_snoc q f f1 f2); [done|done|]. apply (steps_at_snoc q f f f1); [by intros r _|done|apply steps_at_nil]. }
  destruct (rc2 =? 0) eqn:E2; cbn [negb] in *.
  2: { injection H as <- <- <-. split_and!; [done| |lia|intros _; by apply Ho2|intros r _ Hr; by apply Ho2].
       eapply (steps_safe p q); [done|exact Hs2|done]. }
  destruct (Hh ltac:(lia)) as [-> Hempty].
  destruct (fill_temporary _ _ _) as [rc3 [f3 log3]] eqn:E3.
  apply fill_traced in E3 as (-> & Hs3 & Ho3 & Hc3); [|done|done]. cbn [file_path] in *.
  apply (replace_traced p q content f) in H; [done|done|by eapply only_at_trans| |done].
  eapply (steps_safe p q content f []); [done| |by apply Forall_nil].
  by eapply steps_at_trans.
Qed.

(** The same without the log. *)
Lemma snapshot_run p q data size f rc f' :
  p ≠ q → kfsw_snapshot_write (Some p) (Some q) (Some data) size f = (rc, f') →
  let content := take (Z.to_nat size) data in
  (rc = 0 → fs_file f' p = Some content ∧ fs_durable f' p = Some content) ∧
  (rc ≠ 0 → same_at p f f') ∧ (∀ r, r ≠ p → r ≠ q → same_at r f f').
Proof.
  intros Hpq H. destruct (kfsw_snapshot_write (Some p) (Some q) (Some data) size (f, [])) as [rc' [f'' log]] eqn:E.
  apply snapshot_traced in E as (Hrun & _ & Hrest); [|done]. rewrite H in Hrun. by injection Hrun as <- <-.
Qed.
End atomic.

Section snapshot_properties.
Context {F : Type} `{FL : FileLaws F}.

(** C19: Whatever call of a replacement a reset comes after, the target shows its old contents or
    the new ones, in the file system and on the storage; a replacement that answers 0 has put
    the new contents there, one that fails has left the old, and no other file changed but the
    temporary one. *)
Theorem snapshot_write_atomic (p q data : list Z) size (f f' : F) rc log :
  p ≠ q → kfsw_snapshot_write (Some p) (Some q) (Some data) size (f, []) = (rc, (f', log)) →
  let content := take (Z.to_nat size) data in
  kfsw_snapshot_write (Some p) (Some q) (Some data) size f = (rc, f') ∧
  Forall (old_or_new p content f) log ∧
  (rc = 0 → fs_file f' p = Some content ∧ fs_durable f' p = Some content) ∧
  (rc ≠ 0 → same_at p f f') ∧ (∀ r, r ≠ p → r ≠ q → same_at r f f').
Proof. apply snapshot_traced. Qed.
End snapshot_properties.

Section snapshot_witness.
#[local] Existing Instance mem_ops.
#[local] Existing Instance mem_view.
#[local] Existing Instance mem_laws.

Lemma snapshot_write_atomic_witness :
  ∃ f', kfsw_snapshot_write (Some (cstr "a")) (Some (cstr "b")) (Some [1; 2; 3]) 2
      (<[cstr "a" := [9]]> ∅ : gmap (list Z) (list Z)) = (0, f') ∧ fs_file f' (cstr "a") = Some [1; 2].
Proof.
  destruct (kfsw_snapshot_write (Some (cstr "a")) (Some (cstr "b")) (Some [1; 2; 3]) 2
      ((<[cstr "a" := [9]]> ∅ : gmap (list Z) (list Z)), [])) as [rc [f' log]] eqn:E.
  assert (rc = 0) as ->.
  { assert ((kfsw_snapshot_write (Some (cstr "a")) (Some (cstr "b")) (Some [1; 2; 3]) 2
      ((<[cstr "a" := [9]]> ∅ : gmap (list Z) (list Z)), [])).1 = 0) as E0 by (vm_compute; reflexivity).
    rewrite E in E0. exact E0. }
  destruct (snapshot_write_atomic (cstr "a") (cstr "b") [1; 2; 3] 2 _ f' 0 log ltac:(vm_compute; discriminate) E)
    as (Hrun & _ & H & _).
  exists f'. split; [exact Hrun|]. apply H. reflexivity.
Defined.
End snapshot_witness.
