(* ===== verification/Ring.v ===== *)
(** * Circular arrays

    Several components keep a bounded history in a fixed array with the index of
    its oldest element and a count. This file relates such an array to the list
    it stands for, oldest first. *)

From S2P Require Import Prelude Bytes.

Section ring.
Context {A : Type} `{!Inhabited A}.
Implicit Types (ring : list A) (o h i : Z) (x : A).

(** [ring[i]] and [ring[i] = x]. *)
Definition ring_at ring i : A := ring !!! Z.to_nat i.
Definition ring_set ring i x : list A := <[Z.to_nat i := x]> ring.

(** The list a circular array stands for. *)
Definition ring_view ring o h : list A :=
  (λ i : nat, ring_at ring ((o + Z.of_nat i) mod zlen ring)) <$> seq 0 (Z.to_nat h).

(** The abstract operation: append, dropping the oldest of a full history. *)
Definition push_bounded (n : nat) (l : list A) x : list A :=
  (if (length l <? n)%nat then l else tail l) ++ [x].

Lemma length_tail (l : list A) : length (tail l) = pred (length l).
Proof. by destruct l. Qed.

Lemma zlen_ring_set ring i x : zlen (ring_set ring i x) = zlen ring.
Proof. unfold zlen, ring_set. by rewrite length_insert. Qed.

Lemma mod_wrap n z : 0 <= z < 2 * n → z mod n = if z <? n then z else z - n.
Proof.
  intros H. case_match.
  - apply Z.mod_small. lia.
  - symmetry. apply (Z.mod_unique_pos _ _ 1); lia.
Qed.

Lemma ring_index_inj n o a b :
  0 <= o < n → 0 <= a < n → 0 <= b < n → (o + a) mod n = (o + b) mod n → a = b.
Proof. intros. rewrite !mod_wrap in * by lia. repeat case_match; lia. Qed.

Lemma ring_index_range n z : 0 < n → 0 <= z mod n < n.
Proof. apply Z.mod_pos_bound. Qed.

Lemma ring_at_set_eq ring i x : 0 <= i < zlen ring → ring_at (ring_set ring i x) i = x.
Proof. intros. unfold ring_at, ring_set. apply list_lookup_total_insert_eq. unfold zlen in *. lia. Qed.
Lemma ring_at_set_ne ring i j x :
  0 <= i → 0 <= j → i ≠ j → ring_at (ring_set ring i x) j = ring_at ring j.
Proof. intros. unfold ring_at, ring_set. apply list_lookup_total_insert_ne. lia. Qed.

Lemma length_ring_view ring o h : length (ring_view ring o h) = Z.to_nat h.
Proof. unfold ring_view. by rewrite length_fmap, length_seq. Qed.

Lemma ring_view_lookup ring o h (i : nat) :
  Z.of_nat i < h →
  ring_view ring o h !! i = Some (ring_at ring ((o + Z.of_nat i) mod zlen ring)).
Proof. intros. unfold ring_view. rewrite list_lookup_fmap, lookup_seq_lt by lia. done. Qed.

Lemma length_push_bounded (n : nat) (l : list A) x :
  (0 < n)%nat → (length l <= n)%nat → (length (push_bounded n l x) <= n)%nat.
Proof.
  intros. unfold push_bounded. case_match eqn:E; rewrite length_app, ?length_tail; simpl.
  - apply Nat.ltb_lt in E. lia.
  - apply Nat.ltb_ge in E. lia.
Qed.

Lemma ring_view_nil ring o : ring_view ring o 0 = [].
Proof. done. Qed.

(** Writing behind the view leaves it alone. *)
Lemma ring_view_set_outside ring o h (k : nat) i x :
  0 <= o < zlen ring → 0 <= i < zlen ring → h <= i →
  (λ j : nat, ring_at (ring_set ring ((o + i) mod zlen ring) x)
                      ((o + Z.of_nat j) mod zlen ring)) <$> seq k (Z.to_nat h - k) =
  (λ j : nat, ring_at ring ((o + Z.of_nat j) mod zlen ring)) <$> seq k (Z.to_nat h - k).
Proof.
  intros Ho Hi Hh. apply list_fmap_ext. intros j m Hm.
  apply lookup_seq in Hm as [-> Hm].
  apply ring_at_set_ne; [apply ring_index_range; lia..|].
  intros E. apply ring_index_inj in E; lia.
Qed.

Lemma ring_push_room ring o h x :
  0 <= o < zlen ring → 0 <= h < zlen ring →
  ring_view (ring_set ring ((o + h) mod zlen ring) x) o (h + 1) = ring_view ring o h ++ [x].
Proof.
  intros Ho Hh. unfold ring_view.
  replace (Z.to_nat (h + 1)) with (S (Z.to_nat h)) by lia.
  rewrite seq_S, fmap_app, zlen_ring_set. f_equal.
  - pose proof (ring_view_set_outside ring o h 0 h x) as E. rewrite Nat.sub_0_r in E.
    apply E; lia.
  - simpl. rewrite Z2Nat.id, ring_at_set_eq; [done|apply ring_index_range; lia|lia].
Qed.

Lemma ring_push_full ring o x :
  0 <= o < zlen ring →
  ring_view (ring_set ring ((o + zlen ring) mod zlen ring) x) ((o + 1) mod zlen ring) (zlen ring) =
  tail (ring_view ring o (zlen ring)) ++ [x].
Proof.
  intros Ho. unfold ring_view. rewrite zlen_ring_set.
  assert (Z.to_nat (zlen ring) = S (Z.to_nat (zlen ring) - 1)) as -> by lia.
  set (m := (Z.to_nat (zlen ring) - 1)%nat).
  rewrite seq_S at 1. rewrite fmap_app, <- cons_seq. f_equal.
  - rewrite fmap_cons. cbn [tail]. rewrite <- (fmap_S_seq 0 m), <- list_fmap_compose. apply list_fmap_ext.
    intros j ? [-> Hj]%lookup_seq. cbn.
    rewrite Z.add_mod_idemp_l by lia. replace (o + 1 + Z.of_nat j) with (o + Z.of_nat (S j)) by lia.
    apply ring_at_set_ne; [apply ring_index_range; lia..|].
    intros E. replace (o + zlen ring) with (o + 0 + 1 * zlen ring) in E by lia.
    rewrite Z.mod_add in E by lia. apply ring_index_inj in E; lia.
  - cbn. f_equal. rewrite Z.add_mod_idemp_l by lia.
    replace (o + 1 + Z.of_nat m) with (o + zlen ring) by lia.
    apply ring_at_set_eq. apply ring_index_range. lia.
Qed.
End ring.
