(* ===== verification/Event.v ===== *)
(** * Event record ([src/event/event.c], [include/kfsw/services/event.h])

    A fixed ring of numeric records. Each operation runs under one spinlock, so it
    is one atomic step on [event_state]. The tick counter is an argument, and the
    copy handed to the journal is a result. *)

From S2P Require Import Prelude Bytes Ring.

(** [CONFIG_KFSW_EVENT_RING_DEPTH] and its Kconfig range. *)
Class EventConfig := {
  EVENT_RING_DEPTH : Z;
  EVENT_RING_DEPTH_range : 8 <= EVENT_RING_DEPTH <= 256;
}.
#[program] Definition event_config_default : EventConfig := {| EVENT_RING_DEPTH := 32 |}.
Next Obligation. lia. Qed.

Definition KFSW_EVENT_SOURCE_BOOT : Z := 1.
Definition KFSW_EVENT_SOURCE_COMMAND : Z := 2.
Definition KFSW_EVENT_SOURCE_FTP : Z := 3.
Definition KFSW_EVENT_SOURCE_APP : Z := 4.
Definition KFSW_EVENT_SOURCE_FBO : Z := 5.
Definition KFSW_EVENT_SOURCE_GNDWDT : Z := 6.
Definition KFSW_EVENT_SOURCE_RESMON : Z := 7.
Definition KFSW_EVENT_SOURCE_TABLE : Z := 8.
Definition KFSW_EVENT_SOURCE_SCRUB : Z := 9.
Definition KFSW_EVENT_SOURCE_LIMITS : Z := 10.

Definition KFSW_EVENT_INFO : Z := 0.
Definition KFSW_EVENT_WARNING : Z := 1.
Definition KFSW_EVENT_ERROR : Z := 2.
Definition KFSW_EVENT_CRITICAL : Z := 3.

Definition KFSW_EVENT_MAX_PAYLOAD_SIZE : Z := 16.

Record kfsw_event_record := {
  ev_monotonic_us : Z;
  ev_sequence : Z;
  ev_source : Z;
  ev_id : Z;
  ev_severity : Z;
  ev_payload_size : Z;
  ev_payload : list Z;
}.
#[export] Instance kfsw_event_record_inhabited : Inhabited kfsw_event_record :=
  populate (Build_kfsw_event_record 0 0 0 0 0 0 (replicate 16 0)).

(** The static objects of the file. *)
Record event_state := {
  ring : list kfsw_event_record;
  next_sequence : Z;
  recorded_count : Z;
  rejected_count : Z;
  overwritten_count : Z;
  held_count : Z;
  oldest_index : Z;
}.

Record kfsw_event_stats := {
  es_recorded : Z; es_rejected : Z; es_overwritten : Z; es_held : Z; es_capacity : Z;
}.

Definition source_is_known (source : Z) : bool :=
  (source =? KFSW_EVENT_SOURCE_BOOT) || (source =? KFSW_EVENT_SOURCE_COMMAND)
  || (source =? KFSW_EVENT_SOURCE_FTP) || (source =? KFSW_EVENT_SOURCE_APP)
  || (source =? KFSW_EVENT_SOURCE_FBO) || (source =? KFSW_EVENT_SOURCE_GNDWDT)
  || (source =? KFSW_EVENT_SOURCE_RESMON).

(** The guard of [kfsw_event_emit]; a [NULL] payload is [None]. *)
Definition event_refused (source severity : Z) (payload : option (list Z)) (size : Z) : bool :=
  negb (source_is_known source) || (severity <? KFSW_EVENT_INFO)
  || (severity >? KFSW_EVENT_CRITICAL) || (size >? KFSW_EVENT_MAX_PAYLOAD_SIZE)
  || (negb (size =? 0) && bool_decide (payload = None)).

Definition kfsw_event_severity_name (severity : Z) : string :=
  if severity =? KFSW_EVENT_INFO then "info"
  else if severity =? KFSW_EVENT_WARNING then "warning"
  else if severity =? KFSW_EVENT_ERROR then "error"
  else if severity =? KFSW_EVENT_CRITICAL then "critical"
  else "unknown".

Definition kfsw_event_source_name (source : Z) : string :=
  if source =? KFSW_EVENT_SOURCE_BOOT then "boot"
  else if source =? KFSW_EVENT_SOURCE_COMMAND then "command"
  else if source =? KFSW_EVENT_SOURCE_FTP then "ftp"
  else if source =? KFSW_EVENT_SOURCE_APP then "app"
  else if source =? KFSW_EVENT_SOURCE_FBO then "fbo"
  else if source =? KFSW_EVENT_SOURCE_GNDWDT then "gndwdt"
  else if source =? KFSW_EVENT_SOURCE_RESMON then "resmon"
  else "unknown".

Section event.
Context {EC : EventConfig}.
Implicit Types (s : event_state) (r : kfsw_event_record).

Definition event_boot : event_state := {|
  ring := replicate (Z.to_nat EVENT_RING_DEPTH) inhabitant;
  next_sequence := 0; recorded_count := 0; rejected_count := 0;
  overwritten_count := 0; held_count := 0; oldest_index := 0 |}.

Definition count_rejected s : event_state := {|
  ring := ring s; next_sequence := next_sequence s; recorded_count := recorded_count s;
  rejected_count := u32 (rejected_count s + 1);
  overwritten_count := overwritten_count s; held_count := held_count s;
  oldest_index := oldest_index s |}.

(** [memcpy] of the payload, then [memset] of the rest of the slot. *)
Definition fill_payload (old : list Z) (payload : option (list Z)) (size : Z) : list Z :=
  let copied := if size =? 0 then old
                else buf_put 0 (take (Z.to_nat size) (default [] payload)) old in
  mem_set (Z.to_nat size) 0 (length old - Z.to_nat size) copied.

Definition kfsw_event_emit (now_us source id severity : Z) (payload : option (list Z))
    (payload_size : Z) s : event_state * option kfsw_event_record :=
  if event_refused source severity payload payload_size then (count_rejected s, None)
  else
    let write_index := u16 ((oldest_index s + held_count s) mod EVENT_RING_DEPTH) in
    let full := held_count s =? EVENT_RING_DEPTH in
    let slot := {|
      ev_monotonic_us := u64 now_us;
      ev_sequence := next_sequence s;
      ev_source := u16 source; ev_id := id;
      ev_severity := u8 severity; ev_payload_size := u8 payload_size;
      ev_payload :=
        fill_payload (ev_payload (ring_at (ring s) write_index)) payload payload_size |} in
    ({| ring := ring_set (ring s) write_index slot;
        next_sequence := u32 (next_sequence s + 1);
        recorded_count := u32 (recorded_count s + 1);
        rejected_count := rejected_count s;
        overwritten_count :=
          if full then u32 (overwritten_count s + 1) else overwritten_count s;
        held_count := if full then held_count s else u16 (held_count s + 1);
        oldest_index :=
          if full then u16 ((oldest_index s + 1) mod EVENT_RING_DEPTH)
          else oldest_index s |},
     Some slot).

(** One turn of the visit loop: the record at [index] is copied under the lock. *)
Definition event_visit_copy (index : Z) s : option kfsw_event_record :=
  if index >=? held_count s then None
  else Some (ring_at (ring s) ((oldest_index s + index) mod EVENT_RING_DEPTH)).

(** The loop of [kfsw_event_visit]. The visitor is called outside the lock, so
    it may also change the service: [step] is its effect on a context that holds
    the event state, and answers whether to go on. *)
Fixpoint event_visit_loop {C} (fuel : nat) (proj : C → event_state)
    (visitor : kfsw_event_record → C → C * bool) (index : Z) (c : C) : C :=
  match fuel with
  | O => c
  | S fuel =>
      match event_visit_copy index (proj c) with
      | None => c
      | Some r =>
          let '(c', more) := visitor r c in
          if more then event_visit_loop fuel proj visitor (u16 (index + 1)) c' else c'
      end
  end.

(** [held_count] never exceeds the depth, so the index passes it within
    [depth + 1] turns whatever the visitor does. *)
Definition kfsw_event_visit {C} (proj : C → event_state)
    (visitor : option (kfsw_event_record → C → C * bool)) (c : C) : C :=
  match visitor with
  | None => c
  | Some visitor => event_visit_loop (S (Z.to_nat EVENT_RING_DEPTH)) proj visitor 0 c
  end.

(** [record] is the caller's object, [None] when the pointer is [NULL]. *)
Definition kfsw_event_get (age : Z) (record : option kfsw_event_record) s
    : Z * option kfsw_event_record :=
  match record with
  | None => (- EINVAL, None)
  | Some old =>
      if age >=? held_count s then (- ENOENT, Some old)
      else (0, Some (ring_at (ring s)
              (u32 (oldest_index s + held_count s - 1 - age) mod EVENT_RING_DEPTH)))
  end.

Definition kfsw_event_get_stats (stats : option kfsw_event_stats) s : option kfsw_event_stats :=
  match stats with
  | None => None
  | Some _ => Some {|
      es_recorded := recorded_count s; es_rejected := rejected_count s;
      es_overwritten := overwritten_count s; es_held := held_count s;
      es_capacity := u16 EVENT_RING_DEPTH |}
  end.

Definition kfsw_event_clear s : event_state := {|
  ring := ring s; next_sequence := next_sequence s; recorded_count := recorded_count s;
  rejected_count := rejected_count s; overwritten_count := overwritten_count s;
  held_count := 0; oldest_index := 0 |}.

(** ** Invariant and abstraction *)

(** What a visit promises: the visitor sees a list in order, until it says stop. *)
Fixpoint visit_list {C} (visitor : kfsw_event_record → C → C * bool)
    (l : list kfsw_event_record) (c : C) : C :=
  match l with
  | [] => c
  | r :: l => let '(c', more) := visitor r c in if more then visit_list visitor l c' else c'
  end.

(** The records the ring stands for, oldest first. *)
Definition event_log s : list kfsw_event_record :=
  ring_view (ring s) (oldest_index s) (held_count s).

Definition event_wf s : Prop :=
  zlen (ring s) = EVENT_RING_DEPTH ∧
  Forall (λ r, length (ev_payload r) = Z.to_nat KFSW_EVENT_MAX_PAYLOAD_SIZE) (ring s) ∧
  0 <= oldest_index s < EVENT_RING_DEPTH ∧
  0 <= held_count s <= EVENT_RING_DEPTH ∧
  is_u32 (next_sequence s) ∧ recorded_count s = next_sequence s ∧
  is_u32 (rejected_count s) ∧ is_u32 (overwritten_count s) ∧
  (∀ i r, event_log s !! i = Some r →
     ev_sequence r = u32 (next_sequence s - held_count s + Z.of_nat i)).
End event.

(** ** Lemmas *)

Section event_proofs.
Context {EC : EventConfig}.
Implicit Types (s : event_state) (r : kfsw_event_record).

Lemma depth_bounds : 8 <= EVENT_RING_DEPTH <= 256.
Proof. apply EVENT_RING_DEPTH_range. Qed.

Lemma depth_index z : 0 <= z mod EVENT_RING_DEPTH < EVENT_RING_DEPTH.
Proof. pose proof depth_bounds. apply Z.mod_pos_bound. lia. Qed.
Lemma depth_index_u16 z : u16 (z mod EVENT_RING_DEPTH) = z mod EVENT_RING_DEPTH.
Proof. pose proof depth_bounds. pose proof (depth_index z). apply u16_id. clia. Qed.

Lemma event_log_length s : event_wf s → zlen (event_log s) = held_count s.
Proof. intros (?&?&?&?&?). unfold event_log, zlen. rewrite length_ring_view. lia. Qed.

Lemma event_log_lookup s (i : nat) :
  Z.of_nat i < held_count s →
  event_log s !! i = Some (ring_at (ring s) ((oldest_index s + Z.of_nat i) mod zlen (ring s))).
Proof. apply ring_view_lookup. Qed.

Lemma event_refused_false source severity payload size :
  event_refused source severity payload size = false →
  1 <= source <= 7 ∧ 0 <= severity <= 3 ∧ size <= 16 ∧ (size ≠ 0 → is_Some payload).
Proof.
  unfold event_refused, source_is_known, KFSW_EVENT_SOURCE_BOOT, KFSW_EVENT_SOURCE_COMMAND,
    KFSW_EVENT_SOURCE_FTP, KFSW_EVENT_SOURCE_APP, KFSW_EVENT_SOURCE_FBO,
    KFSW_EVENT_SOURCE_GNDWDT, KFSW_EVENT_SOURCE_RESMON, KFSW_EVENT_INFO,
    KFSW_EVENT_CRITICAL, KFSW_EVENT_MAX_PAYLOAD_SIZE.
  intros H. apply orb_false_iff in H as [H Hp]. repeat split; try lia.
  intros Hs. destruct payload; [done|]. rewrite bool_decide_true in Hp by done. lia.
Qed.

Lemma fill_payload_spec old payload size l :
  length old = 16%nat → 0 <= size <= 16 → (size ≠ 0 → payload = Some l) →
  (Z.to_nat size <= length l)%nat →
  fill_payload old payload size =
    take (Z.to_nat size) l ++ replicate (16 - Z.to_nat size) 0.
Proof.
  intros Hold Hs Hp Hl. unfold fill_payload, mem_set.
  destruct (decide (size = 0)) as [->|Hne].
  - cbn [Z.eqb]. change (Z.to_nat 0) with 0%nat. rewrite buf_put_0, length_replicate, Hold.
    rewrite drop_ge by (rewrite Hold; done). by rewrite app_nil_r.
  - rewrite (proj2 (Z.eqb_neq size 0)) by done. rewrite (Hp Hne). simpl.
    set (bs := take (Z.to_nat size) l).
    assert (length bs = Z.to_nat size) as Hbs by (unfold bs; rewrite length_take; lia).
    rewrite <- Hbs at 1. rewrite <- (Nat.add_0_l (length bs)) at 1.
    rewrite buf_put_app by (rewrite Hold; lia). rewrite Hold, buf_put_0.
    rewrite drop_ge, app_nil_r; [done|].
    rewrite length_app, length_replicate, Hbs, Hold. lia.
Qed.

Lemma fill_payload_length old payload size l :
  length old = 16%nat → 0 <= size <= 16 → (size ≠ 0 → payload = Some l) →
  (Z.to_nat size <= length l)%nat → length (fill_payload old payload size) = 16%nat.
Proof.
  intros. erewrite fill_payload_spec by done.
  rewrite length_app, length_take, length_replicate. lia.
Qed.

(** A caller passes [payload_size] bytes it owns. *)
Definition payload_ok (payload : option (list Z)) (size : Z) : Prop :=
  0 <= size ∧ (size ≠ 0 → ∀ l, payload = Some l → size <= zlen l).

Lemma event_slot_length s i :
  event_wf s → 0 <= i < EVENT_RING_DEPTH → length (ev_payload (ring_at (ring s) i)) = 16%nat.
Proof.
  intros (Hl & Hf & _) Hi. unfold ring_at.
  rewrite Forall_lookup in Hf. apply (Hf (Z.to_nat i)).
  apply list_lookup_lookup_total_lt. unfold zlen in Hl. lia.
Qed.

Lemma emit_log now source id severity payload size s s' r :
  event_wf s →
  kfsw_event_emit now source id severity payload size s = (s', Some r) →
  event_log s' = push_bounded (Z.to_nat EVENT_RING_DEPTH) (event_log s) r.
Proof.
  intros Hwf H. pose proof depth_bounds as Hd. pose proof Hwf as (Hl & Hf & Ho & Hh & _).
  unfold kfsw_event_emit in H. case_match; simplify_eq/=.
  unfold push_bounded, event_log at 1. cbn [ring oldest_index held_count].
  rewrite !depth_index_u16.
  pose proof (event_log_length s Hwf) as Hlen. rewrite <- Hl in *.
  destruct (held_count s =? zlen (ring s)) eqn:Hfull.
  - apply Z.eqb_eq in Hfull. rewrite Hfull.
    rewrite ring_push_full by lia.
    rewrite (proj2 (Nat.ltb_ge _ _)) by (unfold zlen in *; lia).
    unfold event_log. by rewrite Hfull.
  - apply Z.eqb_neq in Hfull. rewrite (u16_id (held_count s + 1)) by clia.
    rewrite ring_push_room by lia.
    by rewrite (proj2 (Nat.ltb_lt _ _)) by (unfold zlen in *; lia).
Qed.

Lemma emit_wf now source id severity payload size s :
  event_wf s → payload_ok payload size →
  event_wf (kfsw_event_emit now source id severity payload size s).1.
Proof.
  intros Hwf [Hp0 Hp]. pose proof depth_bounds as Hd.
  pose proof Hwf as (Hl & Hf & Ho & Hh & Hn & Hr & Hj & Hov & Hseq).
  destruct (kfsw_event_emit now source id severity payload size s) as [s' [r|]] eqn:E.
  2: { unfold kfsw_event_emit in E. case_match; simplify_eq/=.
       unfold event_wf, count_rejected; cbn. split_and!; try done; try lia; apply u32_range. }
  pose proof (emit_log _ _ _ _ _ _ _ _ _ Hwf E) as Hlog.
  pose proof (event_log_length s Hwf) as Hlen.
  unfold kfsw_event_emit in E. case_match eqn:Hg; simplify_eq/=.
  apply event_refused_false in Hg as (Hsrc & Hsev & Hsz & Hsome).
  pose proof (Z.mod_pos_bound (oldest_index s + held_count s) EVENT_RING_DEPTH ltac:(lia)) as Hi.
  rewrite (u16_id ((oldest_index s + held_count s) mod EVENT_RING_DEPTH)) in * by clia.
  pose proof (Z.mod_pos_bound (oldest_index s + 1) EVENT_RING_DEPTH ltac:(lia)) as Hi'.
  refine (conj _ (conj _ (conj _ (conj _ (conj _ (conj _ (conj _ (conj _ _))))))));
    cbn [ring held_count oldest_index next_sequence recorded_count rejected_count overwritten_count].
  - by rewrite zlen_ring_set.
  - apply Forall_insert; [done|]. cbn.
    destruct payload as [l|].
    + apply (fill_payload_length _ _ _ l); [by apply event_slot_length|lia|done|].
      destruct (decide (size = 0)) as [->|]; [lia|]. specialize (Hp ltac:(done) l eq_refl). unfold zlen in Hp. lia.
    + assert (size = 0) as ->. { destruct (decide (size = 0)); [done|]. destruct Hsome as [? ?]; done. }
      apply (fill_payload_length _ _ _ []); [by apply event_slot_length|lia|done|simpl; lia].
  - case_match; rewrite ?depth_index_u16; lia.
  - case_match; [|rewrite u16_id by clia]; lia.
  - clia.
  - by rewrite Hr.
  - done.
  - case_match; [apply u32_range|done].
  - intros i r Hi2. rewrite Hlog in Hi2. unfold push_bounded in Hi2.
    assert (Z.to_nat EVENT_RING_DEPTH = length (event_log s) ∨
            (length (event_log s) < Z.to_nat EVENT_RING_DEPTH)%nat) as Hcase
      by (unfold zlen in Hlen; lia).
    apply lookup_app_Some in Hi2 as [Hi2|[Hge Hi2]].
    + destruct (held_count s =? EVENT_RING_DEPTH) eqn:Hfull.
      * rewrite (proj2 (Nat.ltb_ge _ _)) in Hi2 by (unfold zlen in Hlen; lia).
        rewrite lookup_tail in Hi2. apply Hseq in Hi2. rewrite Hi2. unfold u32. lia.
      * rewrite (proj2 (Nat.ltb_lt _ _)) in Hi2 by (unfold zlen in Hlen; lia).
        apply Hseq in Hi2. rewrite Hi2. rewrite u16_id by clia. unfold u32. lia.
    + apply list_lookup_singleton_Some in Hi2 as [Hz <-]. cbn.
      destruct (held_count s =? EVENT_RING_DEPTH) eqn:Hfull.
      * rewrite (proj2 (Nat.ltb_ge _ _)) in Hge, Hz by (unfold zlen in Hlen; lia).
        rewrite length_tail in *. unfold zlen in Hlen. clia.
      * rewrite (proj2 (Nat.ltb_lt _ _)) in Hge, Hz by (unfold zlen in Hlen; lia).
        unfold zlen in Hlen. clia.
Qed.
End event_proofs.

(** ** Reachable states *)

(** One locked operation of a caller that owns its payload. *)
Inductive event_step `{!EventConfig} : event_state → event_state → Prop :=
| event_step_emit now source id severity payload size s :
    payload_ok payload size →
    event_step s (kfsw_event_emit now source id severity payload size s).1
| event_step_clear s : event_step s (kfsw_event_clear s).

Definition event_reachable `{!EventConfig} (s : event_state) : Prop := rtc event_step event_boot s.

Section event_reach.
Context {EC : EventConfig}.
Implicit Types (s : event_state) (r : kfsw_event_record).

Lemma event_boot_wf : event_wf event_boot.
Proof.
  pose proof depth_bounds as Hd.
  refine (conj _ (conj _ (conj _ (conj _ (conj _ (conj _ (conj _ (conj _ _)))))))); cbn.
  - unfold zlen. rewrite length_replicate. lia.
  - apply Forall_replicate. done.
  - lia.
  - lia.
  - clia.
  - done.
  - clia.
  - clia.
  - done.
Qed.

Lemma clear_wf s : event_wf s → event_wf (kfsw_event_clear s).
Proof.
  pose proof depth_bounds as Hd. intros (Hl & Hf & Ho & Hh & Hn & Hr & Hj & Hov & Hseq).
  refine (conj _ (conj _ (conj _ (conj _ (conj _ (conj _ (conj _ (conj _ _)))))))); cbn; try done; lia.
Qed.

Lemma event_step_wf s s' : event_step s s' → event_wf s → event_wf s'.
Proof. destruct 1; intros; [by apply emit_wf|by apply clear_wf]. Qed.

Lemma event_reachable_wf s : event_reachable s → event_wf s.
Proof.
  intros H. assert (∀ a b, rtc event_step a b → event_wf a → event_wf b) as Hind.
  { induction 1; eauto using event_step_wf. }
  eapply Hind; [exact H|apply event_boot_wf].
Qed.

Lemma event_get_spec s age old :
  event_wf s → 0 <= age →
  kfsw_event_get age (Some old) s =
    match reverse (event_log s) !! Z.to_nat age with
    | Some r => (0, Some r)
    | None => (- ENOENT, Some old)
    end.
Proof.
  intros Hwf Ha. pose proof depth_bounds as Hd. pose proof (event_log_length s Hwf) as Hlen.
  destruct Hwf as (Hl & _ & Ho & Hh & _). unfold kfsw_event_get. unfold zlen in Hlen.
  destruct (age >=? held_count s) eqn:E.
  - rewrite lookup_ge_None_2; [done|]. rewrite length_reverse. lia.
  - rewrite reverse_lookup by lia.
    assert (Z.of_nat (length (event_log s) - S (Z.to_nat age)) = held_count s - 1 - age) as Hi by lia.
    rewrite event_log_lookup by lia. rewrite Hi, u32_id, Hl by clia.
    do 4 f_equal. lia.
Qed.

(** A visitor that leaves the service alone sees a suffix of the log. *)
Lemma visit_loop_spec {C} (proj : C → event_state) visitor s fuel index c :
  event_wf s → proj c = s →
  (∀ r c, proj c = s → proj (visitor r c).1 = s) →
  0 <= index <= EVENT_RING_DEPTH → EVENT_RING_DEPTH - index < Z.of_nat fuel →
  event_visit_loop fuel proj visitor index c =
    visit_list visitor (drop (Z.to_nat index) (event_log s)) c.
Proof.
  intros Hwf. pose proof depth_bounds as Hd. pose proof (event_log_length s Hwf) as Hlen.
  pose proof Hwf as (Hl & _ & Ho & Hh & _). unfold zlen in Hlen.
  revert index c. induction fuel as [|fuel IH]; intros index c Hc Hv Hi Hf; [lia|].
  cbn [event_visit_loop]. unfold event_visit_copy. rewrite Hc.
  destruct (index >=? held_count s) eqn:E.
  - by rewrite drop_ge by lia.
  - assert (event_log s !! Z.to_nat index =
      Some (ring_at (ring s) ((oldest_index s + index) mod EVENT_RING_DEPTH))) as Hlk.
    { rewrite event_log_lookup by lia. rewrite Hl. do 3 f_equal. lia. }
    erewrite drop_S by exact Hlk. cbn [visit_list].
    pose proof (Hv (ring_at (ring s) ((oldest_index s + index) mod EVENT_RING_DEPTH)) c Hc) as Hc'.
    destruct (visitor _ c) as [c' [|]]; [|done]. cbn in Hc'.
    rewrite u16_id by clia. rewrite IH; [|done|done|lia|lia].
    do 2 f_equal. lia.
Qed.
End event_reach.

(** ** The interface the other services rely on

    A service only calls [kfsw_event_emit]; what it relies on is stated here and
    holds of the ring below. *)
Class EventSink (E : Type) := {
  sink_emit : Z → Z → Z → Z → option (list Z) → Z → E → E;
  sink_log : E → list kfsw_event_record;
  sink_ok : E → Prop;
  sink_emit_ok now source id severity payload size e :
    payload_ok payload size → sink_ok e →
    sink_ok (sink_emit now source id severity payload size e);
  sink_refuses now source id severity payload size e :
    event_refused source severity payload size = true →
    sink_log (sink_emit now source id severity payload size e) = sink_log e;
  sink_records now source id severity payload size e :
    event_refused source severity payload size = false → sink_ok e →
    ∃ r, last (sink_log (sink_emit now source id severity payload size e)) = Some r ∧
      ev_source r = u16 source ∧ ev_id r = id ∧ ev_severity r = u8 severity;
}.

Section event_sink.
Context {EC : EventConfig}.

Lemma emit_refused now source id severity payload size s :
  event_refused source severity payload size = true →
  kfsw_event_emit now source id severity payload size s = (count_rejected s, None).
Proof. intros H. unfold kfsw_event_emit. by rewrite H. Qed.

Lemma emit_accepted now source id severity payload size s :
  event_refused source severity payload size = false →
  ∃ s' r, kfsw_event_emit now source id severity payload size s = (s', Some r) ∧
    ev_monotonic_us r = u64 now ∧ ev_sequence r = next_sequence s ∧
    ev_source r = u16 source ∧ ev_id r = id ∧ ev_severity r = u8 severity ∧
    ev_payload_size r = u8 size.
Proof. intros H. unfold kfsw_event_emit. rewrite H. do 2 eexists. split; [reflexivity|]. by cbn. Qed.

Lemma emit_refused_log now source id severity payload size s :
  event_refused source severity payload size = true →
  event_log (kfsw_event_emit now source id severity payload size s).1 = event_log s.
Proof. intros Hr. by rewrite (emit_refused _ _ _ _ _ _ _ Hr). Qed.

Lemma emit_accepted_log now source id severity payload size s :
  event_refused source severity payload size = false → event_wf s →
  ∃ r, last (event_log (kfsw_event_emit now source id severity payload size s).1) = Some r ∧
    ev_source r = u16 source ∧ ev_id r = id ∧ ev_severity r = u8 severity.
Proof.
  intros Hr Hs. destruct (emit_accepted now source id severity payload size s Hr)
    as (s' & r & E & _ & _ & ? & ? & ? & _).
  exists r. rewrite E. cbn. erewrite emit_log by done. unfold push_bounded.
  by rewrite last_snoc.
Qed.

#[export] Instance ring_sink : EventSink event_state := {
  sink_emit now source id severity payload size s :=
    (kfsw_event_emit now source id severity payload size s).1;
  sink_log := event_log; sink_ok := event_wf;
  sink_emit_ok now source id severity payload size s Hp Hs :=
    emit_wf now source id severity payload size s Hs Hp;
  sink_refuses := emit_refused_log; sink_records := emit_accepted_log }.
End event_sink.

(** ** Properties *)

(** C11: an accepted event appends one record, with the given fields and a payload
    padded with zeros to the full slot, to a history bounded by the ring depth:
    the oldest record, and only that one, leaves a full ring, and the loss is
    counted. The same record is handed to the journal. *)
Theorem event_emit_refines {EC : EventConfig} now source id severity payload l size s :
  event_wf s → event_refused source severity payload size = false →
  0 <= size <= zlen l → (size ≠ 0 → payload = Some l) →
  ∃ s' r, kfsw_event_emit now source id severity payload size s = (s', Some r) ∧
    event_log s' = push_bounded (Z.to_nat EVENT_RING_DEPTH) (event_log s) r ∧
    ev_sequence r = next_sequence s ∧ ev_source r = source ∧ ev_id r = id ∧
    ev_severity r = severity ∧ ev_payload_size r = size ∧
    ev_payload r = take (Z.to_nat size) l ++ replicate (16 - Z.to_nat size) 0 ∧
    rejected_count s' = rejected_count s ∧
    overwritten_count s' =
      (if held_count s =? EVENT_RING_DEPTH then u32 (overwritten_count s + 1)
       else overwritten_count s).
Proof.
  intros Hwf Hr Hs Hp. destruct (kfsw_event_emit now source id severity payload size s)
    as [s' o] eqn:E. pose proof E as E'. unfold kfsw_event_emit in E'. rewrite Hr in E'.
  injection E' as Hs' Ho. rewrite <- Ho in E. eexists s', _. split; [f_equal; done|].
  split; [by eapply emit_log|]. rewrite <- Hs'. cbn.
  apply event_refused_false in Hr as (? & ? & ? & _).
  repeat split; try (first [rewrite u16_id | rewrite u8_id]; clia).
  apply fill_payload_spec; [|lia|done|unfold zlen in Hs; lia].
  apply event_slot_length; [done|]. rewrite depth_index_u16. apply depth_index.
Qed.


(** [kfsw_event_get] returns the record of the given age, counting from the
    newest, and [-ENOENT] with the caller's record untouched when the ring holds
    fewer. *)
Theorem event_get_age {EC : EventConfig} s age old :
  event_wf s → 0 <= age →
  kfsw_event_get age (Some old) s =
    match reverse (event_log s) !! Z.to_nat age with
    | Some r => (0, Some r)
    | None => (- ENOENT, Some old)
    end.
Proof. apply event_get_spec. Qed.


(** an event whose source is the table, scrub or limits service is never
    recorded, although [event.h] declares those sources: the ring, the sequence
    number and the journal see nothing, and only the rejected counter moves. *)
Theorem event_new_sources_dropped {EC : EventConfig} source now id severity payload size s :
  source ∈ [KFSW_EVENT_SOURCE_TABLE; KFSW_EVENT_SOURCE_SCRUB; KFSW_EVENT_SOURCE_LIMITS] →
  kfsw_event_emit now source id severity payload size s = (count_rejected s, None) ∧
  event_log (count_rejected s) = event_log s ∧
  kfsw_event_source_name source = "unknown".
Proof.
  intros H. assert (source_is_known source = false ∧ kfsw_event_source_name source = "unknown")
    as [Hk Hn] by (set_unfold; destruct_or!; simplify_eq; done).
  split_and!; [|done..]. apply emit_refused. unfold event_refused. by rewrite Hk.
Qed.

(** ** The properties at a concrete input *)

Section event_witnesses.
#[local] Existing Instance event_config_default.

Lemma event_emit_refines_witness :
  ∃ s' r, kfsw_event_emit 5 KFSW_EVENT_SOURCE_BOOT 7 KFSW_EVENT_ERROR (Some [1; 2; 3]) 2 event_boot
            = (s', Some r) ∧ ev_payload r = [1; 2; 0; 0; 0; 0; 0; 0; 0; 0; 0; 0; 0; 0; 0; 0].
Proof.
  destruct (event_emit_refines 5 KFSW_EVENT_SOURCE_BOOT 7 KFSW_EVENT_ERROR (Some [1; 2; 3])
    [1; 2; 3] 2 event_boot event_boot_wf eq_refl ltac:(vm_compute; split; congruence)
    ltac:(intros _; reflexivity)) as (s' & r & E & _ & _ & _ & _ & _ & _ & Hp & _).
  exists s', r. split; [exact E|rewrite Hp; reflexivity].
Defined.


Lemma event_get_age_witness :
  (kfsw_event_get 0 (Some inhabitant) event_boot).1 = - ENOENT.
Proof. rewrite (event_get_age event_boot 0 inhabitant event_boot_wf ltac:(lia)). reflexivity. Defined.


Lemma event_new_sources_dropped_witness :
  kfsw_event_emit 1 KFSW_EVENT_SOURCE_LIMITS 1 KFSW_EVENT_WARNING (Some [0; 0; 1]) 3 event_boot
    = (count_rejected event_boot, None).
Proof. apply event_new_sources_dropped. set_solver. Defined.
End event_witnesses.
