(* ===== verification/Codec.v ===== *)
(** * Wire codecs

    The services exchange frames of bytes. What a protocol promises to the code
    that uses it is stated once here: a message it may send is read back, and a
    frame it accepts is the one frame of the message it reads. *)

From S2P Require Import Prelude Bytes.

Class WireCodec (M : Type) := {
  wire_wf : M → Prop;
  wire_frame : M → list Z;
  wire_read : list Z → option M;
  wire_read_frame m : wire_wf m → wire_read (wire_frame m) = Some m;
  wire_frame_read l m : bytes l → wire_read l = Some m → wire_wf m ∧ wire_frame m = l;
}.

Section codec.
Context `{WC : WireCodec M}.

(** No two messages share a frame. *)
Lemma wire_frame_inj m m' :
  wire_wf m → wire_wf m' → wire_frame m = wire_frame m' → m = m'.
Proof.
  intros H H' E. pose proof (wire_read_frame m H) as R. rewrite E in R.
  rewrite (wire_read_frame m' H') in R. congruence.
Qed.

(** No two frames are read as the same message. *)
Lemma wire_read_inj l l' m :
  bytes l → bytes l' → wire_read l = Some m → wire_read l' = Some m → l = l'.
Proof.
  intros Hl Hl' R R'. destruct (wire_frame_read l m Hl R) as [_ <-].
  by destruct (wire_frame_read l' m Hl' R') as [_ <-].
Qed.
End codec.

(** Take a buffer apart into the cells of a fixed header. *)
Ltac cells buf :=
  repeat (destruct buf as [|? buf]; [exfalso; simpl in *; lia|]; simpl length in *).
