(* ===== verification/CommandProtocol.v ===== *)
(** * Command wire format ([src/command/command_protocol.c])

    Version 1 and version 2 frames, and the argument list a request carries. A
    pointer that may be [NULL] is an [option]; an out-parameter is the caller's
    object before the call and, in the result, after it. *)

From S2P Require Import Prelude Bytes Codec.

Definition KFSW_COMMAND_PROTOCOL_VERSION : Z := 1.
Definition KFSW_COMMAND_HEADER_SIZE : Z := 12.
Definition KFSW_COMMAND_RETRY_HEADER_SIZE : Z := 20.
Definition KFSW_COMMAND_MAX_PAYLOAD_SIZE : Z := 192.
Definition KFSW_COMMAND_MAX_ARGS : Z := 4.
Definition KFSW_COMMAND_MAX_TEXT_SIZE : Z := 64.
Definition KFSW_COMMAND_MAX_DETAIL_SIZE : Z := 96.

Definition KFSW_COMMAND_OP_REQUEST : Z := 1.
Definition KFSW_COMMAND_OP_RESULT : Z := 2.
Definition KFSW_COMMAND_OP_PREPARE : Z := 3.
Definition KFSW_COMMAND_OP_TICKET : Z := 4.
Definition KFSW_COMMAND_OP_EXECUTE : Z := 5.

Definition KFSW_COMMAND_TYPE_U32 : Z := 1.
Definition KFSW_COMMAND_TYPE_I32 : Z := 2.
Definition KFSW_COMMAND_TYPE_TEXT : Z := 3.

Record kfsw_command_message := {
  msg_version : Z;
  msg_token : Z;
  msg_opcode : Z;
  msg_status : Z;
  msg_arg_count : Z;
  msg_command_id : Z;
  msg_request_id : Z;
  msg_payload_size : Z;
  msg_payload : option (list Z);
}.

(** An argument: the type tag with the member of the union it selects. Any other
    tag is [ArgOther]. *)
Inductive kfsw_command_arg :=
| ArgU32 (v : Z)
| ArgI32 (v : Z)
| ArgText (text : option (list Z))
| ArgOther (type : Z).
#[export] Instance kfsw_command_arg_inhabited : Inhabited kfsw_command_arg := populate (ArgOther 0).
#[export] Instance kfsw_command_arg_eq_dec : EqDecision kfsw_command_arg.
Proof. solve_decision. Defined.

Definition arg_type (a : kfsw_command_arg) : Z :=
  match a with
  | ArgU32 _ => KFSW_COMMAND_TYPE_U32
  | ArgI32 _ => KFSW_COMMAND_TYPE_I32
  | ArgText _ => KFSW_COMMAND_TYPE_TEXT
  | ArgOther t => t
  end.

Section protocol.
Context {BO : ByteOrder}.

Definition kfsw_command_protocol_encode (buffer : option (list Z)) (capacity : Z)
    (message : option kfsw_command_message) (encoded_size : option Z)
    : Z * option (list Z) * option Z :=
  match buffer, message, encoded_size with
  | Some buf, Some m, Some _ =>
      if (msg_payload_size m >? KFSW_COMMAND_MAX_PAYLOAD_SIZE)
         || (negb (msg_payload_size m =? 0) && bool_decide (msg_payload m = None))
         || (msg_arg_count m >? KFSW_COMMAND_MAX_ARGS)
      then (- EINVAL, buffer, encoded_size)
      else
        let version := if msg_version m =? 0 then KFSW_COMMAND_PROTOCOL_VERSION
                       else msg_version m in
        if negb (version =? 1) && negb (version =? 2)
        then (- EPROTONOSUPPORT, buffer, encoded_size)
        else
          let header := if version =? 2 then KFSW_COMMAND_RETRY_HEADER_SIZE
                        else KFSW_COMMAND_HEADER_SIZE in
          let size := header + msg_payload_size m in
          if size >? capacity then (- EMSGSIZE, buffer, encoded_size)
          else
            let b := mem_set 0 0 (Z.to_nat header) buf in
            let b := buf_put 0 [version] b in
            let b := if version =? 2 then buf_put 12 (put_be64 (msg_token m)) b else b in
            let b := buf_put 1 [msg_opcode m] b in
            let b := buf_put 2 [msg_status m] b in
            let b := buf_put 3 [msg_arg_count m] b in
            let b := buf_put 4 (put_be16 (msg_command_id m)) b in
            let b := buf_put 6 (put_be16 (msg_request_id m)) b in
            let b := buf_put 8 (put_be16 (msg_payload_size m)) b in
            let b := if msg_payload_size m =? 0 then b
                     else buf_put (Z.to_nat header)
                            (take (Z.to_nat (msg_payload_size m))
                               (default [] (msg_payload m))) b in
            (0, Some b, Some size)
  | _, _, _ => (- EINVAL, buffer, encoded_size)
  end.

Definition kfsw_command_protocol_decode (buffer : option (list Z)) (size : Z)
    (message : option kfsw_command_message) : Z * option kfsw_command_message :=
  match buffer, message with
  | Some buf, Some _ =>
      if size <? KFSW_COMMAND_HEADER_SIZE then (- EMSGSIZE, message)
      else if negb (byte_at buf 0 =? 1) && negb (byte_at buf 0 =? 2)
      then (- EPROTONOSUPPORT, message)
      else
        let header := if byte_at buf 0 =? 2 then KFSW_COMMAND_RETRY_HEADER_SIZE
                      else KFSW_COMMAND_HEADER_SIZE in
        if size <? header then (- EMSGSIZE, message)
        else if negb (byte_at buf 10 =? 0) || negb (byte_at buf 11 =? 0)
        then (- EBADMSG, message)
        else if (byte_at buf 1 <? KFSW_COMMAND_OP_REQUEST)
                || (byte_at buf 1 >? (if byte_at buf 0 =? 2 then KFSW_COMMAND_OP_EXECUTE
                                      else KFSW_COMMAND_OP_RESULT))
        then (- ENOTSUP, message)
        else
          let m := {|
            msg_version := byte_at buf 0;
            msg_token := if byte_at buf 0 =? 2 then get_be64 12 buf else 0;
            msg_opcode := byte_at buf 1;
            msg_status := byte_at buf 2;
            msg_arg_count := byte_at buf 3;
            msg_command_id := get_be16 4 buf;
            msg_request_id := get_be16 6 buf;
            msg_payload_size := get_be16 8 buf;
            msg_payload := None |} in
          if msg_arg_count m >? KFSW_COMMAND_MAX_ARGS then (- E2BIG, Some m)
          else if msg_payload_size m >? KFSW_COMMAND_MAX_PAYLOAD_SIZE
          then (- EMSGSIZE, Some m)
          else if negb (header + msg_payload_size m =? size) then (- EMSGSIZE, Some m)
          else (0, Some {|
            msg_version := msg_version m; msg_token := msg_token m;
            msg_opcode := msg_opcode m; msg_status := msg_status m;
            msg_arg_count := msg_arg_count m; msg_command_id := msg_command_id m;
            msg_request_id := msg_request_id m; msg_payload_size := msg_payload_size m;
            msg_payload := Some (drop (Z.to_nat header) buf) |})
  | _, _ => (- EMSGSIZE, message)
  end.

(** The size of one argument's value, or the error the loop returns. *)
Definition arg_value_size (a : kfsw_command_arg) : Z + Z :=
  match a with
  | ArgU32 _ | ArgI32 _ => inl 4
  | ArgText None => inr (- EINVAL)
  | ArgText (Some t) =>
      let value_size := Z.min (strlen t) (KFSW_COMMAND_MAX_TEXT_SIZE + 1) in
      if value_size >? KFSW_COMMAND_MAX_TEXT_SIZE then inr (- ENAMETOOLONG) else inl value_size
  | ArgOther _ => inr (- ENOTSUP)
  end.

(** The bytes written for an argument of a known type. *)
Definition arg_value_bytes (a : kfsw_command_arg) (value_size : Z) : list Z :=
  match a with
  | ArgText t => take (Z.to_nat value_size) (default [] t)
  | ArgU32 v => put_be32 v
  | ArgI32 v => put_be32 (u32 v)
  | ArgOther _ => []
  end.

Fixpoint encode_args_loop (args : list kfsw_command_arg) (capacity : Z) (payload : list Z)
    (offset : Z) : Z * list Z * Z :=
  match args with
  | [] => (0, payload, offset)
  | a :: args =>
      match arg_value_size a with
      | inr e => (e, payload, offset)
      | inl value_size =>
          if offset + 3 + value_size >? capacity then (- EMSGSIZE, payload, offset)
          else
            let p := buf_put (Z.to_nat offset) [u8 (arg_type a)] payload in
            let p := buf_put (Z.to_nat (offset + 1)) (put_be16 (u16 value_size)) p in
            let offset := offset + 3 in
            let p := buf_put (Z.to_nat offset) (arg_value_bytes a value_size) p in
            encode_args_loop args capacity p (offset + value_size)
      end
  end.

Definition kfsw_command_encode_args (args : option (list kfsw_command_arg)) (arg_count : Z)
    (payload : option (list Z)) (capacity : Z) (payload_size : option Z)
    : Z * option (list Z) * option Z :=
  match payload, payload_size with
  | Some p, Some old =>
      if negb (arg_count =? 0) && bool_decide (args = None) then (- EINVAL, payload, payload_size)
      else if arg_count >? KFSW_COMMAND_MAX_ARGS then (- E2BIG, payload, payload_size)
      else
        let '(rc, p', offset) :=
          encode_args_loop (take (Z.to_nat arg_count) (default [] args)) capacity p 0 in
        (rc, Some p', Some (if rc =? 0 then u16 offset else old))
  | _, _ => (- EINVAL, payload, payload_size)
  end.

(** One turn per declared argument. [args] and [text_storage] are the caller's
    arrays; a text argument points at the row it was copied to. *)
Fixpoint decode_args_loop (count : nat) (index : nat) (m_size : Z) (payload : list Z)
    (offset : Z) (text_index : nat) (args : list kfsw_command_arg) (text : list (list Z))
    : Z * Z * list kfsw_command_arg * list (list Z) :=
  match count with
  | O => (0, offset, args, text)
  | S count =>
      if offset + 3 >? m_size then (- EMSGSIZE, offset, args, text)
      else
        let type := byte_at payload (Z.to_nat offset) in
        let value_size := get_be16 (Z.to_nat (offset + 1)) payload in
        let offset := offset + 3 in
        if offset + value_size >? m_size then (- EMSGSIZE, offset, args, text)
        else if type =? KFSW_COMMAND_TYPE_U32 then
          if negb (value_size =? 4) then (- EBADMSG, offset, args, text)
          else decode_args_loop count (S index) m_size payload (offset + value_size) text_index
                 (<[index := ArgU32 (get_be32 (Z.to_nat offset) payload)]> args) text
        else if type =? KFSW_COMMAND_TYPE_I32 then
          if negb (value_size =? 4) then (- EBADMSG, offset, args, text)
          else decode_args_loop count (S index) m_size payload (offset + value_size) text_index
                 (<[index := ArgI32 (i32 (get_be32 (Z.to_nat offset) payload))]> args) text
        else if type =? KFSW_COMMAND_TYPE_TEXT then
          if value_size >? KFSW_COMMAND_MAX_TEXT_SIZE then (- EMSGSIZE, offset, args, text)
          else
            let value := slice (Z.to_nat offset) (Z.to_nat value_size) payload in
            if mem_has 0 value then (- EBADMSG, offset, args, text)
            else decode_args_loop count (S index) m_size payload (offset + value_size)
                   (S text_index) (<[index := ArgText (Some value)]> args)
                   (<[text_index := value]> text)
        else (- ENOTSUP, offset, args, text)
  end.

Definition kfsw_command_decode_args (message : option kfsw_command_message)
    (args : option (list kfsw_command_arg)) (max_args : Z) (text_storage : option (list (list Z)))
    : Z * option (list kfsw_command_arg) * option (list (list Z)) :=
  match message, args, text_storage with
  | Some m, Some a, Some t =>
      if msg_arg_count m >? max_args then (- E2BIG, args, text_storage)
      else
        let '(rc, offset, a', t') :=
          decode_args_loop (Z.to_nat (msg_arg_count m)) 0 (msg_payload_size m)
            (default [] (msg_payload m)) 0 0 a t in
        if negb (rc =? 0) then (rc, Some a', Some t')
        else if negb (offset =? msg_payload_size m) then (- EMSGSIZE, Some a', Some t')
        else (msg_arg_count m, Some a', Some t')
  | _, _, _ => (- EINVAL, args, text_storage)
  end.
End protocol.

(** ** The frame and the messages it carries *)

Section protocol_proofs.
Context {BO : ByteOrder}.
Implicit Types (m : kfsw_command_message).

Definition message_header (m : kfsw_command_message) : Z :=
  if msg_version m =? 2 then KFSW_COMMAND_RETRY_HEADER_SIZE else KFSW_COMMAND_HEADER_SIZE.

(** The layout of the comment in [command_internal.h], with the version 2 token. *)
Definition command_frame (m : kfsw_command_message) : list Z :=
  [msg_version m; msg_opcode m; msg_status m; msg_arg_count m]
  ++ put_be16 (msg_command_id m) ++ put_be16 (msg_request_id m)
  ++ put_be16 (msg_payload_size m) ++ [0; 0]
  ++ (if msg_version m =? 2 then put_be64 (msg_token m) else [])
  ++ default [] (msg_payload m).

(** The messages the service sends. *)
Definition message_wf (m : kfsw_command_message) : Prop :=
  (msg_version m = 1 ∧ msg_token m = 0 ∨ msg_version m = 2 ∧ is_u64 (msg_token m)) ∧
  1 <= msg_opcode m <= (if msg_version m =? 2 then 5 else 2) ∧
  is_u8 (msg_status m) ∧ 0 <= msg_arg_count m <= KFSW_COMMAND_MAX_ARGS ∧
  is_u16 (msg_command_id m) ∧ is_u16 (msg_request_id m) ∧
  ∃ p, msg_payload m = Some p ∧ bytes p ∧ msg_payload_size m = zlen p ∧
    zlen p <= KFSW_COMMAND_MAX_PAYLOAD_SIZE.

Lemma encode_frame m buf capacity old :
  message_wf m →
  message_header m + msg_payload_size m <= capacity →
  capacity <= zlen buf →
  kfsw_command_protocol_encode (Some buf) capacity (Some m) (Some old) =
    (0, Some (buf_put 0 (command_frame m) buf), Some (message_header m + msg_payload_size m)).
Proof.
  intros (Hver & Hop & Hst & Hac & Hid & Hrq & p & Hp & Hb & Hps & Hpm) Hc Hcap.
  unfold kfsw_command_protocol_encode, command_frame, message_header in *.
  unfold KFSW_COMMAND_MAX_PAYLOAD_SIZE, KFSW_COMMAND_MAX_ARGS, KFSW_COMMAND_PROTOCOL_VERSION,
    KFSW_COMMAND_RETRY_HEADER_SIZE, KFSW_COMMAND_HEADER_SIZE, mem_set in *.
  rewrite Hp. cbn [from_option id].
  replace ((msg_payload_size m >? 192) || (negb (msg_payload_size m =? 0) && bool_decide (Some p = None))
    || (msg_arg_count m >? 4)) with false by (rewrite bool_decide_false by done; lia).
  replace (take (Z.to_nat (msg_payload_size m)) p) with p
    by (rewrite take_ge; [done|unfold zlen in *; lia]).
  assert (Hpay : ∀ off b, (if msg_payload_size m =? 0 then b else buf_put off p b) = buf_put off p b).
  { intros off b. destruct (msg_payload_size m =? 0) eqn:E; [|done].
    destruct p; [|unfold zlen in *; simpl in *; lia]. by rewrite buf_put_nil. }
  unfold zlen in *.
  destruct Hver as [[Hv Ht]|[Hv Ht]]; rewrite Hv in *; cbn -[buf_put put_be16 put_be64] in *.
  - replace (12 + msg_payload_size m >? capacity) with false by lia.
    rewrite Hpay. split_stores. cells buf. reflexivity.
  - replace (20 + msg_payload_size m >? capacity) with false by lia.
    rewrite Hpay. split_stores. cells buf. reflexivity.
Qed.

Lemma frame_length m :
  message_wf m → zlen (command_frame m) = message_header m + msg_payload_size m.
Proof.
  intros (Hver & _ & _ & _ & _ & _ & p & Hp & _ & Hps & _).
  unfold command_frame, message_header, zlen in *. rewrite Hp, Hps.
  destruct Hver as [[-> _]|[-> _]]; cbn -[put_be16 put_be64 Z.of_nat]; split_stores;
    cbn -[Z.of_nat]; unfold KFSW_COMMAND_RETRY_HEADER_SIZE, KFSW_COMMAND_HEADER_SIZE; lia.
Qed.

Definition read_message (l : list Z) : option kfsw_command_message :=
  let '(rc, m) := kfsw_command_protocol_decode (Some l) (zlen l)
                    (Some (Build_kfsw_command_message 0 0 0 0 0 0 0 0 None)) in
  if rc =? 0 then m else None.

(** Whatever the caller's object held, an accepted frame fills all of it. *)
Lemma decode_frame m old :
  message_wf m →
  kfsw_command_protocol_decode (Some (command_frame m)) (zlen (command_frame m)) (Some old)
    = (0, Some m).
Proof.
  intros Hwf. rewrite (frame_length m Hwf).
  destruct Hwf as (Hver & Hop & Hst & Hac & Hid & Hrq & p & Hp & Hb & Hps & Hpm).
  unfold command_frame, message_header, kfsw_command_protocol_decode,
    KFSW_COMMAND_OP_REQUEST, KFSW_COMMAND_OP_EXECUTE, KFSW_COMMAND_OP_RESULT.
  destruct m as [v t o s a c r sz pl]; cbn in *. subst pl. unfold zlen in *.
  unfold KFSW_COMMAND_MAX_PAYLOAD_SIZE, KFSW_COMMAND_MAX_ARGS in *.
  destruct Hver as [[-> ->]|[-> Ht]]; cbn -[put_be16 put_be64] in *; split_stores;
    unfold KFSW_COMMAND_HEADER_SIZE, KFSW_COMMAND_RETRY_HEADER_SIZE; cbn [app];
    read_fields; cbn -[Z.add Z.ltb Z.gtb Z.eqb Z.to_nat]; decide_guards; reflexivity.
Qed.

Lemma encode_keeps_reading m : message_wf m → read_message (command_frame m) = Some m.
Proof. intros Hwf. unfold read_message. by rewrite decode_frame. Qed.

Lemma frame_decode l old m :
  bytes l →
  kfsw_command_protocol_decode (Some l) (zlen l) (Some old) = (0, Some m) →
  message_wf m ∧ command_frame m = l.
Proof.
  intros Hl H. unfold kfsw_command_protocol_decode, KFSW_COMMAND_HEADER_SIZE,
    KFSW_COMMAND_RETRY_HEADER_SIZE, zlen in H.
  destruct (Z.of_nat (length l) <? 12) eqn:E12; [done|].
  do 12 (destruct l as [|? l]; [by cbn in E12|]). clear E12.
  destruct (negb (byte_at _ 0 =? 1) && _) eqn:Ev in H; [done|].
  unfold byte_at in *. cbn [nth] in *.
  assert (z = 1 ∨ z = 2) as [-> | ->] by lia; clear Ev; cbn [Z.eqb Pos.eqb] in H.
  - pass_guards H. injection H as <-. assert (z9 = 0 ∧ z10 = 0) as [-> ->] by lia.
    cbv [get_be16 slice] in *. cbn -[put_be16 Z.of_nat Z.add] in *. rewrite ?take_0, ?drop_0 in *.
    unfold bytes in Hl. split_bytes. unfold message_wf, command_frame.
    cbn -[put_be16 Z.of_nat]. rebuild_fields. split; [|reflexivity].
    unfold KFSW_COMMAND_OP_REQUEST, KFSW_COMMAND_OP_RESULT, zlen in *. rewrite ?drop_0.
    split_and!; try done; try (by left); try clia; auto using get_be16_cells.
    apply negb_false_iff, Z.eqb_eq in G4. rewrite !Nat2Z.inj_succ in G4.
    exists l. split_and!; [done|exact Hl|lia|lia].
  - pass_guards H. cbn in G. do 8 (destruct l as [|? l]; [by cbn in G|]).
    injection H as <-. assert (z9 = 0 ∧ z10 = 0) as [-> ->] by lia.
    cbv [get_be64 get_be16 slice] in *. cbn -[put_be16 put_be64 Z.of_nat Z.add] in *.
    rewrite ?take_0, ?drop_0 in *.
    unfold bytes in Hl. split_bytes. unfold message_wf, command_frame.
    cbn -[put_be16 put_be64 Z.of_nat]. rebuild_fields. split; [|reflexivity].
    unfold KFSW_COMMAND_OP_REQUEST, KFSW_COMMAND_OP_EXECUTE, zlen in *. rewrite ?drop_0.
    split_and!; try done; try clia; auto using get_be16_cells.
    + right. split; [done|]. apply get_be64_cells. by byte_cells.
    + apply negb_false_iff, Z.eqb_eq in G4. rewrite !Nat2Z.inj_succ in G4.
    exists l. split_and!; [done|exact Hl|lia|lia].
Qed.
End protocol_proofs.

(** ** The argument list *)

Section args_proofs.
Context {BO : ByteOrder}.
Implicit Types (a : kfsw_command_arg) (args : list kfsw_command_arg).

(** The arguments a front end builds. *)
Definition arg_ok (a : kfsw_command_arg) : Prop :=
  match a with
  | ArgU32 v => is_u32 v
  | ArgI32 v => is_i32 v
  | ArgText (Some t) => is_cstr t ∧ zlen t <= KFSW_COMMAND_MAX_TEXT_SIZE
  | _ => False
  end.
#[export] Instance arg_ok_dec a : Decision (arg_ok a).
Proof. destruct a as [| |[|]|]; simpl; apply _. Defined.

(** One entry of a request payload: type, size, value. *)
Definition arg_frame (a : kfsw_command_arg) : list Z :=
  match a with
  | ArgU32 v => [1] ++ put_be16 4 ++ put_be32 v
  | ArgI32 v => [2] ++ put_be16 4 ++ put_be32 (u32 v)
  | ArgText (Some t) => [3] ++ put_be16 (zlen t) ++ t
  | _ => []
  end.
Definition args_frame (args : list kfsw_command_arg) : list Z := concat (arg_frame <$> args).

(** The rows a list of arguments fills. *)
Definition args_text (args : list kfsw_command_arg) : list (list Z) :=
  omap (λ a, match a with ArgText t => t | _ => None end) args.

Lemma arg_value_ok a :
  arg_ok a →
  ∃ n v, arg_value_size a = inl n ∧ 0 <= n <= 64 ∧ arg_value_bytes a n = v ∧ zlen v = n ∧
    arg_frame a = [u8 (arg_type a)] ++ put_be16 (u16 n) ++ v.
Proof.
  destruct a as [v|v|[t|]|t]; simpl; intros H; try done.
  - exists 4, (put_be32 v). unfold zlen, put_be32. by rewrite put_be_length.
  - exists 4, (put_be32 (u32 v)). unfold zlen, put_be32. by rewrite put_be_length.
  - destruct H as [_ H]. unfold KFSW_COMMAND_MAX_TEXT_SIZE, strlen in *. exists (zlen t), t.
    unfold zlen in *. rewrite Z.min_l by lia. decide_guards.
    rewrite u16_id by clia. split_and!; try done; try lia. by rewrite take_ge by lia.
Qed.

Lemma args_frame_cons a args : args_frame (a :: args) = arg_frame a ++ args_frame args.
Proof. done. Qed.

Lemma encode_args_loop_spec args capacity p off :
  Forall arg_ok args →
  Z.of_nat off + zlen (args_frame args) <= capacity → capacity <= zlen p →
  encode_args_loop args capacity p (Z.of_nat off) =
    (0, buf_put off (args_frame args) p, Z.of_nat off + zlen (args_frame args)).
Proof.
  intros Hok. revert p off. induction Hok as [|a args Ha _ IH]; intros p off Hcap Hp.
  { cbn [args_frame fmap list_fmap concat]. rewrite buf_put_nil. cbn. f_equal. unfold zlen; simpl; lia. }
  destruct (arg_value_ok a Ha) as (n & v & En & Hn & Ev & Hv & Hframe).
  cbn [encode_args_loop]. rewrite En, args_frame_cons, Hframe, Ev.
  rewrite args_frame_cons, Hframe in Hcap. unfold zlen in *.
  rewrite !length_app in *. unfold put_be16 in *. rewrite put_be_length in *.
  simpl length in *. decide_guards.
  replace (Z.to_nat (Z.of_nat off + 1)) with (off + length [u8 (arg_type a)])%nat by (simpl; lia).
  rewrite Nat2Z.id, buf_put_app by (simpl; lia).
  replace (Z.to_nat (Z.of_nat off + 3))
    with (off + length ([u8 (arg_type a)] ++ put_be 2 (u16 n)))%nat
    by (rewrite length_app, put_be_length; simpl; lia).
  rewrite buf_put_app by (rewrite length_app, put_be_length; simpl; lia).
  rewrite <- app_assoc.
  replace (Z.of_nat off + 3 + n) with (Z.of_nat (off + (3 + length v))) by lia.
  rewrite IH.
  - replace (off + (3 + length v))%nat with (off + length ([u8 (arg_type a)] ++ put_be 2 (u16 n) ++ v))%nat
      by (rewrite !length_app, put_be_length; simpl; lia).
    rewrite buf_put_app by (rewrite !length_app, put_be_length; simpl; lia).
    rewrite <- !app_assoc. f_equal. rewrite !length_app, put_be_length. simpl length. lia.
  - lia.
  - rewrite length_buf_put by (rewrite !length_app, put_be_length; simpl; lia). lia.
Qed.

Lemma i32_u32 v : is_i32 v → i32 (u32 v) = v.
Proof. clia. Qed.

(** Reading one entry in front of anything. *)
Lemma decode_arg_step a count index m_size pre post ti args0 text :
  arg_ok a → zlen pre + zlen (arg_frame a) <= m_size →
  decode_args_loop (S count) index m_size (pre ++ arg_frame a ++ post) (zlen pre) ti args0 text =
  decode_args_loop count (S index) m_size (pre ++ arg_frame a ++ post)
    (zlen pre + zlen (arg_frame a)) (ti + length (args_text [a])) (<[index:=a]> args0)
    (match a with ArgText (Some t) => <[ti:=t]> text | _ => text end).
Proof.
  intros Ha Hsz. cbn [decode_args_loop]. unfold zlen in *.
  assert (∀ (x y z : Z) (v : list Z), byte_at (pre ++ ([x] ++ [y; z] ++ v) ++ post) (length pre) = x) as Htype.
  { intros. by apply byte_at_app_r. }
  assert (∀ (x y z : Z) (v : list Z),
    get_be16 (Z.to_nat (Z.of_nat (length pre) + 1)) (pre ++ ([x] ++ [y; z] ++ v) ++ post) = get_be [y; z]) as Hlen.
  { intros. unfold get_be16. replace (pre ++ ([x] ++ [y; z] ++ v) ++ post)
      with ((pre ++ [x]) ++ [y; z] ++ (v ++ post)) by (by rewrite <- !app_assoc).
    by rewrite slice_app by (rewrite ?length_app; simpl; lia). }
  assert (∀ (x y z : Z) (v : list Z) n, n = length v →
    slice (Z.to_nat (Z.of_nat (length pre) + 3)) n (pre ++ ([x] ++ [y; z] ++ v) ++ post) = v) as Hval.
  { intros. replace (pre ++ ([x] ++ [y; z] ++ v) ++ post)
      with ((pre ++ [x; y; z]) ++ v ++ post) by (by rewrite <- !app_assoc).
    by rewrite slice_app by (rewrite ?length_app; simpl; lia). }
  unfold KFSW_COMMAND_TYPE_U32, KFSW_COMMAND_TYPE_I32, KFSW_COMMAND_TYPE_TEXT,
    KFSW_COMMAND_MAX_TEXT_SIZE.
  destruct a as [v|v|[t|]|]; cbn [arg_frame arg_ok args_text omap list_omap length] in *; [| | |done..].
  - destruct (put_be16_shape 4) as (y & z & Ep & _ & Eg). rewrite Ep in *.
    destruct (put_be32_shape v) as (b1 & b2 & b3 & b4 & Ep' & _ & Eg'). rewrite Ep' in *.
    rewrite Nat2Z.id, Htype, Hlen, Eg. rewrite ?length_app in *; simpl length in *.
    change (u16 4) with 4. decide_guards. unfold get_be32. rewrite (Hval _ _ _ [b1; b2; b3; b4]) by done.
    rewrite Eg', u32_id by done. simpl length. f_equal; lia.
  - destruct (put_be16_shape 4) as (y & z & Ep & _ & Eg). rewrite Ep in *.
    destruct (put_be32_shape (u32 v)) as (b1 & b2 & b3 & b4 & Ep' & _ & Eg'). rewrite Ep' in *.
    rewrite Nat2Z.id, Htype, Hlen, Eg. rewrite ?length_app in *; simpl length in *.
    change (u16 4) with 4. decide_guards. unfold get_be32. rewrite (Hval _ _ _ [b1; b2; b3; b4]) by done.
    rewrite Eg', (u32_id (u32 v)), i32_u32 by (done || apply u32_range). simpl length. f_equal; lia.
  - destruct Ha as [Hs Hl]. unfold KFSW_COMMAND_MAX_TEXT_SIZE in Hl.
    destruct (put_be16_shape (zlen t)) as (y & z & Ep & _ & Eg). rewrite Ep in *.
    rewrite Nat2Z.id, Htype, Hlen, Eg, u16_id by (unfold zlen in *; clia). unfold zlen in *. rewrite ?length_app in *; simpl length in *.
    rewrite Nat2Z.id, Hval by done. rewrite (proj2 (mem_has_false 0 t)).
    + decide_guards. simpl length. f_equal; lia.
    + intros Hin. eapply Forall_forall in Hs; [|exact Hin]. lia.
Qed.

Lemma decode_args_loop_spec args index m_size pre post ti args0 text :
  Forall arg_ok args → (index + length args <= length args0)%nat →
  zlen pre + zlen (args_frame args) <= m_size →
  ∃ text', decode_args_loop (length args) index m_size (pre ++ args_frame args ++ post)
             (zlen pre) ti args0 text =
    (0, zlen pre + zlen (args_frame args), buf_put index args args0, text').
Proof.
  intros Hok. revert pre index ti args0 text.
  induction Hok as [|a args Ha _ IH]; intros pre index ti args0 text Hi Hsz.
  { exists text. rewrite buf_put_nil. cbn. do 2 f_equal. f_equal. unfold zlen; simpl; lia. }
  rewrite args_frame_cons in *. unfold zlen in *. rewrite length_app in *.
  cbn [length]. rewrite <- app_assoc. rewrite (decode_arg_step a) by (done || unfold zlen; lia).
  rewrite (app_assoc pre).
  replace (zlen pre + zlen (arg_frame a)) with (zlen (pre ++ arg_frame a))
    by (unfold zlen; rewrite length_app; lia).
  simpl length in Hi.
  edestruct IH as [text' E]; [| |exists text'; unfold zlen; rewrite E].
  - rewrite length_insert. lia.
  - rewrite length_app. lia.
  - rewrite insert_buf_put by lia. replace (S index) with (index + length [a])%nat by (simpl; lia).
    rewrite buf_put_app by (simpl; lia). cbn [app]. rewrite length_app. f_equal. f_equal. f_equal. lia.
Qed.

Lemma encode_args_ok args p capacity old :
  Forall arg_ok args → zlen args <= KFSW_COMMAND_MAX_ARGS →
  zlen (args_frame args) <= capacity → capacity <= zlen p → capacity < 2 ^ 16 →
  kfsw_command_encode_args (Some args) (zlen args) (Some p) capacity (Some old) =
    (0, Some (buf_put 0 (args_frame args) p), Some (zlen (args_frame args))).
Proof.
  intros Hok Hn Hc Hp H16. unfold kfsw_command_encode_args.
  rewrite bool_decide_false, andb_false_r by done. decide_guards. cbn [from_option id].
  rewrite take_ge by (unfold zlen; lia).
  pose proof (encode_args_loop_spec args capacity p 0 Hok ltac:(lia) Hp) as E.
  change (Z.of_nat 0) with 0 in E. rewrite E. cbn [Z.eqb]. rewrite Z.add_0_l.
  rewrite u16_id; [done|]. unfold zlen in *. clia.
Qed.

Lemma decode_args_ok m args post args0 text max_args :
  Forall arg_ok args → msg_arg_count m = zlen args → zlen args <= max_args →
  max_args <= zlen args0 →
  msg_payload m = Some (args_frame args ++ post) → msg_payload_size m = zlen (args_frame args) →
  ∃ text', kfsw_command_decode_args (Some m) (Some args0) max_args (Some text) =
    (zlen args, Some (buf_put 0 args args0), Some text').
Proof.
  intros Hok Hc Hm Ha Hp Hs. unfold kfsw_command_decode_args. rewrite Hc, Hp, Hs. decide_guards.
  destruct (decode_args_loop_spec args 0 (zlen (args_frame args)) [] post 0 args0 text)
    as [text' E]; [done|unfold zlen in *; simpl; lia|unfold zlen; simpl; lia|].
  cbn [app] in E. change (zlen (@nil Z)) with 0 in E. unfold zlen at 1. rewrite Nat2Z.id.
  cbn [from_option id]. rewrite E. exists text'. cbn [Z.eqb negb]. rewrite Z.add_0_l, Z.eqb_refl. done.
Qed.
End args_proofs.

(** ** The codec *)

Section command_codec.
Context {BO : ByteOrder}.

(** Version zero selects the legacy version when encoding. *)
Definition normal_message (m : kfsw_command_message) : kfsw_command_message :=
  if msg_version m =? 0 then {|
    msg_version := KFSW_COMMAND_PROTOCOL_VERSION; msg_token := 0; msg_opcode := msg_opcode m;
    msg_status := msg_status m; msg_arg_count := msg_arg_count m;
    msg_command_id := msg_command_id m; msg_request_id := msg_request_id m;
    msg_payload_size := msg_payload_size m; msg_payload := msg_payload m |}
  else m.

Lemma encode_normal m buffer capacity old :
  kfsw_command_protocol_encode buffer capacity (Some m) old =
  kfsw_command_protocol_encode buffer capacity (Some (normal_message m)) old.
Proof.
  unfold normal_message. destruct (msg_version m =? 0) eqn:E; [|done].
  unfold kfsw_command_protocol_encode. destruct buffer as [buf|], old as [old|]; try done.
  cbn -[put_be16 put_be64 buf_put mem_set Z.add]. by rewrite E.
Qed.

Lemma frame_read l m :
  bytes l → read_message l = Some m → message_wf m ∧ command_frame m = l.
Proof.
  unfold read_message. intros Hl H.
  destruct (kfsw_command_protocol_decode _ _ _) as [rc o] eqn:E.
  destruct (rc =? 0) eqn:Er; [|done]. apply Z.eqb_eq in Er as ->. subst o.
  by eapply frame_decode.
Qed.

#[export] Instance command_codec : WireCodec kfsw_command_message := {
  wire_wf := message_wf; wire_frame := command_frame; wire_read := read_message;
  wire_read_frame := encode_keeps_reading; wire_frame_read := frame_read }.
End command_codec.

(** ** Properties *)

(** a message the service may send is encoded into exactly the bytes it
    announces, nothing past them is touched, and the receiver decodes those bytes
    into the same message (version zero having become version one). *)
Theorem command_message_roundtrip {BO : ByteOrder} m buf capacity old any :
  message_wf (normal_message m) →
  message_header (normal_message m) + msg_payload_size m <= capacity → capacity <= zlen buf →
  ∃ frame, kfsw_command_protocol_encode (Some buf) capacity (Some m) (Some old) =
             (0, Some (frame ++ drop (length frame) buf), Some (zlen frame)) ∧
    kfsw_command_protocol_decode (Some frame) (zlen frame) (Some any) =
      (0, Some (normal_message m)).
Proof.
  intros Hwf Hc Hb. exists (command_frame (normal_message m)).
  assert (msg_payload_size (normal_message m) = msg_payload_size m) as Hs
    by (unfold normal_message; by case_match).
  split; [|by apply decode_frame]. rewrite encode_normal.
  rewrite encode_frame by (done || lia). by rewrite frame_length.
Qed.

(** C26: the decoder accepts only canonical frames: whenever it returns zero, the
    message is one the encoder could have sent and the packet is its frame, byte
    for byte. A declared length that disagrees with the packet, a reserved byte, an
    unknown opcode or version never gets through. *)
Theorem command_decode_canonical {BO : ByteOrder} l any m :
  bytes l →
  kfsw_command_protocol_decode (Some l) (zlen l) (Some any) = (0, Some m) →
  message_wf m ∧ command_frame m = l.
Proof. apply frame_decode. Qed.

(** C25: the arguments a front end encodes into a request are the arguments the
    server decodes from it, in order, with their types; the rest of the caller's
    array is untouched. *)
Theorem command_args_roundtrip {BO : ByteOrder} args p capacity old m args0 text max_args :
  Forall arg_ok args → zlen args <= KFSW_COMMAND_MAX_ARGS →
  zlen (args_frame args) <= capacity → capacity <= zlen p → capacity < 2 ^ 16 →
  zlen args <= max_args → max_args <= zlen args0 →
  ∃ p', kfsw_command_encode_args (Some args) (zlen args) (Some p) capacity (Some old) =
          (0, Some p', Some (zlen (args_frame args))) ∧
    (msg_payload m = Some p' → msg_payload_size m = zlen (args_frame args) →
     msg_arg_count m = zlen args →
     ∃ text', kfsw_command_decode_args (Some m) (Some args0) max_args (Some text) =
       (zlen args, Some (args ++ drop (length args) args0), Some text')).
Proof.
  intros Hok Hn Hc Hp H16 Hm Ha. eexists. split; [by apply encode_args_ok|].
  intros Hpl Hps Hac.
  exact (decode_args_ok m args _ args0 text max_args Hok Hac Hm Ha Hpl Hps).
Qed.

Section command_protocol_witnesses.
#[local] Existing Instance big_endian.

Definition sample_request : kfsw_command_message := {|
  msg_version := 0; msg_token := 9; msg_opcode := KFSW_COMMAND_OP_REQUEST; msg_status := 0;
  msg_arg_count := 1; msg_command_id := 300; msg_request_id := 7; msg_payload_size := 7;
  msg_payload := Some [1; 0; 4; 0; 0; 1; 44] |}.

Lemma sample_request_wf : message_wf (normal_message sample_request).
Proof.
  unfold message_wf, normal_message, sample_request. cbn. split; [by left|].
  repeat split; try (vm_compute; congruence).
  exists [1; 0; 4; 0; 0; 1; 44]. repeat split; try (vm_compute; congruence).
  apply (bool_decide_unpack _). vm_compute. exact I.
Qed.

Lemma command_message_roundtrip_witness :
  ∃ frame,
    kfsw_command_protocol_decode (Some frame) (zlen frame) (Some sample_request) =
      (0, Some (normal_message sample_request)).
Proof.
  destruct (command_message_roundtrip sample_request (replicate 64 7) 64 0 sample_request
    sample_request_wf ltac:(vm_compute; congruence) ltac:(vm_compute; congruence))
    as (frame & _ & H). exists frame. exact H.
Defined.

Lemma command_decode_canonical_witness :
  command_frame (normal_message sample_request) =
    [1; 1; 0; 1; 1; 44; 0; 7; 0; 7; 0; 0; 1; 0; 4; 0; 0; 1; 44].
Proof.
  eapply (command_decode_canonical _ sample_request).
  - apply (bool_decide_unpack _). vm_compute. exact I.
  - vm_compute. reflexivity.
Defined.

Lemma command_args_roundtrip_witness :
  let args := [ArgU32 70000; ArgText (Some [104; 107]); ArgI32 (-2)] in
  (kfsw_command_encode_args (Some args) 3 (Some (replicate 40 0)) 40 (Some 0)).1.1 = 0.
Proof.
  intros args.
  destruct (command_args_roundtrip args (replicate 40 0) 40 0 sample_request
    (replicate 4 inhabitant) [] 4) as (p' & E & _).
  - apply (bool_decide_unpack _). vm_compute. exact I.
  - vm_compute. congruence.
  - vm_compute. congruence.
  - vm_compute. congruence.
  - vm_compute. congruence.
  - vm_compute. congruence.
  - vm_compute. congruence.
  - change (zlen args) with 3 in E. rewrite E. reflexivity.
Defined.
End command_protocol_witnesses.
