(* ===== verification/Command.v ===== *)
(** * Command service ([src/command/command.c])

    The registry, fixed by [kfsw_command_init], is kept apart from the state the
    handlers run on. A handler is a function on the whole state: it may take the
    claim, invoke other commands or act on the rest of the system ([W]). The thread
    an operation runs in is the argument [self]. *)

From S2P Require Import Prelude Bytes CStdlib Event CommandProtocol.

(** [CONFIG_KFSW_COMMAND_MAX_COMMANDS] and its Kconfig range. *)
Class CommandConfig := {
  COMMAND_MAX_COMMANDS : Z;
  COMMAND_MAX_COMMANDS_range : 4 <= COMMAND_MAX_COMMANDS <= 64;
}.
#[program] Definition command_config_default : CommandConfig := {| COMMAND_MAX_COMMANDS := 16 |}.
Next Obligation. lia. Qed.

Definition KFSW_COMMAND_OK : Z := 0.
Definition KFSW_COMMAND_UNKNOWN : Z := 1.
Definition KFSW_COMMAND_INVALID_ARGUMENT : Z := 2.
Definition KFSW_COMMAND_DENIED : Z := 3.
Definition KFSW_COMMAND_BUSY : Z := 4.
Definition KFSW_COMMAND_FAILED : Z := 5.
Definition KFSW_COMMAND_UNAVAILABLE : Z := 6.

Definition KFSW_EVENT_COMMAND_INVOKED : Z := 1.
Definition KFSW_EVENT_COMMAND_UNKNOWN : Z := 2.
Definition KFSW_EVENT_COMMAND_REJECTED : Z := 3.

Definition KFSW_COMMAND_CLAIM_SHARED : Z := 0.
Definition KFSW_COMMAND_CLAIM_EXCLUSIVE : Z := 1.
Definition KFSW_COMMAND_CLAIM_NAME_MAX : Z := 32.

Definition KFSW_COMMAND_TIMEOUT_MIN_MS : Z := 1000.
Definition KFSW_COMMAND_TIMEOUT_MAX_MS : Z := 120000.

Record kfsw_command_source := {
  src_node : Z; src_authenticated : bool; src_via_csp : bool;
}.
(** [detail] is the array of 96 characters. *)
Record kfsw_command_result := { res_status : Z; res_detail : list Z }.

(** The static [claim]. [claim_name] is the string in the array. *)
Record command_claim := {
  claim_owner : option Z; claim_mode : Z; claim_name : list Z;
  claim_intrusions : Z; claim_refusals : Z; claim_held : bool;
}.
Record kfsw_command_claim_state := {
  cs_held : bool; cs_mode : Z; cs_owner : list Z; cs_intrusions : Z; cs_refusals : Z;
}.
Record kfsw_command_stats := {
  cst_invoked : Z; cst_failed : Z; cst_unknown : Z; cst_rejected : Z; cst_registered : Z;
}.

(** The file's objects that change after startup, and the rest of the system. *)
Record command_state (W : Type) := {
  claim : command_claim;
  command_invoked : Z; command_failed : Z; command_unknown : Z; command_rejected : Z;
  command_timeout_ms : Z;
  command_echo_enabled : Z;
  command_echo_handler : option (bool → W → W);
  world : W;
}.
Arguments claim {W}. Arguments world {W}.
Arguments command_invoked {W}. Arguments command_failed {W}.
Arguments command_unknown {W}. Arguments command_rejected {W}.
Arguments command_timeout_ms {W}. Arguments command_echo_enabled {W}.
Arguments command_echo_handler {W}.

Definition kfsw_command_handler_t (W : Type) : Type :=
  list kfsw_command_arg → Z → kfsw_command_source → kfsw_command_result →
  command_state W → Z * kfsw_command_result * command_state W.

Record kfsw_command_definition (W : Type) := {
  def_id : Z;
  def_name : option (list Z);
  def_help : option (list Z);
  def_flags : Z;
  def_arg_count : Z;
  def_arg_types : option (list Z);
  def_handler : option (kfsw_command_handler_t W);
}.
Arguments def_id {W}. Arguments def_name {W}. Arguments def_help {W}. Arguments def_flags {W}.
Arguments def_arg_count {W}. Arguments def_arg_types {W}. Arguments def_handler {W}.

Record kfsw_command_definition_set (W : Type) := {
  set_commands : option (list (kfsw_command_definition W)); set_count : Z;
}.
Arguments set_commands {W}. Arguments set_count {W}.

Record kfsw_command_info := {
  info_id : Z; info_name : option (list Z); info_help : option (list Z); info_flags : Z;
  info_arg_count : Z; info_arg_types : option (list Z);
}.

(** The first [registry_count] entries of the array, and [registry_ready]. *)
Record command_registry (W : Type) := {
  registry : list (kfsw_command_definition W); registry_ready : bool;
}.
Arguments registry {W}. Arguments registry_ready {W}.

Definition kfsw_command_status_name (status : Z) : string :=
  if status =? KFSW_COMMAND_OK then "ok"
  else if status =? KFSW_COMMAND_UNKNOWN then "unknown command"
  else if status =? KFSW_COMMAND_INVALID_ARGUMENT then "invalid argument"
  else if status =? KFSW_COMMAND_DENIED then "denied"
  else if status =? KFSW_COMMAND_BUSY then "busy"
  else if status =? KFSW_COMMAND_UNAVAILABLE then "service unavailable"
  else "failed".

(** ** The registry *)

Section registry.
Context {CC : CommandConfig} {W : Type}.
Abbreviation definition := (kfsw_command_definition W).
Implicit Types (d : definition) (reg : list definition) (r : command_registry W).

Definition find_by_id (id : Z) reg : option definition :=
  List.find (λ d, def_id d =? id) reg.

Definition name_is (name : list Z) d : bool :=
  match def_name d with Some n => str_eq n name | None => false end.
Definition find_by_name (name : list Z) reg : option definition :=
  List.find (name_is name) reg.

Definition validate_definition d reg : Z :=
  match def_name d with
  | None => - EINVAL
  | Some name =>
      if (char_at name 0 =? 0) || bool_decide (¬ is_Some (def_handler d)) then - EINVAL
      else if def_arg_count d >? KFSW_COMMAND_MAX_ARGS then - E2BIG
      else if negb (def_arg_count d =? 0) && bool_decide (def_arg_types d = None) then - EINVAL
      else if negb (terminated_within name KFSW_COMMAND_MAX_TEXT_SIZE) then - ENAMETOOLONG
      else if bool_decide (is_Some (find_by_id (def_id d) reg))
              || bool_decide (is_Some (find_by_name name reg)) then - EEXIST
      else 0
  end.

(** The inner loop of [kfsw_command_init]. *)
Fixpoint init_commands (ds reg : list definition) : Z * list definition :=
  match ds with
  | [] => (0, reg)
  | d :: ds =>
      let result := validate_definition d reg in
      if negb (result =? 0) then (result, [])
      else if zlen reg =? COMMAND_MAX_COMMANDS then (- ENOSPC, [])
      else init_commands ds (reg ++ [d])
  end.

(** The outer loop. *)
Fixpoint init_sets (sets : list (option (kfsw_command_definition_set W))) reg
    : Z * command_registry W :=
  match sets with
  | [] => (0, {| registry := reg; registry_ready := true |})
  | None :: _ => (- EINVAL, {| registry := reg; registry_ready := false |})
  | Some set :: sets =>
      if negb (set_count set =? 0) && bool_decide (¬ is_Some (set_commands set))
      then (- EINVAL, {| registry := reg; registry_ready := false |})
      else
        let '(result, reg') :=
          init_commands (take (Z.to_nat (set_count set)) (default [] (set_commands set))) reg in
        if negb (result =? 0) then (result, {| registry := reg'; registry_ready := false |})
        else init_sets sets reg'
  end.

Definition kfsw_command_init
    (sets : option (list (option (kfsw_command_definition_set W)))) (count : Z) r
    : Z * command_registry W :=
  match sets with
  | None => if negb (count =? 0) then (- EINVAL, r) else init_sets [] []
  | Some sets => init_sets (take (Z.to_nat count) sets) []
  end.

Definition kfsw_command_is_initialized r : bool := registry_ready r.

Definition describe d : kfsw_command_info := {|
  info_id := def_id d; info_name := def_name d; info_help := def_help d;
  info_flags := def_flags d; info_arg_count := def_arg_count d;
  info_arg_types := def_arg_types d |}.

Fixpoint visit_commands {C} (visitor : kfsw_command_info → C → C * bool) reg (c : C) : C :=
  match reg with
  | [] => c
  | d :: reg =>
      let '(c', more) := visitor (describe d) c in
      if more then visit_commands visitor reg c' else c'
  end.
Definition kfsw_command_visit {C} (visitor : option (kfsw_command_info → C → C * bool)) r (c : C)
    : C :=
  match visitor with
  | None => c
  | Some visitor => if negb (registry_ready r) then c else visit_commands visitor (registry r) c
  end.

Definition kfsw_command_find (name : option (list Z)) (info : option kfsw_command_info) r
    : Z * option kfsw_command_info :=
  match name, info with
  | Some name, Some _ =>
      if negb (registry_ready r) then (- EACCES, info)
      else match find_by_name name (registry r) with
           | None => (- ENOENT, info)
           | Some d => (0, Some (describe d))
           end
  | _, _ => (- EINVAL, info)
  end.

Definition kfsw_command_lookup_id (name : option (list Z)) (id : option Z) r : Z * option Z :=
  match name, id with
  | Some name, Some _ =>
      if negb (registry_ready r) then (- EACCES, id)
      else match find_by_name name (registry r) with
           | None => (- ENOENT, id)
           | Some d => (0, Some (def_id d))
           end
  | _, _ => (- EINVAL, id)
  end.

(** A test that returns on the first argument that fails it. *)
Definition arg_accepted d (args : list kfsw_command_arg) (index : nat) : bool :=
  negb (negb (arg_type (args !!! index) =? default [] (def_arg_types d) !!! index))
  && negb (bool_decide (args !!! index = ArgText None)).
Definition check_arguments d (args : list kfsw_command_arg) (arg_count : Z) : Z :=
  if negb (arg_count =? def_arg_count d) then KFSW_COMMAND_INVALID_ARGUMENT
  else if forallb (arg_accepted d args) (seq 0 (Z.to_nat arg_count)) then KFSW_COMMAND_OK
  else KFSW_COMMAND_INVALID_ARGUMENT.
End registry.

Section parse.
Context {CL : CLong}.

(** After a refusal the destination has the new tag and its old value, which
    no caller reads: [ArgOther type]. *)
Definition kfsw_command_parse_arg (text : option (list Z)) (type : Z)
    (arg : option kfsw_command_arg) : Z * option kfsw_command_arg :=
  match text, arg with
  | Some text, Some _ =>
      let stale := Some (ArgOther type) in
      if type =? KFSW_COMMAND_TYPE_U32 then
        let number := skip_spaces text in
        if char_at number 0 =? 45 then (- EINVAL, stale)
        else
          let '(parsed, rest, erange) := strtoul number 0 in
          if erange || (zlen rest =? zlen number) || negb (char_at rest 0 =? 0)
             || (parsed >? UINT32_MAX) then (- EINVAL, stale)
          else (0, Some (ArgU32 (u32 parsed)))
      else if type =? KFSW_COMMAND_TYPE_I32 then
        let '(parsed, rest, erange) := strtol text 0 in
        if erange || (zlen rest =? zlen text) || negb (char_at rest 0 =? 0)
           || (parsed >? INT32_MAX) || (parsed <? INT32_MIN) then (- EINVAL, stale)
        else (0, Some (ArgI32 (i32 parsed)))
      else if type =? KFSW_COMMAND_TYPE_TEXT then
        if negb (terminated_within text (KFSW_COMMAND_MAX_TEXT_SIZE + 1))
        then (- ENAMETOOLONG, stale)
        else (0, Some (ArgText (Some text)))
      else (- ENOTSUP, stale)
  | _, _ => (- EINVAL, arg)
  end.
End parse.

(** ** The claim *)

(** [snprintf] of a text into an array: the text is cut to leave its terminator. *)
Definition snprintf (dst text : list Z) : list Z :=
  buf_put 0 (str_truncate text (length dst) ++ [0]) dst.

Definition foreign (self : Z) (c : command_claim) : bool :=
  claim_held c && negb (bool_decide (claim_owner c = Some self)).

(** [check_claim] on the claim and the result; [None] is the shared answer 0. *)
Definition check_claim {W} (self : Z) (d : kfsw_command_definition W) (c : command_claim)
    (result : kfsw_command_result) : Z * kfsw_command_result * command_claim :=
  if foreign self c then
    if claim_mode c =? KFSW_COMMAND_CLAIM_EXCLUSIVE then
      (- EBUSY,
       {| res_status := KFSW_COMMAND_BUSY;
          res_detail := snprintf (res_detail result)
            (default [] (def_name d) ++ cstr " refused while " ++ claim_name c ++ cstr " runs") |},
       {| claim_owner := claim_owner c; claim_mode := claim_mode c; claim_name := claim_name c;
          claim_intrusions := claim_intrusions c;
          claim_refusals := sat_inc (claim_refusals c); claim_held := claim_held c |})
    else
      (0, result,
       {| claim_owner := claim_owner c; claim_mode := claim_mode c; claim_name := claim_name c;
          claim_intrusions := sat_inc (claim_intrusions c);
          claim_refusals := claim_refusals c; claim_held := claim_held c |})
  else (0, result, c).

Definition claim_acquire (self : Z) (mode : Z) (owner : option (list Z)) (c : command_claim)
    : Z * command_claim :=
  match owner with
  | None => (- EINVAL, c)
  | Some owner =>
      if (char_at owner 0 =? 0) || negb (terminated_within owner KFSW_COMMAND_CLAIM_NAME_MAX)
      then (- EINVAL, c)
      else if foreign self c then (- EBUSY, c)
      else (0, {| claim_owner := Some self; claim_mode := mode; claim_name := owner;
                  claim_intrusions := if negb (claim_held c) then 0 else claim_intrusions c;
                  claim_refusals := if negb (claim_held c) then 0 else claim_refusals c;
                  claim_held := true |})
  end.

Definition claim_release (self : Z) (c : command_claim) : Z * command_claim :=
  if foreign self c then (- EPERM, c)
  else (0, {| claim_owner := None; claim_mode := claim_mode c; claim_name := claim_name c;
              claim_intrusions := claim_intrusions c; claim_refusals := claim_refusals c;
              claim_held := false |}).

Definition claim_get (state : option kfsw_command_claim_state) (c : command_claim)
    : Z * option kfsw_command_claim_state :=
  match state with
  | None => (- EINVAL, None)
  | Some _ => (0, Some {|
      cs_held := claim_held c; cs_mode := claim_mode c;
      cs_owner := if claim_held c then claim_name c else [];
      cs_intrusions := claim_intrusions c; cs_refusals := claim_refusals c |})
  end.

(** ** Dispatch *)

Section dispatch.
Context {BO : ByteOrder} {W : Type} {ES : EventSink W}.
(** The uptime in microseconds, when an event is stamped. *)
Variable clock : W → Z.
Abbreviation state := (command_state W).
Abbreviation definition := (kfsw_command_definition W).
Implicit Types (s : state) (d : definition) (r : command_registry W).

Definition set_claim (c : command_claim) s : state := {|
  claim := c; command_invoked := command_invoked s; command_failed := command_failed s;
  command_unknown := command_unknown s; command_rejected := command_rejected s;
  command_timeout_ms := command_timeout_ms s; command_echo_enabled := command_echo_enabled s;
  command_echo_handler := command_echo_handler s; world := world s |}.
Definition set_world (w : W) s : state := {|
  claim := claim s; command_invoked := command_invoked s; command_failed := command_failed s;
  command_unknown := command_unknown s; command_rejected := command_rejected s;
  command_timeout_ms := command_timeout_ms s; command_echo_enabled := command_echo_enabled s;
  command_echo_handler := command_echo_handler s; world := w |}.

(** [atomic_inc] wraps; the readers truncate to 32 bits. *)
Definition count_outcome (status : Z) s : state := {|
  claim := claim s;
  command_invoked := u32 (command_invoked s + 1);
  command_failed :=
    if (status =? KFSW_COMMAND_UNKNOWN) || (status =? KFSW_COMMAND_DENIED)
       || (status =? KFSW_COMMAND_OK)
    then command_failed s else u32 (command_failed s + 1);
  command_unknown :=
    if status =? KFSW_COMMAND_UNKNOWN then u32 (command_unknown s + 1) else command_unknown s;
  command_rejected :=
    if status =? KFSW_COMMAND_DENIED then u32 (command_rejected s + 1) else command_rejected s;
  command_timeout_ms := command_timeout_ms s; command_echo_enabled := command_echo_enabled s;
  command_echo_handler := command_echo_handler s; world := world s |}.

Definition record_outcome (event_id command_id : Z) (source : kfsw_command_source)
    (status : Z) s : state :=
  let payload := put_be16 command_id ++ put_be16 (src_node source) ++ [u8 status] in
  set_world
    (sink_emit (clock (world s)) KFSW_EVENT_SOURCE_COMMAND event_id
       (if status =? KFSW_COMMAND_OK then KFSW_EVENT_INFO else KFSW_EVENT_WARNING)
       (Some payload) 5 (world s))
    (count_outcome status s).

Definition kfsw_command_claim_acquire (self mode : Z) (owner : option (list Z)) s : Z * state :=
  let '(rc, c) := claim_acquire self mode owner (claim s) in (rc, set_claim c s).
Definition kfsw_command_claim_release (self : Z) s : Z * state :=
  let '(rc, c) := claim_release self (claim s) in (rc, set_claim c s).
Definition kfsw_command_claim_get (state : option kfsw_command_claim_state) s
    : Z * option kfsw_command_claim_state := claim_get state (claim s).

Definition result_zero : kfsw_command_result :=
  {| res_status := 0; res_detail := replicate (Z.to_nat KFSW_COMMAND_MAX_DETAIL_SIZE) 0 |}.
Definition with_status (status : Z) (res : kfsw_command_result) : kfsw_command_result :=
  {| res_status := status; res_detail := res_detail res |}.

(** A validated definition has a handler. *)
Definition call_handler d : kfsw_command_handler_t W :=
  default (λ _ _ _ res s, (0, res, s)) (def_handler d).

Definition dispatch (self : Z) r (definition : option definition)
    (args : list kfsw_command_arg) (arg_count : Z) (source : kfsw_command_source) s
    : Z * kfsw_command_result * state :=
  if negb (registry_ready r) then
    (- EACCES, with_status KFSW_COMMAND_UNAVAILABLE result_zero, s)
  else
    match definition with
    | None =>
        (- ENOENT, with_status KFSW_COMMAND_UNKNOWN result_zero,
         record_outcome KFSW_EVENT_COMMAND_UNKNOWN 0 source KFSW_COMMAND_UNKNOWN s)
    | Some d =>
        let status := check_arguments d args arg_count in
        if negb (status =? KFSW_COMMAND_OK) then
          (- EINVAL, with_status status result_zero,
           record_outcome KFSW_EVENT_COMMAND_REJECTED (def_id d) source status s)
        else
          let '(outcome, result, c) :=
            check_claim self d (claim s) (with_status status result_zero) in
          let s := set_claim c s in
          if negb (outcome =? 0) then
            (- EBUSY, result,
             record_outcome KFSW_EVENT_COMMAND_REJECTED (def_id d) source
               (res_status result) s)
          else
            let '(handler_result, result, s) := call_handler d args arg_count source result s in
            let result :=
              if negb (handler_result =? 0) && (res_status result =? KFSW_COMMAND_OK)
              then with_status KFSW_COMMAND_FAILED result else result in
            (handler_result, result,
             record_outcome KFSW_EVENT_COMMAND_INVOKED (def_id d) source
               (res_status result) s)
    end.

Definition local_source : kfsw_command_source :=
  {| src_node := 0; src_authenticated := false; src_via_csp := false |}.

Definition kfsw_command_invoke (self : Z) r (name : option (list Z))
    (args : list kfsw_command_arg) (arg_count : Z) (result : option kfsw_command_result) s
    : Z * option kfsw_command_result * state :=
  match name, result with
  | Some name, Some _ =>
      let '(rc, res, s) :=
        dispatch self r (find_by_name name (registry r)) args arg_count local_source s in
      (rc, Some res, s)
  | _, _ => (- EINVAL, result, s)
  end.

Definition kfsw_command_invoke_id (self : Z) r (id : Z)
    (args : list kfsw_command_arg) (arg_count : Z) (source : option kfsw_command_source)
    (result : option kfsw_command_result) s : Z * option kfsw_command_result * state :=
  match result with
  | None => (- EINVAL, result, s)
  | Some _ =>
      let '(rc, res, s) :=
        dispatch self r (find_by_id id (registry r)) args arg_count
          (default local_source source) s in
      (rc, Some res, s)
  end.

Definition kfsw_command_get_stats r (stats : option kfsw_command_stats) s
    : Z * option kfsw_command_stats :=
  match stats with
  | None => (- EINVAL, None)
  | Some _ => (0, Some {|
      cst_invoked := command_invoked s; cst_failed := command_failed s;
      cst_unknown := command_unknown s; cst_rejected := command_rejected s;
      cst_registered := u16 (zlen (registry r)) |})
  end.

Definition kfsw_command_get_timeout_ms s : Z := command_timeout_ms s.
Definition kfsw_command_check_timeout_ms (timeout_ms : Z) : Z :=
  if (timeout_ms <? KFSW_COMMAND_TIMEOUT_MIN_MS) || (timeout_ms >? KFSW_COMMAND_TIMEOUT_MAX_MS)
  then - ERANGE else 0.
Definition kfsw_command_set_timeout_ms (timeout_ms : Z) s : Z * state :=
  let result := kfsw_command_check_timeout_ms timeout_ms in
  if negb (result =? 0) then (result, s)
  else (0, {|
    claim := claim s; command_invoked := command_invoked s; command_failed := command_failed s;
    command_unknown := command_unknown s; command_rejected := command_rejected s;
    command_timeout_ms := timeout_ms; command_echo_enabled := command_echo_enabled s;
    command_echo_handler := command_echo_handler s; world := world s |}).

Definition set_echo_fields (enabled : Z) (handler : option (bool → W → W)) s : state := {|
  claim := claim s; command_invoked := command_invoked s; command_failed := command_failed s;
  command_unknown := command_unknown s; command_rejected := command_rejected s;
  command_timeout_ms := command_timeout_ms s; command_echo_enabled := enabled;
  command_echo_handler := handler; world := world s |}.

Definition kfsw_command_echo_enabled s : bool := negb (command_echo_enabled s =? 0).
Definition apply_echo (handler : option (bool → W → W)) (enabled : bool) s : state :=
  match handler with
  | None => s
  | Some handler => set_world (handler enabled (world s)) s
  end.
Definition kfsw_command_set_echo_handler (handler : option (bool → W → W)) s : state :=
  let s := set_echo_fields (command_echo_enabled s) handler s in
  apply_echo handler (negb (command_echo_enabled s =? 0)) s.
Definition kfsw_command_set_echo (enabled : bool) s : state :=
  let s := set_echo_fields (if enabled then 1 else 0) (command_echo_handler s) s in
  apply_echo (command_echo_handler s) enabled s.

(** The statics before [kfsw_command_init]. *)
Definition claim_boot : command_claim := {|
  claim_owner := None; claim_mode := 0; claim_name := []; claim_intrusions := 0;
  claim_refusals := 0; claim_held := false |}.
Definition command_boot (timeout_ms : Z) (w : W) : state := {|
  claim := claim_boot; command_invoked := 0; command_failed := 0; command_unknown := 0;
  command_rejected := 0; command_timeout_ms := timeout_ms; command_echo_enabled := 0;
  command_echo_handler := None; world := w |}.
End dispatch.

(** ** What a registry holds *)

Section registry_proofs.
Context {CC : CommandConfig} {W : Type}.
Implicit Types (d : kfsw_command_definition W) (reg : list (kfsw_command_definition W)).

Definition definition_ok d : Prop :=
  ∃ name, def_name d = Some name ∧ char_at name 0 ≠ 0 ∧ is_Some (def_handler d) ∧
    def_arg_count d <= KFSW_COMMAND_MAX_ARGS ∧
    (def_arg_count d ≠ 0 → is_Some (def_arg_types d)) ∧
    strlen name < KFSW_COMMAND_MAX_TEXT_SIZE.
Definition registry_ok reg : Prop :=
  Forall definition_ok reg ∧ NoDup (def_id <$> reg) ∧ NoDup (def_name <$> reg).

Lemma find_some {A} (f : A → bool) l x : List.find f l = Some x → x ∈ l ∧ f x = true.
Proof. rewrite list_elem_of_In. apply List.find_some. Qed.

Lemma find_by_id_none id reg : find_by_id id reg = None ↔ id ∉ (def_id <$> reg).
Proof.
  unfold find_by_id. split.
  - intros H. rewrite list_elem_of_fmap. intros (d & -> & Hd%list_elem_of_In).
    apply (find_none _ _ H) in Hd. lia.
  - intros H. destruct (List.find _ reg) eqn:E; [|done]. exfalso. apply find_some in E as [E ?].
    apply H, list_elem_of_fmap. exists k. split; [lia|done].
Qed.

Lemma name_is_true name d : name_is name d = true ↔ def_name d = Some name.
Proof.
  unfold name_is, str_eq. destruct (def_name d); [|done].
  rewrite bool_decide_eq_true. split; congruence.
Qed.

Lemma find_by_name_none name reg : find_by_name name reg = None ↔ Some name ∉ (def_name <$> reg).
Proof.
  unfold find_by_name. split.
  - intros H. rewrite list_elem_of_fmap. intros (d & Hn & Hd%list_elem_of_In).
    apply (find_none _ _ H) in Hd. symmetry in Hn. apply name_is_true in Hn. congruence.
  - intros H. destruct (List.find _ reg) eqn:E; [|done]. exfalso. apply find_some in E as [E Hn].
    apply H, list_elem_of_fmap. exists k. by apply name_is_true in Hn.
Qed.

(** Unique keys: a search finds the one entry that has the key. *)
Lemma find_unique {A B} (key : A → B) (f : A → bool) l x :
  NoDup (key <$> l) → x ∈ l → f x = true → (∀ y, f y = true → key y = key x) →
  List.find f l = Some x.
Proof.
  intros Hnd Hx Hf Hk. induction l as [|y l IH]; [by apply not_elem_of_nil in Hx|].
  simpl in *. apply NoDup_cons in Hnd as [Hy Hnd]. destruct (f y) eqn:E.
  - apply list_elem_of_In in Hx as [->|Hx]; [done|]. exfalso. apply Hy.
    rewrite (Hk y E). by apply list_elem_of_fmap_2, list_elem_of_In.
  - apply elem_of_cons in Hx as [->|Hx]; [congruence|auto].
Qed.

Lemma find_by_id_registered d reg : registry_ok reg → d ∈ reg → find_by_id (def_id d) reg = Some d.
Proof. intros (_ & Hi & _) Hd. apply (find_unique def_id); [done..|lia|intros; lia]. Qed.
Lemma find_by_name_registered d name reg :
  registry_ok reg → d ∈ reg → def_name d = Some name → find_by_name name reg = Some d.
Proof.
  intros (_ & _ & Hn) Hd E. apply (find_unique def_name); [done..|by apply name_is_true|].
  intros y Hy%name_is_true. congruence.
Qed.

Lemma validate_definition_zero d reg :
  validate_definition d reg = 0 ↔
  definition_ok d ∧ (def_id d ∉ (def_id <$> reg)) ∧ (def_name d ∉ (def_name <$> reg)).
Proof.
  unfold validate_definition, definition_ok. destruct (def_name d) as [name|] eqn:En.
  2: { split; [done|]. by intros [(? & ? & _) _]. }
  rewrite <- (find_by_id_none (def_id d)), <- (find_by_name_none name).
  unfold terminated_within. split.
  - intros H. pass_guards H. clear H. rewrite !orb_false_iff in *.
    rewrite !bool_decide_eq_false in *. destruct G as [Gc Gh], G3 as [Gi Gn].
    split_and!; [|by apply eq_None_not_Some..]. exists name. split_and!; try done; try lia.
    + by apply dec_stable.
    + intros Hc. apply andb_false_iff in G1 as [G1|G1]; [lia|].
      rewrite bool_decide_eq_false in G1. by destruct (def_arg_types d).
  - intros [(n & [= <-] & Hc & [h Hh] & Ha & Ht & Hl) [Hi Hn]]. rewrite Hi, Hn, Hh.
    rewrite (proj2 (Z.eqb_neq _ 0)) by done. cbn.
    destruct (def_arg_types d) as [t|]; cbn.
    + rewrite andb_false_r. by decide_guards.
    + destruct (decide (def_arg_count d = 0)) as [->|Hne]; [by decide_guards|].
      by destruct (Ht Hne).
Qed.

Lemma registry_ok_snoc d reg :
  registry_ok (reg ++ [d]) ↔ registry_ok reg ∧ validate_definition d reg = 0.
Proof.
  rewrite validate_definition_zero. unfold registry_ok.
  rewrite Forall_app, !fmap_app, Forall_singleton. cbn. rewrite !NoDup_snoc_iff. tauto.
Qed.

Lemma registry_ok_prefix reg reg' : registry_ok (reg ++ reg') → registry_ok reg.
Proof.
  unfold registry_ok. rewrite Forall_app, !fmap_app, !NoDup_app. naive_solver.
Qed.

Lemma init_commands_zero ds reg reg' :
  registry_ok reg → zlen reg <= COMMAND_MAX_COMMANDS →
  init_commands ds reg = (0, reg') ↔
  reg' = reg ++ ds ∧ registry_ok (reg ++ ds) ∧ zlen (reg ++ ds) <= COMMAND_MAX_COMMANDS.
Proof.
  revert reg. induction ds as [|d ds IH]; intros reg Hok Hl; cbn [init_commands].
  - rewrite app_nil_r. naive_solver.
  - rewrite (cons_middle d reg ds), app_assoc.
    pose proof (registry_ok_snoc d reg) as Hs.
    assert (zlen (reg ++ [d]) = zlen reg + 1) as Hz by (unfold zlen; rewrite length_app; cbn; lia).
    destruct (validate_definition d reg =? 0) eqn:E; cbn.
    + destruct (zlen reg =? COMMAND_MAX_COMMANDS) eqn:F.
      * split; [done|]. intros (_ & _ & Hlen). unfold zlen in *. rewrite !length_app in *. cbn in *. lia.
      * apply IH; [|lia]. apply Hs. split; [done|lia].
    + split; [intros [= Hc]; lia|]. intros (_ & Hr & _).
      apply registry_ok_prefix in Hr. apply Hs in Hr. lia.
Qed.

Definition set_ok (set : option (kfsw_command_definition_set W)) : Prop :=
  match set with
  | None => False
  | Some set => set_count set = 0 ∨ is_Some (set_commands set)
  end.
(** The definitions of the sets, in order. *)
Definition set_definitions (set : option (kfsw_command_definition_set W))
    : list (kfsw_command_definition W) :=
  match set with
  | None => []
  | Some set => take (Z.to_nat (set_count set)) (default [] (set_commands set))
  end.

Lemma init_sets_zero sets reg r :
  registry_ok reg → zlen reg <= COMMAND_MAX_COMMANDS →
  init_sets sets reg = (0, r) ↔
  Forall set_ok sets ∧ r = {| registry := reg ++ concat (set_definitions <$> sets);
                              registry_ready := true |} ∧
  registry_ok (reg ++ concat (set_definitions <$> sets)) ∧
  zlen (reg ++ concat (set_definitions <$> sets)) <= COMMAND_MAX_COMMANDS.
Proof.
  revert reg. induction sets as [|[set|] sets IH]; intros reg Hok Hl; cbn [init_sets fmap list_fmap concat].
  - rewrite app_nil_r. naive_solver.
  - rewrite Forall_cons. cbn [set_ok set_definitions].
    set (ds := take _ _). rewrite app_assoc.
    destruct (negb (set_count set =? 0) && bool_decide (¬ is_Some (set_commands set))) eqn:G.
    { apply andb_true_iff in G as [G1 G2]. apply bool_decide_eq_true in G2.
      split; [done|]. intros [[[?|?] _] _]; [lia|done]. }
    assert (set_count set = 0 ∨ is_Some (set_commands set)) as Hset.
    { apply andb_false_iff in G as [G|G]; [left; lia|right].
      apply bool_decide_eq_false in G. by apply dec_stable. }
    pose proof (init_commands_zero ds reg) as Hc.
    destruct (init_commands ds reg) as [rc reg'] eqn:E. destruct (rc =? 0) eqn:F; cbn.
    + apply Z.eqb_eq in F as ->. destruct (proj1 (Hc reg' Hok Hl) eq_refl) as (-> & Hr & Hl').
      rewrite (IH _ Hr Hl'). naive_solver.
    + split; [intros [= ->]; lia|]. intros (_ & _ & Hr & Hlen).
      assert (rc = 0 ∧ reg' = reg ++ ds) as [-> _]; [|lia].
      assert ((rc, reg') = (0, reg ++ ds)) as [= -> ->]; [|done]. apply Hc; [done..|].
      split_and!; [done|by eapply registry_ok_prefix|].
      unfold zlen in *. rewrite length_app in Hlen. lia.
  - rewrite Forall_cons. cbn. naive_solver.
Qed.

Lemma init_commands_fail ds reg rc reg' : init_commands ds reg = (rc, reg') → rc ≠ 0 → reg' = [].
Proof.
  revert reg. induction ds as [|d ds IH]; intros reg; cbn; [congruence|].
  repeat case_match; intros; simplify_eq; eauto.
Qed.

Lemma init_sets_fail sets reg rc r : init_sets sets reg = (rc, r) → rc ≠ 0 → registry_ready r = false.
Proof.
  revert reg. induction sets as [|[set|] sets IH]; intros reg; cbn; [congruence| |naive_solver].
  repeat case_match; intros; simplify_eq; eauto.
Qed.
End registry_proofs.

(** ** Dispatch and the claim *)

Section dispatch_proofs.
Context {BO : ByteOrder} {W : Type} {ES : EventSink W}.
Variable clock : W → Z.
Implicit Types (s : command_state W) (d : kfsw_command_definition W) (c : command_claim).

(** What the caller of a handler has checked. *)
Definition args_match d (args : list kfsw_command_arg) (arg_count : Z) : Prop :=
  arg_count = def_arg_count d ∧
  ∀ i : nat, Z.of_nat i < arg_count →
    arg_type (args !!! i) = default [] (def_arg_types d) !!! i ∧ args !!! i ≠ ArgText None.

Lemma check_arguments_ok d args n :
  check_arguments d args n = KFSW_COMMAND_OK ↔ args_match d args n.
Proof.
  unfold check_arguments, args_match. destruct (n =? def_arg_count d) eqn:E; cbn.
  2: { split; [done|]. intros [? _]. lia. }
  apply Z.eqb_eq in E. rewrite <- E. destruct (forallb _ _) eqn:F.
  - rewrite forallb_forall in F. split; [|done]. intros _. split; [done|]. intros i Hi.
    specialize (F i ltac:(apply in_seq; lia)). unfold arg_accepted in F.
    apply andb_true_iff in F as [F1 F2]. apply negb_true_iff, bool_decide_eq_false in F2.
    split; [|done]. apply negb_true_iff, negb_false_iff in F1. by apply Z.eqb_eq.
  - split; [done|]. intros [_ H]. apply not_true_iff_false in F. exfalso. apply F.
    apply forallb_forall. intros i Hi%in_seq. destruct (H i) as [H1 H2]; [lia|].
    unfold arg_accepted. rewrite H1, Z.eqb_refl. by rewrite bool_decide_false.
Qed.

(** Another thread holds the path for itself. *)
Definition blocked (self : Z) c : bool :=
  foreign self c && (claim_mode c =? KFSW_COMMAND_CLAIM_EXCLUSIVE).

(** What everyone but the holder may observe to move. *)
Definition same_claim c c' : Prop :=
  claim_owner c' = claim_owner c ∧ claim_mode c' = claim_mode c ∧
  claim_name c' = claim_name c ∧ claim_held c' = claim_held c ∧
  (is_u32 (claim_intrusions c) → claim_intrusions c <= claim_intrusions c') ∧
  (is_u32 (claim_refusals c) → claim_refusals c <= claim_refusals c').

Lemma same_claim_refl c : same_claim c c.
Proof. unfold same_claim. split_and!; intros; first [done | lia]. Qed.

Lemma check_claim_spec self d c res :
  ∃ c' detail,
    check_claim self d c res =
      (if blocked self c then
         (- EBUSY, {| res_status := KFSW_COMMAND_BUSY; res_detail := detail |}, c')
       else (0, res, c')) ∧ same_claim c c'.
Proof.
  unfold check_claim, blocked. destruct (foreign self c); cbn.
  2: { exists c, []. split; [done|apply same_claim_refl]. }
  assert (∀ b r, is_u32 r → r <= (if b : bool then sat_inc r else r)) as Hmono.
  { intros [] r; [apply sat_inc_mono|lia]. }
  destruct (claim_mode c =? KFSW_COMMAND_CLAIM_EXCLUSIVE); [eexists _, _|eexists _, []];
    (split; [reflexivity|]); unfold same_claim; cbn; split_and!; try done;
    first [apply (Hmono true)|apply (Hmono false)].
Qed.

Lemma emit_payload_ok n m v :
  payload_ok (Some (put_be16 n ++ put_be16 m ++ [v])) 5.
Proof.
  split; [lia|]. intros _ l [= <-]. unfold zlen. rewrite !length_app.
  unfold put_be16. rewrite !put_be_length. cbn. lia.
Qed.

(** The event of an outcome is accepted by the event record. *)
Lemma record_outcome_event id cmd src st s :
  sink_ok (world s) →
  let w := world (record_outcome clock id cmd src st s) in
  sink_ok w ∧ ∃ e, last (sink_log w) = Some e ∧
    ev_source e = KFSW_EVENT_SOURCE_COMMAND ∧ ev_id e = id ∧
    ev_severity e = (if st =? KFSW_COMMAND_OK then KFSW_EVENT_INFO else KFSW_EVENT_WARNING).
Proof.
  intros Hok w. split; [apply sink_emit_ok; [apply emit_payload_ok|done]|].
  destruct (sink_records (clock (world s)) KFSW_EVENT_SOURCE_COMMAND id
    (if st =? KFSW_COMMAND_OK then KFSW_EVENT_INFO else KFSW_EVENT_WARNING)
    (Some (put_be16 cmd ++ put_be16 (src_node src) ++ [u8 st])) 5 (world s))
    as (e & Hl & Hs & Hi & Hv).
  - by case_match.
  - done.
  - exists e. split; [exact Hl|]. rewrite Hs, Hi, Hv. split_and!; [done..|by case_match].
Qed.

(** One operation of thread [t] on the claim. *)
Inductive claim_step (t : Z) : command_claim → command_claim → Prop :=
| claim_step_acquire mode owner c : claim_step t c (claim_acquire t mode owner c).2
| claim_step_release c : claim_step t c (claim_release t c).2
| claim_step_invoke d res c : claim_step t c (check_claim t d c res).2.
Definition others_step (holder : Z) c c' : Prop := ∃ t, t ≠ holder ∧ claim_step t c c'.

Lemma same_claim_trans a b c :
  is_u32 (claim_intrusions a) → is_u32 (claim_refusals a) →
  is_u32 (claim_intrusions b) → is_u32 (claim_refusals b) →
  same_claim a b → same_claim b c → same_claim a c.
Proof.
  unfold same_claim. intros ???? (?&?&?&?&Hi&Hr) (?&?&?&?&Hi'&Hr').
  split_and!; try congruence; intros; [specialize (Hi ltac:(done)); specialize (Hi' ltac:(done))
    |specialize (Hr ltac:(done)); specialize (Hr' ltac:(done))]; lia.
Qed.

Lemma foreign_held holder t c :
  claim_held c = true → claim_owner c = Some holder → t ≠ holder → foreign t c = true.
Proof.
  intros Hh Ho Ht. unfold foreign. rewrite Hh, Ho, bool_decide_false; [done|congruence].
Qed.

Lemma others_step_same holder c c' :
  claim_held c = true → claim_owner c = Some holder → others_step holder c c' → same_claim c c'.
Proof.
  intros Hh Ho (t & Ht & Hs). pose proof (foreign_held holder t c Hh Ho Ht) as Hf.
  destruct Hs as [mode owner c|c|d res c]; cbn.
  - unfold claim_acquire. destruct owner; [|apply same_claim_refl].
    case_match; [apply same_claim_refl|]. rewrite Hf. apply same_claim_refl.
  - unfold claim_release. rewrite Hf. apply same_claim_refl.
  - destruct (check_claim_spec t d c res) as (c' & ? & -> & Hsame). by case_match.
Qed.

Definition claim_wf c : Prop := is_u32 (claim_intrusions c) ∧ is_u32 (claim_refusals c).
Lemma claim_step_wf t c c' : claim_step t c c' → claim_wf c → claim_wf c'.
Proof.
  intros Hs [Hi Hr]. destruct Hs as [mode owner c|c|d res c]; cbn.
  - unfold claim_acquire. repeat case_match; done.
  - unfold claim_release. by case_match.
  - unfold check_claim. repeat case_match; split; cbn; auto with kfsw.
Qed.

Lemma others_steps_same holder c c' :
  claim_wf c → claim_held c = true → claim_owner c = Some holder →
  rtc (others_step holder) c c' → same_claim c c' ∧ claim_wf c'.
Proof.
  intros Hwf Hh Ho H. induction H as [c|c c1 c2 Hs _ IH]; [by split; [apply same_claim_refl|]|].
  pose proof (others_step_same holder c c1 Hh Ho Hs) as Hsame.
  destruct Hs as (t & _ & Hs). apply claim_step_wf in Hs as Hwf1; [|done].
  destruct Hsame as (E1 & E2 & E3 & E4 & E5 & E6).
  destruct IH as [Hs2 Hwf2]; [done|congruence|congruence|]. split; [|done].
  destruct Hwf, Hwf1. by eapply (same_claim_trans c c1 c2).
Qed.
End dispatch_proofs.

(** ** Numbers on the console *)

(** ** Properties *)

(** C37: the registry is built exactly when every definition of every set is
    complete, within its bounds and unambiguous, and they all fit; it then holds
    them all in order, without duplicate identifiers or names. After any refusal
    the service stays unavailable. *)
Theorem command_init_spec {CC : CommandConfig} {W} sets count (r0 : command_registry W) :
  let given := take (Z.to_nat count) sets in
  let defs := concat (set_definitions <$> given) in
  let '(rc, r) := kfsw_command_init (Some sets) count r0 in
  (rc = 0 ↔ Forall set_ok given ∧ registry_ok defs ∧ zlen defs <= COMMAND_MAX_COMMANDS) ∧
  (rc = 0 → registry r = defs ∧ registry_ready r = true) ∧
  (rc ≠ 0 → registry_ready r = false).
Proof.
  intros given defs. unfold kfsw_command_init. fold given.
  destruct (init_sets given []) as [rc r] eqn:E.
  assert (registry_ok (W := W) []) as H0 by (split_and!; [done|apply NoDup_nil_2..]).
  assert (zlen (A := kfsw_command_definition W) [] <= COMMAND_MAX_COMMANDS) as H1
    by (pose proof COMMAND_MAX_COMMANDS_range; unfold zlen; cbn; lia).
  pose proof (init_sets_zero given [] r H0 H1) as Hz. cbn [app] in Hz. fold defs in Hz.
  split_and!; [|intros ->; by destruct (proj1 Hz E) as (_ & -> & _)|by apply (init_sets_fail given [])].
  split; [intros ->; by destruct (proj1 Hz E) as (? & _ & ? & ?)|]. intros (H & H2 & H3).
  pose proof (init_sets_zero given [] {| registry := defs; registry_ready := true |} H0 H1) as Hz'.
  cbn [app] in Hz'. fold defs in Hz'. rewrite E in Hz'.
  by injection (proj2 Hz' (conj H (conj eq_refl (conj H2 H3)))).
Qed.

(** the two front ends reach the same command: for every registered command,
    looking its name up gives its identifier, and invoking that name from the
    console does exactly what invoking that identifier locally does. *)
Theorem command_front_ends_agree {CC : CommandConfig} {BO : ByteOrder} {W} {ES : EventSink W}
    clock self (r : command_registry W) d name old args n res s :
  registry_ok (registry r) → registry_ready r = true →
  d ∈ registry r → def_name d = Some name →
  kfsw_command_lookup_id (Some name) (Some old) r = (0, Some (def_id d)) ∧
  kfsw_command_invoke clock self r (Some name) args n (Some res) s =
    kfsw_command_invoke_id clock self r (def_id d) args n None (Some res) s.
Proof.
  intros Hok Hr Hd Hn.
  unfold kfsw_command_lookup_id, kfsw_command_invoke, kfsw_command_invoke_id.
  rewrite Hr, (find_by_name_registered d name) by done.
  by rewrite find_by_id_registered by done.
Qed.


(** C23: otherwise the handler runs once, on arguments that match the declared types
    and a cleared result, in a state where at most the intrusion count of the claim
    has moved. Its answer is the answer of the call; an error never comes back with
    the status that means success, and the outcome is counted and recorded after
    the handler's own effects. *)
Theorem command_handler_runs {BO : ByteOrder} {W} {ES : EventSink W}
    (clock : W → Z) self r d args n src s :
  registry_ready r = true → args_match d args n → blocked self (claim s) = false →
  ∃ c rc hres hs res,
    same_claim (claim s) c ∧
    call_handler d args n src result_zero (set_claim c s) = (rc, hres, hs) ∧
    dispatch clock self r (Some d) args n src s =
      (rc, res, record_outcome clock KFSW_EVENT_COMMAND_INVOKED (def_id d) src
                  (res_status res) hs) ∧
    (rc ≠ 0 → res_status res ≠ KFSW_COMMAND_OK) ∧
    (rc = 0 ∨ res_status hres ≠ KFSW_COMMAND_OK → res = hres) ∧
    res_detail res = res_detail hres.
Proof.
  intros Hr Hm Hb. unfold dispatch. rewrite Hr, (proj2 (check_arguments_ok d args n) Hm).
  cbn [negb Z.eqb KFSW_COMMAND_OK].
  destruct (check_claim_spec self d (claim s) (with_status KFSW_COMMAND_OK result_zero))
    as (c & ? & -> & Hsame).
  rewrite Hb. cbn [Z.eqb negb].
  change (with_status KFSW_COMMAND_OK result_zero) with result_zero.
  destruct (call_handler d args n src result_zero (set_claim c s)) as [[rc hres] hs] eqn:E.
  eexists c, rc, hres, hs, _. split_and!; [done|done|reflexivity|..].
  - intros Hrc. destruct (negb (rc =? 0) && _) eqn:F; [done|].
    apply andb_false_iff in F as [F|F]; lia.
  - intros Hor. destruct (negb (rc =? 0) && _) eqn:F; [|done]. exfalso. lia.
  - by case_match.
Qed.

(** C12: while a thread holds the claim, nothing the other threads do, however often
    they try to take it, release it or invoke through it, takes it away, renames it
    or changes its mode: they only move its counters, upwards. An exclusive claim so
    keeps blocking each of them. *)
Theorem command_claim_exclusion {W} holder c c' self :
  claim_wf c → claim_held c = true → claim_owner c = Some holder →
  rtc (others_step (W := W) holder) c c' →
  claim_held c' = true ∧ claim_owner c' = Some holder ∧ claim_mode c' = claim_mode c ∧
  claim_name c' = claim_name c ∧
  claim_intrusions c <= claim_intrusions c' ∧ claim_refusals c <= claim_refusals c' ∧
  (self ≠ holder → blocked self c' = (claim_mode c =? KFSW_COMMAND_CLAIM_EXCLUSIVE)).
Proof.
  intros Hwf Hh Ho Hs. destruct (others_steps_same holder c c' Hwf Hh Ho Hs)
    as [(E1 & E2 & E3 & E4 & E5 & E6) _].
  destruct Hwf. split_and!; [congruence..|auto|auto|]. intros Hne. unfold blocked.
  rewrite (foreign_held holder), E2 by congruence. done.
Qed.

(** a decimal number typed at the console is converted to its value, and refused
    as soon as it does not fit in 32 bits, whatever the width of [long]: it never
    wraps. *)
Theorem parse_arg_decimal {CL : CLong} ds old :
  forallb isdigit ds = true → ds ≠ [] → char_at ds 0 ≠ 48 →
  kfsw_command_parse_arg (Some ds) KFSW_COMMAND_TYPE_U32 (Some old) =
    if dec_value ds <=? UINT32_MAX then (0, Some (ArgU32 (dec_value ds)))
    else (- EINVAL, Some (ArgOther KFSW_COMMAND_TYPE_U32)).
Proof.
  intros H Hne H0. unfold kfsw_command_parse_arg.
  change (KFSW_COMMAND_TYPE_U32 =? KFSW_COMMAND_TYPE_U32) with true. cbv iota.
  pose proof (scan_decimal ds H Hne H0) as Hscan.
  assert (skip_spaces ds = ds ∧ char_at ds 0 ≠ 45) as [-> H45].
  { destruct ds as [|c ds]; [done|]. cbn in H. apply andb_true_iff in H as [Hc _]. cbn.
    destruct (isdigit_facts c Hc) as [-> _]. split; [done|]. unfold isdigit in Hc. lia. }
  rewrite (proj2 (Z.eqb_neq _ _) H45). unfold strtoul, unsigned_of. rewrite Hscan.
  pose proof (scan_number_nonneg ds 0 _ _ _ ltac:(lia) Hscan) as Hv.
  pose proof long_width_pow as Hp.
  destruct ds as [|c ds]; [done|]. change (zlen [] =? zlen (c :: ds)) with false.
  destruct (dec_value (c :: ds) <? 2 ^ LONG_WIDTH) eqn:F; cbn [orb char_at nth negb Z.eqb].
  - destruct (dec_value (c :: ds) <=? UINT32_MAX) eqn:G.
    + rewrite (u32_id (dec_value _)) by clia. by replace (_ >? _) with false by lia.
    + by replace (dec_value (c :: ds) >? UINT32_MAX) with true by lia.
  - replace (dec_value (c :: ds) <=? UINT32_MAX) with false by clia. done.
Qed.

Section command_witnesses.
#[local] Existing Instance big_endian.
#[local] Existing Instance event_config_default.
#[local] Existing Instance command_config_default.
#[local] Existing Instance clong32.

(** A command that takes one number and answers [FAILED] through its return value. *)
Definition sample_command : kfsw_command_definition event_state := {|
  def_id := 10; def_name := Some (cstr "ping"); def_help := None; def_flags := 0;
  def_arg_count := 1; def_arg_types := Some [KFSW_COMMAND_TYPE_U32];
  def_handler := Some (λ _ _ _ res s, (- EIO, res, s)) |}.
Definition sample_registry : command_registry event_state :=
  {| registry := [sample_command]; registry_ready := true |}.
Definition sample_set : option (kfsw_command_definition_set event_state) :=
  Some {| set_commands := Some [sample_command]; set_count := 1 |}.
Definition sample_state : command_state event_state := command_boot 1000 event_boot.
Definition held_claim : command_claim := {|
  claim_owner := Some 1; claim_mode := KFSW_COMMAND_CLAIM_EXCLUSIVE; claim_name := cstr "fbo";
  claim_intrusions := 0; claim_refusals := 0; claim_held := true |}.

Lemma sample_registry_ok : registry_ok (registry sample_registry).
Proof.
  split_and!; [|apply NoDup_singleton..]. apply Forall_singleton.
  exists (cstr "ping"). split_and!; try done; intros; by eexists.
Qed.

Lemma command_front_ends_agree_witness :
  (kfsw_command_invoke (λ _, 0) 1 sample_registry (Some (cstr "ping")) [ArgU32 3] 1
     (Some result_zero) sample_state).1.1 = - EIO.
Proof.
  destruct (command_front_ends_agree (λ _, 0) 1 sample_registry sample_command (cstr "ping") 0
    [ArgU32 3] 1 result_zero sample_state sample_registry_ok eq_refl
    ltac:(by apply list_elem_of_singleton) eq_refl) as [_ ->].
  vm_compute. reflexivity.
Defined.


Lemma command_handler_runs_witness :
  ∃ res s', dispatch (λ _, 7) 1 sample_registry (Some sample_command) [ArgU32 5] 1 local_source
      sample_state = (- EIO, res, s') ∧ res_status res ≠ KFSW_COMMAND_OK.
Proof.
  destruct (command_handler_runs (λ _, 7) 1 sample_registry sample_command [ArgU32 5] 1
    local_source sample_state eq_refl) as (c & rc & hres & hs & res & _ & Hcall & E & Hst & _).
  - split; [reflexivity|]. intros i Hi. assert (i = 0%nat) as -> by (cbn in *; lia).
    split; [reflexivity|discriminate].
  - reflexivity.
  - injection Hcall as <- _ _. eexists res, _. split; [exact E|apply Hst; discriminate].
Defined.

Lemma command_claim_exclusion_witness :
  let c := (check_claim 2 sample_command held_claim result_zero).2 in
  claim_refusals c = 1 ∧ blocked 3 c = true.
Proof.
  intros c. split; [reflexivity|].
  apply (command_claim_exclusion (W := event_state) 1 held_claim c 3); try done.
  eapply rtc_l; [|apply rtc_refl]. exists 2. split; [done|apply claim_step_invoke].
Defined.

Lemma parse_arg_decimal_witness :
  kfsw_command_parse_arg (Some (cstr "4294967296")) KFSW_COMMAND_TYPE_U32 (Some (ArgOther 0)) =
    (- EINVAL, Some (ArgOther KFSW_COMMAND_TYPE_U32)).
Proof. rewrite parse_arg_decimal; [reflexivity|reflexivity|discriminate|discriminate]. Defined.
End command_witnesses.
