(* ===== verification/CommandRetry.v ===== *)
(** * Command retry cache ([src/command/command_retry.c])

    A client that may lose packets prepares a ticket and then executes it, repeating
    each request until it is answered. The cache is the caller's object; only the
    command server's thread uses it, so a dispatch is one step. A pointer into the
    cache is an index. *)

From S2P Require Import Prelude Bytes Event CommandProtocol Command.

(** [CONFIG_KFSW_COMMAND_RETRY_SLOTS] and [..._RETRY_WINDOW_MS]. *)
Class RetryConfig := {
  RETRY_SLOTS : Z;
  RETRY_SLOTS_range : 2 <= RETRY_SLOTS <= 32;
  RETRY_WINDOW_MS : Z;
  RETRY_WINDOW_MS_range : 1000 <= RETRY_WINDOW_MS <= 600000;
}.
#[program] Definition retry_config_default : RetryConfig :=
  {| RETRY_SLOTS := 8; RETRY_WINDOW_MS := 60000 |}.
Next Obligation. lia. Qed.
Next Obligation. lia. Qed.

Record kfsw_command_ticket := {
  tk_nonce : Z; tk_ticket : Z; tk_expires : Z; tk_source : Z; tk_command : Z;
  tk_request : Z; tk_size : Z; tk_count : Z; tk_complete : bool;
  tk_payload : list Z; tk_result : kfsw_command_result;
}.

#[export] Instance kfsw_command_ticket_inhabited : Inhabited kfsw_command_ticket :=
  populate (Build_kfsw_command_ticket 0 0 0 0 0 0 0 0 false [] (Build_kfsw_command_result 0 [])).

(** The random source fills the value or fails; a zero would mean "no ticket". *)
Definition kfsw_command_retry_random (csprng : option (Z * Z)) : Z * Z :=
  match csprng with
  | None => (- ENOTSUP, 0)
  | Some (result, value) =>
      if negb (result =? 0) then (result, 0)
      else (if value =? 0 then - EIO else 0, value)
  end.

Definition matches (entry : kfsw_command_ticket) (request : kfsw_command_message) : bool :=
  (tk_command entry =? msg_command_id request) && (tk_request entry =? msg_request_id request)
  && (tk_size entry =? msg_payload_size request) && (tk_count entry =? msg_arg_count request)
  && mem_eq (tk_payload entry) (default [] (msg_payload request)) (Z.to_nat (tk_size entry)).

(** An entry that is not free for another ticket. *)
Definition live (now : Z) (candidate : kfsw_command_ticket) : bool :=
  negb ((tk_ticket candidate =? 0) || (now >=? tk_expires candidate)).

(** The entry a request of this source names. *)
Definition selected (source : Z) (request : kfsw_command_message)
    (candidate : kfsw_command_ticket) : bool :=
  (tk_source candidate =? source)
  && (((msg_opcode request =? KFSW_COMMAND_OP_PREPARE)
       && (tk_nonce candidate =? msg_token request))
      || ((msg_opcode request =? KFSW_COMMAND_OP_EXECUTE)
          && (tk_ticket candidate =? msg_token request))).

Record scan_state := {
  sc_free : option nat; sc_entry : option nat; sc_collision : bool;
}.

(** The loop over the cache. *)
Fixpoint retry_scan (source : Z) (request : kfsw_command_message) (new_ticket now : Z)
    (entries : list kfsw_command_ticket) (i : nat) (sc : scan_state) : scan_state :=
  match entries with
  | [] => sc
  | candidate :: entries =>
      retry_scan source request new_ticket now entries (S i)
        (if negb (live now candidate) then
           {| sc_free := match sc_free sc with None => Some i | Some f => Some f end;
              sc_entry := sc_entry sc; sc_collision := sc_collision sc |}
         else
           {| sc_free := sc_free sc;
              sc_entry := if selected source request candidate then Some i else sc_entry sc;
              sc_collision := sc_collision sc || (tk_ticket candidate =? new_ticket) |})
  end.

Definition retry_refused (request : kfsw_command_message) : bool :=
  negb (msg_version request =? 2) || (msg_token request =? 0)
  || negb (msg_status request =? 0)
  || (msg_payload_size request >? KFSW_COMMAND_MAX_PAYLOAD_SIZE)
  || (negb (msg_opcode request =? KFSW_COMMAND_OP_PREPARE)
      && negb (msg_opcode request =? KFSW_COMMAND_OP_EXECUTE)).

Section retry.
Context {RC : RetryConfig} {BO : ByteOrder} {W : Type} {ES : EventSink W}.
Variable clock : W → Z.
Implicit Types (cache : list kfsw_command_ticket) (request : kfsw_command_message)
  (s : command_state W).

Definition expired_detail : list Z := cstr "ticket expired or unknown; outcome may be unknown".

(** The ticket a prepare writes over a free entry. *)
Definition new_entry (source : Z) request (new_ticket now : Z) : kfsw_command_ticket := {|
  tk_nonce := msg_token request; tk_ticket := new_ticket;
  tk_expires := i64 (now + RETRY_WINDOW_MS); tk_source := source;
  tk_command := msg_command_id request; tk_request := msg_request_id request;
  tk_size := msg_payload_size request; tk_count := msg_arg_count request;
  tk_complete := false;
  tk_payload :=
    buf_put 0 (take (Z.to_nat (msg_payload_size request)) (default [] (msg_payload request)))
      (replicate (Z.to_nat KFSW_COMMAND_MAX_PAYLOAD_SIZE) 0);
  tk_result := {| res_status := 0; res_detail := replicate 96 0 |} |}.

Definition complete_entry (result : kfsw_command_result) (e : kfsw_command_ticket)
    : kfsw_command_ticket := {|
  tk_nonce := tk_nonce e; tk_ticket := tk_ticket e; tk_expires := tk_expires e;
  tk_source := tk_source e; tk_command := tk_command e; tk_request := tk_request e;
  tk_size := tk_size e; tk_count := tk_count e; tk_complete := true;
  tk_payload := tk_payload e; tk_result := result |}.

(** The arguments of a request in the function's own arrays. *)
Definition retry_decode request : Z * list kfsw_command_arg :=
  let '(count, args, _) :=
    kfsw_command_decode_args (Some request)
      (Some (replicate (Z.to_nat KFSW_COMMAND_MAX_ARGS) (ArgOther 0))) KFSW_COMMAND_MAX_ARGS
      (Some (replicate (Z.to_nat KFSW_COMMAND_MAX_ARGS) [])) in
  (count, default [] args).

(** The tail of the function: run the command and keep its result. *)
Definition retry_execute (self : Z) (r : command_registry W) (source : Z) request
    (result : kfsw_command_result) s : kfsw_command_result * command_state W :=
  let '(count, args) := retry_decode request in
  if count <? 0 then (with_status KFSW_COMMAND_INVALID_ARGUMENT result, s)
  else
    let '(_, result', s') :=
      kfsw_command_invoke_id clock self r (msg_command_id request) args count
        (Some {| src_node := source; src_authenticated := false; src_via_csp := true |})
        (Some result) s in
    (default result result', s').

(** Answers the cache, the ticket, the result and the state. *)
Definition kfsw_command_retry_dispatch (self : Z) (r : command_registry W) cache (source : Z)
    request (new_ticket now : Z) s
    : list kfsw_command_ticket * Z * kfsw_command_result * command_state W :=
  let result := with_status KFSW_COMMAND_UNAVAILABLE result_zero in
  let invalid := with_status KFSW_COMMAND_INVALID_ARGUMENT result in
  if retry_refused request then (cache, msg_token request, invalid, s)
  else
    let sc := retry_scan source request new_ticket now cache 0
                {| sc_free := None; sc_entry := None; sc_collision := false |} in
    match sc_entry sc with
    | Some i =>
        let entry := cache !!! i in
        if negb (matches entry request) then (cache, msg_token request, invalid, s)
        else if msg_opcode request =? KFSW_COMMAND_OP_PREPARE
        then (cache, tk_ticket entry, with_status KFSW_COMMAND_OK result, s)
        else if tk_complete entry then (cache, tk_ticket entry, tk_result entry, s)
        else
          let '(result, s) := retry_execute self r source request result s in
          (<[i := complete_entry result entry]> cache, tk_ticket entry, result, s)
    | None =>
        if msg_opcode request =? KFSW_COMMAND_OP_PREPARE then
          match sc_free sc with
          | None => (cache, msg_token request, with_status KFSW_COMMAND_BUSY result, s)
          | Some f =>
              if (new_ticket =? 0) || sc_collision sc then (cache, msg_token request, result, s)
              else if (retry_decode request).1 <? 0 then (cache, msg_token request, invalid, s)
              else (<[f := new_entry source request new_ticket now]> cache, new_ticket,
                    with_status KFSW_COMMAND_OK result, s)
          end
        else
          (cache, msg_token request,
           {| res_status := res_status result;
              res_detail := buf_put 0 (expired_detail ++ [0]) (res_detail result) |}, s)
    end.

Definition retry_boot : list kfsw_command_ticket :=
  replicate (Z.to_nat RETRY_SLOTS) {|
    tk_nonce := 0; tk_ticket := 0; tk_expires := 0; tk_source := 0; tk_command := 0;
    tk_request := 0; tk_size := 0; tk_count := 0; tk_complete := false;
    tk_payload := replicate 192 0;
    tk_result := {| res_status := 0; res_detail := replicate 96 0 |} |}.
End retry.

(** ** The scan *)

Section scan.
Variables (source : Z) (request : kfsw_command_message) (new_ticket now : Z).
Implicit Types (entries : list kfsw_command_ticket) (sc : scan_state).
Abbreviation scan := (retry_scan source request new_ticket now).

Lemma scan_entry entries i sc j :
  sc_entry (scan entries i sc) = Some j →
  sc_entry sc = Some j ∨
  ∃ k e, j = (i + k)%nat ∧ entries !! k = Some e ∧ live now e = true ∧
    selected source request e = true.
Proof.
  revert i sc. induction entries as [|c entries IH]; intros i sc H; [by left|].
  cbn [retry_scan] in H. apply IH in H as [H|(k & e & -> & ? & ?)].
  - destruct (live now c) eqn:L; cbn in H; [|by left].
    destruct (selected source request c) eqn:S; [|by left]. injection H as <-.
    right. exists 0%nat, c. by rewrite Nat.add_0_r.
  - right. exists (S k), e. split; [lia|done].
Qed.

Lemma scan_no_entry entries i sc :
  sc_entry (scan entries i sc) = None →
  sc_entry sc = None ∧
  ∀ e, e ∈ entries → live now e = true → selected source request e = false.
Proof.
  revert i sc. induction entries as [|c entries IH]; intros i sc H.
  { split; [done|]. intros e He. by apply not_elem_of_nil in He. }
  cbn [retry_scan] in H. apply IH in H as [H Hall].
  assert (sc_entry sc = None ∧ (live now c = true → selected source request c = false)) as [Hn Hc].
  { destruct (live now c); cbn in H; [|done]. by destruct (selected source request c). }
  split; [done|]. intros e [->|He]%elem_of_cons; auto.
Qed.

Lemma scan_free entries i sc f :
  sc_free (scan entries i sc) = Some f →
  sc_free sc = Some f ∨ ∃ k e, f = (i + k)%nat ∧ entries !! k = Some e ∧ live now e = false.
Proof.
  revert i sc. induction entries as [|c entries IH]; intros i sc H; [by left|].
  cbn [retry_scan] in H. apply IH in H as [H|(k & e & -> & ? & ?)].
  - destruct (live now c) eqn:L; cbn in H; [by left|].
    destruct (sc_free sc); [by left|]. injection H as <-.
    right. exists 0%nat, c. by rewrite Nat.add_0_r.
  - right. exists (S k), e. split; [lia|done].
Qed.

Lemma scan_collision entries i sc :
  sc_collision (scan entries i sc) = false →
  sc_collision sc = false ∧
  ∀ e, e ∈ entries → live now e = true → tk_ticket e ≠ new_ticket.
Proof.
  revert i sc. induction entries as [|c entries IH]; intros i sc H.
  { split; [done|]. intros e He. by apply not_elem_of_nil in He. }
  cbn [retry_scan] in H. apply IH in H as [H Hall].
  assert (sc_collision sc = false ∧ (live now c = true → tk_ticket c ≠ new_ticket)) as [Hn Hc].
  { destruct (live now c); cbn in H; [|done].
    apply orb_false_iff in H as [H1 H2]. split; [done|]. intros _. lia. }
  split; [done|]. intros e [->|He]%elem_of_cons; auto.
Qed.
End scan.

(** ** The cache over time *)

(** No two live tickets can be confused, by their number or by their nonce. *)
Definition cache_wf (now : Z) (cache : list kfsw_command_ticket) : Prop :=
  ∀ i j a b, cache !! i = Some a → cache !! j = Some b → live now a = true → live now b = true →
    tk_ticket a = tk_ticket b ∨ (tk_source a = tk_source b ∧ tk_nonce a = tk_nonce b) → i = j.

Lemma live_earlier now now' e : now <= now' → live now' e = true → live now e = true.
Proof.
  unfold live. rewrite !negb_true_iff, !orb_false_iff. intros Hn [H1 H2]. split; [done|lia].
Qed.

Lemma cache_wf_later now now' cache : now <= now' → cache_wf now cache → cache_wf now' cache.
Proof. intros Hn H i j a b Ha Hb La Lb. apply (H i j a b); eauto using live_earlier. Qed.

Section retry_proofs.
Context {RC : RetryConfig} {BO : ByteOrder} {W : Type} {ES : EventSink W}.
Variables (clock : W → Z) (self : Z) (r : command_registry W).
Implicit Types (cache : list kfsw_command_ticket) (request : kfsw_command_message)
  (s : command_state W) (e : kfsw_command_ticket).

Abbreviation step := (kfsw_command_retry_dispatch clock self r).

Lemma selected_iff source request e :
  selected source request e = true ↔
  tk_source e = source ∧
  (msg_opcode request = KFSW_COMMAND_OP_PREPARE ∧ tk_nonce e = msg_token request ∨
   msg_opcode request = KFSW_COMMAND_OP_EXECUTE ∧ tk_ticket e = msg_token request).
Proof. unfold selected. lia. Qed.

(** A dispatch only answers, or opens a ticket, or executes one that is open. *)
Inductive retry_effect cache source request new_ticket now s :
    list kfsw_command_ticket → Z → kfsw_command_result → command_state W → Prop :=
| effect_answer ticket result :
    retry_effect cache source request new_ticket now s cache ticket result s
| effect_prepare f e :
    msg_opcode request = KFSW_COMMAND_OP_PREPARE → new_ticket ≠ 0 →
    cache !! f = Some e → live now e = false →
    (∀ e, e ∈ cache → live now e = true →
       tk_ticket e ≠ new_ticket ∧ selected source request e = false) →
    retry_effect cache source request new_ticket now s
      (<[f := new_entry source request new_ticket now]> cache) new_ticket
      (with_status KFSW_COMMAND_OK (with_status KFSW_COMMAND_UNAVAILABLE result_zero)) s
| effect_execute i e result s' :
    msg_opcode request = KFSW_COMMAND_OP_EXECUTE → retry_refused request = false →
    cache !! i = Some e → live now e = true → selected source request e = true →
    matches e request = true → tk_complete e = false →
    retry_execute clock self r source request
      (with_status KFSW_COMMAND_UNAVAILABLE result_zero) s = (result, s') →
    retry_effect cache source request new_ticket now s
      (<[i := complete_entry result e]> cache) (tk_ticket e) result s'.

Lemma dispatch_effect cache source request new_ticket now s cache' ticket result s' :
  step cache source request new_ticket now s = (cache', ticket, result, s') →
  retry_effect cache source request new_ticket now s cache' ticket result s'.
Proof.
  unfold kfsw_command_retry_dispatch. intros H.
  destruct (retry_refused request) eqn:Hr; [injection H as <- <- <- <-; constructor|].
  set (sc := retry_scan _ _ _ _ _ _ _) in H.
  destruct (sc_entry sc) as [i|] eqn:He.
  - pose proof He as Hi. apply scan_entry in Hi as [|(k & e & -> & Hk & Hl & Hs)]; [done|].
    cbn [Nat.add] in *. rewrite (list_lookup_total_correct _ _ _ Hk) in H.
    destruct (matches e request) eqn:Hm; cbn [negb] in H; [|injection H as <- <- <- <-; constructor].
    destruct (msg_opcode request =? KFSW_COMMAND_OP_PREPARE) eqn:Hp;
      [injection H as <- <- <- <-; constructor|].
    destruct (tk_complete e) eqn:Hc; [injection H as <- <- <- <-; constructor|].
    destruct (retry_execute _ _ _ _ _ _ _) as [res st] eqn:Hx. injection H as <- <- <- <-.
    apply selected_iff in Hs as Hs'. econstructor; eauto. lia.
  - destruct (msg_opcode request =? KFSW_COMMAND_OP_PREPARE) eqn:Hp;
      [|injection H as <- <- <- <-; constructor].
    destruct (sc_free sc) as [f|] eqn:Hf; [|injection H as <- <- <- <-; constructor].
    destruct ((new_ticket =? 0) || sc_collision sc) eqn:Hn; [injection H as <- <- <- <-; constructor|].
    case_match; injection H as <- <- <- <-; [constructor|].
    apply orb_false_iff in Hn as [Hn Hcol]. apply scan_collision in Hcol as [_ Hcol].
    apply scan_no_entry in He as [_ He].
    apply scan_free in Hf as [|(k & e & -> & Hk & Hl)]; [done|].
    eapply effect_prepare; [lia|lia|exact Hk|done|]. auto.
Qed.

(** A live ticket only changes by being executed. *)
Lemma effect_keeps cache source request new_ticket now s cache' ticket result s' i e :
  retry_effect cache source request new_ticket now s cache' ticket result s' →
  cache !! i = Some e → live now e = true → tk_complete e = true → cache' !! i = Some e.
Proof.
  intros H Hi Hl Hc. destruct H as [|f e' _ _ Hf Hfl _|j e' result s' _ _ Hj _ _ _ Hjc _]; [done|..].
  - rewrite list_lookup_insert_ne; [done|]. intros ->. congruence.
  - rewrite list_lookup_insert_ne; [done|]. intros ->. congruence.
Qed.

Lemma effect_wf cache source request new_ticket now s cache' ticket result s' :
  retry_effect cache source request new_ticket now s cache' ticket result s' →
  cache_wf now cache → cache_wf now cache'.
Proof.
  intros H Hwf. destruct H as [|f e Hop Hn Hf Hfl Hall|i e result s' _ _ Hi Hl _ _ _ _]; [done|..].
  - assert (∀ k a, cache !! k = Some a → live now a = true →
      ¬ (tk_ticket a = new_ticket ∨ tk_source a = source ∧ tk_nonce a = msg_token request)) as Hno.
    { intros k a Hk La. destruct (Hall a) as [H1 H2]; [by eapply list_elem_of_lookup_2|done|].
      rewrite <- not_true_iff_false, selected_iff in H2. intros [?|[? ?]]; [done|]. tauto. }
    intros p q a b Ha Hb La Lb Heq.
    apply list_lookup_insert_Some in Ha as [(-> & <- & _)|[Hp Ha]];
      apply list_lookup_insert_Some in Hb as [(-> & <- & _)|[Hq Hb]]; [done|..].
    + exfalso. apply (Hno q b Hb Lb). cbn in Heq. intuition congruence.
    + exfalso. apply (Hno p a Ha La). cbn in Heq. intuition congruence.
    + by apply (Hwf p q a b).
  - assert (∀ k a, <[i := complete_entry result e]> cache !! k = Some a →
      ∃ a', cache !! k = Some a' ∧ tk_ticket a' = tk_ticket a ∧ tk_source a' = tk_source a ∧
        tk_nonce a' = tk_nonce a ∧ live now a' = live now a) as Hsame.
    { intros k a Ha. apply list_lookup_insert_Some in Ha as [(-> & <- & _)|[_ Ha]]; eauto 10. }
    intros p q a b Ha Hb La Lb Heq.
    destruct (Hsame p a Ha) as (a' & Ha' & E1 & E2 & E3 & E4).
    destruct (Hsame q b Hb) as (b' & Hb' & F1 & F2 & F3 & F4).
    apply (Hwf p q a' b'); congruence || (rewrite E1, E2, E3, F1, F2, F3; done).
Qed.

Lemma effect_length cache source request new_ticket now s cache' ticket result s' :
  retry_effect cache source request new_ticket now s cache' ticket result s' →
  length cache' = length cache.
Proof. destruct 1; [done|apply length_insert..]. Qed.

(** The requests the server receives: source, request, random value and time. *)
Definition retry_event : Type := Z * kfsw_command_message * Z * Z.
Fixpoint retry_run cache s (events : list retry_event)
    : list kfsw_command_ticket * command_state W :=
  match events with
  | [] => (cache, s)
  | (source, request, new_ticket, now) :: events =>
      let '(cache, _, _, s) := step cache source request new_ticket now s in
      retry_run cache s events
  end.
(** Uptime does not go back, and stays below [limit]. *)
Fixpoint times_within (now limit : Z) (events : list retry_event) : Prop :=
  match events with
  | [] => now < limit
  | (_, _, _, now') :: events => now <= now' ∧ times_within now' limit events
  end.

Lemma times_within_start now limit events : times_within now limit events → now < limit.
Proof.
  revert now. induction events as [|[[[? ?] ?] now'] events IH]; intros now; [done|].
  intros [? H]. apply IH in H. lia.
Qed.

Lemma live_at now e : tk_ticket e ≠ 0 → now < tk_expires e → live now e = true.
Proof. unfold live. lia. Qed.

Lemma run_keeps events cache s now limit i e :
  cache_wf now cache → times_within now limit events → limit <= tk_expires e →
  cache !! i = Some e → tk_ticket e ≠ 0 → tk_complete e = true →
  (retry_run cache s events).1 !! i = Some e ∧
  ∀ now', now <= now' → Forall (λ ev, ev.2 <= now') events →
    cache_wf now' (retry_run cache s events).1.
Proof.
  revert cache s now. induction events as [|[[[src req] nt] t] events IH];
    intros cache s now Hwf Ht Hlim Hi Hne Hc; cbn [retry_run].
  { split; [done|]. intros now' Hn _. by eapply cache_wf_later. }
  destruct Ht as [Hle Ht]. pose proof (times_within_start _ _ _ Ht) as Hlt.
  destruct (step cache src req nt t s) as [[[cache1 tk] res] s1] eqn:E.
  apply dispatch_effect in E.
  assert (live t e = true) as Hl by (apply live_at; [done|lia]).
  pose proof (effect_keeps _ _ _ _ _ _ _ _ _ _ i e E Hi Hl Hc) as Hi1.
  pose proof (effect_wf _ _ _ _ _ _ _ _ _ _ E (cache_wf_later now t cache Hle Hwf)) as Hwf1.
  destruct (IH cache1 s1 t Hwf1 Ht Hlim Hi1 Hne Hc) as [H1 H2]. split; [done|].
  intros now' Hn Hall. apply Forall_cons in Hall as [Ht' Hall]. cbn in Ht'. by apply H2.
Qed.

(** Only one live entry answers a request. *)
Lemma scan_unique cache source request new_ticket now i e :
  cache_wf now cache → cache !! i = Some e → live now e = true →
  selected source request e = true →
  sc_entry (retry_scan source request new_ticket now cache 0
    {| sc_free := None; sc_entry := None; sc_collision := false |}) = Some i.
Proof.
  intros Hwf Hi Hl Hs. destruct (sc_entry _) as [j|] eqn:E.
  - apply scan_entry in E as [|(k & e' & -> & Hk & Hl' & Hs')]; [done|]. cbn [Nat.add] in *.
    f_equal. apply (Hwf k i e' e); [done..|].
    rewrite selected_iff in Hs, Hs'. destruct Hs as [? [[? ?]|[? ?]]], Hs' as [? [[? ?]|[? ?]]];
      try (unfold KFSW_COMMAND_OP_PREPARE, KFSW_COMMAND_OP_EXECUTE in *; lia).
  - apply scan_no_entry in E as [_ E].
    rewrite (E e) in Hs; [done|by eapply list_elem_of_lookup_2|done].
Qed.

(** A request for a completed ticket is answered from the cache. *)
Lemma dispatch_complete cache source request new_ticket now s i e :
  cache_wf now cache → cache !! i = Some e → live now e = true →
  retry_refused request = false → msg_opcode request = KFSW_COMMAND_OP_EXECUTE →
  selected source request e = true → matches e request = true → tk_complete e = true →
  step cache source request new_ticket now s = (cache, tk_ticket e, tk_result e, s).
Proof.
  intros Hwf Hi Hl Hr Hop Hs Hm Hc. unfold kfsw_command_retry_dispatch.
  rewrite Hr, (scan_unique cache source request new_ticket now i e) by done.
  rewrite (list_lookup_total_correct _ _ _ Hi), Hm, Hop, Hc. done.
Qed.

(** A request for an open ticket executes it. *)
Lemma dispatch_open cache source request new_ticket now s i e result s' :
  cache_wf now cache → cache !! i = Some e → live now e = true →
  retry_refused request = false → msg_opcode request = KFSW_COMMAND_OP_EXECUTE →
  selected source request e = true → matches e request = true → tk_complete e = false →
  retry_execute clock self r source request
    (with_status KFSW_COMMAND_UNAVAILABLE result_zero) s = (result, s') →
  step cache source request new_ticket now s =
    (<[i := complete_entry result e]> cache, tk_ticket e, result, s').
Proof.
  intros Hwf Hi Hl Hr Hop Hs Hm Hc Hx. unfold kfsw_command_retry_dispatch.
  rewrite Hr, (scan_unique cache source request new_ticket now i e) by done.
  rewrite (list_lookup_total_correct _ _ _ Hi), Hm, Hop, Hc. cbn [negb].
  change (KFSW_COMMAND_OP_EXECUTE =? KFSW_COMMAND_OP_PREPARE) with false. by rewrite Hx.
Qed.

Lemma effect_state cache source request new_ticket now s cache' ticket result s' :
  retry_effect cache source request new_ticket now s cache' ticket result s' → s' ≠ s →
  msg_opcode request = KFSW_COMMAND_OP_EXECUTE ∧
  ∃ i e, cache !! i = Some e ∧ live now e = true ∧ tk_source e = source ∧
    tk_ticket e = msg_token request ∧ matches e request = true ∧ tk_complete e = false ∧
    cache' = <[i := complete_entry result e]> cache ∧
    retry_execute clock self r source request
      (with_status KFSW_COMMAND_UNAVAILABLE result_zero) s = (result, s').
Proof.
  intros H Hne. destruct H as [| |i e result s' Hop Hr Hi Hl Hs Hm Hc Hx]; [done..|].
  split; [done|]. exists i, e. apply selected_iff in Hs as [Hsrc [[Ho _]|[_ Ht]]]; [|by split_and!].
  rewrite Hop in Ho. discriminate Ho.
Qed.
End retry_proofs.

Section retry_prepare.
Context {RC : RetryConfig} {BO : ByteOrder} {W : Type} {ES : EventSink W}.
Variables (clock : W → Z) (self : Z) (r : command_registry W).

(** The payload a decoder gives covers the announced size. *)
Definition payload_covers (request : kfsw_command_message) : Prop :=
  0 <= msg_payload_size request <= zlen (default [] (msg_payload request)).

Lemma new_entry_matches source request new_ticket now :
  payload_covers request → msg_payload_size request <= KFSW_COMMAND_MAX_PAYLOAD_SIZE →
  matches (new_entry source request new_ticket now) request = true.
Proof.
  intros [H0 H1] H2. unfold matches, new_entry, mem_eq, zlen in *; cbn [tk_command tk_request tk_size tk_count tk_payload].
  rewrite !Z.eqb_refl. cbn [andb]. rewrite bool_decide_eq_true, buf_put_0.
  rewrite take_app_le by (rewrite length_take; lia). by rewrite take_take, Nat.min_id.
Qed.

Lemma selected_new source request new_ticket now :
  msg_opcode request = KFSW_COMMAND_OP_PREPARE →
  selected source request (new_entry source request new_ticket now) = true.
Proof. intros H. apply selected_iff. split; [done|left; done]. Qed.

Lemma dispatch_prepared cache source request new_ticket now s i e :
  cache_wf now cache → cache !! i = Some e → live now e = true →
  retry_refused request = false → msg_opcode request = KFSW_COMMAND_OP_PREPARE →
  selected source request e = true → matches e request = true →
  kfsw_command_retry_dispatch clock self r cache source request new_ticket now s =
    (cache, tk_ticket e, with_status KFSW_COMMAND_OK result_zero, s).
Proof.
  intros Hwf Hi Hl Hr Hop Hs Hm. unfold kfsw_command_retry_dispatch.
  rewrite Hr, (scan_unique cache source request new_ticket now i e) by done.
  rewrite (list_lookup_total_correct _ _ _ Hi), Hm, Hop. done.
Qed.
End retry_prepare.

(** ** Properties *)

(** C1: a ticket is executed at most once. The first execute of an open ticket runs
    the command and answers its result; then, whatever other requests the server
    serves before the ticket expires, repeating that execute answers the same ticket
    and the same result and leaves the whole system state untouched. *)
Theorem retry_execute_once {BO : ByteOrder} {W} {ES : EventSink W} {RC : RetryConfig}
    (clock : W → Z) self r cache source request nonce nonce' now now' s i e events :
  cache_wf now cache → cache !! i = Some e → live now e = true → tk_complete e = false →
  retry_refused request = false → msg_opcode request = KFSW_COMMAND_OP_EXECUTE →
  tk_source e = source → tk_ticket e = msg_token request → matches e request = true →
  times_within now (tk_expires e) events →
  now <= now' < tk_expires e → Forall (λ ev : retry_event, ev.2 <= now') events →
  ∃ cache1 result s1,
    kfsw_command_retry_dispatch clock self r cache source request nonce now s =
      (cache1, msg_token request, result, s1) ∧
    retry_execute clock self r source request
      (with_status KFSW_COMMAND_UNAVAILABLE result_zero) s = (result, s1) ∧
    let '(cache2, s2) := retry_run clock self r cache1 s1 events in
    kfsw_command_retry_dispatch clock self r cache2 source request nonce' now' s2 =
      (cache2, msg_token request, result, s2).
Proof.
  intros Hwf Hi Hl Hc Hr Hop Hsrc Htk Hm Ht Hn Hall.
  assert (selected source request e = true) as Hs by (apply selected_iff; tauto).
  destruct (retry_execute clock self r source request
    (with_status KFSW_COMMAND_UNAVAILABLE result_zero) s) as [result s1] eqn:Hx.
  pose proof (dispatch_open clock self r cache source request nonce now s i e result s1
    Hwf Hi Hl Hr Hop Hs Hm Hc Hx) as E.
  exists (<[i := complete_entry result e]> cache), result, s1. rewrite <- Htk at 1.
  split_and!; [done|done|].
  apply dispatch_effect in E.
  assert (cache_wf now (<[i := complete_entry result e]> cache)) as Hwf1
    by (eapply effect_wf; [exact E|done]).
  assert (<[i := complete_entry result e]> cache !! i = Some (complete_entry result e)) as Hi1
    by (apply list_lookup_insert_eq, (lookup_lt_Some _ _ _ Hi)).
  assert (tk_ticket e ≠ 0) as Hne by (unfold live in Hl; lia).
  pose proof (run_keeps clock self r events _ s1 now (tk_expires e) i (complete_entry result e)
    Hwf1 Ht (Z.le_refl _) Hi1 Hne eq_refl) as [Hk Hw].
  destruct (retry_run clock self r _ s1 events) as [cache2 s2]. cbn in Hk, Hw.
  rewrite <- Htk at 1.
  apply (dispatch_complete clock self r cache2 source request nonce' now' s2 i (complete_entry result e));
    try done; [apply Hw; [lia|done]|by apply live_at; [|cbn; lia]].
Qed.

(** C18: only an execute of a live, open ticket can change the system: it comes from
    the node the ticket was given to, and asks for exactly the command, request
    identifier and arguments that were prepared; the ticket is then complete. Any
    other request, a prepare included, leaves the system state as it was. *)
Theorem retry_runs_only_prepared {BO : ByteOrder} {W} {ES : EventSink W} {RC : RetryConfig}
    (clock : W → Z) self r cache source request new_ticket now s cache' ticket result s' :
  kfsw_command_retry_dispatch clock self r cache source request new_ticket now s =
    (cache', ticket, result, s') →
  s' ≠ s →
  msg_opcode request = KFSW_COMMAND_OP_EXECUTE ∧
  ∃ i e, cache !! i = Some e ∧ live now e = true ∧ tk_source e = source ∧
    tk_ticket e = msg_token request ∧ matches e request = true ∧ tk_complete e = false ∧
    cache' !! i = Some (complete_entry result e).
Proof.
  intros H Hne. apply dispatch_effect in H.
  eapply effect_state in H as (Hop & i & e & Hi & ? & ? & ? & ? & ? & -> & _); [|done].
  split; [done|]. exists i, e. split_and!; try done.
  by apply list_lookup_insert_eq, (lookup_lt_Some _ _ _ Hi).
Qed.

(** a prepare is idempotent. Once it has opened a ticket, repeating it before the
    ticket expires, as a client whose answer was lost does, answers the same ticket
    whatever random value the server drew, and opens no second one. *)
Theorem retry_prepare_idempotent {BO : ByteOrder} {W} {ES : EventSink W} {RC : RetryConfig}
    (clock : W → Z) self r cache cache1 source request new_ticket random now now' ticket result s :
  cache_wf now cache → payload_covers request →
  msg_opcode request = KFSW_COMMAND_OP_PREPARE →
  kfsw_command_retry_dispatch clock self r cache source request new_ticket now s =
    (cache1, ticket, result, s) →
  cache1 ≠ cache → 0 <= now <= now' → now' < now + RETRY_WINDOW_MS → now + RETRY_WINDOW_MS < 2 ^ 63 →
  ticket = new_ticket ∧ ticket ≠ 0 ∧ cache_wf now cache1 ∧
  kfsw_command_retry_dispatch clock self r cache1 source request random now' s =
    (cache1, ticket, with_status KFSW_COMMAND_OK result_zero, s).
Proof.
  intros Hwf Hcov Hop H Hne Hn Hw Hmax. pose proof H as Hd. apply dispatch_effect in H.
  assert (cache_wf now cache1) as Hwf1 by (eapply effect_wf; [exact H|done]).
  assert (retry_refused request = false) as Hr.
  { unfold kfsw_command_retry_dispatch in Hd. by destruct (retry_refused request); simplify_eq. }
  pose proof RETRY_WINDOW_MS_range as Hwin.
  inversion H as [|f e' _ Hn0 Hf|i e ? ? Hx]; subst; [done| |rewrite Hop in Hx; discriminate Hx].
  split_and!; [done|done|done|].
  assert (msg_payload_size request <= KFSW_COMMAND_MAX_PAYLOAD_SIZE) as Hsz
    by (unfold retry_refused in Hr; lia).
  apply (dispatch_prepared clock self r _ source request random now' s f
    (new_entry source request ticket now));
    [eapply cache_wf_later; [|exact Hwf1]; lia
    |apply list_lookup_insert_eq, (lookup_lt_Some _ _ _ Hf)| |done|done
    |by apply selected_new|by apply new_entry_matches].
  apply live_at; [done|]. cbn. unfold i64. rewrite Z.mod_small by lia. lia.
Qed.

Section command_retry_witnesses.
#[local] Existing Instance big_endian.
#[local] Existing Instance event_config_default.
#[local] Existing Instance command_config_default.
#[local] Existing Instance retry_config_default.

Definition sample_prepare : kfsw_command_message := {|
  msg_version := 2; msg_token := 77; msg_opcode := KFSW_COMMAND_OP_PREPARE; msg_status := 0;
  msg_arg_count := 1; msg_command_id := 10; msg_request_id := 4; msg_payload_size := 7;
  msg_payload := Some [1; 0; 4; 0; 0; 1; 44] |}.
Definition sample_execute : kfsw_command_message := {|
  msg_version := 2; msg_token := 1000; msg_opcode := KFSW_COMMAND_OP_EXECUTE; msg_status := 0;
  msg_arg_count := 1; msg_command_id := 10; msg_request_id := 4; msg_payload_size := 7;
  msg_payload := Some [1; 0; 4; 0; 0; 1; 44] |}.
(** The cache after the prepare at time 5. *)
Definition sample_cache : list kfsw_command_ticket :=
  <[0%nat := new_entry 9 sample_prepare 1000 5]> retry_boot.

Lemma retry_boot_wf now : cache_wf now retry_boot.
Proof.
  intros i j a b Ha _ La. unfold retry_boot in Ha. apply lookup_replicate in Ha as [-> _].
  discriminate La.
Qed.

Lemma sample_cache_wf : cache_wf 6 sample_cache.
Proof.
  unfold sample_cache. intros i j a b Ha Hb La Lb _.
  apply list_lookup_insert_Some in Ha as [(<- & <- & _)|[_ Ha]].
  - apply list_lookup_insert_Some in Hb as [(<- & <- & _)|[_ Hb]]; [done|].
    unfold retry_boot in Hb. apply lookup_replicate in Hb as [-> _]. discriminate Lb.
  - unfold retry_boot in Ha. apply lookup_replicate in Ha as [-> _]. discriminate La.
Qed.

Lemma retry_execute_once_witness :
  ∃ cache1 result s1,
    kfsw_command_retry_dispatch (λ _, 7) 1 sample_registry sample_cache 9 sample_execute 3 6 sample_state =
      (cache1, 1000, result, s1) ∧ command_failed s1 = 1 ∧
    (kfsw_command_retry_dispatch (λ _, 7) 1 sample_registry cache1 9 sample_execute 4 9 s1).2 = s1.
Proof.
  destruct (retry_execute_once (λ _, 7) 1 sample_registry sample_cache 9 sample_execute 3 4 6 9
    sample_state 0 (new_entry 9 sample_prepare 1000 5) [] sample_cache_wf)
    as (cache1 & result & s1 & E & Hx & H); try reflexivity; try done.
  exists cache1, result, s1. split; [exact E|]. split.
  - vm_compute in Hx. injection Hx as _ <-. reflexivity.
  - cbn [retry_run] in H. rewrite H. reflexivity.
Defined.

Lemma retry_runs_only_prepared_witness :
  let '(cache', _, result, s') :=
    kfsw_command_retry_dispatch (λ _, 7) 1 sample_registry sample_cache 9 sample_execute 3 6 sample_state in
  command_invoked s' = 1 ∧
  ∃ i e, sample_cache !! i = Some e ∧ cache' !! i = Some (complete_entry result e).
Proof.
  destruct (kfsw_command_retry_dispatch _ _ _ _ _ _ _ _ _) as [[[cache' t] result] s'] eqn:E.
  assert (command_invoked s' = 1) as Hi
    by (vm_compute in E; injection E as _ _ _ <-; reflexivity).
  split; [exact Hi|].
  destruct (retry_runs_only_prepared _ _ _ _ _ _ _ _ _ _ _ _ _ E) as (_ & i & e & H & _ & _ & _ & _ & _ & H').
  - intros Heq. rewrite Heq in Hi. discriminate Hi.
  - exists i, e. split; [exact H|exact H'].
Defined.

Lemma retry_prepare_idempotent_witness :
  let '(cache1, ticket, _, _) :=
    kfsw_command_retry_dispatch (λ _, 7) 1 sample_registry retry_boot 9 sample_prepare 1000 5 sample_state in
  (kfsw_command_retry_dispatch (λ _, 7) 1 sample_registry cache1 9 sample_prepare 2000 8 sample_state).1.1.2
    = ticket.
Proof.
  destruct (kfsw_command_retry_dispatch (λ _, 7) 1 sample_registry retry_boot 9 sample_prepare 1000 5
    sample_state) as [[[cache1 ticket] result] s1] eqn:E.
  assert (s1 = sample_state) as -> by (vm_compute in E; injection E as _ _ _ <-; reflexivity).
  assert (cache1 ≠ retry_boot) as Hne
    by (vm_compute in E; injection E as <- _ _; vm_compute; discriminate).
  destruct (retry_prepare_idempotent (λ _, 7) 1 sample_registry retry_boot cache1 9 sample_prepare
    1000 2000 5 8 ticket result sample_state (retry_boot_wf 5)
    ltac:(vm_compute; split; congruence) eq_refl E Hne ltac:(lia)) as (_ & _ & _ & Hd).
  - reflexivity.
  - reflexivity.
  - rewrite Hd. reflexivity.
Defined.
End command_retry_witnesses.
