(* ===== verification/FboSchedule.v ===== *)
(** * Time-tagged releases ([src/fbo/fbo_schedule.c], [src/fbo/fbo_clock.c])

    A queue of commands that are released when they are due: against the monotonic clock, or
    against the wall clock once it has been set. Each operation of the queue runs under its
    lock and is one step; the release thread takes the lock once to choose an entry, once to
    mark it running and once to record how it went, and the other threads may run in
    between ([fbo_step]). Clock readings are arguments: the wall clock is [None] while
    nothing has set it. Log lines are left out. *)

From S2P Require Import Prelude Bytes CStdlib Event CommandProtocol Command.

(** [CONFIG_KFSW_FBO_SCHEDULE_*] with their Kconfig ranges, and [CONFIG_KFSW_COMMAND_CSP]. *)
Class ScheduleConfig := {
  FBO_SCHEDULE_ENTRIES : Z;
  FBO_SCHEDULE_ENTRIES_range : 1 <= FBO_SCHEDULE_ENTRIES <= 32;
  FBO_SCHEDULE_LATENCY_S : Z;
  FBO_SCHEDULE_LATENCY_S_range : 1 <= FBO_SCHEDULE_LATENCY_S <= 3600;
  FBO_SCHEDULE_BURST : Z;
  FBO_SCHEDULE_BURST_range : 1 <= FBO_SCHEDULE_BURST <= 8;
  FBO_SCHEDULE_STEP_MS : Z;
  FBO_SCHEDULE_STEP_MS_range : 100 <= FBO_SCHEDULE_STEP_MS <= 60000;
  COMMAND_CSP : bool;
}.
#[program] Definition schedule_config_default : ScheduleConfig := {|
  FBO_SCHEDULE_ENTRIES := 8; FBO_SCHEDULE_LATENCY_S := 60; FBO_SCHEDULE_BURST := 1;
  FBO_SCHEDULE_STEP_MS := 2000; COMMAND_CSP := true |}.
Solve All Obligations with lia.

(** A command sent to another node ([kfsw_command_invoke_remote_retry] and
    [kfsw_command_invoke_remote] of [command_csp.c]): the outcome, the result and what the
    call does to this node. *)
Class RemoteCommands (W : Type) := {
  invoke_remote : Z → option (list Z) → list kfsw_command_arg → Z → command_state W →
    Z * kfsw_command_result * command_state W;
}.

Definition KFSW_FBO_SCHEDULE_DELAY_MAX_S : Z := 604800.
Definition KFSW_FBO_SCHEDULE_LATENCY_MAX_S : Z := 3600.
Definition KFSW_FBO_SCHEDULE_LINE_MAX : Z := 80.

Definition KFSW_FBO_EVENT_RELEASED : Z := 4.
Definition KFSW_FBO_EVENT_OVERDUE : Z := 5.
Definition KFSW_FBO_EVENT_CLOCK_STEP : Z := 6.

Definition KFSW_FBO_TIME_RELATIVE : Z := 0.
Definition KFSW_FBO_TIME_ABSOLUTE : Z := 1.

Definition KFSW_FBO_ENTRY_SCHEDULED : Z := 0.
Definition KFSW_FBO_ENTRY_RUNNING : Z := 1.
Definition KFSW_FBO_ENTRY_COMPLETED : Z := 2.
Definition KFSW_FBO_ENTRY_FAILED : Z := 3.
Definition KFSW_FBO_ENTRY_OVERDUE : Z := 4.
Definition KFSW_FBO_ENTRY_CANCELLED : Z := 5.

Record kfsw_fbo_schedule_entry := {
  en_line : list Z; en_due_utc : Z; en_released_utc : Z; en_delay_s : Z; en_remaining_s : Z;
  en_content_hash : Z; en_result : Z; en_node : Z; en_index : Z; en_command_id : Z;
  en_kind : Z; en_status : Z; en_command_status : Z;
}.
Record slot := { sl_entry : kfsw_fbo_schedule_entry; sl_due_uptime_ms : Z; sl_used : bool }.

Definition entry_zero : kfsw_fbo_schedule_entry := {|
  en_line := []; en_due_utc := 0; en_released_utc := 0; en_delay_s := 0; en_remaining_s := 0;
  en_content_hash := 0; en_result := 0; en_node := 0; en_index := 0; en_command_id := 0;
  en_kind := 0; en_status := 0; en_command_status := 0 |}.
Definition slot_zero : slot := {| sl_entry := entry_zero; sl_due_uptime_ms := 0; sl_used := false |}.

(** The file's static objects; [last_clock] is [last_utc] and [last_mono] when [have_last]. *)
Record schedule := {
  slots : list slot; latency_s : Z; releases : Z; refusals : Z; overdues : Z; clock_steps : Z;
  last_error : Z; last_clock : option (Z * Z);
}.

Record kfsw_fbo_schedule_status := {
  ss_hash : Z; ss_releases : Z; ss_refusals : Z; ss_overdues : Z; ss_clock_steps : Z; ss_latency_s : Z;
  ss_next_due_utc : Z; ss_next_due_s : Z; ss_capacity : Z; ss_entries : Z; ss_scheduled : Z;
  ss_running : Z; ss_completed : Z; ss_failed : Z; ss_overdue : Z; ss_cancelled : Z;
  ss_clock_set : bool; ss_last_error : Z;
}.

Definition set_slots (l : list slot) (q : schedule) : schedule := {|
  slots := l; latency_s := latency_s q; releases := releases q; refusals := refusals q;
  overdues := overdues q; clock_steps := clock_steps q; last_error := last_error q;
  last_clock := last_clock q |}.
Definition count_refusal (q : schedule) : schedule := {|
  slots := slots q; latency_s := latency_s q; releases := releases q; refusals := u32 (refusals q + 1);
  overdues := overdues q; clock_steps := clock_steps q; last_error := last_error q;
  last_clock := last_clock q |}.
Definition set_status (status result : Z) (e : kfsw_fbo_schedule_entry) : kfsw_fbo_schedule_entry := {|
  en_line := en_line e; en_due_utc := en_due_utc e; en_released_utc := en_released_utc e;
  en_delay_s := en_delay_s e; en_remaining_s := en_remaining_s e; en_content_hash := en_content_hash e;
  en_result := result; en_node := en_node e; en_index := en_index e; en_command_id := en_command_id e;
  en_kind := en_kind e; en_status := status; en_command_status := en_command_status e |}.
Definition set_entry (e : kfsw_fbo_schedule_entry) (x : slot) : slot := {|
  sl_entry := e; sl_due_uptime_ms := sl_due_uptime_ms x; sl_used := sl_used x |}.

(** ** Reading a line *)

Definition is_separator (c : Z) : bool := (c =? 32) || (c =? 9).
Fixpoint skip_separators (text : list Z) : list Z :=
  match text with
  | [] => []
  | c :: rest => if is_separator c then skip_separators rest else text
  end.
(** The characters of a word, and the text after the separator that ends it. *)
Fixpoint split_word (text : list Z) : list Z * list Z :=
  match text with
  | [] => ([], [])
  | c :: rest =>
      if is_separator c then ([], rest)
      else let '(word, rest) := split_word rest in (c :: word, rest)
  end.
Fixpoint tokenise (max : nat) (text : list Z) : list (list Z) :=
  match max with
  | O => []
  | S max =>
      match skip_separators text with
      | [] => []
      | cursor => let '(word, rest) := split_word cursor in word :: tokenise max rest
      end
  end.

Section queue.
Context {SC : ScheduleConfig} {CC : CommandConfig} {CL : CLong} {BO : ByteOrder} {CRC : Crc32} {W : Type}.
Variable registry : command_registry W.
Implicit Types (q : schedule) (x : slot) (e : kfsw_fbo_schedule_entry) (utc : option Z).

(** The loop over the arguments. *)
Fixpoint build_args (words : list (list Z)) (types : list Z) (index : nat) (args : list kfsw_command_arg)
    : Z * list kfsw_command_arg :=
  match words with
  | [] => (0, args)
  | word :: words =>
      if strlen word >? KFSW_COMMAND_MAX_TEXT_SIZE then (- EINVAL, args)
      else
        let '(outcome, arg) := kfsw_command_parse_arg (Some word) (types !!! index) (Some (ArgOther 0)) in
        if negb (outcome =? 0) then (outcome, args)
        else build_args words types (S index) (args ++ [default (ArgOther 0) arg])
  end.

Definition info_zero : kfsw_command_info := {|
  info_id := 0; info_name := None; info_help := None; info_flags := 0; info_arg_count := 0;
  info_arg_types := None |}.

(** The outcome and, when it is zero, the command and its arguments. *)
Definition build (text : list Z) : Z * kfsw_command_info * list kfsw_command_arg :=
  match tokenise (Z.to_nat (KFSW_COMMAND_MAX_ARGS + 2)) text with
  | [] => (- EINVAL, info_zero, [])
  | name :: words =>
      if zlen words + 1 >? KFSW_COMMAND_MAX_ARGS + 1 then (- E2BIG, info_zero, [])
      else
        let '(outcome, info) := kfsw_command_find (Some name) (Some info_zero) registry in
        let info := default info_zero info in
        if negb (outcome =? 0) then (outcome, info, [])
        else if negb (zlen words =? info_arg_count info) then (- EINVAL, info, [])
        else
          let '(outcome, args) := build_args words (default [] (info_arg_types info)) 0 [] in
          (outcome, info, args)
  end.

Definition content_hash (kind time node : Z) (line : list Z) : Z :=
  let header := [u8 kind] ++ put_be64 (u64 time) ++ put_be16 node ++ put_be16 0 in
  crc32_update (crc32_ieee header) line.

Fixpoint hash_slots (hash : Z) (l : list slot) : Z :=
  match l with
  | [] => hash
  | x :: l =>
      if negb (sl_used x) then hash_slots hash l
      else hash_slots (crc32_update hash (put_be32 (en_content_hash (sl_entry x)))) l
  end.
Definition queue_hash q : Z := hash_slots 0 (slots q).

Definition live x : bool :=
  sl_used x && ((en_status (sl_entry x) =? KFSW_FBO_ENTRY_SCHEDULED)
                || (en_status (sl_entry x) =? KFSW_FBO_ENTRY_RUNNING)).

(** ** Operations *)

(** The reply timeout of the command service in seconds, rounded up. *)
Definition latency_floor_s (timeout_ms : Z) : Z :=
  if COMMAND_CSP then (timeout_ms + 999) / 1000 else 1.
Definition kfsw_fbo_schedule_get_latency_s q : Z := latency_s q.
Definition kfsw_fbo_schedule_check_latency_s (timeout_ms seconds : Z) : Z :=
  if (seconds <? latency_floor_s timeout_ms) || (seconds >? KFSW_FBO_SCHEDULE_LATENCY_MAX_S) then - ERANGE else 0.
Definition kfsw_fbo_schedule_set_latency_s (timeout_ms seconds : Z) q : Z * schedule :=
  let result := kfsw_fbo_schedule_check_latency_s timeout_ms seconds in
  if negb (result =? 0) then (result, q)
  else (0, {| slots := slots q; latency_s := seconds; releases := releases q; refusals := refusals q;
              overdues := overdues q; clock_steps := clock_steps q; last_error := last_error q;
              last_clock := last_clock q |}).

(** The loop over the slots: a live entry of the same content, or the first free slot. *)
Fixpoint place (hash : Z) (index : Z) (free_slot : option Z) (l : list slot) : Z + option Z :=
  match l with
  | [] => inr free_slot
  | x :: l =>
      if live x && (en_content_hash (sl_entry x) =? hash) then inl index
      else place hash (index + 1)
             (if negb (sl_used x) && bool_decide (free_slot = None) then Some index else free_slot) l
  end.

Definition new_slot (kind time node command_id hash index mono_ms : Z) (line : list Z) : slot := {|
  sl_entry := {|
    en_line := line; en_due_utc := if kind =? KFSW_FBO_TIME_RELATIVE then 0 else time;
    en_released_utc := 0; en_delay_s := if kind =? KFSW_FBO_TIME_RELATIVE then u32 time else 0;
    en_remaining_s := 0; en_content_hash := hash; en_result := 0; en_node := node;
    en_index := u16 index; en_command_id := command_id; en_kind := u8 kind;
    en_status := KFSW_FBO_ENTRY_SCHEDULED; en_command_status := 0 |};
  sl_due_uptime_ms := if kind =? KFSW_FBO_TIME_RELATIVE then mono_ms + time * 1000 else 0;
  sl_used := true |}.

(** Under the lock: the result, [*index] when it is written, the queue. *)
Definition add_locked (kind time node mono_ms : Z) (line : list Z) q : Z * option Z * schedule :=
  let '(outcome, info, _) := build line in
  if negb (outcome =? 0) then (outcome, None, count_refusal q)
  else
    let hash := content_hash kind time node line in
    match place hash 0 None (slots q) with
    | inl index => (- EEXIST, Some (u16 index), q)
    | inr None => (- ENOSPC, None, count_refusal q)
    | inr (Some free_slot) =>
        (0, Some (u16 free_slot),
         set_slots (<[Z.to_nat free_slot := new_slot kind time node (info_id info) hash free_slot mono_ms line]>
                      (slots q)) q)
    end.

(** What the time of an entry is refused for; the flag says whether the refusal is counted. *)
Definition check_time (kind time : Z) utc q : Z * bool :=
  if negb (kind =? KFSW_FBO_TIME_RELATIVE) && negb (kind =? KFSW_FBO_TIME_ABSOLUTE) then (- EINVAL, false)
  else if kind =? KFSW_FBO_TIME_RELATIVE then
    if (time <=? 0) || (time >? KFSW_FBO_SCHEDULE_DELAY_MAX_S) then (- EINVAL, false) else (0, false)
  else if time <=? 0 then (- EINVAL, false)
  else match utc with
       | None => (- ENODATA, true)
       | Some now_utc => if now_utc - time >? latency_s q then (- ETIME, true) else (0, false)
       end.

Definition kfsw_fbo_schedule_add (kind time node : Z) (line : option (list Z)) (index : option Z)
    utc (mono_ms : Z) q : Z * option Z * schedule :=
  match line, index with
  | Some line, Some _ =>
      if (char_at line 0 =? 0) || negb (terminated_within line KFSW_FBO_SCHEDULE_LINE_MAX)
      then (- EINVAL, index, q)
      else
        let '(refused, counted) := check_time kind time utc q in
        if negb (refused =? 0) then (refused, index, if counted then count_refusal q else q)
        else if negb COMMAND_CSP && negb (node =? 0) then (- ENOTSUP, index, q)
        else
          let '(result, written, q) := add_locked kind time node mono_ms line q in
          (result, match written with Some i => Some i | None => index end, q)
  | _, _ => (- EINVAL, index, q)
  end.

Definition kfsw_fbo_schedule_cancel (index : Z) q : Z * schedule :=
  match slots q !! Z.to_nat index with
  | None => (- ENOENT, q)
  | Some x =>
      if negb (sl_used x) then (- ENOENT, q)
      else if negb (en_status (sl_entry x) =? KFSW_FBO_ENTRY_SCHEDULED) then (- EALREADY, q)
      else (0, set_slots (<[Z.to_nat index :=
              set_entry (set_status KFSW_FBO_ENTRY_CANCELLED (en_result (sl_entry x)) (sl_entry x)) x]> (slots q)) q)
  end.

Fixpoint clear_slots (dropped : Z) (l : list slot) : Z * list slot :=
  match l with
  | [] => (dropped, [])
  | x :: l =>
      if negb (sl_used x) || (en_status (sl_entry x) =? KFSW_FBO_ENTRY_RUNNING)
      then let '(dropped, l) := clear_slots dropped l in (dropped, x :: l)
      else let '(dropped, l) := clear_slots (dropped + 1) l in (dropped, slot_zero :: l)
  end.
Definition kfsw_fbo_schedule_clear q : Z * schedule :=
  let '(dropped, l) := clear_slots 0 (slots q) in (dropped, set_slots l q).

(** C division, which truncates. *)
Definition remaining x (mono_ms : Z) utc : Z :=
  if negb (en_status (sl_entry x) =? KFSW_FBO_ENTRY_SCHEDULED) then 0
  else
    let seconds :=
      if en_kind (sl_entry x) =? KFSW_FBO_TIME_RELATIVE
      then Z.quot (sl_due_uptime_ms x - mono_ms + 999) 1000
      else match utc with Some utc => en_due_utc (sl_entry x) - utc | None => 0 end in
    if seconds >? 0 then u32 seconds else 0.

Definition with_remaining (seconds : Z) e : kfsw_fbo_schedule_entry := {|
  en_line := en_line e; en_due_utc := en_due_utc e; en_released_utc := en_released_utc e;
  en_delay_s := en_delay_s e; en_remaining_s := seconds; en_content_hash := en_content_hash e;
  en_result := en_result e; en_node := en_node e; en_index := en_index e; en_command_id := en_command_id e;
  en_kind := en_kind e; en_status := en_status e; en_command_status := en_command_status e |}.
Definition kfsw_fbo_schedule_get_entry (index : Z) (entry : option kfsw_fbo_schedule_entry) utc (mono_ms : Z) q
    : Z * option kfsw_fbo_schedule_entry :=
  match entry with
  | None => (- EINVAL, None)
  | Some _ =>
      match slots q !! Z.to_nat index with
      | None => (- ENOENT, entry)
      | Some x =>
          if negb (sl_used x) then (- ENOENT, entry)
          else (0, Some (with_remaining (remaining x mono_ms utc) (sl_entry x)))
      end
  end.


(** ** The queue's status *)

Definition status_zero : kfsw_fbo_schedule_status := {|
  ss_hash := 0; ss_releases := 0; ss_refusals := 0; ss_overdues := 0; ss_clock_steps := 0; ss_latency_s := 0;
  ss_next_due_utc := 0; ss_next_due_s := 0; ss_capacity := 0; ss_entries := 0; ss_scheduled := 0;
  ss_running := 0; ss_completed := 0; ss_failed := 0; ss_overdue := 0; ss_cancelled := 0;
  ss_clock_set := false; ss_last_error := 0 |}.

(** The next times of the status, after one scheduled entry. *)
Definition next_due_utc x (s : kfsw_fbo_schedule_status) : Z :=
  if en_kind (sl_entry x) =? KFSW_FBO_TIME_ABSOLUTE then
    if (ss_next_due_utc s =? 0) || (en_due_utc (sl_entry x) <? ss_next_due_utc s)
    then en_due_utc (sl_entry x) else ss_next_due_utc s
  else ss_next_due_utc s.
Definition next_due_s x (mono_ms : Z) utc (s : kfsw_fbo_schedule_status) : Z :=
  if en_kind (sl_entry x) =? KFSW_FBO_TIME_ABSOLUTE then ss_next_due_s s
  else
    let seconds := remaining x mono_ms utc in
    if (ss_next_due_s s =? 0) || (seconds <? ss_next_due_s s) then seconds else ss_next_due_s s.

Definition count_slot (mono_ms : Z) utc (s : kfsw_fbo_schedule_status) x : kfsw_fbo_schedule_status :=
  if negb (sl_used x) then s
  else
    let status := en_status (sl_entry x) in
    let in_state v := status =? v in
    let bump (b : bool) n := if b then u16 (n + 1) else n in
    {| ss_hash := ss_hash s; ss_releases := ss_releases s; ss_refusals := ss_refusals s;
       ss_overdues := ss_overdues s; ss_clock_steps := ss_clock_steps s; ss_latency_s := ss_latency_s s;
       ss_next_due_utc := if in_state KFSW_FBO_ENTRY_SCHEDULED then next_due_utc x s else ss_next_due_utc s;
       ss_next_due_s := if in_state KFSW_FBO_ENTRY_SCHEDULED then next_due_s x mono_ms utc s else ss_next_due_s s;
       ss_capacity := ss_capacity s; ss_entries := u16 (ss_entries s + 1);
       ss_scheduled := bump (in_state KFSW_FBO_ENTRY_SCHEDULED) (ss_scheduled s);
       ss_running := bump (in_state KFSW_FBO_ENTRY_RUNNING) (ss_running s);
       ss_completed := bump (in_state KFSW_FBO_ENTRY_COMPLETED) (ss_completed s);
       ss_failed := bump (in_state KFSW_FBO_ENTRY_FAILED) (ss_failed s);
       ss_overdue := bump (in_state KFSW_FBO_ENTRY_OVERDUE) (ss_overdue s);
       ss_cancelled :=
         bump (negb (in_state KFSW_FBO_ENTRY_SCHEDULED || in_state KFSW_FBO_ENTRY_RUNNING || in_state KFSW_FBO_ENTRY_COMPLETED
                     || in_state KFSW_FBO_ENTRY_FAILED || in_state KFSW_FBO_ENTRY_OVERDUE)) (ss_cancelled s);
       ss_clock_set := ss_clock_set s; ss_last_error := ss_last_error s |}.

Definition kfsw_fbo_schedule_get_status (status : option kfsw_fbo_schedule_status) utc (mono_ms : Z) q
    : Z * option kfsw_fbo_schedule_status :=
  match status with
  | None => (- EINVAL, None)
  | Some _ =>
      let s := {| ss_hash := queue_hash q; ss_releases := releases q; ss_refusals := refusals q;
                  ss_overdues := overdues q; ss_clock_steps := clock_steps q; ss_latency_s := latency_s q;
                  ss_next_due_utc := 0; ss_next_due_s := 0; ss_capacity := u16 (zlen (slots q)); ss_entries := 0;
                  ss_scheduled := 0; ss_running := 0; ss_completed := 0; ss_failed := 0; ss_overdue := 0;
                  ss_cancelled := 0; ss_clock_set := bool_decide (is_Some utc); ss_last_error := last_error q |} in
      (0, Some (fold_left (count_slot mono_ms utc) (slots q) s))
  end.

(** ** Choosing an entry

    How late an entry is, when it is due. *)
Definition due_now x (mono_ms : Z) utc : option Z :=
  if en_kind (sl_entry x) =? KFSW_FBO_TIME_RELATIVE then
    if mono_ms <? sl_due_uptime_ms x then None else Some ((mono_ms - sl_due_uptime_ms x) / 1000)
  else match utc with
       | None => None
       | Some utc => if utc <? en_due_utc (sl_entry x) then None else Some (utc - en_due_utc (sl_entry x))
       end.

(** One turn of the loop under the lock: the slot, whether it became overdue and the candidate
    with its lateness. *)
Definition consider (mono_ms : Z) utc (latency index : Z) x (candidate : option (Z * Z))
    : slot * bool * option (Z * Z) :=
  if negb (sl_used x) || negb (en_status (sl_entry x) =? KFSW_FBO_ENTRY_SCHEDULED) then (x, false, candidate)
  else match due_now x mono_ms utc with
       | None => (x, false, candidate)
       | Some lateness =>
           if lateness >? latency
           then (set_entry (set_status KFSW_FBO_ENTRY_OVERDUE (- ETIME) (sl_entry x)) x, true, candidate)
           else (x, false,
                 match candidate with
                 | Some (_, earliest) => if lateness >? earliest then Some (index, lateness) else candidate
                 | None => Some (index, lateness)
                 end)
       end.

(** The loop: the slots, the entries that became overdue and the candidate. *)
Fixpoint select_from (mono_ms : Z) utc (latency index : Z) (l : list slot) (candidate : option (Z * Z))
    : list slot * list Z * option (Z * Z) :=
  match l with
  | [] => ([], [], candidate)
  | x :: l =>
      let '(x, late, candidate) := consider mono_ms utc latency index x candidate in
      let '(l, indices, candidate) := select_from mono_ms utc latency (index + 1) l candidate in
      (x :: l, (if late then [index] else []) ++ indices, candidate)
  end.
Definition select (mono_ms : Z) utc q : schedule * list Z * option (Z * Z) :=
  let '(l, indices, candidate) := select_from mono_ms utc (latency_s q) 0 (slots q) None in
  ({| slots := l; latency_s := latency_s q; releases := releases q; refusals := refusals q;
      overdues := Nat.iter (length indices) sat_inc (overdues q); clock_steps := clock_steps q;
      last_error := last_error q; last_clock := last_clock q |}, indices, candidate).

(** ** Releasing *)

(** The first critical section of [release]; [index] is a slot of the queue. *)
Definition release_begin (index : Z) utc q : kfsw_fbo_schedule_entry * schedule :=
  let x := default slot_zero (slots q !! Z.to_nat index) in
  let e := sl_entry x in
  let e := {| en_line := en_line e; en_due_utc := en_due_utc e;
              en_released_utc := match utc with Some utc => utc | None => 0 end;
              en_delay_s := en_delay_s e; en_remaining_s := en_remaining_s e;
              en_content_hash := en_content_hash e; en_result := en_result e; en_node := en_node e;
              en_index := en_index e; en_command_id := en_command_id e; en_kind := en_kind e;
              en_status := KFSW_FBO_ENTRY_RUNNING; en_command_status := en_command_status e |} in
  (e, {| slots := <[Z.to_nat index := set_entry e x]> (slots q); latency_s := latency_s q;
         releases := sat_inc (releases q); refusals := refusals q; overdues := overdues q;
         clock_steps := clock_steps q; last_error := last_error q; last_clock := last_clock q |}).

Definition release_failed (outcome status : Z) : bool := negb (outcome =? 0) || negb (status =? KFSW_COMMAND_OK).

(** The second one. *)
Definition release_end (index outcome status : Z) q : schedule :=
  let x := default slot_zero (slots q !! Z.to_nat index) in
  let e := sl_entry x in
  let failed := release_failed outcome status in
  let e := {| en_line := en_line e; en_due_utc := en_due_utc e; en_released_utc := en_released_utc e;
              en_delay_s := en_delay_s e; en_remaining_s := en_remaining_s e;
              en_content_hash := en_content_hash e; en_result := outcome; en_node := en_node e;
              en_index := en_index e; en_command_id := en_command_id e; en_kind := en_kind e;
              en_status := if failed then KFSW_FBO_ENTRY_FAILED else KFSW_FBO_ENTRY_COMPLETED;
              en_command_status := u8 status |} in
  {| slots := <[Z.to_nat index := set_entry e x]> (slots q); latency_s := latency_s q;
     releases := releases q; refusals := refusals q; overdues := overdues q; clock_steps := clock_steps q;
     last_error := if failed then outcome else last_error q; last_clock := last_clock q |}.

(** Whether the wall clock stepped since the last reading. *)
Definition stepped utc (mono_ms : Z) q : bool :=
  match utc, last_clock q with
  | Some utc, Some (last_utc, last_mono) =>
      let drift := (utc - last_utc) * 1000 - (mono_ms - last_mono) in
      (drift >? FBO_SCHEDULE_STEP_MS) || (drift <? - FBO_SCHEDULE_STEP_MS)
  | _, _ => false
  end.
Definition check_step utc (mono_ms : Z) q : schedule := {|
  slots := slots q; latency_s := latency_s q; releases := releases q; refusals := refusals q;
  overdues := overdues q;
  clock_steps := if stepped utc mono_ms q then sat_inc (clock_steps q) else clock_steps q;
  last_error := last_error q;
  last_clock := match utc with Some utc => Some (utc, mono_ms) | None => None end |}.

Definition schedule_boot : schedule := {|
  slots := replicate (Z.to_nat FBO_SCHEDULE_ENTRIES) slot_zero; latency_s := FBO_SCHEDULE_LATENCY_S;
  releases := 0; refusals := 0; overdues := 0; clock_steps := 0; last_error := 0; last_clock := None |}.
End queue.

(** ** The release thread *)

Section thread.
Context {SC : ScheduleConfig} {CC : CommandConfig} {CL : CLong} {BO : ByteOrder} {CRC : Crc32} {W : Type}
  {ES : EventSink W} {RC : RemoteCommands W}.
(** The uptime of events, the release thread and the frozen command registry. *)
Variable clock : W → Z.
Variable self : Z.
Variable registry : command_registry W.
Implicit Types (q : schedule) (c : command_state W) (utc : option Z).

Definition kfsw_fbo_note (id severity detail : Z) c : command_state W :=
  set_world (sink_emit (clock (world c)) KFSW_EVENT_SOURCE_FBO id severity (Some (put_be16 detail)) 2 (world c)) c.

(** The outcome, the status of the result and the state. *)
Definition invoke (entry : kfsw_fbo_schedule_entry) c : Z * Z * command_state W :=
  let '(outcome, info, args) := build registry (en_line entry) in
  if negb (outcome =? 0) then (outcome, 0, c)
  else if en_node entry =? 0 then
    let '(outcome, result, c) :=
      kfsw_command_invoke clock self registry (info_name info) args (zlen args) (Some result_zero) c in
    (outcome, res_status (default result_zero result), c)
  else if COMMAND_CSP then
    let '(outcome, result, c) := invoke_remote (en_node entry) (info_name info) args (zlen args) c in
    (outcome, res_status result, c)
  else (- ENOTSUP, 0, c).

Definition note_overdue (indices : list Z) c : command_state W :=
  fold_left (λ c index, kfsw_fbo_note KFSW_FBO_EVENT_OVERDUE KFSW_EVENT_ERROR (u16 index) c) indices c.
Definition note_step utc (mono_ms : Z) q c : command_state W :=
  if stepped utc mono_ms q
  then kfsw_fbo_note KFSW_FBO_EVENT_CLOCK_STEP KFSW_EVENT_WARNING (u16 (clock_steps (check_step utc mono_ms q))) c
  else c.

(** A release and a sweep while no other thread runs. *)
Definition release (index : Z) utc q c : schedule * command_state W :=
  let '(entry, q) := release_begin index utc q in
  let c := kfsw_fbo_note KFSW_FBO_EVENT_RELEASED KFSW_EVENT_INFO (u16 index) c in
  let '(outcome, status, c) := invoke entry c in
  (release_end index outcome status q, c).
Fixpoint sweep_from (turns : nat) (mono_ms : Z) utc q c : schedule * command_state W :=
  match turns with
  | O => (q, c)
  | S turns =>
      let '(q, indices, candidate) := select mono_ms utc q in
      let c := note_overdue indices c in
      match candidate with
      | None => (q, c)
      | Some (index, _) =>
          let '(q, c) := release index utc q c in sweep_from turns mono_ms utc q c
      end
  end.
Definition sweep (mono_ms : Z) utc q c : schedule * command_state W :=
  sweep_from (Z.to_nat FBO_SCHEDULE_BURST) mono_ms utc q c.

(** One turn of [schedule_thread]: the uptime is read by the check and again by the sweep. *)
Definition schedule_turn utc (checked_ms mono_ms : Z) q c : schedule * command_state W :=
  sweep mono_ms utc (check_step utc checked_ms q) (note_step utc checked_ms q c).

(** ** Interleaving

    Where the release thread is between its critical sections. *)
Inductive releaser :=
| Sleeping
| Sweeping (utc : option Z) (mono_ms : Z) (released : nat)
| Chosen (utc : option Z) (mono_ms : Z) (released : nat) (index : Z)
| Invoking (utc : option Z) (mono_ms : Z) (released : nat) (index : Z) (entry : kfsw_fbo_schedule_entry)
| Invoked (utc : option Z) (mono_ms : Z) (released : nat) (index outcome status : Z).

Record fbo_system := { fs_queue : schedule; fs_thread : releaser; fs_commands : command_state W }.

Definition with_queue q (s : fbo_system) : fbo_system :=
  {| fs_queue := q; fs_thread := fs_thread s; fs_commands := fs_commands s |}.

(** What a thread other than the release thread does in one step. *)
Inductive operation :=
| OpAdd (kind time node : Z) (line : option (list Z)) (index : option Z) (utc : option Z) (mono_ms : Z)
| OpCancel (index : Z)
| OpClear
| OpSetLatency (timeout_ms seconds : Z).

Definition run_operation (op : operation) q : Z * schedule :=
  match op with
  | OpAdd kind time node line index utc mono_ms =>
      let '(result, _, q) := kfsw_fbo_schedule_add registry kind time node line index utc mono_ms q in (result, q)
  | OpCancel index => kfsw_fbo_schedule_cancel index q
  | OpClear => kfsw_fbo_schedule_clear q
  | OpSetLatency timeout_ms seconds => kfsw_fbo_schedule_set_latency_s timeout_ms seconds q
  end.

(** The release thread's own steps. *)
Inductive thread_step : fbo_system → fbo_system → Prop :=
| thread_wake q c utc checked_ms mono_ms :
    thread_step {| fs_queue := q; fs_thread := Sleeping; fs_commands := c |}
      {| fs_queue := check_step utc checked_ms q; fs_thread := Sweeping utc mono_ms 0;
         fs_commands := note_step utc checked_ms q c |}
| thread_choose q c utc mono_ms released q' indices index lateness :
    (released < Z.to_nat FBO_SCHEDULE_BURST)%nat →
    select mono_ms utc q = (q', indices, Some (index, lateness)) →
    thread_step {| fs_queue := q; fs_thread := Sweeping utc mono_ms released; fs_commands := c |}
      {| fs_queue := q'; fs_thread := Chosen utc mono_ms released index; fs_commands := note_overdue indices c |}
| thread_none q c utc mono_ms released q' indices :
    (released < Z.to_nat FBO_SCHEDULE_BURST)%nat →
    select mono_ms utc q = (q', indices, None) →
    thread_step {| fs_queue := q; fs_thread := Sweeping utc mono_ms released; fs_commands := c |}
      {| fs_queue := q'; fs_thread := Sleeping; fs_commands := note_overdue indices c |}
| thread_burst q c utc mono_ms released :
    (Z.to_nat FBO_SCHEDULE_BURST <= released)%nat →
    thread_step {| fs_queue := q; fs_thread := Sweeping utc mono_ms released; fs_commands := c |}
      {| fs_queue := q; fs_thread := Sleeping; fs_commands := c |}
| thread_begin q c utc mono_ms released index entry q' :
    release_begin index utc q = (entry, q') →
    thread_step {| fs_queue := q; fs_thread := Chosen utc mono_ms released index; fs_commands := c |}
      {| fs_queue := q'; fs_thread := Invoking utc mono_ms released index entry;
         fs_commands := kfsw_fbo_note KFSW_FBO_EVENT_RELEASED KFSW_EVENT_INFO (u16 index) c |}
| thread_invoke q c utc mono_ms released index entry outcome status c' :
    invoke entry c = (outcome, status, c') →
    thread_step {| fs_queue := q; fs_thread := Invoking utc mono_ms released index entry; fs_commands := c |}
      {| fs_queue := q; fs_thread := Invoked utc mono_ms released index outcome status; fs_commands := c' |}
| thread_end q c utc mono_ms released index outcome status :
    thread_step {| fs_queue := q; fs_thread := Invoked utc mono_ms released index outcome status; fs_commands := c |}
      {| fs_queue := release_end index outcome status q; fs_thread := Sweeping utc mono_ms (S released);
         fs_commands := c |}.

Inductive fbo_step : fbo_system → fbo_system → Prop :=
| step_thread s s' : thread_step s s' → fbo_step s s'
| step_operation op result q' s : run_operation op (fs_queue s) = (result, q') → fbo_step s (with_queue q' s)
| step_commands c s : fbo_step s {| fs_queue := fs_queue s; fs_thread := fs_thread s; fs_commands := c |}.
End thread.
