(* ===== verification/FboScheduleFacts.v ===== *)
(** * What the release queue promises

    Which entry a sweep chooses and what a turn of the release thread leaves, what an add
    does, and what holds whatever the other threads do in between: a settled entry stays as
    it is until the queue is cleared, at most one entry is running, and what a cancel or a
    clear that comes between the choice and the release does not stop. *)

From S2P Require Import Prelude Bytes CStdlib Event CommandProtocol Command FboSchedule.

(** ** Choosing *)

Section choosing.
Context {SC : ScheduleConfig}.
Implicit Types (q : schedule) (x y : slot) (utc : option Z) (l : list slot) (candidate : option (Z * Z)).

Definition waiting x : bool := sl_used x && (en_status (sl_entry x) =? KFSW_FBO_ENTRY_SCHEDULED).
(** How late a waiting entry is, when it is due. *)
Definition lateness_of (mono_ms : Z) utc x : option Z := if waiting x then due_now x mono_ms utc else None.
Definition overdue_slot x : slot :=
  set_entry (set_status KFSW_FBO_ENTRY_OVERDUE (- ETIME) (sl_entry x)) x.
(** What choosing does to a slot. *)
Definition marked (mono_ms : Z) utc (latency : Z) x : slot :=
  match lateness_of mono_ms utc x with
  | Some lateness => if lateness >? latency then overdue_slot x else x
  | None => x
  end.
(** An entry that may be released. *)
Definition eligible (mono_ms : Z) utc (latency : Z) x (lateness : Z) : Prop :=
  lateness_of mono_ms utc x = Some lateness ∧ lateness <= latency.

Lemma due_now_nonneg x mono_ms utc lateness : due_now x mono_ms utc = Some lateness → 0 <= lateness.
Proof.
  unfold due_now. destruct (_ =? KFSW_FBO_TIME_RELATIVE).
  - destruct (_ <? _) eqn:E; intros [= <-]. lia.
  - destruct utc as [utc|]; [|done]. destruct (_ <? _) eqn:E; intros [= <-]. lia.
Qed.

Lemma consider_spec mono_ms utc latency index x candidate :
  consider mono_ms utc latency index x candidate =
    (marked mono_ms utc latency x,
     match lateness_of mono_ms utc x with Some lateness => lateness >? latency | None => false end,
     match lateness_of mono_ms utc x with
     | Some lateness =>
         if lateness >? latency then candidate
         else match candidate with
              | Some (_, earliest) => if lateness >? earliest then Some (index, lateness) else candidate
              | None => Some (index, lateness)
              end
     | None => candidate
     end).
Proof.
  unfold consider, marked, lateness_of, waiting.
  destruct (sl_used x); [|done]. cbn [negb orb andb]. destruct (_ =? KFSW_FBO_ENTRY_SCHEDULED); [|done]. cbn [negb].
  destruct (due_now x mono_ms utc) as [lateness|]; [|done]. by destruct (lateness >? latency).
Qed.

(** A candidate is at least as late as the one before it and as every eligible slot. *)
Lemma select_from_spec mono_ms utc latency index l candidate l' indices best :
  0 <= index → select_from mono_ms utc latency index l candidate = (l', indices, best) →
  l' = marked mono_ms utc latency <$> l ∧
  (best = candidate ∨ ∃ i x lateness, best = Some (index + Z.of_nat i, lateness) ∧ l !! i = Some x ∧
     eligible mono_ms utc latency x lateness) ∧
  (∀ i earliest, candidate = Some (i, earliest) → ∃ j late, best = Some (j, late) ∧ earliest <= late) ∧
  (∀ x lateness, x ∈ l → eligible mono_ms utc latency x lateness → ∃ j late, best = Some (j, late) ∧ lateness <= late).
Proof.
  revert index candidate l' indices best. induction l as [|x l IH]; intros index candidate l' indices best Hi H.
  { cbn in H. injection H as <- <- <-. split_and!; [done|by left|intros i e ->; eauto with lia|].
    intros y lateness Hy. by apply elem_of_nil in Hy. }
  cbn [select_from] in H. rewrite consider_spec in H.
  set (candidate1 := match lateness_of _ _ x with Some _ => _ | None => candidate end) in H.
  destruct (select_from mono_ms utc latency (index + 1) l candidate1) as [[l1 indices1] best1] eqn:E.
  injection H as <- <- <-. apply IH in E as (-> & Hbest & Hcand & Hall); [|lia]. split; [done|].
  assert (∀ i earliest, candidate = Some (i, earliest) → ∃ j late, candidate1 = Some (j, late) ∧ earliest <= late) as Hc1.
  { intros i e ->. subst candidate1. destruct (lateness_of _ _ x) as [lateness|]; [|eauto with lia].
    destruct (lateness >? latency); [eauto with lia|]. destruct (lateness >? e) eqn:G; eauto with lia. }
  assert (∀ lateness, eligible mono_ms utc latency x lateness → ∃ j late, candidate1 = Some (j, late) ∧ lateness <= late) as Hx1.
  { intros lateness [Hl Hle]. subst candidate1. rewrite Hl. destruct (lateness >? latency) eqn:G; [lia|].
    destruct candidate as [[i e]|]; [|eauto with lia]. destruct (lateness >? e) eqn:G1; eauto with lia. }
  split; [|split].
  - destruct Hbest as [-> |(i & y & lateness & -> & Hy & He)].
    + subst candidate1. destruct (lateness_of _ _ x) as [lateness|] eqn:El; [|by left].
      destruct (lateness >? latency) eqn:G; [by left|].
      assert (∃ i y late, Some (index, lateness) = Some (index + Z.of_nat i, late) ∧ (x :: l) !! i = Some y ∧
        eligible mono_ms utc latency y late) as Hhere.
      { exists O, x, lateness. rewrite Z.add_0_r. split_and!; [done|done|]. split; [done|lia]. }
      destruct candidate as [[i e]|]; [|by right]. destruct (lateness >? e); [by right|by left].
    + right. exists (S i), y, lateness. split_and!; [|done|done]. do 2 f_equal. lia.
  - intros i e Hce. destruct (Hc1 i e Hce) as (j & late & Hj & Hle). destruct (Hcand j late Hj) as (j' & late' & -> & ?).
    exists j', late'. split; [done|lia].
  - intros y lateness [->|Hy]%elem_of_cons He; [|by eapply Hall].
    destruct (Hx1 lateness He) as (j & late & Hj & ?). destruct (Hcand j late Hj) as (j' & late' & -> & ?).
    exists j', late'. split; [done|lia].
Qed.

Lemma select_spec mono_ms utc q q' indices best :
  select mono_ms utc q = (q', indices, best) →
  slots q' = marked mono_ms utc (latency_s q) <$> slots q ∧ latency_s q' = latency_s q ∧ releases q' = releases q ∧
  match best with
  | Some (i, lateness) => 0 <= i ∧ ∃ x, slots q !! Z.to_nat i = Some x ∧ eligible mono_ms utc (latency_s q) x lateness ∧
      ∀ y late, y ∈ slots q → eligible mono_ms utc (latency_s q) y late → late <= lateness
  | None => ∀ y late, y ∈ slots q → ¬ eligible mono_ms utc (latency_s q) y late
  end.
Proof.
  unfold select. destruct (select_from _ _ _ _ _ _) as [[l1 indices1] best1] eqn:E. intros [= <- <- <-].
  apply select_from_spec in E as (-> & Hbest & _ & Hall); [|lia]. cbn [slots latency_s releases]. split_and!; [done..|].
  destruct best1 as [[i lateness]|].
  - destruct Hbest as [?|(j & x & late & [= -> ->] & Hx & He)]; [done|]. split; [lia|].
    replace (Z.to_nat (0 + Z.of_nat j)) with j by lia. exists x. split_and!; [done|done|].
    intros y late' Hy Hey. destruct (Hall y late' Hy Hey) as (k & l' & [= _ <-] & ?). done.
  - intros y late Hy He. by destruct (Hall y late Hy He) as (j & l' & ? & _).
Qed.

(** A slot that is not waiting, or not due, is left alone. *)
Lemma marked_not_waiting mono_ms utc latency x : waiting x = false → marked mono_ms utc latency x = x.
Proof. unfold marked, lateness_of. by intros ->. Qed.
Lemma eligible_waiting mono_ms utc latency x lateness : eligible mono_ms utc latency x lateness → waiting x = true.
Proof. unfold eligible, lateness_of. intros [H _]. by destruct (waiting x). Qed.
End choosing.


(** ** A turn of the release thread *)

Section turns.
Context {SC : ScheduleConfig} {CC : CommandConfig} {CL : CLong} {BO : ByteOrder} {CRC : Crc32} {W : Type}
  {ES : EventSink W} {RC : RemoteCommands W} (clock : W → Z) (self : Z) (registry : command_registry W).
Implicit Types (q : schedule) (x y : slot) (utc : option Z) (c : command_state W).

(** The entry as it is handed to the command, and the slot once the command has answered. *)
Definition running_entry utc x : kfsw_fbo_schedule_entry :=
  let e := sl_entry x in
  {| en_line := en_line e; en_due_utc := en_due_utc e; en_released_utc := default 0 utc;
     en_delay_s := en_delay_s e; en_remaining_s := en_remaining_s e; en_content_hash := en_content_hash e;
     en_result := en_result e; en_node := en_node e; en_index := en_index e; en_command_id := en_command_id e;
     en_kind := en_kind e; en_status := KFSW_FBO_ENTRY_RUNNING; en_command_status := en_command_status e |}.
Definition released_slot utc (outcome status : Z) x : slot :=
  let e := running_entry utc x in
  set_entry
    {| en_line := en_line e; en_due_utc := en_due_utc e; en_released_utc := en_released_utc e;
       en_delay_s := en_delay_s e; en_remaining_s := en_remaining_s e; en_content_hash := en_content_hash e;
       en_result := outcome; en_node := en_node e; en_index := en_index e; en_command_id := en_command_id e;
       en_kind := en_kind e;
       en_status := if release_failed outcome status then KFSW_FBO_ENTRY_FAILED else KFSW_FBO_ENTRY_COMPLETED;
       en_command_status := u8 status |} x.
(** The command of the slot's line ran and answered this. *)
Definition ran utc x x' : Prop :=
  ∃ outcome status c1 c2, invoke clock self registry (running_entry utc x) c1 = (outcome, status, c2) ∧
    x' = released_slot utc outcome status x.

Lemma released_not_waiting utc outcome status x : waiting (released_slot utc outcome status x) = false.
Proof.
  unfold waiting, released_slot. cbn. destruct (release_failed outcome status); by rewrite andb_false_r.
Qed.
Lemma overdue_not_waiting x : waiting (overdue_slot x) = false.
Proof. unfold waiting, overdue_slot. cbn. by rewrite andb_false_r. Qed.

Lemma release_spec index utc q c q' c' x :
  slots q !! Z.to_nat index = Some x → release clock self registry index utc q c = (q', c') →
  ∃ x', ran utc x x' ∧ slots q' = <[Z.to_nat index := x']> (slots q) ∧ latency_s q' = latency_s q ∧
    releases q' = sat_inc (releases q).
Proof.
  intros Hx. unfold release, release_begin. rewrite Hx. cbn [default from_option id].
  change {| en_line := _; en_due_utc := _ |} with (running_entry utc x).
  destruct (invoke clock self registry (running_entry utc x) _) as [[outcome status] c2] eqn:E. intros [= <- <-].
  exists (released_slot utc outcome status x). split; [by repeat eexists|].
  unfold release_end. cbn [slots latency_s releases].
  rewrite list_lookup_insert_eq by (by eapply lookup_lt_Some). cbn [default from_option id].
  rewrite list_insert_insert_eq. done.
Qed.

(** What a turn does to a slot: nothing, unless it is waiting and due. Then it is marked
    overdue if it is late by more than the buffer, and is released or waits otherwise. *)
Definition swept (mono_ms : Z) utc (latency : Z) x x' : Prop :=
  match lateness_of mono_ms utc x with
  | Some lateness => if lateness >? latency then x' = overdue_slot x else x' = x ∨ ran utc x x'
  | None => x' = x
  end.

Lemma swept_marked mono_ms utc latency x : swept mono_ms utc latency x (marked mono_ms utc latency x).
Proof. unfold swept, marked. destruct (lateness_of _ _ x) as [lateness|]; [|done]. by destruct (lateness >? latency); [|left]. Qed.

Lemma swept_settled mono_ms utc latency x x' :
  waiting x = false → swept mono_ms utc latency x x' → x' = x.
Proof. unfold swept, lateness_of. by intros ->. Qed.
Lemma swept_trans mono_ms utc latency x y z :
  swept mono_ms utc latency x y → swept mono_ms utc latency y z → swept mono_ms utc latency x z.
Proof.
  intros Hxy Hyz. unfold swept in Hxy |- *. destruct (lateness_of mono_ms utc x) as [lateness|] eqn:E.
  - destruct (lateness >? latency) eqn:G.
    + subst y. eapply swept_settled; [|exact Hyz]. apply overdue_not_waiting.
    + destruct Hxy as [-> |Hran].
      * unfold swept in Hyz. by rewrite E, G in Hyz.
      * right. destruct Hran as (o & s & c1 & c2 & Hi & ->).
        rewrite (swept_settled _ _ _ _ _ (released_not_waiting utc o s x) Hyz). by repeat eexists.
  - subst y. unfold swept in Hyz. by rewrite E in Hyz.
Qed.

Lemma swept_chosen mono_ms utc latency l i x x' lateness :
  l !! i = Some x → eligible mono_ms utc latency x lateness → ran utc x x' →
  Forall2 (swept mono_ms utc latency) l (<[i:=x']> (marked mono_ms utc latency <$> l)).
Proof.
  intros Hx He Hran. apply Forall2_same_length_lookup. split; [by rewrite length_insert, length_fmap|].
  intros j y z Hy Hz. destruct (decide (j = i)) as [->|Hne].
  - rewrite list_lookup_insert_eq in Hz by (rewrite length_fmap; by eapply lookup_lt_Some).
    injection Hz as <-. rewrite Hx in Hy. injection Hy as <-. destruct He as [He Hle]. unfold swept. rewrite He.
    destruct (lateness >? latency) eqn:G; [lia|by right].
  - rewrite list_lookup_insert_ne, list_lookup_fmap, Hy in Hz by done. injection Hz as <-. apply swept_marked.
Qed.

(** One choice and its release. *)
Lemma sweep_turn turns mono_ms utc q c q' c' :
  sweep_from clock self registry (S turns) mono_ms utc q c = (q', c') →
  ∃ q1 c1, Forall2 (swept mono_ms utc (latency_s q)) (slots q) (slots q1) ∧ latency_s q1 = latency_s q ∧
    ((q' = q1 ∧ releases q1 = releases q ∧ ∀ y late, y ∈ slots q → ¬ eligible mono_ms utc (latency_s q) y late) ∨
     (sweep_from clock self registry turns mono_ms utc q1 c1 = (q', c') ∧ releases q1 = sat_inc (releases q) ∧
      ∃ i x x' lateness, slots q !! i = Some x ∧ slots q1 !! i = Some x' ∧ ran utc x x' ∧
        eligible mono_ms utc (latency_s q) x lateness ∧
        ∀ y late, y ∈ slots q → eligible mono_ms utc (latency_s q) y late → late <= lateness)).
Proof.
  cbn [sweep_from]. destruct (select mono_ms utc q) as [[q0 indices] candidate] eqn:Es.
  apply select_spec in Es as (Hs & Hl & Hr & Hc). destruct candidate as [[index lateness]|].
  - destruct Hc as (Hi & x & Hx & He & Hmax).
    destruct (release clock self registry index utc q0 _) as [q1 c1] eqn:Er. intros Hrun.
    assert (slots q0 !! Z.to_nat index = Some x) as Hx0.
    { rewrite Hs, list_lookup_fmap, Hx. cbn. f_equal. unfold marked. destruct He as [-> ?].
      by destruct (lateness >? latency_s q) eqn:G; [lia|]. }
    apply (release_spec _ _ _ _ _ _ x Hx0) in Er as (x' & Hran & Hs1 & Hl1 & Hr1).
    exists q1, c1. rewrite Hs1, Hs, Hl1, Hl. split; [by eapply swept_chosen|]. split; [done|]. right.
    split; [done|]. split; [by rewrite Hr1, Hr|]. exists (Z.to_nat index), x, x', lateness. split_and!; try done.
    apply list_lookup_insert_eq. rewrite length_fmap. by eapply lookup_lt_Some.
  - intros [= <- <-]. exists q0, c. rewrite Hs. split; [|split; [done|by left]].
    apply Forall2_fmap_r, Forall_Forall2_diag, Forall_forall. intros x _. apply swept_marked.
Qed.

(** Later choices keep what the first one did. *)
Definition kept mono_ms utc latency x x' : Prop := x' = x ∨ swept mono_ms utc latency x x'.

Lemma kept_trans mono_ms utc latency x y z :
  swept mono_ms utc latency x y → kept mono_ms utc latency y z → swept mono_ms utc latency x z.
Proof. intros Hxy [-> |Hyz]; [done|by eapply swept_trans]. Qed.
Lemma kept_released mono_ms utc latency x x' z : ran utc x x' → kept mono_ms utc latency x' z → z = x'.
Proof.
  intros (o & s & _ & _ & _ & ->) [-> |H]; [done|]. by apply (swept_settled _ _ _ _ _ (released_not_waiting utc o s x) H).
Qed.
Lemma Forall2_trans_with {A} (P Q R : A → A → Prop) (l l1 l2 : list A) :
  (∀ a b c : A, P a b → Q b c → R a c) → Forall2 P l l1 → Forall2 Q l1 l2 → Forall2 R l l2.
Proof. intros H HP. revert l2. induction HP; intros l2 HQ; inversion HQ; subst; constructor; eauto. Qed.

Lemma sweep_kept turns mono_ms utc q c q' c' :
  sweep_from clock self registry turns mono_ms utc q c = (q', c') →
  Forall2 (kept mono_ms utc (latency_s q)) (slots q) (slots q') ∧
  ∃ n, (n <= turns)%nat ∧ releases q' = Nat.iter n sat_inc (releases q).
Proof.
  revert q c. induction turns as [|turns IH]; intros q c H.
  { cbn in H. injection H as <- <-. split; [|by exists O].
    apply Forall_Forall2_diag, Forall_forall. intros x _. by left. }
  apply sweep_turn in H as (q1 & c1 & H1 & Hl & [(-> & Hr & _)|(Hrun & Hr & _)]).
  - split; [|exists O; split; [lia|done]]. eapply Forall2_impl; [exact H1|]. intros x y. by right.
  - destruct (IH q1 c1 Hrun) as (H2 & n & Hn & Hrn). split.
    + rewrite Hl in H2. eapply Forall2_trans_with; [|exact H1|exact H2]. intros x y z Hxy Hyz. right. by eapply kept_trans.
    + exists (S n). split; [lia|]. by rewrite Hrn, Hr, Nat.iter_succ_r.
Qed.

Lemma sweep_spec turns mono_ms utc q c q' c' :
  (0 < turns)%nat → sweep_from clock self registry turns mono_ms utc q c = (q', c') →
  Forall2 (swept mono_ms utc (latency_s q)) (slots q) (slots q') ∧
  (∃ n, (n <= turns)%nat ∧ releases q' = Nat.iter n sat_inc (releases q)) ∧
  (∀ y late, y ∈ slots q → eligible mono_ms utc (latency_s q) y late →
     ∃ i x x' lateness, slots q !! i = Some x ∧ slots q' !! i = Some x' ∧ ran utc x x' ∧
       eligible mono_ms utc (latency_s q) x lateness ∧
       ∀ z late', z ∈ slots q → eligible mono_ms utc (latency_s q) z late' → late' <= lateness).
Proof.
  destruct turns as [|turns]; [lia|]. intros _ H.
  apply sweep_turn in H as (q1 & c1 & H1 & Hl & [(-> & Hr & Hnone)|(Hrun & Hr & i & x & x' & lateness & Hx & Hx' & Hran & He & Hmax)]).
  - split_and!; [done|exists O; split; [lia|done]|]. intros y late Hy Hey. by destruct (Hnone y late Hy).
  - apply sweep_kept in Hrun as (H2 & n & Hn & Hrn). rewrite Hl in H2. split_and!.
    + eapply Forall2_trans_with; [|exact H1|exact H2]. apply kept_trans.
    + exists (S n). split; [lia|]. by rewrite Hrn, Hr, Nat.iter_succ_r.
    + intros _ _ _ _. destruct (Forall2_lookup_l _ _ _ _ _ H2 Hx') as (z & Hz & Hk).
      rewrite (kept_released _ _ _ _ _ _ Hran Hk) in Hz. by exists i, x, x', lateness.
Qed.
End turns.

(** ** Adding an entry *)

Section adding.
Context {SC : ScheduleConfig} {CC : CommandConfig} {CL : CLong} {BO : ByteOrder} {CRC : Crc32} {W : Type}.
Variable registry : command_registry W.
Implicit Types (q : schedule) (x y : slot) (utc : option Z).

Definition holds (hash : Z) x : bool := live x && (en_content_hash (sl_entry x) =? hash).

Lemma place_spec hash index free_slot l :
  match place hash index free_slot l with
  | inl i => ∃ j x, i = index + Z.of_nat j ∧ l !! j = Some x ∧ holds hash x = true
  | inr r =>
      (∀ x, x ∈ l → holds hash x = false) ∧
      match free_slot with
      | Some _ => r = free_slot
      | None =>
          match r with
          | Some i => ∃ j x, i = index + Z.of_nat j ∧ l !! j = Some x ∧ sl_used x = false ∧
              ∀ k y, (k < j)%nat → l !! k = Some y → sl_used y = true
          | None => ∀ x, x ∈ l → sl_used x = true
          end
      end
  end.
Proof.
  revert index free_slot. induction l as [|x l IH]; intros index free_slot.
  { cbn. split; [by intros x ?%elem_of_nil|]. destruct free_slot; [done|by intros x ?%elem_of_nil]. }
  cbn [place]. fold (holds hash x). destruct (holds hash x) eqn:Eh.
  { exists O, x. split_and!; [lia|done|done]. }
  set (free1 := if negb (sl_used x) && bool_decide (free_slot = None) then Some index else free_slot).
  specialize (IH (index + 1) free1). destruct (place hash (index + 1) free1 l) as [i|r].
  - destruct IH as (j & y & -> & Hy & Hh). exists (S j), y. split_and!; [lia|done|done].
  - destruct IH as [Hno Hr]. split; [by intros y [->|?]%elem_of_cons; [|apply Hno]|].
    subst free1. destruct free_slot as [f|].
    { rewrite bool_decide_eq_false_2, andb_false_r in Hr by done. done. }
    rewrite bool_decide_eq_true_2, andb_true_r in Hr by done. destruct (sl_used x) eqn:Eu; cbn [negb] in Hr.
    + destruct r as [i|]; [|by intros y [->|?]%elem_of_cons; [|apply Hr]].
      destruct Hr as (j & y & -> & Hy & Huy & Hk). exists (S j), y. split_and!; [lia|done|done|].
      intros [|k] z Hlt Hz; [by injection Hz as <-|]. apply (Hk k); [lia|done].
    + rewrite Hr. exists O, x. split_and!; [lia|done|done|lia].
Qed.

Lemma new_slot_holds kind time node command_id hash index mono_ms line :
  holds hash (new_slot kind time node command_id hash index mono_ms line) = true.
Proof. unfold holds, live, new_slot. cbn. by rewrite Z.eqb_refl. Qed.

(** An entry of the same content is found where it is, if it is the only one. *)
Lemma place_only hash i x l :
  l !! i = Some x → holds hash x = true → (∀ j y, l !! j = Some y → j ≠ i → holds hash y = false) →
  place hash 0 None l = inl (Z.of_nat i).
Proof.
  intros Hx Hh Hothers. pose proof (place_spec hash 0 None l) as H. destruct (place hash 0 None l) as [k|r].
  - destruct H as (j & y & -> & Hy & Hhy). destruct (decide (j = i)) as [->|Hne]; [done|].
    by rewrite (Hothers j y Hy Hne) in Hhy.
  - destruct H as [Hno _]. rewrite (Hno x) in Hh; [done|]. by eapply list_elem_of_lookup_2.
Qed.

Lemma add_locked_spec kind time node mono_ms line q result written q' :
  zlen (slots q) = FBO_SCHEDULE_ENTRIES → add_locked registry kind time node mono_ms line q = (result, written, q') →
  (result ≠ 0 ∧ slots q' = slots q ∧ latency_s q' = latency_s q) ∨
  (result = 0 ∧ ∃ i x info args, build registry line = (0, info, args) ∧
     slots q !! i = Some x ∧ sl_used x = false ∧ written = Some (Z.of_nat i) ∧
     (∀ k y, (k < i)%nat → slots q !! k = Some y → sl_used y = true) ∧
     (∀ y, y ∈ slots q → holds (content_hash kind time node line) y = false) ∧
     q' = set_slots (<[i := new_slot kind time node (info_id info) (content_hash kind time node line)
                              (Z.of_nat i) mono_ms line]> (slots q)) q).
Proof.
  intros Hlen. unfold add_locked. destruct (build registry line) as [[outcome info] args] eqn:Eb.
  destruct (outcome =? 0) eqn:Eo; cbn [negb].
  2: { intros [= <- <- <-]. left. split_and!; [lia|done|done]. }
  assert (outcome = 0) as -> by lia.
  set (hash := content_hash kind time node line). pose proof (place_spec hash 0 None (slots q)) as H.
  destruct (place hash 0 None (slots q)) as [k|[k|]].
  - intros [= <- <- <-]. by left.
  - destruct H as (Hno & j & x & -> & Hx & Hu & Hk). intros [= <- <- <-]. right. split; [done|].
    assert (0 + Z.of_nat j = Z.of_nat j) as -> by lia. rewrite Nat2Z.id. exists j, x, info, args. split_and!; try done.
    f_equal. rewrite u16_id; [done|]. pose proof (lookup_lt_Some _ _ _ Hx). unfold zlen in Hlen.
    pose proof FBO_SCHEDULE_ENTRIES_range. unfold is_u16. lia.
  - intros [= <- <- <-]. by left.
Qed.

Lemma check_time_latency kind time utc q q' :
  latency_s q' = latency_s q → check_time kind time utc q' = check_time kind time utc q.
Proof. unfold check_time. by intros ->. Qed.

Lemma add_spec kind time node line index utc mono_ms q result written q' :
  zlen (slots q) = FBO_SCHEDULE_ENTRIES →
  kfsw_fbo_schedule_add registry kind time node line index utc mono_ms q = (result, written, q') →
  (result ≠ 0 ∧ slots q' = slots q ∧ latency_s q' = latency_s q) ∨
  (result = 0 ∧ ∃ text w, line = Some text ∧ is_Some index ∧ terminated_within text KFSW_FBO_SCHEDULE_LINE_MAX = true ∧
     char_at text 0 ≠ 0 ∧ fst (check_time kind time utc q) = 0 ∧ (COMMAND_CSP = false → node = 0) ∧
     add_locked registry kind time node mono_ms text q = (0, Some w, q') ∧ written = Some w).
Proof.
  intros Hlen. unfold kfsw_fbo_schedule_add. destruct line as [text|], index as [i|];
    [|intros [= <- <- <-]; by left..].
  destruct ((char_at text 0 =? 0) || negb (terminated_within text KFSW_FBO_SCHEDULE_LINE_MAX)) eqn:Et;
    [intros [= <- <- <-]; by left|].
  destruct (check_time kind time utc q) as [refused counted] eqn:Ec.
  destruct (refused =? 0) eqn:Er; cbn [negb].
  2: { intros [= <- <- <-]. left. split_and!; [lia|by destruct counted..]. }
  destruct (negb COMMAND_CSP && negb (node =? 0)) eqn:Ecsp; [intros [= <- <- <-]; by left|].
  destruct (add_locked registry kind time node mono_ms text q) as [[result1 written1] q1] eqn:Ea.
  intros [= <- <- <-]. destruct (add_locked_spec _ _ _ _ _ _ _ _ _ Hlen Ea) as
    [(Hr & Hs & Hl)|(Hr & j & x & info & args & _ & _ & _ & -> & _)]; [by left|].
  right. split; [done|]. subst result1. exists text, (Z.of_nat j). split_and!; try done; [|lia|cbn; lia|].
  - destruct (terminated_within text _); [done|by rewrite orb_true_r in Et].
  - intros HC. rewrite HC in Ecsp. cbn in Ecsp. lia.
Qed.
End adding.
