(* ===== verification/FtpProtocol.v ===== *)
(** * File transfer protocol ([src/ftp/ftp_protocol.c], [src/ftp/ftp_state.c])

    The frame codec, the path policy that keeps every request below its root, the
    status mapping, and the counters and settings of the service. *)

From S2P Require Import Prelude Bytes Codec.

Definition KFSW_FTP_PROTOCOL_VERSION : Z := 1.
Definition KFSW_FTP_PROTOCOL_HEADER_SIZE : Z := 24.
Definition KFSW_FTP_FULL_PATH_SIZE : Z := 128.
Definition KFSW_FTP_MAX_PATH_SIZE : Z := 96.
Definition KFSW_FTP_CHUNK_SIZE : Z := 192.
Definition KFSW_FTP_TIMEOUT_MIN_MS : Z := 1000.
Definition KFSW_FTP_TIMEOUT_MAX_MS : Z := 120000.

Definition KFSW_FTP_OP_MKDIR_REQUEST : Z := 1.
Definition KFSW_FTP_OP_GET_RESULT : Z := 15.

Definition KFSW_FTP_STATUS_OK : Z := 0.
Definition KFSW_FTP_STATUS_INVALID_REQUEST : Z := 1.
Definition KFSW_FTP_STATUS_INVALID_PATH : Z := 2.
Definition KFSW_FTP_STATUS_NOT_FOUND : Z := 3.
Definition KFSW_FTP_STATUS_ALREADY_EXISTS : Z := 4.
Definition KFSW_FTP_STATUS_NO_SPACE : Z := 5.
Definition KFSW_FTP_STATUS_IO_ERROR : Z := 6.
Definition KFSW_FTP_STATUS_INTEGRITY_ERROR : Z := 7.
Definition KFSW_FTP_STATUS_BUSY : Z := 8.
Definition KFSW_FTP_STATUS_UNSUPPORTED : Z := 9.
Definition KFSW_FTP_STATUS_TIMEOUT : Z := 10.
Definition KFSW_FTP_STATUS_CONNECTION_ERROR : Z := 11.
Definition KFSW_FTP_STATUS_NOT_DIRECTORY : Z := 12.
Definition KFSW_FTP_STATUS_READ_ONLY : Z := 13.

(** [path] and [data] are pointers: after a decode, to the rest of the buffer. *)
Record kfsw_ftp_message := {
  fm_opcode : Z; fm_flags : Z; fm_status : Z; fm_request_id : Z; fm_offset : Z;
  fm_total_size : Z; fm_crc32 : Z; fm_path_size : Z; fm_data_size : Z;
  fm_path : option (list Z); fm_data : option (list Z);
}.

(** ** The frame *)

Section codec.
Context {BO : ByteOrder}.

Definition kfsw_ftp_protocol_encode (buffer : option (list Z)) (capacity : Z)
    (message : option kfsw_ftp_message) (encoded_size : option Z)
    : Z * option (list Z) * option Z :=
  match buffer, message, encoded_size with
  | Some buf, Some m, Some _ =>
      if (fm_opcode m <? KFSW_FTP_OP_MKDIR_REQUEST) || (fm_opcode m >? KFSW_FTP_OP_GET_RESULT)
         || (fm_path_size m >? KFSW_FTP_MAX_PATH_SIZE)
         || (fm_data_size m >? KFSW_FTP_CHUNK_SIZE)
         || (negb (fm_path_size m =? 0) && bool_decide (fm_path m = None))
         || (negb (fm_data_size m =? 0) && bool_decide (fm_data m = None))
      then (- EINVAL, buffer, encoded_size)
      else
        let size := KFSW_FTP_PROTOCOL_HEADER_SIZE + fm_path_size m + fm_data_size m in
        if size >? capacity then (- EMSGSIZE, buffer, encoded_size)
        else
          let b := buf_put 0 [KFSW_FTP_PROTOCOL_VERSION] buf in
          let b := buf_put 1 [fm_opcode m] b in
          let b := buf_put 2 [fm_flags m] b in
          let b := buf_put 3 [fm_status m] b in
          let b := buf_put 4 (put_be32 (fm_request_id m)) b in
          let b := buf_put 8 (put_be32 (fm_offset m)) b in
          let b := buf_put 12 (put_be32 (fm_total_size m)) b in
          let b := buf_put 16 (put_be32 (fm_crc32 m)) b in
          let b := buf_put 20 (put_be16 (fm_path_size m)) b in
          let b := buf_put 22 (put_be16 (fm_data_size m)) b in
          let b := if negb (fm_path_size m =? 0)
                   then buf_put 24 (take (Z.to_nat (fm_path_size m)) (default [] (fm_path m))) b
                   else b in
          let b := if negb (fm_data_size m =? 0)
                   then buf_put (Z.to_nat (KFSW_FTP_PROTOCOL_HEADER_SIZE + fm_path_size m))
                          (take (Z.to_nat (fm_data_size m)) (default [] (fm_data m))) b
                   else b in
          (0, Some b, Some size)
  | _, _, _ => (- EINVAL, buffer, encoded_size)
  end.

Definition kfsw_ftp_protocol_decode (buffer : option (list Z)) (size : Z)
    (message : option kfsw_ftp_message) : Z * option kfsw_ftp_message :=
  match buffer, message with
  | Some buf, Some _ =>
      if size <? KFSW_FTP_PROTOCOL_HEADER_SIZE then (- EMSGSIZE, message)
      else if negb (byte_at buf 0 =? KFSW_FTP_PROTOCOL_VERSION) then (- EPROTONOSUPPORT, message)
      else if (byte_at buf 1 <? KFSW_FTP_OP_MKDIR_REQUEST)
              || (byte_at buf 1 >? KFSW_FTP_OP_GET_RESULT) then (- ENOTSUP, message)
      else
        let path_size := get_be16 20 buf in
        let data_size := get_be16 22 buf in
        let filled path data := {|
          fm_opcode := byte_at buf 1; fm_flags := byte_at buf 2; fm_status := byte_at buf 3;
          fm_request_id := get_be32 4 buf; fm_offset := get_be32 8 buf;
          fm_total_size := get_be32 12 buf; fm_crc32 := get_be32 16 buf;
          fm_path_size := path_size; fm_data_size := data_size;
          fm_path := path; fm_data := data |} in
        if (path_size >? KFSW_FTP_MAX_PATH_SIZE) || (data_size >? KFSW_FTP_CHUNK_SIZE)
        then (- EMSGSIZE, Some (filled None None))
        else
          let expected_size := KFSW_FTP_PROTOCOL_HEADER_SIZE + path_size + data_size in
          if negb (expected_size =? size) then (- EMSGSIZE, Some (filled None None))
          else
            let path := drop 24 buf in
            let data := drop (Z.to_nat (KFSW_FTP_PROTOCOL_HEADER_SIZE + path_size)) buf in
            let m := filled (Some path) (Some data) in
            if negb (path_size =? 0) && mem_has 0 (take (Z.to_nat path_size) path)
            then (- EBADMSG, Some m)
            else (0, Some m)
  | _, _ => (- EMSGSIZE, message)
  end.
End codec.

(** The caller's array of [path_size] characters, as the string it then holds. *)
Definition kfsw_ftp_copy_message_path (message : option kfsw_ftp_message)
    (path : option (list Z)) (path_size : Z) : Z * option (list Z) :=
  match message, path with
  | Some m, Some _ =>
      if (fm_path_size m =? 0) || (fm_path_size m >=? path_size) then (- EINVAL, path)
      else (0, Some (take (Z.to_nat (fm_path_size m)) (default [] (fm_path m))))
  | _, _ => (- EINVAL, path)
  end.

(** ** Paths *)

Definition KFSW_FTP_ROOT_PATH : list Z := cstr "/kfsw/ftp".
Definition KFSW_FTP_READONLY_ROOT : list Z := cstr "/kfsw/hk".
Definition KFSW_FTP_BOOT_ROOT : list Z := cstr "/kfsw/boot".
Definition KFSW_FTP_HK_PATH : list Z := cstr "hk".
Definition KFSW_FTP_BOOT_PATH : list Z := cstr "boot".
Definition KFSW_FTP_TMP_PATH : list Z := cstr "tmp".

(** Where the platform mounts its RAM volume, when [CONFIG_KFSW_STORAGE_TMP]. *)
Class StorageTmp := { STORAGE_TMP_MOUNT_POINT : option (list Z) }.

Record ftp_extra_root := { er_prefix : list Z; er_root : list Z; er_writable : bool }.
#[export] Instance ftp_extra_root_inhabited : Inhabited ftp_extra_root :=
  populate (Build_ftp_extra_root [] [] false).

Definition slash : Z := 47.

Section path.
Context {ST : StorageTmp}.

Definition extra_roots : list ftp_extra_root :=
  [ {| er_prefix := KFSW_FTP_HK_PATH; er_root := KFSW_FTP_READONLY_ROOT; er_writable := false |};
    {| er_prefix := KFSW_FTP_BOOT_PATH; er_root := KFSW_FTP_BOOT_ROOT; er_writable := false |} ]
  ++ match STORAGE_TMP_MOUNT_POINT with
     | Some mount =>
         [ {| er_prefix := KFSW_FTP_TMP_PATH; er_root := mount; er_writable := true |} ]
     | None => []
     end.

(** [if (p[0] == '/') p++]. *)
Definition skip_slash (p : list Z) : list Z := if char_at p 0 =? slash then tail p else p.

Definition prefix_selects (relative prefix : list Z) : bool :=
  let size := length prefix in
  strn_eq relative prefix size
  && ((char_at relative size =? 0) || (char_at relative size =? slash)).

(** The index, or [None] for -1. *)
Definition extra_root (virtual_path : option (list Z)) : option nat :=
  match virtual_path with
  | None => None
  | Some p =>
      fst <$> list_find (λ e, prefix_selects (skip_slash p) (er_prefix e) = true) extra_roots
  end.

Definition kfsw_ftp_path_is_read_only (virtual_path : option (list Z)) : bool :=
  match extra_root virtual_path with
  | Some selected => negb (er_writable (extra_roots !!! selected))
  | None => false
  end.

(** [fs_stat(root) == 0] is what a root's being mounted means here. *)
Fixpoint list_roots_loop {C} (mounted : list Z → bool) (visitor : list Z → C → C * bool)
    (roots : list ftp_extra_root) (c : C) : C * bool :=
  match roots with
  | [] => (c, true)
  | e :: roots =>
      if negb (mounted (er_root e)) then list_roots_loop mounted visitor roots c
      else let '(c', more) := visitor (er_prefix e) c in
           if negb more then (c', false) else list_roots_loop mounted visitor roots c'
  end.
Definition kfsw_ftp_list_roots {C} (mounted : list Z → bool) (visitor : list Z → C → C * bool)
    (c : C) : C * bool := list_roots_loop mounted visitor extra_roots c.

(** The component that ends before [index] is empty, ["."] or [".."]. *)
Definition bad_component (relative : list Z) (index component_size : nat) : bool :=
  let start := (index - component_size)%nat in
  (component_size =? 0)%nat
  || ((component_size =? 1)%nat && (char_at relative start =? 46))
  || ((component_size =? 2)%nat && (char_at relative start =? 46)
      && (char_at relative (start + 1) =? 46)).

(** The loop over the characters, the virtual ['/'] after the last one included. *)
Fixpoint check_components (relative rest : list Z) (index component_size : nat) : bool :=
  match rest with
  | [] => negb (bad_component relative index component_size)
  | character :: rest =>
      if character =? slash then
        if bad_component relative index component_size then false
        else check_components relative rest (S index) 0
      else if (character =? 92) || (character <? 32) || (character =? 127) then false
      else check_components relative rest (S index) (S component_size)
  end.

(** [resolved] is the string in the caller's array of [resolved_size] characters. *)
Definition kfsw_ftp_resolve_path (virtual_path : option (list Z)) (allow_root : bool)
    (resolved : option (list Z)) (resolved_size : Z) : Z * option (list Z) :=
  match virtual_path, resolved with
  | Some p, Some _ =>
      if strlen p >? KFSW_FTP_MAX_PATH_SIZE then (- ENAMETOOLONG, resolved)
      else
        let relative := skip_slash p in
        let '(root, relative) :=
          match extra_root (Some p) with
          | Some selected =>
              let e := extra_roots !!! selected in
              (er_root e, skip_slash (drop (length (er_prefix e)) relative))
          | None => (KFSW_FTP_ROOT_PATH, relative)
          end in
        if zlen relative =? 0 then
          if negb allow_root || (resolved_size <=? zlen root) then (- EINVAL, resolved)
          else (0, Some root)
        else if resolved_size <=? zlen root + 1 + zlen relative then (- ENAMETOOLONG, resolved)
        else if negb (check_components relative relative 0 0) then (- EINVAL, resolved)
        else (0, Some (root ++ [slash] ++ relative))
  | _, _ => (- EINVAL, resolved)
  end.

Definition kfsw_ftp_resolve_write_path (virtual_path : option (list Z))
    (resolved : option (list Z)) (resolved_size : Z) : Z * option (list Z) :=
  if kfsw_ftp_path_is_read_only virtual_path then (- EROFS, resolved)
  else kfsw_ftp_resolve_path virtual_path false resolved resolved_size.

Definition kfsw_ftp_validate_path (path : option (list Z)) (allow_root : bool) : Z :=
  (kfsw_ftp_resolve_path path allow_root (Some []) KFSW_FTP_FULL_PATH_SIZE).1.
End path.

(** ** Status *)

Definition kfsw_ftp_wire_status_to_errno (status : Z) : Z :=
  if status =? KFSW_FTP_STATUS_OK then 0
  else if status =? KFSW_FTP_STATUS_INVALID_REQUEST then - EBADMSG
  else if status =? KFSW_FTP_STATUS_INVALID_PATH then - EINVAL
  else if status =? KFSW_FTP_STATUS_NOT_FOUND then - ENOENT
  else if status =? KFSW_FTP_STATUS_ALREADY_EXISTS then - EEXIST
  else if status =? KFSW_FTP_STATUS_NO_SPACE then - ENOSPC
  else if status =? KFSW_FTP_STATUS_INTEGRITY_ERROR then - EILSEQ
  else if status =? KFSW_FTP_STATUS_BUSY then - EBUSY
  else if status =? KFSW_FTP_STATUS_UNSUPPORTED then - ENOTSUP
  else if status =? KFSW_FTP_STATUS_TIMEOUT then - ETIMEDOUT
  else if status =? KFSW_FTP_STATUS_CONNECTION_ERROR then - ECONNREFUSED
  else if status =? KFSW_FTP_STATUS_NOT_DIRECTORY then - ENOTDIR
  else if status =? KFSW_FTP_STATUS_READ_ONLY then - EROFS
  else - EIO.

Definition kfsw_ftp_errno_to_wire_status (error : Z) : Z :=
  let e := if error <? 0 then - error else error in
  if e =? 0 then KFSW_FTP_STATUS_OK
  else if (e =? EINVAL) || (e =? ENAMETOOLONG) then KFSW_FTP_STATUS_INVALID_PATH
  else if e =? ENOENT then KFSW_FTP_STATUS_NOT_FOUND
  else if e =? EEXIST then KFSW_FTP_STATUS_ALREADY_EXISTS
  else if e =? EROFS then KFSW_FTP_STATUS_READ_ONLY
  else if e =? ENOSPC then KFSW_FTP_STATUS_NO_SPACE
  else if (e =? EILSEQ) || (e =? EBADMSG) then KFSW_FTP_STATUS_INTEGRITY_ERROR
  else if e =? EBUSY then KFSW_FTP_STATUS_BUSY
  else if (e =? ENOTSUP) || (e =? EPROTONOSUPPORT) then KFSW_FTP_STATUS_UNSUPPORTED
  else if e =? ETIMEDOUT then KFSW_FTP_STATUS_TIMEOUT
  else if (e =? ECONNREFUSED) || (e =? ECONNRESET) then KFSW_FTP_STATUS_CONNECTION_ERROR
  else if (e =? EISDIR) || (e =? ENOTDIR) then KFSW_FTP_STATUS_NOT_DIRECTORY
  else KFSW_FTP_STATUS_IO_ERROR.

(** ** Counters and settings ([ftp_state.c]) *)

Record ftp_state := {
  ftp_transfers : Z; ftp_failures : Z; ftp_bytes : Z; ftp_timeout_ms : Z; ftp_chunk_size : Z;
}.
Record kfsw_ftp_stats := { fs_transfers : Z; fs_failures : Z; fs_bytes : Z; fs_busy : bool }.

Definition ftp_boot (timeout_ms : Z) : ftp_state := {|
  ftp_transfers := 0; ftp_failures := 0; ftp_bytes := 0; ftp_timeout_ms := timeout_ms;
  ftp_chunk_size := KFSW_FTP_CHUNK_SIZE |}.

(** [atomic_inc] and [atomic_add] wrap; the reader truncates to 32 bits. *)
Definition kfsw_ftp_count_transfer (bytes : Z) (failed : bool) (s : ftp_state) : ftp_state :=
  if failed then {|
    ftp_transfers := ftp_transfers s; ftp_failures := u32 (ftp_failures s + 1);
    ftp_bytes := ftp_bytes s; ftp_timeout_ms := ftp_timeout_ms s;
    ftp_chunk_size := ftp_chunk_size s |}
  else {|
    ftp_transfers := u32 (ftp_transfers s + 1); ftp_failures := ftp_failures s;
    ftp_bytes := u32 (ftp_bytes s + bytes); ftp_timeout_ms := ftp_timeout_ms s;
    ftp_chunk_size := ftp_chunk_size s |}.

Definition kfsw_ftp_get_stats (busy : bool) (stats : option kfsw_ftp_stats) (s : ftp_state)
    : Z * option kfsw_ftp_stats :=
  match stats with
  | None => (- EINVAL, None)
  | Some _ => (0, Some {| fs_transfers := ftp_transfers s; fs_failures := ftp_failures s;
                          fs_bytes := ftp_bytes s; fs_busy := busy |})
  end.

Definition kfsw_ftp_get_timeout_ms (s : ftp_state) : Z := ftp_timeout_ms s.
Definition kfsw_ftp_check_timeout_ms (timeout_ms : Z) : Z :=
  if (timeout_ms <? KFSW_FTP_TIMEOUT_MIN_MS) || (timeout_ms >? KFSW_FTP_TIMEOUT_MAX_MS)
  then - ERANGE else 0.
Definition kfsw_ftp_set_timeout_ms (timeout_ms : Z) (s : ftp_state) : Z * ftp_state :=
  let result := kfsw_ftp_check_timeout_ms timeout_ms in
  if negb (result =? 0) then (result, s)
  else (0, {| ftp_transfers := ftp_transfers s; ftp_failures := ftp_failures s;
              ftp_bytes := ftp_bytes s; ftp_timeout_ms := timeout_ms;
              ftp_chunk_size := ftp_chunk_size s |}).

Definition kfsw_ftp_get_chunk_size (s : ftp_state) : Z := ftp_chunk_size s.
Definition kfsw_ftp_check_chunk_size (chunk_size : Z) : Z :=
  if (chunk_size =? 0) || (chunk_size >? KFSW_FTP_CHUNK_SIZE) then - ERANGE else 0.
Definition kfsw_ftp_set_chunk_size (chunk_size : Z) (s : ftp_state) : Z * ftp_state :=
  let result := kfsw_ftp_check_chunk_size chunk_size in
  if negb (result =? 0) then (result, s)
  else (0, {| ftp_transfers := ftp_transfers s; ftp_failures := ftp_failures s;
              ftp_bytes := ftp_bytes s; ftp_timeout_ms := ftp_timeout_ms s;
              ftp_chunk_size := chunk_size |}).

(** ** Paths as lists of components *)

Fixpoint split_from (cur rest : list Z) : list (list Z) :=
  match rest with
  | [] => [cur]
  | c :: rest => if c =? slash then cur :: split_from [] rest else split_from (cur ++ [c]) rest
  end.
(** The components of a relative path; the empty path has one empty component. *)
Definition split_path (relative : list Z) : list (list Z) := split_from [] relative.
Definition join_path (components : list (list Z)) : list Z :=
  concat ((λ c, slash :: c) <$> components).

Definition path_char (c : Z) : Prop := 32 <= c ∧ c ≠ 127 ∧ c ≠ 92 ∧ c ≠ slash.
(** A name that stays where it is: neither empty nor ["."] nor [".."]. *)
Definition component_ok (c : list Z) : Prop :=
  c ≠ [] ∧ c ≠ [46] ∧ c ≠ [46; 46] ∧ Forall path_char c.
#[export] Instance component_ok_dec c : Decision (component_ok c) := _.

Lemma join_split cur rest : join_path (split_from cur rest) = slash :: cur ++ rest.
Proof.
  revert cur. induction rest as [|c rest IH]; intros cur; cbn [split_from].
  - unfold join_path. cbn. by rewrite !app_nil_r.
  - destruct (c =? slash) eqn:E.
    + apply Z.eqb_eq in E as ->. change (join_path (cur :: split_from [] rest))
        with (slash :: cur ++ join_path (split_from [] rest)). by rewrite IH.
    + rewrite IH. by rewrite <- app_assoc.
Qed.

Lemma split_through x cur rest :
  slash ∉ x → split_from cur (x ++ rest) = split_from (cur ++ x) rest.
Proof.
  revert cur. induction x as [|c x IH]; intros cur Hx; cbn.
  - by rewrite app_nil_r.
  - apply not_elem_of_cons in Hx as [Hc Hx]. rewrite (proj2 (Z.eqb_neq c slash)) by done.
    rewrite IH by done. by rewrite <- app_assoc.
Qed.

Lemma split_head rest :
  ∃ x, slash ∉ x ∧
    ((rest = x ∧ split_path rest = [x]) ∨
     ∃ r, rest = x ++ slash :: r ∧ split_path rest = x :: split_path r).
Proof.
  induction rest as [|c rest (x & Hx & H)].
  - exists []. split; [apply not_elem_of_nil|by left].
  - destruct (decide (c = slash)) as [->|Hc].
    + exists []. split; [apply not_elem_of_nil|right]. by exists rest.
    + exists (c :: x). split; [by apply not_elem_of_cons|].
      assert (∀ r, slash ∉ x → split_path (c :: x ++ r) = split_from (c :: x) r) as Hs.
      { intros r ?. unfold split_path. change (c :: x ++ r) with ((c :: x) ++ r).
        apply (split_through (c :: x) []). by apply not_elem_of_cons. }
      destruct H as [[-> _]|(r & -> & _)].
      * left. split; [done|]. specialize (Hs [] Hx). by rewrite app_nil_r in Hs.
      * right. exists r. split; [done|]. rewrite Hs by done. cbn [split_from]. done.
Qed.

Lemma split_path_nil relative : split_path relative = [[]] ↔ relative = [].
Proof.
  split; [|by intros ->]. intros H. pose proof (join_split [] relative) as Hj.
  unfold split_path in H. rewrite H in Hj. by injection Hj.
Qed.

(** ** The loop checks every component *)

Lemma bad_component_spec pre cur rest :
  bad_component (pre ++ cur ++ rest) (length pre + length cur) (length cur) =
    bool_decide (cur = [] ∨ cur = [46] ∨ cur = [46; 46]).
Proof.
  unfold bad_component, char_at. rewrite Nat.add_sub.
  assert (∀ k d, (k < length cur)%nat → nth (length pre + k) (pre ++ cur ++ rest) d = nth k cur d) as Hn.
  { intros k d Hk. rewrite app_nth2_plus. by apply app_nth1. }
  pose proof (Hn 0%nat 0) as H0. rewrite Nat.add_0_r in H0.
  symmetry. destruct cur as [|a [|b [|c cur]]].
  - by rewrite bool_decide_true by auto.
  - rewrite H0 by (cbn; lia). cbn. rewrite orb_false_r. destruct (Z.eqb_spec a 46) as [->|Ha].
    + by rewrite bool_decide_true by auto.
    + rewrite bool_decide_false; [done|]. intros [?|[?|?]]; congruence.
  - rewrite H0, Hn by (cbn; lia). cbn.
    destruct (Z.eqb_spec a 46) as [->|Ha], (Z.eqb_spec b 46) as [->|Hb]; cbn;
      [by rewrite bool_decide_true by auto|..];
      (rewrite bool_decide_false; [done|]; intros [?|[?|?]]; congruence).
  - cbn. rewrite bool_decide_false; [done|]. intros [?|[?|?]]; congruence.
Qed.

Lemma check_components_spec pre cur rest :
  Forall path_char cur →
  check_components (pre ++ cur ++ rest) rest (length pre + length cur) (length cur) = true ↔
  Forall component_ok (split_from cur rest).
Proof.
  revert pre cur. induction rest as [|c rest IH]; intros pre cur Hcur; cbn [check_components split_from].
  - rewrite bad_component_spec, negb_true_iff, bool_decide_eq_false, Forall_singleton.
    unfold component_ok. naive_solver.
  - rewrite bad_component_spec. destruct (Z.eqb_spec c slash) as [->|Hc].
    + rewrite Forall_cons. case_bool_decide as Hb.
      { split; [done|]. intros [(? & ? & ? & _) _]. naive_solver. }
      specialize (IH (pre ++ cur ++ [slash]) [] (Forall_nil_2 _)). rewrite <- !app_assoc in IH.
      cbn [app] in IH. rewrite length_app, length_app in IH. cbn [length] in IH.
      rewrite Nat.add_0_r, Nat.add_1_r, Nat.add_succ_r in IH. rewrite IH.
      unfold component_ok at 2. naive_solver.
    + destruct ((c =? 92) || (c <? 32) || (c =? 127)) eqn:Hbad.
      { split; [done|]. intros Hf. exfalso. destruct (split_head rest) as (x & Hx & Hs).
        assert (∃ l, (cur ++ [c] ++ x) :: l = split_from (cur ++ [c]) rest) as (l & Hl).
        { rewrite app_assoc. destruct Hs as [[-> _]|(r & -> & _)].
          - exists []. rewrite <- (app_nil_r x) at 2. by rewrite split_through.
          - exists (split_from [] r). by rewrite split_through. }
        rewrite <- Hl in Hf. apply Forall_cons in Hf as [(_ & _ & _ & Hf) _].
        apply Forall_app in Hf as [_ Hf]. apply Forall_cons in Hf as [(? & ? & ? & _) _]. lia. }
      specialize (IH pre (cur ++ [c])). rewrite length_app in IH. cbn [length] in IH.
      rewrite Nat.add_1_r, Nat.add_succ_r, <- app_assoc in IH. apply IH.
      apply Forall_app. split; [done|]. apply Forall_singleton. unfold path_char. lia.
Qed.

Lemma check_path relative :
  check_components relative relative 0 0 = true ↔ Forall component_ok (split_path relative).
Proof. apply (check_components_spec [] [] relative). constructor. Qed.

(** ** What a path designates *)

Section target.
Context {ST : StorageTmp}.

(** The root a first component selects, and the components below it. A selector
    alone, or with a trailing ['/'], designates its root. *)
Definition path_target (p : list Z) : list Z * list (list Z) :=
  let comps := split_path (skip_slash p) in
  match list_find (λ e, head comps = Some (er_prefix e)) extra_roots with
  | Some (_, e) => (er_root e, match tail comps with [] => [[]] | cs => cs end)
  | None => (KFSW_FTP_ROOT_PATH, comps)
  end.

(** The policy: the answer and the string for a path of an acceptable length. *)
Definition resolve_policy (p : list Z) (allow_root : bool) (old : option (list Z)) (size : Z)
    : Z * option (list Z) :=
  let '(root, comps) := path_target p in
  if decide (comps = [[]]) then
    if allow_root && (zlen root <? size) then (0, Some root) else (- EINVAL, old)
  else if size <=? zlen root + zlen (join_path comps) then (- ENAMETOOLONG, old)
  else if decide (Forall component_ok comps) then (0, Some (root ++ join_path comps))
  else (- EINVAL, old).

Lemma skip_slash_cstr p : is_cstr p → is_cstr (skip_slash p).
Proof. unfold skip_slash. case_match; [|done]. destruct p; [done|]. by intros [_ ?]%Forall_cons. Qed.

(** A prefix of the table is a whole name. *)
Definition prefix_name (x : list Z) : Prop := x ≠ [] ∧ slash ∉ x ∧ Forall (λ c, 0 < c) x.

Lemma extra_roots_prefix e : e ∈ extra_roots → prefix_name (er_prefix e).
Proof.
  assert (Forall (λ e, prefix_name (er_prefix e)) extra_roots) as Hf.
  { unfold extra_roots. apply Forall_app. split.
    - repeat constructor; cbn; try done; try set_solver.
    - destruct STORAGE_TMP_MOUNT_POINT; [|constructor].
      repeat constructor; cbn; try done; try set_solver. }
  rewrite Forall_forall in Hf. apply Hf.
Qed.

Lemma strn_eq_prefix s x :
  Forall (λ c, 0 < c) x → strn_eq s x (length x) = true ↔ ∃ r, s = x ++ r.
Proof.
  intros Hx. unfold strn_eq. rewrite bool_decide_eq_true.
  rewrite (take_app_le x) by lia. rewrite (take_ge x) by lia. split.
  - intros H. destruct (decide (length x <= length s)%nat) as [Hl|Hl].
    + rewrite take_app_le in H by lia. exists (drop (length x) s).
      rewrite <- (take_drop (length x) s) at 1. by rewrite H.
    + exfalso. rewrite take_ge in H by (rewrite length_app; cbn; lia). rewrite <- H in Hx.
      apply Forall_app in Hx as [_ Hx]. by apply Forall_singleton, Z.lt_irrefl in Hx.
  - intros [r ->]. rewrite <- app_assoc. by rewrite take_app_length.
Qed.

Lemma prefix_selects_spec s x :
  is_cstr s → prefix_name x →
  prefix_selects s x = true ↔ head (split_path s) = Some x.
Proof.
  intros Hs (Hne & Hsl & Hpos). unfold prefix_selects.
  rewrite andb_true_iff, strn_eq_prefix by done. split.
  - intros [[r ->] Hc]. unfold split_path. rewrite split_through by done. cbn [app].
    destruct r as [|c r]; [done|]. unfold char_at in Hc. rewrite nth_middle in Hc.
    apply Forall_app in Hs as [_ Hs]. apply Forall_cons in Hs as [Hc0 _].
    cbn [split_from]. by replace (c =? slash) with true by (cbn in Hc0; lia).
  - intros H. destruct (split_head s) as (y & Hy & [[-> E]|(r & -> & E)]);
      rewrite E in H; injection H as ->.
    + split; [exists []; by rewrite app_nil_r|]. unfold char_at.
      by rewrite nth_overflow by lia.
    + split; [by eexists|]. unfold char_at. rewrite nth_middle. apply orb_true_r.
Qed.

Lemma list_find_iff {A} (P Q : A → Prop) `{∀ x, Decision (P x)} `{∀ x, Decision (Q x)} l :
  (∀ x, x ∈ l → P x ↔ Q x) → list_find P l = list_find Q l.
Proof.
  induction l as [|x l IH]; intros Hl; [done|]. cbn.
  rewrite IH by (intros; apply Hl; by right).
  destruct (Hl x (list_elem_of_here _ _)) as [H1 H2].
  destruct (decide (P x)), (decide (Q x)); tauto.
Qed.

Lemma extra_root_target p :
  is_cstr p →
  match extra_root (Some p) with
  | Some selected =>
      let e := extra_roots !!! selected in
      (er_root e, split_path (skip_slash (drop (length (er_prefix e)) (skip_slash p))))
  | None => (KFSW_FTP_ROOT_PATH, split_path (skip_slash p))
  end = path_target p.
Proof.
  intros Hp. apply skip_slash_cstr in Hp. unfold extra_root, path_target.
  rewrite (list_find_iff _ (λ e, head (split_path (skip_slash p)) = Some (er_prefix e))).
  2: { intros e He. apply prefix_selects_spec; [done|by apply extra_roots_prefix]. }
  destruct (list_find _ extra_roots) as [[i e]|] eqn:E; [|done]. cbn [fmap option_fmap option_map fst].
  apply list_find_Some in E as (Hi & Hh & _). rewrite (list_lookup_total_correct _ _ _ Hi).
  f_equal. destruct (split_head (skip_slash p)) as (x & Hx & [[Es E]|(r & Es & E)]);
    rewrite E in Hh |- *; injection Hh as <-; rewrite Es; cbn [tail].
  - by rewrite drop_ge by lia.
  - rewrite drop_app_length. unfold skip_slash. cbn.
    destruct (split_path r) eqn:F; [|done].
    pose proof (join_split [] r) as Hj. unfold split_path in F. by rewrite F in Hj.
Qed.

Lemma resolve_policy_spec p allow_root old size :
  is_cstr p → strlen p <= KFSW_FTP_MAX_PATH_SIZE →
  kfsw_ftp_resolve_path (Some p) allow_root (Some old) size =
    resolve_policy p allow_root (Some old) size.
Proof.
  intros Hp Hl. unfold kfsw_ftp_resolve_path, resolve_policy.
  replace (strlen p >? KFSW_FTP_MAX_PATH_SIZE) with false by lia.
  rewrite <- (extra_root_target p Hp).
  set (target := match extra_root (Some p) with Some _ => (_, skip_slash _) | None => _ end).
  assert (match extra_root (Some p) with
    | Some selected => let e := extra_roots !!! selected in
        (er_root e, split_path (skip_slash (drop (length (er_prefix e)) (skip_slash p))))
    | None => (KFSW_FTP_ROOT_PATH, split_path (skip_slash p)) end =
    (target.1, split_path target.2)) as -> by (subst target; by destruct (extra_root _)).
  destruct target as [root relative]. cbn [fst snd].
  assert (join_path (split_path relative) = slash :: relative) as Hj by apply (join_split [] relative).
  rewrite Hj. pose proof (zlen_cons slash relative) as Hz. rewrite Z.add_comm in Hz.
  destruct (zlen relative =? 0) eqn:E.
  - assert (relative = []) as -> by (apply zlen_zero; lia).
    rewrite decide_True by done.
    destruct allow_root; cbn; [|done]. rewrite Z.ltb_antisym. by destruct (size <=? zlen root).
  - rewrite decide_False.
    2: { rewrite split_path_nil. intros ->. done. }
    rewrite Hz, Z.add_assoc. destruct (size <=? _); [done|].
    pose proof (check_path relative) as Hc. case_decide as Hf.
    + by rewrite (proj2 Hc Hf).
    + destruct (check_components relative relative 0 0); [tauto|done].
Qed.

Lemma resolved_below root relative old size q :
  (if decide (split_path relative = [[]]) then
     if false && (zlen root <? size) then (0, Some root) else (- EINVAL, Some old)
   else if size <=? zlen root + zlen (join_path (split_path relative)) then (- ENAMETOOLONG, Some old)
   else if decide (Forall component_ok (split_path relative))
   then (0, Some (root ++ join_path (split_path relative))) else (- EINVAL, Some old)) = (0, Some q) →
  ∃ comps, comps ≠ [] ∧ Forall component_ok comps ∧ q = root ++ join_path comps ∧ zlen q < size.
Proof.
  intros H. case_decide; [done|]. destruct (size <=? _) eqn:Hs; [done|].
  case_decide as Hok; [|done]. injection H as <-. exists (split_path relative).
  split_and!; [|done|done|rewrite zlen_app; lia].
  intros Hnil. pose proof (join_split [] relative) as Hj. unfold split_path in Hnil.
  by rewrite Hnil in Hj.
Qed.
End target.

(** ** The frame and the messages it carries *)

Section codec_proofs.
Context {BO : ByteOrder}.

Definition ftp_frame (m : kfsw_ftp_message) : list Z :=
  [KFSW_FTP_PROTOCOL_VERSION; fm_opcode m; fm_flags m; fm_status m]
  ++ put_be32 (fm_request_id m) ++ put_be32 (fm_offset m) ++ put_be32 (fm_total_size m)
  ++ put_be32 (fm_crc32 m) ++ put_be16 (fm_path_size m) ++ put_be16 (fm_data_size m)
  ++ default [] (fm_path m) ++ default [] (fm_data m).

Definition ftp_message_wf (m : kfsw_ftp_message) : Prop :=
  1 <= fm_opcode m <= 15 ∧ is_u8 (fm_flags m) ∧ is_u8 (fm_status m) ∧
  is_u32 (fm_request_id m) ∧ is_u32 (fm_offset m) ∧ is_u32 (fm_total_size m) ∧
  is_u32 (fm_crc32 m) ∧
  ∃ p d, fm_path m = Some p ∧ fm_data m = Some d ∧ bytes p ∧ bytes d ∧ 0 ∉ p ∧
    fm_path_size m = zlen p ∧ zlen p <= KFSW_FTP_MAX_PATH_SIZE ∧
    fm_data_size m = zlen d ∧ zlen d <= KFSW_FTP_CHUNK_SIZE.

(** The fields and the bytes the two pointers cover. *)
Definition ftp_view (m : kfsw_ftp_message) : kfsw_ftp_message := {|
  fm_opcode := fm_opcode m; fm_flags := fm_flags m; fm_status := fm_status m;
  fm_request_id := fm_request_id m; fm_offset := fm_offset m; fm_total_size := fm_total_size m;
  fm_crc32 := fm_crc32 m; fm_path_size := fm_path_size m; fm_data_size := fm_data_size m;
  fm_path := take (Z.to_nat (fm_path_size m)) <$> fm_path m;
  fm_data := take (Z.to_nat (fm_data_size m)) <$> fm_data m |}.

Lemma ftp_frame_length m :
  ftp_message_wf m → zlen (ftp_frame m) = 24 + fm_path_size m + fm_data_size m.
Proof.
  intros (_ & _ & _ & _ & _ & _ & _ & p & d & Hp & Hd & _ & _ & _ & -> & _ & -> & _).
  unfold ftp_frame, zlen. rewrite Hp, Hd. split_stores. cbn [app default from_option id length].
  rewrite length_app. lia.
Qed.

Lemma ftp_encode_frame m buf capacity old :
  ftp_message_wf m → 24 + fm_path_size m + fm_data_size m <= capacity → capacity <= zlen buf →
  kfsw_ftp_protocol_encode (Some buf) capacity (Some m) (Some old) =
    (0, Some (buf_put 0 (ftp_frame m) buf), Some (24 + fm_path_size m + fm_data_size m)).
Proof.
  intros (Hop & Hfl & Hst & Hr & Ho & Ht & Hc & p & d & Hp & Hd & Bp & Bd & Hz & Hps & Hpm & Hds & Hdm)
    Hcap Hbuf.
  unfold kfsw_ftp_protocol_encode, ftp_frame, KFSW_FTP_OP_MKDIR_REQUEST, KFSW_FTP_OP_GET_RESULT,
    KFSW_FTP_MAX_PATH_SIZE, KFSW_FTP_CHUNK_SIZE, KFSW_FTP_PROTOCOL_HEADER_SIZE in *.
  rewrite Hp, Hd. rewrite !bool_decide_false by done. rewrite !andb_false_r, !orb_false_r.
  unfold zlen in *. decide_guards. cbn [default from_option id].
  rewrite !take_ge by lia.
  assert (∀ n off bs (b : list Z), length bs = n → (if negb (Z.of_nat n =? 0) then buf_put off bs b else b)
    = buf_put off bs b) as Hput.
  { intros n off bs b Hn. destruct (Z.of_nat n =? 0) eqn:E; [|done]. destruct bs; [|cbn in *; lia].
    by rewrite buf_put_nil. }
  rewrite Hps, Hds, !Hput by done.
  replace (Z.to_nat (24 + Z.of_nat (length p))) with (24 + length p)%nat by lia.
  split_stores. do 24 (destruct buf as [|? buf]; [exfalso; simpl in *; lia|]).
  set (h := buf_put 22 _ _).
  assert (length h = 24 + length buf)%nat as Hh by reflexivity.
  rewrite buf_put_app by (simpl in *; lia). reflexivity.
Qed.

Lemma ftp_decode_frame m old :
  ftp_message_wf m →
  ∃ m', kfsw_ftp_protocol_decode (Some (ftp_frame m)) (zlen (ftp_frame m)) (Some old) = (0, Some m') ∧
    ftp_view m' = m.
Proof.
  intros Hwf. rewrite (ftp_frame_length m Hwf).
  destruct Hwf as (Hop & Hfl & Hst & Hr & Ho & Ht & Hc & p & d & Hp & Hd & Bp & Bd & Hz & Hps & Hpm & Hds & Hdm).
  unfold ftp_frame, kfsw_ftp_protocol_decode, KFSW_FTP_OP_MKDIR_REQUEST, KFSW_FTP_OP_GET_RESULT,
    KFSW_FTP_MAX_PATH_SIZE, KFSW_FTP_CHUNK_SIZE, KFSW_FTP_PROTOCOL_HEADER_SIZE in *.
  destruct m as [op fl st ri off ts crc ps ds pa da]; cbn -[put_be16 put_be32 Z.add] in *. subst pa da.
  cbn [default from_option id]. pose proof (zlen_nonneg p). pose proof (zlen_nonneg d).
  split_stores. cbn [app]. read_fields.
  cbn -[Z.add Z.ltb Z.gtb Z.eqb Z.to_nat mem_has take drop ftp_view]. decide_guards.
  replace (Z.to_nat (24 + ps)) with (24 + Z.to_nat ps)%nat by lia.
  cbn [drop Nat.add]. unfold zlen in *.
  assert (take (Z.to_nat ps) (p ++ d) = p ∧ drop (Z.to_nat ps) (p ++ d) = d) as [Hta Hdr].
  { replace (Z.to_nat ps) with (length p) by lia. by rewrite take_app_length, drop_app_length. }
  rewrite Hta, Hdr, (proj2 (mem_has_false 0 p) Hz), andb_false_r. eexists. split; [reflexivity|].
  unfold ftp_view. cbn -[take]. rewrite Hta, take_ge by lia. done.
Qed.

Lemma ftp_frame_decode l old m :
  bytes l → kfsw_ftp_protocol_decode (Some l) (zlen l) (Some old) = (0, Some m) →
  ftp_message_wf (ftp_view m) ∧ ftp_frame (ftp_view m) = l.
Proof.
  intros Hl H. unfold kfsw_ftp_protocol_decode, KFSW_FTP_PROTOCOL_HEADER_SIZE,
    KFSW_FTP_PROTOCOL_VERSION in H.
  destruct (zlen l <? 24) eqn:E24; [done|].
  do 24 (destruct l as [|? l]; [by cbn in E24|]). clear E24.
  unfold zlen in H. cbn [length] in H.
  destruct (negb (byte_at _ 0 =? 1)) eqn:Ev in H; [done|]. pass_guards H.
  assert (z = 1) as -> by (cbn in Ev; lia).
  injection H as <-.
  cbv [get_be16 get_be32 slice byte_at] in *.
  cbn -[put_be16 put_be32 Z.of_nat Z.add Z.to_nat take drop mem_has ftp_view ftp_message_wf ftp_frame] in *.
  cbn [take drop] in *. rewrite ?take_0, ?drop_0 in *. unfold bytes in Hl. split_bytes.
  set (ps := get_be [z19; z20]) in *. set (ds := get_be [z21; z22]) in *.
  assert (is_u16 ps ∧ is_u16 ds) as [Hps Hds] by (split; by apply get_be16_cells).
  apply negb_false_iff, Z.eqb_eq in G1. rewrite !Nat2Z.inj_succ in G1.
  assert (ps + ds = Z.of_nat (length l)) as Hlen by lia. clear G1.
  replace (Z.to_nat (24 + ps)) with (24 + Z.to_nat ps)%nat by clia.
  cbn [Nat.add drop]. unfold ftp_view, ftp_frame, ftp_message_wf.
  cbn -[put_be16 put_be32 Z.of_nat take drop ps ds].
  assert (take (Z.to_nat ds) (drop (Z.to_nat ps) l) = drop (Z.to_nat ps) l) as ->
    by (apply take_ge; rewrite length_drop; clia).
  assert (put_be16 ps = [z19; z20]) as -> by (apply put_get_be16; byte_cells).
  assert (put_be16 ds = [z21; z22]) as -> by (apply put_get_be16; byte_cells).
  rebuild_fields. split.
  - unfold KFSW_FTP_MAX_PATH_SIZE, KFSW_FTP_CHUNK_SIZE, KFSW_FTP_OP_MKDIR_REQUEST,
      KFSW_FTP_OP_GET_RESULT, zlen in *.
    split_and!; try done; try clia; auto using get_be32_cells.
    exists (take (Z.to_nat ps) l), (drop (Z.to_nat ps) l).
    rewrite length_take, length_drop.
    split_and!; try done; try clia; [by apply bytes_take|by apply bytes_drop|].
    apply andb_false_iff in G2 as [G2|G2]; [|by apply mem_has_false].
    assert (Z.to_nat ps = 0%nat) as -> by lia. rewrite take_0. apply not_elem_of_nil.
  - cbn [app default from_option id]. by rewrite take_drop.
Qed.
End codec_proofs.

Section ftp_codec.
Context {BO : ByteOrder}.

Definition read_ftp_message (l : list Z) : option kfsw_ftp_message :=
  let '(rc, m) := kfsw_ftp_protocol_decode (Some l) (zlen l)
                    (Some (Build_kfsw_ftp_message 0 0 0 0 0 0 0 0 0 None None)) in
  if rc =? 0 then ftp_view <$> m else None.

Lemma ftp_read_frame m : ftp_message_wf m → read_ftp_message (ftp_frame m) = Some m.
Proof.
  intros Hwf. unfold read_ftp_message. edestruct (ftp_decode_frame m) as (m' & -> & <-); done.
Qed.

Lemma ftp_frame_read l m :
  bytes l → read_ftp_message l = Some m → ftp_message_wf m ∧ ftp_frame m = l.
Proof.
  unfold read_ftp_message. intros Hl H. destruct (kfsw_ftp_protocol_decode _ _ _) as [rc o] eqn:E.
  destruct (rc =? 0) eqn:Er; [|done]. apply Z.eqb_eq in Er as ->.
  destruct o as [m'|]; [|done]. injection H as <-. by eapply ftp_frame_decode.
Qed.

#[export] Instance ftp_codec : WireCodec kfsw_ftp_message := {
  wire_wf := ftp_message_wf; wire_frame := ftp_frame; wire_read := read_ftp_message;
  wire_read_frame := ftp_read_frame; wire_frame_read := ftp_frame_read }.
End ftp_codec.

(** ** Properties *)


(** C24: path resolution implements the policy on components: the first component may
    select another root, what is left names components below it, each of which must
    be a plain name (not empty, not ["."] or [".."], no control character, no
    backslash); the answer is then the root followed by those components, and every
    other path is refused with the caller's string untouched. *)
Theorem ftp_resolve_refines {ST : StorageTmp} p allow_root old size :
  is_cstr p → strlen p <= KFSW_FTP_MAX_PATH_SIZE →
  kfsw_ftp_resolve_path (Some p) allow_root (Some old) size =
    resolve_policy p allow_root (Some old) size.
Proof. apply resolve_policy_spec. Qed.

(** C3: a path that may be written stays inside a writable root: it names at least
    one component below the storage root or the RAM volume, no component leads
    upwards, and the housekeeping and boot roots are never the base. *)
Theorem ftp_write_confined {ST : StorageTmp} p old size q :
  is_cstr p →
  kfsw_ftp_resolve_write_path (Some p) (Some old) size = (0, Some q) →
  ∃ root components,
    (root = KFSW_FTP_ROOT_PATH ∨ STORAGE_TMP_MOUNT_POINT = Some root) ∧
    components ≠ [] ∧ Forall component_ok components ∧
    q = root ++ join_path components ∧ zlen q < size.
Proof.
  intros Hp H. unfold kfsw_ftp_resolve_write_path in H.
  destruct (kfsw_ftp_path_is_read_only (Some p)) eqn:Hro; [done|].
  destruct (decide (strlen p <= KFSW_FTP_MAX_PATH_SIZE)) as [Hl|Hl].
  2: { unfold kfsw_ftp_resolve_path in H.
       replace (strlen p >? KFSW_FTP_MAX_PATH_SIZE) with true in H by lia. done. }
  rewrite resolve_policy_spec in H by done. unfold resolve_policy in H.
  rewrite <- (extra_root_target p Hp) in H. unfold kfsw_ftp_path_is_read_only in Hro.
  destruct (extra_root (Some p)) as [i|] eqn:E; cbv beta iota zeta in H.
  - assert (STORAGE_TMP_MOUNT_POINT = Some (er_root (extra_roots !!! i))) as Hroot.
    { unfold extra_root in E. destruct (list_find _ _) as [[j e]|] eqn:F; [|done].
      injection E as ->. apply list_find_Some in F as (Hi & _ & _).
      rewrite (list_lookup_total_correct _ _ _ Hi) in *. apply negb_false_iff in Hro.
      apply list_elem_of_lookup_2 in Hi. unfold extra_roots in Hi.
      apply elem_of_app in Hi as [Hi|Hi]; [set_unfold; destruct_or!; by subst e|].
      destruct STORAGE_TMP_MOUNT_POINT; [|by apply not_elem_of_nil in Hi].
      apply list_elem_of_singleton in Hi as ->. done. }
    eapply resolved_below in H as (comps & ? & ? & -> & ?). eauto 10.
  - eapply resolved_below in H as (comps & ? & ? & -> & ?). eauto 10.
Qed.

(** neither side mistakes a failure for success: exactly the status zero maps to
    no error and exactly no error to the status zero; a status sent back as it was
    received keeps its meaning, except that an invalid request is relayed as an
    integrity error. *)
Theorem ftp_status_faithful status error :
  (kfsw_ftp_wire_status_to_errno status = 0 ↔ status = KFSW_FTP_STATUS_OK) ∧
  (kfsw_ftp_errno_to_wire_status error = KFSW_FTP_STATUS_OK ↔ error = 0) ∧
  kfsw_ftp_errno_to_wire_status (kfsw_ftp_wire_status_to_errno status) =
    (if status =? KFSW_FTP_STATUS_INVALID_REQUEST then KFSW_FTP_STATUS_INTEGRITY_ERROR
     else if decide (0 <= status <= 13) then status else KFSW_FTP_STATUS_IO_ERROR).
Proof.
  unfold KFSW_FTP_STATUS_OK. split_and!.
  - unfold kfsw_ftp_wire_status_to_errno, KFSW_FTP_STATUS_OK.
    destruct (status =? 0) eqn:E; [lia|]. split; [intros H|lia].
    repeat (case_match; [discriminate H|]). discriminate H.
  - unfold kfsw_ftp_errno_to_wire_status, KFSW_FTP_STATUS_OK.
    destruct (error <? 0) eqn:En.
    + destruct (- error =? 0) eqn:E; [lia|]. split; [intros H|lia].
      repeat (case_match; [discriminate H|]). discriminate H.
    + destruct (error =? 0) eqn:E; [lia|]. split; [intros H|lia].
      repeat (case_match; [discriminate H|]). discriminate H.
  - destruct (decide (0 <= status <= 13)) as [Hs|Hs].
    + assert (status ∈ seqZ 0 14) as Hin by (apply elem_of_seqZ; lia).
      change (seqZ 0 14) with [0; 1; 2; 3; 4; 5; 6; 7; 8; 9; 10; 11; 12; 13] in Hin.
      clear Hs. set_unfold in Hin. by destruct_or! Hin; subst status.
    + assert (kfsw_ftp_wire_status_to_errno status = - EIO) as ->.
      { unfold kfsw_ftp_wire_status_to_errno, KFSW_FTP_STATUS_OK, KFSW_FTP_STATUS_INVALID_REQUEST,
          KFSW_FTP_STATUS_INVALID_PATH, KFSW_FTP_STATUS_NOT_FOUND, KFSW_FTP_STATUS_ALREADY_EXISTS,
          KFSW_FTP_STATUS_NO_SPACE, KFSW_FTP_STATUS_INTEGRITY_ERROR, KFSW_FTP_STATUS_BUSY,
          KFSW_FTP_STATUS_UNSUPPORTED, KFSW_FTP_STATUS_TIMEOUT, KFSW_FTP_STATUS_CONNECTION_ERROR,
          KFSW_FTP_STATUS_NOT_DIRECTORY, KFSW_FTP_STATUS_READ_ONLY. decide_guards. done. }
      unfold KFSW_FTP_STATUS_INVALID_REQUEST. by replace (status =? 1) with false by lia.
Qed.

Section ftp_witnesses.
#[local] Existing Instance big_endian.

(** A board with a RAM volume. *)
Definition storage_tmp_ram : StorageTmp := {| STORAGE_TMP_MOUNT_POINT := Some (cstr "/RAM:") |}.
#[local] Existing Instance storage_tmp_ram.

Definition sample_data : kfsw_ftp_message := {|
  fm_opcode := 10; fm_flags := 0; fm_status := 0; fm_request_id := 70000; fm_offset := 192;
  fm_total_size := 1000; fm_crc32 := 3735928559; fm_path_size := 1; fm_data_size := 2;
  fm_path := Some [97]; fm_data := Some [1; 2] |}.

Lemma sample_data_wf : ftp_message_wf sample_data.
Proof.
  unfold ftp_message_wf. cbn. repeat split; try (vm_compute; congruence).
  exists [97], [1; 2]. repeat split; try (vm_compute; congruence);
    try (apply (bool_decide_unpack _); vm_compute; exact I).
Qed.


Lemma ftp_resolve_refines_witness :
  kfsw_ftp_resolve_path (Some (cstr "/hk/a")) false (Some []) 128 = (0, Some (cstr "/kfsw/hk/a")).
Proof.
  rewrite ftp_resolve_refines.
  - vm_compute. reflexivity.
  - apply (bool_decide_unpack _). vm_compute. exact I.
  - vm_compute. congruence.
Defined.

Lemma ftp_write_confined_witness :
  ∃ root components, Forall component_ok components ∧
    cstr "/RAM:/a/b" = root ++ join_path components.
Proof.
  destruct (ftp_write_confined (cstr "tmp/a/b") [] 128 (cstr "/RAM:/a/b"))
    as (root & components & _ & _ & H & E & _).
  - apply (bool_decide_unpack _). vm_compute. exact I.
  - vm_compute. reflexivity.
  - exists root, components. split; [exact H|exact E].
Defined.
End ftp_witnesses.
