(* ===== verification/Fwu.v ===== *)
(** * Firmware update ([src/fwu/fwu.c])

    An image is streamed into the secondary slot, checked, and offered to the
    bootloader. Each operation runs under one mutex and is one step. The flash map,
    the stream writer and the bootloader are Zephyr's and MCUboot's: they are the
    class [FwuFlash], whose laws say what their documentation promises. *)

From S2P Require Import Prelude Bytes.

(** [CONFIG_KFSW_FWU_SLOT_OFFSET_SECTORS], [CONFIG_KFSW_FWU_MCUBOOT] and the size of
    the partition the devicetree binds, if it binds one. *)
Class FwuConfig := {
  FWU_SLOT_OFFSET_SECTORS : Z;
  FWU_SLOT_OFFSET_SECTORS_range : 0 <= FWU_SLOT_OFFSET_SECTORS <= 8;
  FWU_MCUBOOT : bool;
  FWU_PARTITION_SIZE : option Z;
}.
#[program] Definition fwu_config_sample : FwuConfig := {|
  FWU_SLOT_OFFSET_SECTORS := 1; FWU_MCUBOOT := true; FWU_PARTITION_SIZE := Some 65536 |}.
Next Obligation. lia. Qed.

Definition KFSW_FWU_IDLE : Z := 0.
Definition KFSW_FWU_RECEIVING : Z := 1.
Definition KFSW_FWU_READY : Z := 2.
Definition KFSW_FWU_FAILED : Z := 3.
Definition KFSW_FWU_VERIFIED : Z := 4.
Definition KFSW_FWU_TRAILER_SECTORS : Z := 1.

Definition kfsw_fwu_state_name (state : Z) : string :=
  if state =? KFSW_FWU_IDLE then "idle"
  else if state =? KFSW_FWU_RECEIVING then "receiving"
  else if state =? KFSW_FWU_READY then "ready"
  else if state =? KFSW_FWU_FAILED then "failed"
  else if state =? KFSW_FWU_VERIFIED then "verified"
  else "unknown".

(** MCUboot's swap types, as far as the code tells them apart. *)
Inductive boot_swap_type := BOOT_SWAP_TYPE_TEST | BOOT_SWAP_TYPE_REVERT | BOOT_SWAP_TYPE_OTHER.
#[export] Instance boot_swap_type_eq_dec : EqDecision boot_swap_type.
Proof. solve_decision. Defined.

(** The flash and the bootloader. [written] is what a stream writer has accepted
    since it was prepared, [readable] what the slot holds from the write offset on. *)
Class FwuFlash (F : Type) := {
  flash_area_open : F → Z * F;
  flash_area_close : F → F;
  flash_area_has_device : F → bool;
  flash_page_size : F → Z * Z;
  flash_area_flatten : Z → F → Z * F;
  stream_flash_init : Z → Z → F → Z * F;
  stream_flash_write : list Z → bool → F → Z * F;
  boot_request_upgrade_test : F → Z * F;
  mcuboot_swap_type : F → boot_swap_type;
  written : F → list Z;
  readable : F → list Z;
  open_keeps f : written (flash_area_open f).2 = written f ∧ readable (flash_area_open f).2 = readable f;
  close_keeps f : written (flash_area_close f) = written f ∧ readable (flash_area_close f) = readable f;
  init_starts off size f f' : stream_flash_init off size f = (0, f') → written f' = [];
  write_appends l f f' : stream_flash_write l false f = (0, f') → written f' = written f ++ l;
  flush_lands f f' : stream_flash_write [] true f = (0, f') →
    written f' = written f ∧ take (length (written f)) (readable f') = written f;
  request_keeps f n : take n (readable (boot_request_upgrade_test f).2) = take n (readable f);
}.

Record kfsw_fwu_status := {
  fw_total_size : Z; fw_received : Z; fw_expected_crc32 : Z; fw_actual_crc32 : Z;
  fw_started : Z; fw_completed : Z; fw_failed : Z; fw_state : Z;
  fw_swap_scheduled : bool; fw_target_bound : bool;
}.

(** The file's static objects, and the hardware. *)
Record fwu (F : Type) := {
  fwu_state : kfsw_fwu_status;
  secondary_readers : Z;
  fwu_area_open : bool;
  fwu_stream_open : bool;
  flash : F;
}.
Arguments fwu_state {F}. Arguments secondary_readers {F}. Arguments fwu_area_open {F}.
Arguments fwu_stream_open {F}. Arguments flash {F}.

Section fwu_ops.
Context {FC : FwuConfig} {CRC : Crc32} {F : Type} {FF : FwuFlash F}.
Implicit Types (s : fwu F) (x : kfsw_fwu_status).

Definition set_fw_state (state : Z) x : kfsw_fwu_status := {|
  fw_total_size := fw_total_size x; fw_received := fw_received x;
  fw_expected_crc32 := fw_expected_crc32 x; fw_actual_crc32 := fw_actual_crc32 x;
  fw_started := fw_started x; fw_completed := fw_completed x; fw_failed := fw_failed x;
  fw_state := state; fw_swap_scheduled := fw_swap_scheduled x;
  fw_target_bound := fw_target_bound x |}.
Definition count_fw_failed x : kfsw_fwu_status := {|
  fw_total_size := fw_total_size x; fw_received := fw_received x;
  fw_expected_crc32 := fw_expected_crc32 x; fw_actual_crc32 := fw_actual_crc32 x;
  fw_started := fw_started x; fw_completed := fw_completed x; fw_failed := u32 (fw_failed x + 1);
  fw_state := fw_state x; fw_swap_scheduled := fw_swap_scheduled x;
  fw_target_bound := fw_target_bound x |}.
(** [fwu_state.state = KFSW_FWU_FAILED; fwu_state.failed++;] *)
Definition fail_fw x : kfsw_fwu_status := count_fw_failed (set_fw_state KFSW_FWU_FAILED x).

Definition set_status (x : kfsw_fwu_status) s : fwu F := {|
  fwu_state := x; secondary_readers := secondary_readers s; fwu_area_open := fwu_area_open s;
  fwu_stream_open := fwu_stream_open s; flash := flash s |}.
Definition set_readers (n : Z) s : fwu F := {|
  fwu_state := fwu_state s; secondary_readers := n; fwu_area_open := fwu_area_open s;
  fwu_stream_open := fwu_stream_open s; flash := flash s |}.
Definition set_stream (area stream : bool) s : fwu F := {|
  fwu_state := fwu_state s; secondary_readers := secondary_readers s; fwu_area_open := area;
  fwu_stream_open := stream; flash := flash s |}.
Definition set_flash (f : F) s : fwu F := {|
  fwu_state := fwu_state s; secondary_readers := secondary_readers s;
  fwu_area_open := fwu_area_open s; fwu_stream_open := fwu_stream_open s; flash := f |}.

Definition fwu_boot (f : F) : fwu F := {|
  fwu_state := {|
    fw_total_size := 0; fw_received := 0; fw_expected_crc32 := 0; fw_actual_crc32 := 0;
    fw_started := 0; fw_completed := 0; fw_failed := 0; fw_state := KFSW_FWU_IDLE;
    fw_swap_scheduled := false; fw_target_bound := bool_decide (is_Some FWU_PARTITION_SIZE) |};
  secondary_readers := 0; fwu_area_open := false; fwu_stream_open := false; flash := f |}.

Definition secondary_needed_for_revert s : bool :=
  FWU_MCUBOOT && bool_decide (mcuboot_swap_type (flash s) = BOOT_SWAP_TYPE_REVERT).

Definition kfsw_fwu_secondary_acquire s : Z * fwu F :=
  if (fw_state (fwu_state s) =? KFSW_FWU_RECEIVING) || (fw_state (fwu_state s) =? KFSW_FWU_FAILED)
  then (- EBUSY, s)
  else (0, set_readers (u32 (secondary_readers s + 1)) s).
Definition kfsw_fwu_secondary_release s : fwu F :=
  set_readers (u32 (secondary_readers s - 1)) s.

Definition fwu_sector_size (f : F) : Z * F :=
  let '(result, f) := flash_area_open f in
  if negb (result =? 0) then (result, f)
  else if negb (flash_area_has_device f) then (- ENODEV, flash_area_close f)
  else
    let '(result, size) := flash_page_size f in
    let f := flash_area_close f in
    if negb (result =? 0) then (result, f) else (i32 size, f).

Definition kfsw_fwu_slot_write_offset (f : F) : Z * F :=
  match FWU_PARTITION_SIZE with
  | Some _ =>
      if FWU_SLOT_OFFSET_SECTORS >? 0 then
        let '(sector, f) := fwu_sector_size f in
        if sector <=? 0 then (0, f) else (u32 (u32 sector * FWU_SLOT_OFFSET_SECTORS), f)
      else (0, f)
  | None => (0, f)
  end.

Definition kfsw_fwu_max_image_size (f : F) : Z * F :=
  match FWU_PARTITION_SIZE with
  | Some partition =>
      let '(offset, f) := kfsw_fwu_slot_write_offset f in
      let '(sector, f) := fwu_sector_size f in
      if sector <=? 0 then (0, f)
      else
        let trailer := u32 (u32 sector * KFSW_FWU_TRAILER_SECTORS) in
        if u32 (offset + trailer) >=? partition then (0, f)
        else (u32 (partition - offset - trailer), f)
  | None => (0, f)
  end.

Definition fwu_close_stream s : fwu F :=
  set_stream false false
    (if fwu_area_open s then set_flash (flash_area_close (flash s)) s else s).

Definition fwu_erase_slot (partition : Z) s : Z * fwu F :=
  let '(result, f) := flash_area_open (flash s) in
  if negb (result =? 0) then (result, set_flash f s)
  else
    let '(result, f) := flash_area_flatten partition f in
    (result, set_stream false (fwu_stream_open s) (set_flash (flash_area_close f) s)).

Definition kfsw_fwu_begin (total_size expected_crc32 : Z) s : Z * fwu F :=
  match FWU_PARTITION_SIZE with
  | None => (- ENODEV, s)
  | Some partition =>
      if total_size =? 0 then (- EINVAL, s)
      else
        let '(maximum, f) := kfsw_fwu_max_image_size (flash s) in
        let s := set_flash f s in
        if total_size >? maximum then (- EFBIG, s)
        else if (fw_state (fwu_state s) =? KFSW_FWU_RECEIVING)
                || negb (secondary_readers s =? 0) || secondary_needed_for_revert s
        then (- EBUSY, s)
        else
          let '(result, s) := fwu_erase_slot partition s in
          if negb (result =? 0) then (result, set_status (fail_fw (fwu_state s)) s)
          else
            let '(write_offset, f) := kfsw_fwu_slot_write_offset (flash s) in
            let '(result, f) := flash_area_open f in
            let s := set_flash f s in
            if negb (result =? 0) then (result, set_status (fail_fw (fwu_state s)) s)
            else
              let '(result, f) := stream_flash_init write_offset maximum (flash s) in
              let s := set_stream true (fwu_stream_open s) (set_flash f s) in
              if negb (result =? 0) then
                let s := fwu_close_stream s in
                (result, set_status (fail_fw (fwu_state s)) s)
              else
                let x := fwu_state s in
                (0, set_stream true true (set_status {|
                  fw_total_size := total_size; fw_received := 0;
                  fw_expected_crc32 := expected_crc32; fw_actual_crc32 := 0;
                  fw_started := u32 (fw_started x + 1); fw_completed := fw_completed x;
                  fw_failed := fw_failed x; fw_state := KFSW_FWU_RECEIVING;
                  fw_swap_scheduled := false; fw_target_bound := fw_target_bound x |} s))
  end.

(** [data] is the [size] bytes of the span. *)
Definition kfsw_fwu_write (offset : Z) (data : option (list Z)) s : Z * fwu F :=
  match FWU_PARTITION_SIZE, data with
  | None, _ => (- ENODEV, s)
  | _, None => (- EINVAL, s)
  | Some _, Some data =>
      let x := fwu_state s in
      if zlen data =? 0 then (- EINVAL, s)
      else if negb (fw_state x =? KFSW_FWU_RECEIVING) then (- EINVAL, s)
      else if negb (offset =? fw_received x) then (- ESPIPE, s)
      else if u64 (offset + zlen data) >? fw_total_size x then (- EFBIG, s)
      else
        let '(result, f) := stream_flash_write data false (flash s) in
        let s := set_flash f s in
        if negb (result =? 0) then (result, set_status (fail_fw x) s)
        else (0, set_status {|
          fw_total_size := fw_total_size x; fw_received := u32 (fw_received x + zlen data);
          fw_expected_crc32 := fw_expected_crc32 x;
          fw_actual_crc32 := crc32_update (fw_actual_crc32 x) data;
          fw_started := fw_started x; fw_completed := fw_completed x; fw_failed := fw_failed x;
          fw_state := fw_state x; fw_swap_scheduled := fw_swap_scheduled x;
          fw_target_bound := fw_target_bound x |} s)
  end.

Definition fwu_verify_locked (partition : Z) s : Z * fwu F :=
  let x := fwu_state s in
  if fw_state x =? KFSW_FWU_VERIFIED then (0, s)
  else if negb (fw_state x =? KFSW_FWU_RECEIVING) then (- EINVAL, s)
  else if negb (fw_received x =? fw_total_size x) then (- EAGAIN, s)
  else if negb (fw_actual_crc32 x =? fw_expected_crc32 x) then
    let '(_, s) := fwu_erase_slot partition (fwu_close_stream s) in
    (- EILSEQ, set_status (fail_fw (fwu_state s)) s)
  else
    let '(result, f) := stream_flash_write [] true (flash s) in
    let s := set_flash f s in
    if negb (result =? 0) then
      let s := fwu_close_stream s in (result, set_status (fail_fw (fwu_state s)) s)
    else
      let s := fwu_close_stream s in
      (0, set_status (set_fw_state KFSW_FWU_VERIFIED (fwu_state s)) s).

Definition kfsw_fwu_verify s : Z * fwu F :=
  match FWU_PARTITION_SIZE with
  | None => (- ENODEV, s)
  | Some partition => fwu_verify_locked partition s
  end.

(** [state = KFSW_FWU_READY; completed++]. *)
Definition complete_fw (scheduled : bool) x : kfsw_fwu_status := {|
  fw_total_size := fw_total_size x; fw_received := fw_received x;
  fw_expected_crc32 := fw_expected_crc32 x; fw_actual_crc32 := fw_actual_crc32 x;
  fw_started := fw_started x; fw_completed := u32 (fw_completed x + 1);
  fw_failed := fw_failed x; fw_state := KFSW_FWU_READY; fw_swap_scheduled := scheduled;
  fw_target_bound := fw_target_bound x |}.

Definition kfsw_fwu_finish s : Z * fwu F :=
  match FWU_PARTITION_SIZE with
  | None => (- ENODEV, s)
  | Some partition =>
      if negb (secondary_readers s =? 0) then (- EBUSY, s)
      else
        let '(result, s) := fwu_verify_locked partition s in
        if negb (result =? 0) then (result, s)
        else if FWU_MCUBOOT then
          let '(result, f) := boot_request_upgrade_test (flash s) in
          let s := set_flash f s in
          if negb (result =? 0) then (result, set_status (fail_fw (fwu_state s)) s)
          else if negb (bool_decide (mcuboot_swap_type (flash s) = BOOT_SWAP_TYPE_TEST))
          then (- EIO, set_status (fail_fw (fwu_state s)) s)
          else (0, set_status (complete_fw true (fwu_state s)) s)
        else (0, set_status (complete_fw (fw_swap_scheduled (fwu_state s)) (fwu_state s)) s)
  end.

Definition reset_fw x : kfsw_fwu_status := {|
  fw_total_size := 0; fw_received := 0; fw_expected_crc32 := 0; fw_actual_crc32 := 0;
  fw_started := fw_started x; fw_completed := fw_completed x; fw_failed := fw_failed x;
  fw_state := KFSW_FWU_IDLE; fw_swap_scheduled := false; fw_target_bound := fw_target_bound x |}.

Definition kfsw_fwu_abort s : Z * fwu F :=
  if negb (secondary_readers s =? 0) || secondary_needed_for_revert s then (- EBUSY, s)
  else
    match FWU_PARTITION_SIZE with
    | None => (0, set_status (reset_fw (fwu_state s)) s)
    | Some partition =>
        let x := if fw_state (fwu_state s) =? KFSW_FWU_RECEIVING
                 then count_fw_failed (fwu_state s) else fwu_state s in
        let '(result, s) := fwu_erase_slot partition (fwu_close_stream (set_status x s)) in
        if negb (result =? 0)
        then (result, set_status (set_fw_state KFSW_FWU_FAILED (fwu_state s)) s)
        else (0, set_status (reset_fw (fwu_state s)) s)
    end.

Definition kfsw_fwu_get_status (status : option kfsw_fwu_status) s : Z * option kfsw_fwu_status :=
  match status with
  | None => (- EINVAL, None)
  | Some _ => (0, Some (fwu_state s))
  end.
End fwu_ops.

(** ** The image and the invariant *)

Section fwu_proofs.
Context {FC : FwuConfig} {CRC : Crc32} {F : Type} {FF : FwuFlash F}.
Implicit Types (s : fwu F) (x : kfsw_fwu_status) (f : F).

(** Nothing that can be read or was written has moved. *)
Definition same_image (f f' : F) : Prop := written f' = written f ∧ readable f' = readable f.

Lemma same_image_refl f : same_image f f.
Proof. done. Qed.
Lemma same_image_trans f g h : same_image f g → same_image g h → same_image f h.
Proof. intros [? ?] [? ?]. split; congruence. Qed.
Lemma same_image_open f : same_image f (flash_area_open f).2.
Proof. apply open_keeps. Qed.
Lemma same_image_close f g : same_image f g → same_image f (flash_area_close g).
Proof. intros. eapply same_image_trans; [done|]. apply close_keeps. Qed.

Lemma sector_size_keeps f : same_image f (fwu_sector_size f).2.
Proof.
  unfold fwu_sector_size. pose proof (same_image_open f). destruct (flash_area_open f) as [rc g].
  cbn in *. repeat case_match; cbn; auto using same_image_close.
Qed.

Lemma write_offset_keeps f : same_image f (kfsw_fwu_slot_write_offset f).2.
Proof.
  unfold kfsw_fwu_slot_write_offset. pose proof (sector_size_keeps f).
  destruct (fwu_sector_size f). repeat case_match; done.
Qed.

Lemma max_image_keeps f : same_image f (kfsw_fwu_max_image_size f).2.
Proof.
  unfold kfsw_fwu_max_image_size. case_match; [|done].
  pose proof (write_offset_keeps f). destruct (kfsw_fwu_slot_write_offset f) as [o g].
  pose proof (sector_size_keeps g). destruct (fwu_sector_size g) as [sec h]. cbn in *.
  assert (same_image f h) by eauto using same_image_trans. repeat case_match; done.
Qed.

Lemma max_image_u32 f : 0 <= (kfsw_fwu_max_image_size f).1 < 2 ^ 32.
Proof. unfold kfsw_fwu_max_image_size. repeat case_match; cbn; clia. Qed.

(** The image the sender announced is what the slot now holds. *)
Definition image_good x f : Prop :=
  fw_received x = fw_total_size x ∧ fw_actual_crc32 x = fw_expected_crc32 x ∧
  let image := take (Z.to_nat (fw_total_size x)) (readable f) in
  zlen image = fw_total_size x ∧ crc32_ieee image = fw_expected_crc32 x.

Definition receiving_good x f : Prop :=
  is_u32 (fw_total_size x) ∧ fw_received x = zlen (written f) ∧ fw_received x <= fw_total_size x ∧
  fw_actual_crc32 x = crc32_ieee (written f).

Definition settled (state : Z) : bool := (state =? KFSW_FWU_VERIFIED) || (state =? KFSW_FWU_READY).

Definition fwu_inv s : Prop :=
  let x := fwu_state s in
  0 <= fw_state x <= 4 ∧
  (fw_state x = KFSW_FWU_RECEIVING → receiving_good x (flash s)) ∧
  (settled (fw_state x) = true → image_good x (flash s)) ∧
  (fw_state x = KFSW_FWU_READY → FWU_MCUBOOT = true → fw_swap_scheduled x = true) ∧
  (secondary_readers s ≠ 0 →
     fw_state x ≠ KFSW_FWU_RECEIVING ∧ fw_state x ≠ KFSW_FWU_FAILED).

(** A state that makes no claim about the slot. *)
Lemma inv_unsettled s :
  secondary_readers s = 0 →
  (fw_state (fwu_state s) = KFSW_FWU_FAILED ∨ fw_state (fwu_state s) = KFSW_FWU_IDLE) → fwu_inv s.
Proof. unfold fwu_inv, settled. intros Hr [-> | ->]; by split_and!. Qed.

Lemma inv_same_image s f : same_image (flash s) f → fwu_inv s → fwu_inv (set_flash f s).
Proof.
  intros [Hw Hr]. unfold fwu_inv, receiving_good, image_good. cbn. rewrite Hw, Hr. done.
Qed.

Lemma close_stream_status s :
  fwu_state (fwu_close_stream s) = fwu_state s ∧
  secondary_readers (fwu_close_stream s) = secondary_readers s ∧
  same_image (flash s) (flash (fwu_close_stream s)).
Proof. unfold fwu_close_stream. case_match; split_and!; try done; apply close_keeps. Qed.

Lemma erase_status n s :
  fwu_state (fwu_erase_slot n s).2 = fwu_state s ∧
  secondary_readers (fwu_erase_slot n s).2 = secondary_readers s.
Proof.
  unfold fwu_erase_slot. destruct (flash_area_open _) as [rc f]. case_match; [done|].
  by destruct (flash_area_flatten n f).
Qed.

Lemma begin_inv total crc s :
  is_u32 total → fwu_inv s → fwu_inv (kfsw_fwu_begin total crc s).2.
Proof.
  intros Ht Hi. unfold kfsw_fwu_begin. destruct FWU_PARTITION_SIZE as [n|]; [|done].
  destruct (total =? 0); [done|]. pose proof (max_image_keeps (flash s)) as Hk.
  destruct (kfsw_fwu_max_image_size (flash s)) as [maximum f]. cbn [snd] in Hk.
  apply (inv_same_image s f) in Hi; [|done]. revert Hi. generalize (set_flash f s). clear s Hk f.
  intros s Hi. destruct (total >? maximum); [done|].
  destruct ((fw_state (fwu_state s) =? _) || _ || _) eqn:G; [done|].
  assert (secondary_readers s = 0) as Hr by lia.
  pose proof (erase_status n s) as [Hx Hr']. destruct (fwu_erase_slot n s) as [rc s1].
  cbn [snd] in *. rewrite Hr in Hr'. clear Hi G.
  destruct (negb (rc =? 0)); [by apply inv_unsettled; [|left]|].
  destruct (kfsw_fwu_slot_write_offset (flash s1)) as [off f1].
  destruct (flash_area_open f1) as [rc2 f2].
  destruct (negb (rc2 =? 0)); [by apply inv_unsettled; [|left]|].
  destruct (stream_flash_init off maximum (flash (set_flash f2 s1))) as [rc3 f3] eqn:Hinit.
  destruct (negb (rc3 =? 0)) eqn:Hrc.
  - apply inv_unsettled; [|by left].
    destruct (close_stream_status (set_stream true (fwu_stream_open (set_flash f2 s1))
      (set_flash f3 (set_flash f2 s1)))) as (_ & H & _). exact (eq_trans H Hr').
  - assert (rc3 = 0) as -> by lia. apply init_starts in Hinit.
    unfold fwu_inv, receiving_good, settled. cbn. rewrite Hinit. split_and!; try done.
    intros _. split_and!; try done; [clia|]. unfold crc32_ieee. by rewrite crc32_update_nil.
Qed.

(** A span of memory the caller owns. *)
Definition span_ok (data : option (list Z)) : Prop := zlen (default [] data) < 2 ^ 63.

Lemma write_inv off data s : span_ok data → fwu_inv s → fwu_inv (kfsw_fwu_write off data s).2.
Proof.
  intros Hsp Hi. unfold kfsw_fwu_write.
  destruct FWU_PARTITION_SIZE; [|done]. destruct data as [data|]; [|done].
  destruct (zlen data =? 0); [done|].
  destruct (negb (fw_state (fwu_state s) =? KFSW_FWU_RECEIVING)) eqn:Hst; [done|].
  destruct (negb (off =? _)) eqn:Hoff; [done|]. destruct (u64 _ >? _) eqn:Hsz; [done|].
  destruct (stream_flash_write data false (flash s)) as [rc f] eqn:Hw.
  destruct Hi as (Hs & Hrec & _ & _ & Hrd). cbn zeta in *.
  assert (fw_state (fwu_state s) = KFSW_FWU_RECEIVING) as Est by lia.
  assert (secondary_readers s = 0) as Hr0
    by (destruct (decide (secondary_readers s = 0)); [done|]; naive_solver).
  destruct (negb (rc =? 0)) eqn:Hrc; [by apply inv_unsettled; [|left]|].
  assert (rc = 0) as -> by lia. apply write_appends in Hw.
  destruct (Hrec Est) as (Ht & Hre & Hle & Hcrc). unfold fwu_inv, receiving_good, settled.
  cbn. rewrite Hw, Est. split_and!; try done. intros _. rewrite zlen_app.
  pose proof (zlen_nonneg (written (flash s))). pose proof (zlen_nonneg data).
  unfold span_ok in Hsp. cbn in Hsp. rewrite u64_id in Hsz by clia. rewrite u32_id by clia.
  split_and!; [done|lia|clia|]. unfold crc32_ieee in *. by rewrite Hcrc, crc32_update_app.
Qed.

Lemma verify_inv n s : fwu_inv s → fwu_inv (fwu_verify_locked n s).2.
Proof.
  intros Hi. unfold fwu_verify_locked.
  destruct (fw_state (fwu_state s) =? KFSW_FWU_VERIFIED) eqn:Hv; [done|].
  destruct (negb (fw_state (fwu_state s) =? KFSW_FWU_RECEIVING)) eqn:Hst; [done|].
  destruct (negb (fw_received _ =? _)) eqn:Hrc; [done|].
  pose proof Hi as (Hs & Hrec & _ & _ & Hrd). cbn zeta in *.
  assert (fw_state (fwu_state s) = KFSW_FWU_RECEIVING) as Est by lia.
  assert (secondary_readers s = 0) as Hr0
    by (destruct (decide (secondary_readers s = 0)); [done|]; naive_solver).
  pose proof (close_stream_status s) as (Hx & Hr & _).
  destruct (negb (fw_actual_crc32 _ =? _)) eqn:Hcrc.
  - pose proof (erase_status n (fwu_close_stream s)) as [Hx' Hr'].
    destruct (fwu_erase_slot n (fwu_close_stream s)) as [rc s1]. cbn [snd] in *.
    apply inv_unsettled; [exact (eq_trans Hr' (eq_trans Hr Hr0))|by left].
  - destruct (stream_flash_write [] true (flash s)) as [rc f] eqn:Hf.
    pose proof (close_stream_status (set_flash f s)) as (Hx' & Hr' & Hk).
    destruct (negb (rc =? 0)) eqn:Hrc0; [apply inv_unsettled; [exact (eq_trans Hr' Hr0)|by left]|].
    assert (rc = 0) as -> by lia. apply flush_lands in Hf as [Hw Hrdb].
    destruct (Hrec Est) as (Ht & Hre & Hle & Hc).
    unfold fwu_inv, image_good. cbn -[fwu_close_stream]. rewrite Hx', Hr'.
    destruct Hk as [_ ->]. cbn.
    split_and!; try done. intros _.
    assert (Z.to_nat (fw_total_size (fwu_state s)) = length (written (flash s))) as ->
      by (unfold zlen in *; lia).
    rewrite Hrdb. split_and!; [lia|lia|lia|]. rewrite <- Hc. lia.
Qed.

Lemma verify_ok n s :
  (fwu_verify_locked n s).1 = 0 → fw_state (fwu_state (fwu_verify_locked n s).2) = KFSW_FWU_VERIFIED.
Proof.
  unfold fwu_verify_locked. intros H.
  destruct (fw_state (fwu_state s) =? KFSW_FWU_VERIFIED) eqn:Hv; [cbn in *; lia|].
  destruct (negb (fw_state (fwu_state s) =? KFSW_FWU_RECEIVING)) eqn:Hst; [done|].
  destruct (negb (fw_received _ =? _)) eqn:Hrc; [done|].
  destruct (negb (fw_actual_crc32 _ =? _)) eqn:Hcrc; [by destruct (fwu_erase_slot _ _)|].
  destruct (stream_flash_write [] true (flash s)) as [rc f] eqn:Hf.
  destruct (negb (rc =? 0)) eqn:Hrc0; cbn in *; [lia|done].
Qed.

Lemma verify_readers n s :
  secondary_readers (fwu_verify_locked n s).2 = secondary_readers s.
Proof.
  unfold fwu_verify_locked.
  destruct (fw_state (fwu_state s) =? KFSW_FWU_VERIFIED); [done|].
  destruct (negb (fw_state (fwu_state s) =? KFSW_FWU_RECEIVING)); [done|].
  destruct (negb (fw_received _ =? _)); [done|].
  destruct (negb (fw_actual_crc32 _ =? _)).
  - pose proof (erase_status n (fwu_close_stream s)) as [_ Hr].
    destruct (fwu_erase_slot n (fwu_close_stream s)). cbn in *. rewrite Hr.
    apply close_stream_status.
  - destruct (stream_flash_write [] true (flash s)) as [rc f].
    destruct (close_stream_status (set_flash f s)) as (_ & Hr & _).
    by destruct (negb (rc =? 0)).
Qed.

Lemma finish_inv s : fwu_inv s → fwu_inv (kfsw_fwu_finish s).2.
Proof.
  intros Hi. unfold kfsw_fwu_finish. destruct FWU_PARTITION_SIZE as [n|]; [|done].
  destruct (negb (secondary_readers s =? 0)) eqn:Hr; [done|].
  pose proof (verify_inv n s Hi) as Hi1. pose proof (verify_ok n s) as Hok.
  pose proof (verify_readers n s) as Hr1.
  destruct (fwu_verify_locked n s) as [rc s1]. cbn [fst snd] in *.
  destruct (negb (rc =? 0)) eqn:Hrc; [done|]. specialize (Hok ltac:(lia)).
  destruct Hi1 as (_ & _ & Hgood & _ & _). specialize (Hgood ltac:(by rewrite Hok)).
  destruct FWU_MCUBOOT eqn:Hmcu.
  - pose proof (request_keeps (flash s1) (Z.to_nat (fw_total_size (fwu_state s1)))) as Hk.
    destruct (boot_request_upgrade_test (flash s1)) as [rc2 f2]. cbn [snd] in Hk.
    destruct (negb (rc2 =? 0)); [apply inv_unsettled; [cbn; lia|by left]|].
    destruct (negb (bool_decide _)); [apply inv_unsettled; [cbn; lia|by left]|].
    unfold fwu_inv, image_good in *. cbn in *. rewrite Hk. by split_and!.
  - unfold fwu_inv, image_good in *. cbn in *. split_and!; try done; congruence.
Qed.

Lemma abort_inv s : fwu_inv s → fwu_inv (kfsw_fwu_abort s).2.
Proof.
  intros Hi. unfold kfsw_fwu_abort. destruct (negb (secondary_readers s =? 0) || _) eqn:G; [done|].
  assert (secondary_readers s = 0) as Hr by lia.
  destruct FWU_PARTITION_SIZE as [n|]; [|by apply inv_unsettled; [|right]].
  set (s1 := set_status _ s). pose proof (close_stream_status s1) as (_ & Hr1 & _).
  pose proof (erase_status n (fwu_close_stream s1)) as [_ Hr2].
  destruct (fwu_erase_slot n (fwu_close_stream s1)) as [rc s2]. cbn [snd] in *.
  assert (secondary_readers s2 = 0) by (rewrite Hr2, Hr1; done).
  destruct (negb (rc =? 0)); apply inv_unsettled; auto.
Qed.

(** Status, readers and what the slot holds are untouched. *)
Definition quiet s s' : Prop :=
  fwu_state s' = fwu_state s ∧ secondary_readers s' = secondary_readers s ∧
  readable (flash s') = readable (flash s).

Lemma begin_quiet total crc s :
  secondary_readers s ≠ 0 →
  (kfsw_fwu_begin total crc s).1 ≠ 0 ∧ quiet s (kfsw_fwu_begin total crc s).2.
Proof.
  intros Hr. unfold kfsw_fwu_begin. destruct FWU_PARTITION_SIZE; [|done].
  destruct (total =? 0); [done|]. pose proof (max_image_keeps (flash s)) as [_ Hk].
  destruct (kfsw_fwu_max_image_size (flash s)) as [maximum f]. cbn [snd] in Hk.
  cbn [set_flash secondary_readers fwu_state]. rewrite (proj2 (Z.eqb_neq _ _) Hr).
  destruct (total >? maximum); [done|]. by rewrite orb_true_r.
Qed.

(** One call of the interface, by a caller that owns its data and that releases only
    what it acquired. *)
Inductive fwu_step : fwu F → fwu F → Prop :=
| fwu_step_begin total crc s : is_u32 total → fwu_step s (kfsw_fwu_begin total crc s).2
| fwu_step_write off data s : span_ok data → fwu_step s (kfsw_fwu_write off data s).2
| fwu_step_verify s : fwu_step s (kfsw_fwu_verify s).2
| fwu_step_finish s : fwu_step s (kfsw_fwu_finish s).2
| fwu_step_abort s : fwu_step s (kfsw_fwu_abort s).2
| fwu_step_acquire s : fwu_step s (kfsw_fwu_secondary_acquire s).2
| fwu_step_release s :
    0 < secondary_readers s < 2 ^ 32 → fwu_step s (kfsw_fwu_secondary_release s).
Definition fwu_reachable s : Prop := ∃ f, rtc fwu_step (fwu_boot f) s.

Lemma fwu_step_inv s s' : fwu_step s s' → fwu_inv s → fwu_inv s'.
Proof.
  destruct 1; intros Hi; auto using begin_inv, write_inv, finish_inv, abort_inv.
  - unfold kfsw_fwu_verify. case_match; [by apply verify_inv|done].
  - unfold kfsw_fwu_secondary_acquire. destruct (_ || _) eqn:G; [done|].
    destruct Hi as (? & ? & ? & ? & _). unfold fwu_inv. cbn. do 4 (split; [done|]).
    intros _. apply orb_false_iff in G. lia.
  - destruct Hi as (? & ? & ? & ? & Hr). unfold fwu_inv. cbn. do 4 (split; [done|]).
    intros _. apply Hr. lia.
Qed.

Lemma fwu_reachable_inv s : fwu_reachable s → fwu_inv s.
Proof.
  intros [f H]. assert (∀ a b, rtc fwu_step a b → fwu_inv a → fwu_inv b) as Hind.
  { induction 1; eauto using fwu_step_inv. }
  eapply Hind; [exact H|by apply inv_unsettled; [|right]].
Qed.
End fwu_proofs.

(** ** Properties *)


(** C16: the image is built without gaps or overruns. A span is accepted only while
    receiving, at exactly the offset reached, and within the announced size; it then
    advances the count and the running CRC by its bytes, which follow the earlier
    ones in the stream. A refused span changes nothing, and one the flash fails on
    ends the transfer. *)
Theorem fwu_write_contiguous {FC : FwuConfig} {CRC : Crc32} {F} {FF : FwuFlash F}
    (s s' : fwu F) offset data rc :
  fwu_reachable s → zlen data < 2 ^ 63 → is_u32 offset →
  kfsw_fwu_write offset (Some data) s = (rc, s') →
  (rc = 0 →
     fw_state (fwu_state s) = KFSW_FWU_RECEIVING ∧ offset = zlen (written (flash s)) ∧
     data ≠ [] ∧ offset + zlen data <= fw_total_size (fwu_state s) ∧
     written (flash s') = written (flash s) ++ data ∧
     fw_received (fwu_state s') = offset + zlen data ∧
     fw_actual_crc32 (fwu_state s') = crc32_ieee (written (flash s) ++ data) ∧
     fw_state (fwu_state s') = KFSW_FWU_RECEIVING) ∧
  (rc ≠ 0 → s' = s ∨ fw_state (fwu_state s') = KFSW_FWU_FAILED).
Proof.
  intros Hr Hd Ho H. apply fwu_reachable_inv in Hr. unfold kfsw_fwu_write in H.
  destruct FWU_PARTITION_SIZE; [|injection H as <- <-; split; [done|by left]].
  destruct (zlen data =? 0) eqn:Hz; [injection H as <- <-; split; [done|by left]|].
  destruct (negb (fw_state (fwu_state s) =? _)) eqn:Hst; [injection H as <- <-; split; [done|by left]|].
  destruct (negb (offset =? _)) eqn:Hoff; [injection H as <- <-; split; [done|by left]|].
  pose proof (zlen_nonneg data). rewrite u64_id in H by clia.
  destruct (offset + zlen data >? _) eqn:Hsz; [injection H as <- <-; split; [done|by left]|].
  destruct (stream_flash_write data false (flash s)) as [rc' f] eqn:Hw.
  destruct (negb (rc' =? 0)) eqn:Hrc; injection H as <- <-.
  - split; [lia|by right].
  - assert (rc' = 0) as -> by lia. split; [intros _|done]. apply write_appends in Hw.
    destruct Hr as (_ & Hrec & _). cbn zeta in Hrec.
    destruct Hrec as (Ht & Hre & Hle & Hcrc); [lia|]. cbn.
    assert (offset = fw_received (fwu_state s)) as -> by lia.
    rewrite u32_id by clia. unfold crc32_ieee in *. rewrite Hcrc, crc32_update_app.
    split_and!; try done; try lia. intros ->. done.
Qed.

(** C30: while a reader has the slot open, no call can touch it: beginning, finishing
    and aborting are refused, a write is refused, a verification changes nothing, and
    the status and the readable image stay as they are. The reader was admitted only
    while no transfer was running or failed. *)
Theorem fwu_reader_excludes {FC : FwuConfig} {CRC : Crc32} {F} {FF : FwuFlash F}
    (s : fwu F) total crc offset data :
  fwu_reachable s → secondary_readers s ≠ 0 →
  (kfsw_fwu_begin total crc s).1 ≠ 0 ∧ quiet s (kfsw_fwu_begin total crc s).2 ∧
  (kfsw_fwu_write offset data s).1 ≠ 0 ∧ quiet s (kfsw_fwu_write offset data s).2 ∧
  quiet s (kfsw_fwu_verify s).2 ∧
  (kfsw_fwu_finish s).1 ≠ 0 ∧ quiet s (kfsw_fwu_finish s).2 ∧
  (kfsw_fwu_abort s).1 = - EBUSY ∧ quiet s (kfsw_fwu_abort s).2.
Proof.
  intros Hreach Hr. apply fwu_reachable_inv in Hreach as (_ & _ & _ & _ & Hx).
  destruct (Hx Hr) as [Hnr Hnf]. pose proof (begin_quiet total crc s Hr) as [? ?].
  assert ((secondary_readers s =? 0) = false) as Hr0 by lia.
  assert ((fw_state (fwu_state s) =? KFSW_FWU_RECEIVING) = false) as Hst by lia.
  split; [done|]. split; [done|].
  unfold kfsw_fwu_write, kfsw_fwu_verify, kfsw_fwu_finish, kfsw_fwu_abort, fwu_verify_locked.
  rewrite Hr0, Hst. destruct FWU_PARTITION_SIZE; cbn [negb orb].
  - split_and!; try done; repeat case_match; done.
  - split_and!; done.
Qed.

(** ** The properties at a concrete input *)

(** A flash that never fails. *)
Record sim_flash := { sf_written : list Z; sf_slot : list Z; sf_swap : boot_swap_type }.
#[program] Definition sim_fwu_flash : FwuFlash sim_flash := {|
  flash_area_open f := (0, f); flash_area_close f := f; flash_area_has_device f := true;
  flash_page_size f := (0, 4096);
  flash_area_flatten _ f := (0, {| sf_written := sf_written f; sf_slot := []; sf_swap := sf_swap f |});
  stream_flash_init _ _ f := (0, {| sf_written := []; sf_slot := sf_slot f; sf_swap := sf_swap f |});
  stream_flash_write l flush f := (0, {|
    sf_written := sf_written f ++ l;
    sf_slot := if flush then sf_written f ++ l else sf_slot f; sf_swap := sf_swap f |});
  boot_request_upgrade_test f :=
    (0, {| sf_written := sf_written f; sf_slot := sf_slot f; sf_swap := BOOT_SWAP_TYPE_TEST |});
  mcuboot_swap_type := sf_swap; written := sf_written; readable := sf_slot |}.
Next Obligation. done. Qed.
Next Obligation. done. Qed.
Next Obligation. intros off size f f' H. by injection H as <-. Qed.
Next Obligation. intros l f f' H. by injection H as <-. Qed.
Next Obligation.
  intros f f' H. injection H as <-. cbn. rewrite app_nil_r. split; [done|]. by rewrite take_ge.
Qed.
Next Obligation. done. Qed.

Section fwu_witnesses.
#[local] Existing Instance fwu_config_sample.
#[local] Existing Instance crc32_bitwise.
#[local] Existing Instance sim_fwu_flash.

Definition blank : fwu sim_flash :=
  fwu_boot {| sf_written := []; sf_slot := [1; 1; 1]; sf_swap := BOOT_SWAP_TYPE_OTHER |}.
(** "123456789" in two spans. *)
Definition fwu_open_run : fwu sim_flash := (kfsw_fwu_begin 9 3421780262 blank).2.
Definition fwu_half_run : fwu sim_flash := (kfsw_fwu_write 0 (Some (cstr "1234")) fwu_open_run).2.
Definition fwu_full_run : fwu sim_flash := (kfsw_fwu_write 4 (Some (cstr "56789")) fwu_half_run).2.
Definition fwu_ready_run : fwu sim_flash := (kfsw_fwu_finish fwu_full_run).2.

Lemma fwu_half_reachable : fwu_reachable fwu_half_run.
Proof.
  eexists. eapply rtc_l; [exact (fwu_step_begin 9 3421780262 blank ltac:(clia))|].
  eapply rtc_l; [exact (fwu_step_write 0 (Some (cstr "1234")) fwu_open_run eq_refl)|apply rtc_refl].
Qed.

Lemma fwu_ready_reachable : fwu_reachable fwu_ready_run.
Proof.
  destruct fwu_half_reachable as [f H]. exists f. etrans; [exact H|].
  eapply rtc_l; [exact (fwu_step_write 4 (Some (cstr "56789")) fwu_half_run eq_refl)|].
  exact (rtc_once _ _ (fwu_step_finish fwu_full_run)).
Qed.


Lemma fwu_write_contiguous_witness :
  written (flash fwu_full_run) = cstr "1234" ++ cstr "56789" ∧
  fw_received (fwu_state fwu_full_run) = 9.
Proof.
  destruct (fwu_write_contiguous fwu_half_run fwu_full_run 4 (cstr "56789") 0 fwu_half_reachable)
    as [H _].
  - reflexivity.
  - vm_compute. split; congruence.
  - vm_compute. reflexivity.
  - destruct (H eq_refl) as (_ & _ & _ & _ & Hw & Hr & _). split; [exact Hw|exact Hr].
Defined.

Lemma fwu_reader_excludes_witness :
  let s := (kfsw_fwu_secondary_acquire fwu_ready_run).2 in
  secondary_readers s = 1 ∧ (kfsw_fwu_abort s).1 = - EBUSY.
Proof.
  intros s. assert (secondary_readers s = 1) as Hr by (vm_compute; reflexivity).
  assert (secondary_readers s ≠ 0) as Hne by (rewrite Hr; discriminate).
  assert (fwu_reachable s) as Hs.
  { destruct fwu_ready_reachable as [f H]. exists f. eapply rtc_r; [exact H|exact (fwu_step_acquire fwu_ready_run)]. }
  destruct (fwu_reader_excludes s 5 0 0 None Hs Hne) as (_ & _ & _ & _ & _ & _ & _ & H & _).
  split; [exact Hr|exact H].
Defined.
End fwu_witnesses.
