(* ===== verification/FwuLite.v ===== *)
(** * Block upload ([src/fwu/fwu_lite_protocol.c])

    The frame codec of the block upload and the request handler that drives the
    firmware update of [Fwu]. The link that carries the frames is not modelled. The
    handler's request and reply are distinct objects, as its callers have them. *)

From S2P Require Import Prelude Bytes Fwu.

(** [CONFIG_KFSW_FWU_LITE_BLOCK_SIZE]. *)
Class FwuLiteConfig := {
  FWU_LITE_BLOCK_SIZE : Z;
  FWU_LITE_BLOCK_SIZE_range : 16 <= FWU_LITE_BLOCK_SIZE <= 512;
}.
#[program] Definition fwu_lite_config_smallest : FwuLiteConfig := {| FWU_LITE_BLOCK_SIZE := 16 |}.
Next Obligation. lia. Qed.

Definition KFSW_FWU_LITE_OP_BEGIN : Z := 1.
Definition KFSW_FWU_LITE_OP_BLOCK : Z := 2.
Definition KFSW_FWU_LITE_OP_STATUS : Z := 3.
Definition KFSW_FWU_LITE_OP_VERIFY : Z := 4.
Definition KFSW_FWU_LITE_OP_START_FLASHING : Z := 5.
Definition KFSW_FWU_LITE_OP_ABORT : Z := 6.

Definition KFSW_FWU_LITE_STATUS_OK : Z := 0.
Definition KFSW_FWU_LITE_STATUS_INVALID : Z := 1.
Definition KFSW_FWU_LITE_STATUS_OUT_OF_ORDER : Z := 2.
Definition KFSW_FWU_LITE_STATUS_BAD_BLOCK : Z := 3.
Definition KFSW_FWU_LITE_STATUS_BAD_IMAGE : Z := 4.
Definition KFSW_FWU_LITE_STATUS_TOO_LARGE : Z := 5.
Definition KFSW_FWU_LITE_STATUS_BUSY : Z := 6.
Definition KFSW_FWU_LITE_STATUS_FAILED : Z := 7.

Definition KFSW_FWU_LITE_HEADER_SIZE : Z := 12.

(** [data] is a pointer: after a decode, to the rest of the buffer. *)
Record kfsw_fwu_lite_message := {
  lm_opcode : Z; lm_status : Z; lm_block_index : Z; lm_argument : Z; lm_extra : Z;
  lm_data_size : Z; lm_data : option (list Z);
}.

Definition opcode_is_known (opcode : Z) : bool :=
  (opcode =? KFSW_FWU_LITE_OP_BEGIN) || (opcode =? KFSW_FWU_LITE_OP_BLOCK)
  || (opcode =? KFSW_FWU_LITE_OP_STATUS) || (opcode =? KFSW_FWU_LITE_OP_VERIFY)
  || (opcode =? KFSW_FWU_LITE_OP_START_FLASHING) || (opcode =? KFSW_FWU_LITE_OP_ABORT).

(** ** The frame *)

Section codec.
Context {LC : FwuLiteConfig} {BO : ByteOrder}.

Definition kfsw_fwu_lite_encode (message : option kfsw_fwu_lite_message)
    (buffer : option (list Z)) (buffer_size : Z) (encoded_size : option Z)
    : Z * option (list Z) * option Z :=
  match message, buffer, encoded_size with
  | Some m, Some buf, Some _ =>
      if (lm_data_size m >? 0) && bool_decide (lm_data m = None)
      then (- EINVAL, buffer, encoded_size)
      else if lm_data_size m >? FWU_LITE_BLOCK_SIZE then (- EMSGSIZE, buffer, encoded_size)
      else
        let total := KFSW_FWU_LITE_HEADER_SIZE + lm_data_size m in
        if total >? buffer_size then (- EMSGSIZE, buffer, encoded_size)
        else
          let b := buf_put 0 [lm_opcode m] buf in
          let b := buf_put 1 [lm_status m] b in
          let b := buf_put 2 (put_be16 (lm_block_index m)) b in
          let b := buf_put 4 (put_be32 (lm_argument m)) b in
          let b := buf_put 8 (put_be32 (lm_extra m)) b in
          let b := if lm_data_size m >? 0
                   then buf_put 12 (take (Z.to_nat (lm_data_size m)) (default [] (lm_data m))) b
                   else b in
          (0, Some b, Some total)
  | _, _, _ => (- EINVAL, buffer, encoded_size)
  end.

Definition kfsw_fwu_lite_decode (buffer : option (list Z)) (size : Z)
    (message : option kfsw_fwu_lite_message) : Z * option kfsw_fwu_lite_message :=
  match buffer, message with
  | Some buf, Some _ =>
      if size <? KFSW_FWU_LITE_HEADER_SIZE then (- EBADMSG, message)
      else
        let data_size := u16 (size - KFSW_FWU_LITE_HEADER_SIZE) in
        let filled data := {|
          lm_opcode := byte_at buf 0; lm_status := byte_at buf 1; lm_block_index := get_be16 2 buf;
          lm_argument := get_be32 4 buf; lm_extra := get_be32 8 buf;
          lm_data_size := data_size; lm_data := data |} in
        if negb (opcode_is_known (byte_at buf 0)) then (- EBADMSG, Some (filled None))
        else if data_size >? FWU_LITE_BLOCK_SIZE then (- EMSGSIZE, Some (filled None))
        else (0, Some (filled (if data_size >? 0 then Some (drop 12 buf) else None)))
  | _, _ => (- EINVAL, message)
  end.
End codec.

(** ** The handler *)

Definition status_for_errno (result : Z) : Z :=
  if result =? 0 then KFSW_FWU_LITE_STATUS_OK
  else if result =? - EBUSY then KFSW_FWU_LITE_STATUS_BUSY
  else if result =? - EFBIG then KFSW_FWU_LITE_STATUS_TOO_LARGE
  else if result =? - ESPIPE then KFSW_FWU_LITE_STATUS_OUT_OF_ORDER
  else if result =? - EILSEQ then KFSW_FWU_LITE_STATUS_BAD_IMAGE
  else if (result =? - EINVAL) || (result =? - EAGAIN) then KFSW_FWU_LITE_STATUS_INVALID
  else KFSW_FWU_LITE_STATUS_FAILED.

Definition kfsw_fwu_lite_status_name (status : Z) : string :=
  if status =? KFSW_FWU_LITE_STATUS_OK then "ok"
  else if status =? KFSW_FWU_LITE_STATUS_INVALID then "invalid"
  else if status =? KFSW_FWU_LITE_STATUS_OUT_OF_ORDER then "out-of-order"
  else if status =? KFSW_FWU_LITE_STATUS_BAD_BLOCK then "bad-block"
  else if status =? KFSW_FWU_LITE_STATUS_BAD_IMAGE then "bad-image"
  else if status =? KFSW_FWU_LITE_STATUS_TOO_LARGE then "too-large"
  else if status =? KFSW_FWU_LITE_STATUS_BUSY then "busy"
  else if status =? KFSW_FWU_LITE_STATUS_FAILED then "failed"
  else "unknown".

Section handler.
Context {LC : FwuLiteConfig} {FC : FwuConfig} {CRC : Crc32} {F : Type} {FF : FwuFlash F}.
Implicit Types (s : fwu F) (request reply : kfsw_fwu_lite_message).

(** The status object on the stack, before it is filled. *)
Definition stack_status : kfsw_fwu_status := {|
  fw_total_size := 0; fw_received := 0; fw_expected_crc32 := 0; fw_actual_crc32 := 0;
  fw_started := 0; fw_completed := 0; fw_failed := 0; fw_state := 0;
  fw_swap_scheduled := false; fw_target_bound := false |}.

Definition describe_state s reply : kfsw_fwu_lite_message :=
  match kfsw_fwu_get_status (Some stack_status) s with
  | (0, Some status) => {|
      lm_opcode := lm_opcode reply; lm_status := lm_status reply;
      lm_block_index := u16 (fw_received status / FWU_LITE_BLOCK_SIZE);
      lm_argument := fw_actual_crc32 status; lm_extra := fw_received status;
      lm_data_size := lm_data_size reply; lm_data := lm_data reply |}
  | _ => reply
  end.

(** A handler answers the status of the reply. *)
Definition handle_begin request s : Z * fwu F :=
  let '(result, s) := kfsw_fwu_begin (lm_argument request) (lm_extra request) s in
  (status_for_errno result, s).

Definition handle_block request s : Z * fwu F :=
  match lm_data request with
  | None => (KFSW_FWU_LITE_STATUS_INVALID, s)
  | Some data =>
      if lm_data_size request =? 0 then (KFSW_FWU_LITE_STATUS_INVALID, s)
      else
        match kfsw_fwu_get_status (Some stack_status) s with
        | (0, Some status) =>
            if negb (fw_state status =? KFSW_FWU_RECEIVING) then (KFSW_FWU_LITE_STATUS_INVALID, s)
            else
              let expected_index := fw_received status / FWU_LITE_BLOCK_SIZE in
              if negb (lm_block_index request =? expected_index)
              then (KFSW_FWU_LITE_STATUS_OUT_OF_ORDER, s)
              else if (u32 (fw_received status + lm_data_size request) <? fw_total_size status)
                      && negb (lm_data_size request =? FWU_LITE_BLOCK_SIZE)
              then (KFSW_FWU_LITE_STATUS_INVALID, s)
              else
                let block := take (Z.to_nat (lm_data_size request)) data in
                if negb (crc32_ieee block =? lm_argument request)
                then (KFSW_FWU_LITE_STATUS_BAD_BLOCK, s)
                else
                  let '(result, s) := kfsw_fwu_write (fw_received status) (Some block) s in
                  (status_for_errno result, s)
        | _ => (KFSW_FWU_LITE_STATUS_FAILED, s)
        end
  end.

Definition handle_verify s : Z * fwu F :=
  let '(result, s) := kfsw_fwu_verify s in (status_for_errno result, s).
Definition handle_start_flashing s : Z * fwu F :=
  let '(result, s) := kfsw_fwu_finish s in (status_for_errno result, s).

(** The switch over the opcode. *)
Definition handle_opcode request s : Z * fwu F :=
  if lm_opcode request =? KFSW_FWU_LITE_OP_BEGIN then handle_begin request s
  else if lm_opcode request =? KFSW_FWU_LITE_OP_BLOCK then handle_block request s
  else if lm_opcode request =? KFSW_FWU_LITE_OP_STATUS then (KFSW_FWU_LITE_STATUS_OK, s)
  else if lm_opcode request =? KFSW_FWU_LITE_OP_VERIFY then handle_verify s
  else if lm_opcode request =? KFSW_FWU_LITE_OP_START_FLASHING then handle_start_flashing s
  else if lm_opcode request =? KFSW_FWU_LITE_OP_ABORT then
    let '(result, s) := kfsw_fwu_abort s in (status_for_errno result, s)
  else (KFSW_FWU_LITE_STATUS_INVALID, s).

Definition kfsw_fwu_lite_handle (request reply : option kfsw_fwu_lite_message) s
    : Z * option kfsw_fwu_lite_message * fwu F :=
  match request, reply with
  | Some request, Some _ =>
      let '(status, s) := handle_opcode request s in
      (0, Some (describe_state s {|
         lm_opcode := lm_opcode request; lm_status := status; lm_block_index := 0;
         lm_argument := 0; lm_extra := 0; lm_data_size := 0; lm_data := None |}), s)
  | _, _ => (- EINVAL, reply, s)
  end.
End handler.

(** ** The frame and its message *)

Section codec_proofs.
Context {LC : FwuLiteConfig} {BO : ByteOrder}.

(** A message as its sender builds it. *)
Definition lite_message_wf (m : kfsw_fwu_lite_message) : Prop :=
  opcode_is_known (lm_opcode m) = true ∧ is_u8 (lm_opcode m) ∧ is_u8 (lm_status m) ∧
  is_u16 (lm_block_index m) ∧ is_u32 (lm_argument m) ∧ is_u32 (lm_extra m) ∧
  lm_data_size m <= FWU_LITE_BLOCK_SIZE ∧
  match lm_data m with
  | None => lm_data_size m = 0
  | Some data => bytes data ∧ lm_data_size m = zlen data ∧ 0 < zlen data
  end.

Definition lite_frame (m : kfsw_fwu_lite_message) : list Z :=
  [lm_opcode m; lm_status m] ++ put_be16 (lm_block_index m) ++ put_be32 (lm_argument m)
  ++ put_be32 (lm_extra m) ++ default [] (lm_data m).

Lemma lite_frame_length m : lite_message_wf m → zlen (lite_frame m) = 12 + lm_data_size m.
Proof.
  intros (_ & _ & _ & _ & _ & _ & _ & H). unfold lite_frame, zlen in *. split_stores.
  destruct (lm_data m); cbn [app default from_option id length] in *; [|rewrite H; done].
  destruct H as (_ & -> & _). lia.
Qed.

Lemma lite_encode_frame m buf capacity old :
  lite_message_wf m → 12 + lm_data_size m <= capacity → capacity <= zlen buf →
  kfsw_fwu_lite_encode (Some m) (Some buf) capacity (Some old) =
    (0, Some (buf_put 0 (lite_frame m) buf), Some (12 + lm_data_size m)).
Proof.
  intros (_ & _ & _ & _ & _ & _ & Hmax & Hd) Hc Hb.
  unfold kfsw_fwu_lite_encode, lite_frame, KFSW_FWU_LITE_HEADER_SIZE.
  assert ((lm_data_size m >? 0) && bool_decide (lm_data m = None) = false) as ->.
  { destruct (lm_data m); [by rewrite andb_false_r|]. rewrite Hd. done. }
  assert (0 <= lm_data_size m) as Hnn
    by (destruct (lm_data m); [pose proof (zlen_nonneg l)|]; lia).
  decide_guards. unfold zlen in *.
  split_stores. do 12 (destruct buf as [|? buf]; [exfalso; simpl in *; lia|]).
  set (h := buf_put 8 _ _). assert (length h = 12 + length buf)%nat as Hh by reflexivity.
  destruct (lm_data m) as [data|]; cbn [default from_option id].
  - destruct Hd as (_ & Hs & Hp). decide_guards. rewrite take_ge by (rewrite Hs; lia).
    reflexivity.
  - rewrite Hd. cbn [Z.gtb Z.compare]. rewrite app_nil_r. reflexivity.
Qed.

(** The view of a decoded message: the decoder leaves [data] a pointer. *)
Definition lite_view (m : kfsw_fwu_lite_message) : kfsw_fwu_lite_message := {|
  lm_opcode := lm_opcode m; lm_status := lm_status m; lm_block_index := lm_block_index m;
  lm_argument := lm_argument m; lm_extra := lm_extra m; lm_data_size := lm_data_size m;
  lm_data := take (Z.to_nat (lm_data_size m)) <$> lm_data m |}.

Lemma lite_decode_frame m old :
  lite_message_wf m →
  kfsw_fwu_lite_decode (Some (lite_frame m)) (zlen (lite_frame m)) (Some old) = (0, Some m).
Proof.
  intros Hwf. rewrite (lite_frame_length m Hwf).
  destruct Hwf as (Hop & Ho & Hs & Hi & Ha & He & Hmax & Hd). pose proof FWU_LITE_BLOCK_SIZE_range.
  unfold kfsw_fwu_lite_decode, lite_frame, KFSW_FWU_LITE_HEADER_SIZE.
  destruct m as [op st bi ar ex ds da]; cbn -[put_be16 put_be32 Z.add opcode_is_known] in *.
  assert (0 <= ds) as Hnn by (destruct da as [d|]; [pose proof (zlen_nonneg d)|]; lia).
  split_stores. cbn [app]. read_fields.
  cbn -[Z.add Z.sub Z.ltb Z.gtb opcode_is_known u16 drop]. replace (12 + ds - 12) with ds by lia.
  rewrite Hop. decide_guards. cbn [negb drop].
  destruct da as [data|]; cbn [default from_option id]; [|by rewrite Hd].
  destruct Hd as (_ & Hds & Hp). by decide_guards.
Qed.

Lemma lite_frame_decode l old m :
  bytes l → zlen l < 2 ^ 16 →
  kfsw_fwu_lite_decode (Some l) (zlen l) (Some old) = (0, Some m) →
  lite_message_wf (lite_view m) ∧ lite_frame (lite_view m) = l.
Proof.
  intros Hl Hlen H. unfold kfsw_fwu_lite_decode, KFSW_FWU_LITE_HEADER_SIZE in H.
  destruct (zlen l <? 12) eqn:E12; [done|].
  do 12 (destruct l as [|? l]; [by cbn in E12|]). clear E12.
  rewrite !zlen_cons in Hlen, H. pose proof (zlen_nonneg l).
  match type of H with context [u16 ?n] => replace n with (zlen l) in H by lia end.
  rewrite u16_id in H by clia.
  pass_guards H. injection H as <-. unfold bytes in Hl. split_bytes.
  cbv [get_be16 get_be32 slice byte_at] in *. cbn [take drop nth] in *. rewrite ?take_0, ?drop_0 in *.
  unfold lite_view, lite_frame, lite_message_wf.
  cbn -[put_be16 put_be32 opcode_is_known zlen]. apply negb_false_iff in G.
  unfold zlen in *. destruct (Z.of_nat (length l) >? 0) eqn:Ez; cbn [fmap option_fmap option_map].
  - rewrite take_ge by lia. rebuild_fields. split; [|done].
    split_and!; auto using get_be16_cells, get_be32_cells; lia.
  - destruct l; [|exfalso; pose proof (Nat2Z.is_nonneg (length l)); rewrite Z.gtb_ltb in Ez; apply Z.ltb_ge in Ez; cbn [length] in Ez; lia]. rebuild_fields. split; [|done].
    pose proof FWU_LITE_BLOCK_SIZE_range. split_and!; auto using get_be16_cells, get_be32_cells; cbn in *; lia.
Qed.

(** The size of the payload is taken modulo 65536. *)
Lemma lite_long_frame_decode m pad old :
  lite_message_wf m → zlen pad = 2 ^ 16 →
  (kfsw_fwu_lite_decode (Some (lite_frame m ++ pad)) (zlen (lite_frame m ++ pad)) (Some old)).1 = 0.
Proof.
  intros Hwf Hp. rewrite zlen_app, (lite_frame_length m Hwf), Hp.
  destruct Hwf as (Hop & Ho & Hs & Hi & Ha & He & Hmax & Hd). pose proof FWU_LITE_BLOCK_SIZE_range.
  unfold kfsw_fwu_lite_decode, lite_frame, KFSW_FWU_LITE_HEADER_SIZE.
  assert (0 <= lm_data_size m) as Hnn by (destruct (lm_data m); [pose proof (zlen_nonneg l)|]; lia).
  assert (u16 (12 + lm_data_size m + 2 ^ 16 - 12) = lm_data_size m) as -> by clia.
  cbn -[put_be16 put_be32 opcode_is_known Z.add Z.ltb Z.gtb]. rewrite Hop. by decide_guards.
Qed.
End codec_proofs.

(** ** Uploading an image *)

Section upload.
Context {LC : FwuLiteConfig} {FC : FwuConfig} {CRC : Crc32} {F : Type} {FF : FwuFlash F}.
Implicit Types (s : fwu F) (request : kfsw_fwu_lite_message) (image : list Z).

(** The block of an image with this index, as the sender cuts it. *)
Definition image_block image (i : nat) : list Z :=
  take (Z.to_nat FWU_LITE_BLOCK_SIZE) (drop (i * Z.to_nat FWU_LITE_BLOCK_SIZE) image).
Definition block_request image (i : nat) : kfsw_fwu_lite_message := {|
  lm_opcode := KFSW_FWU_LITE_OP_BLOCK; lm_status := 0; lm_block_index := Z.of_nat i;
  lm_argument := crc32_ieee (image_block image i); lm_extra := 0;
  lm_data_size := zlen (image_block image i); lm_data := Some (image_block image i) |}.

(** A block whose payload does not have the checksum it carries. *)
Definition damaged request : Prop :=
  lm_opcode request = KFSW_FWU_LITE_OP_BLOCK ∧
  crc32_ieee (take (Z.to_nat (lm_data_size request)) (default [] (lm_data request)))
    ≠ lm_argument request.
Definition poll request : Prop := lm_opcode request = KFSW_FWU_LITE_OP_STATUS.

(** What may reach the node while the sender uploads an image: blocks of the image, in
    any order and any number of times, blocks damaged on the way, and polls. *)
Definition upload_traffic image request : Prop :=
  (∃ i : nat, Z.of_nat i * FWU_LITE_BLOCK_SIZE < zlen image ∧ request = block_request image i)
  ∨ damaged request ∨ poll request.

Definition serve (requests : list kfsw_fwu_lite_message) s : fwu F :=
  fold_left (λ s request, (handle_opcode request s).2) requests s.

(** The first [k] blocks are in, and nothing else. *)
Definition uploaded image (k : nat) s : Prop :=
  let x := fwu_state s in
  let held := take (k * Z.to_nat FWU_LITE_BLOCK_SIZE) image in
  fw_state x = KFSW_FWU_RECEIVING ∧ fw_total_size x = zlen image ∧
  fw_received x = zlen held ∧ written (flash s) = held ∧ fw_actual_crc32 x = crc32_ieee held ∧
  fw_expected_crc32 x = crc32_ieee image.

(** The flash accepts what it is given. *)
Variable flash_accepts : ∀ l flush (f : F), (stream_flash_write l flush f).1 = 0.
Hypothesis partition : is_Some FWU_PARTITION_SIZE.

Lemma block_size_nat : Z.of_nat (Z.to_nat FWU_LITE_BLOCK_SIZE) = FWU_LITE_BLOCK_SIZE.
Proof. pose proof FWU_LITE_BLOCK_SIZE_range. lia. Qed.

Lemma image_block_take image k :
  take (S k * Z.to_nat FWU_LITE_BLOCK_SIZE) image =
    take (k * Z.to_nat FWU_LITE_BLOCK_SIZE) image ++ image_block image k.
Proof.
  unfold image_block. rewrite take_take_drop. f_equal. lia.
Qed.

Lemma held_length image k :
  zlen (take (k * Z.to_nat FWU_LITE_BLOCK_SIZE) image) =
    Z.min (Z.of_nat k * FWU_LITE_BLOCK_SIZE) (zlen image).
Proof. unfold zlen. rewrite length_take. pose proof block_size_nat. lia. Qed.

Lemma image_block_length image k :
  zlen (image_block image k) =
    Z.max 0 (Z.min FWU_LITE_BLOCK_SIZE (zlen image - Z.of_nat k * FWU_LITE_BLOCK_SIZE)).
Proof. unfold image_block, zlen. rewrite length_take, length_drop. pose proof block_size_nat. lia. Qed.

(** A damaged block and a poll leave the update as it was. *)
Lemma damaged_harmless request s : damaged request → (handle_opcode request s).2 = s.
Proof.
  intros [Hop Hcrc]. unfold handle_opcode. rewrite Hop. cbn.
  unfold handle_block. destruct (lm_data request) as [data|] eqn:Hd; [|done].
  destruct (lm_data_size request =? 0); [done|]. cbn.
  cbn in Hcrc. rewrite (proj2 (Z.eqb_neq _ _) Hcrc). cbn [negb].
  by repeat case_match.
Qed.
Lemma poll_harmless request s : poll request → (handle_opcode request s).2 = s.
Proof. unfold handle_opcode. by intros ->. Qed.

(** The block that comes next is taken. *)
Lemma next_block_taken image k s :
  uploaded image k s → Z.of_nat k * FWU_LITE_BLOCK_SIZE < zlen image → zlen image < 2 ^ 31 →
  (handle_opcode (block_request image k) s).1 = KFSW_FWU_LITE_STATUS_OK ∧
  uploaded image (S k) (handle_opcode (block_request image k) s).2.
Proof.
  intros (Hst & Ht & Hr & Hw & Hc & He) Hk Hmax. unfold handle_opcode. cbn.
  pose proof FWU_LITE_BLOCK_SIZE_range. pose proof (image_block_length image k) as Hb.
  rewrite held_length in Hr. unfold handle_block. cbn [lm_data lm_data_size lm_block_index lm_argument block_request].
  assert (fw_received (fwu_state s) = Z.of_nat k * FWU_LITE_BLOCK_SIZE) as Hrk by lia.
  decide_guards. rewrite Hrk, Z.div_mul, Z.eqb_refl, Ht by lia. cbn [negb]. rewrite u32_id by clia.
  assert ((Z.of_nat k * FWU_LITE_BLOCK_SIZE + zlen (image_block image k) <? zlen image)
    && negb (zlen (image_block image k) =? FWU_LITE_BLOCK_SIZE) = false) as -> by lia.
  rewrite take_ge by (unfold zlen; lia). rewrite Z.eqb_refl. cbn [negb].
  unfold kfsw_fwu_write. destruct partition as [n ->].
  assert (u64 (Z.of_nat k * FWU_LITE_BLOCK_SIZE + zlen (image_block image k))
    = Z.of_nat k * FWU_LITE_BLOCK_SIZE + zlen (image_block image k)) as -> by (apply u64_id; clia).
  decide_guards.
  pose proof (flash_accepts (image_block image k) false (flash s)) as Ha.
  destruct (stream_flash_write _ _ _) as [rc f] eqn:E. cbn in Ha. subst rc. cbn [Z.eqb negb].
  apply write_appends in E. split; [done|].
  unfold uploaded. rewrite image_block_take. cbn. rewrite E, Hw, zlen_app, held_length.
  unfold crc32_ieee in *. rewrite Hc, crc32_update_app.
  split_and!; try done. rewrite Hrk, u32_id by clia. lia.
Qed.

(** A block that was taken before, or that is ahead of its turn, is refused. *)
Lemma other_block_harmless image k i s :
  uploaded image k s → Z.of_nat i * FWU_LITE_BLOCK_SIZE < zlen image → zlen image < 2 ^ 31 →
  (i ≠ k ∨ zlen image <= Z.of_nat k * FWU_LITE_BLOCK_SIZE) →
  (handle_opcode (block_request image i) s).2 = s.
Proof.
  intros (Hst & Ht & Hr & _) Hi Hmax Hik. unfold handle_opcode. cbn.
  pose proof FWU_LITE_BLOCK_SIZE_range. pose proof (image_block_length image i) as Hb.
  rewrite held_length in Hr. unfold handle_block. cbn [lm_data lm_data_size lm_block_index lm_argument block_request].
  decide_guards. destruct (Z.of_nat i =? fw_received (fwu_state s) / FWU_LITE_BLOCK_SIZE) eqn:E; [|done].
  cbn [negb]. assert (zlen image <= Z.of_nat k * FWU_LITE_BLOCK_SIZE) as Hdone.
  { destruct Hik as [Hik|]; [|done]. destruct (decide (zlen image <= Z.of_nat k * FWU_LITE_BLOCK_SIZE)); [done|].
    exfalso. rewrite Hr, Z.min_l, Z.div_mul in E by lia. lia. }
  rewrite Hr, Z.min_r, Ht, u32_id by clia. decide_guards.
  rewrite take_ge by (unfold zlen; lia). rewrite Z.eqb_refl. cbn [negb].
  unfold kfsw_fwu_write. destruct partition as [n ->].
  rewrite u64_id by clia. by decide_guards.
Qed.

Lemma traffic_step image k request s :
  uploaded image k s → zlen image < 2 ^ 31 → upload_traffic image request →
  (Z.of_nat k * FWU_LITE_BLOCK_SIZE < zlen image ∧ request = block_request image k ∧
     uploaded image (S k) (handle_opcode request s).2) ∨
  ((handle_opcode request s).2 = s ∧
     (request = block_request image k → zlen image <= Z.of_nat k * FWU_LITE_BLOCK_SIZE)).
Proof.
  intros Hu Hmax Ht. destruct Ht as [(i & Hi & ->)|[Hd|Hp]].
  - destruct (decide (i = k ∧ Z.of_nat k * FWU_LITE_BLOCK_SIZE < zlen image)) as [[-> Hk]|Hn].
    + left. split_and!; [done..|]. by apply next_block_taken.
    + right. split; [eapply other_block_harmless; eauto; lia|].
      intros Heq. assert (i = k) by (injection Heq; lia). lia.
  - right. split; [by apply damaged_harmless|]. intros ->. exfalso. destruct Hd as [_ Hd]. apply Hd.
    cbn. rewrite take_ge; [done|]. unfold zlen. lia.
  - right. split; [by apply poll_harmless|]. intros ->. done.
Qed.

(** Once every block has had its turn, in order, the image is held. *)
Lemma serve_uploads image requests k m s :
  uploaded image k s → zlen image < 2 ^ 31 → Forall (upload_traffic image) requests →
  (block_request image <$> seq k m) `sublist_of` requests →
  ∃ k', uploaded image k' (serve requests s) ∧
    ((k + m <= k')%nat ∨ zlen image <= Z.of_nat k' * FWU_LITE_BLOCK_SIZE) ∧ (k <= k')%nat.
Proof.
  intros Hu Hmax. revert k m s Hu. induction requests as [|r requests IH]; intros k m s Hu Hf Hsub.
  { apply sublist_nil_r in Hsub. destruct m; [|done]. exists k. split; [done|]. lia. }
  apply Forall_cons in Hf as [Hr Hf]. cbn [serve fold_left].
  destruct (traffic_step image k r s Hu Hmax Hr) as [(Hk & -> & Hs)|[Hs Hlast]].
  - destruct m as [|m].
    + destruct (IH (S k) 0%nat _ Hs Hf (sublist_nil_l _)) as (k' & ? & ? & ?). exists k'. split; [done|]. lia.
    + assert ((block_request image <$> seq (S k) m) `sublist_of` requests) as Hsub'.
      { cbn [seq fmap list_fmap] in Hsub. apply sublist_cons_l in Hsub as (l1 & l2 & Heq & Hsub).
        destruct l1 as [|x l1]; cbn in Heq; simplify_eq; [done|].
        etrans; [exact Hsub|]. apply sublist_inserts_l. by apply sublist_cons. }
      destruct (IH (S k) m _ Hs Hf Hsub') as (k' & ? & ? & ?). exists k'. split; [done|]. lia.
  - rewrite Hs. destruct m as [|m]; [by apply IH; [..|apply sublist_nil_l]|].
    cbn [seq fmap list_fmap] in Hsub. inversion Hsub as [|? ? ? Hsub' Heq|]; subst.
    + specialize (Hlast eq_refl). destruct (IH k 0%nat s Hu Hf (sublist_nil_l _)) as (k' & ? & ? & ?).
      exists k'. split; [done|]. split; [|done]. right. pose proof FWU_LITE_BLOCK_SIZE_range. nia.
    + apply (IH k (S m)); done.
Qed.
End upload.

(** ** Where an upload can be resumed *)

Section resume.
Context {LC : FwuLiteConfig} {FC : FwuConfig} {CRC : Crc32} {F : Type} {FF : FwuFlash F}.
Implicit Types (s : fwu F) (request : kfsw_fwu_lite_message).

(** What the decoder hands to the handler. *)
Definition decoded_request request : Prop :=
  is_u32 (lm_argument request) ∧ is_u16 (lm_data_size request) ∧
  lm_data_size request <= zlen (default [] (lm_data request)).

Inductive lite_step : fwu F → fwu F → Prop :=
| lite_step_handle request s :
    decoded_request request → lite_step s (handle_opcode request s).2.

(** While receiving, whole blocks are held, or the whole image. *)
Definition aligned s : Prop :=
  fw_state (fwu_state s) = KFSW_FWU_RECEIVING →
  fw_received (fwu_state s) = fw_total_size (fwu_state s) ∨
  fw_received (fwu_state s) mod FWU_LITE_BLOCK_SIZE = 0.

(** The operations other than a write never leave a transfer half way. *)
Definition settles s s' : Prop :=
  fwu_state s' = fwu_state s ∨ fw_state (fwu_state s') ≠ KFSW_FWU_RECEIVING ∨
  fw_received (fwu_state s') = 0.

Lemma settles_aligned s s' : settles s s' → aligned s → aligned s'.
Proof.
  unfold aligned. intros [Hs|[Hs|Hs]] H; [by rewrite Hs|by intros ?|].
  intros _. right. rewrite Hs. pose proof FWU_LITE_BLOCK_SIZE_range. apply Z.mod_0_l. lia.
Qed.

Lemma begin_settles total crc s : settles s (kfsw_fwu_begin total crc s).2.
Proof.
  unfold kfsw_fwu_begin. destruct FWU_PARTITION_SIZE as [n|]; [|by left].
  destruct (total =? 0); [by left|]. destruct (kfsw_fwu_max_image_size _) as [maximum f].
  destruct (total >? maximum); [by left|]. destruct (_ || _ || _); [by left|].
  destruct (fwu_erase_slot n _) as [rc s1]. destruct (negb (rc =? 0)); [by right; left|].
  destruct (kfsw_fwu_slot_write_offset _) as [off f1]. destruct (flash_area_open f1) as [rc2 f2].
  destruct (negb (rc2 =? 0)); [by right; left|].
  destruct (stream_flash_init _ _ _) as [rc3 f3]. destruct (negb (rc3 =? 0)); [by right; left|].
  by right; right.
Qed.

Lemma verify_locked_settles n s : settles s (fwu_verify_locked n s).2.
Proof.
  unfold fwu_verify_locked. destruct (_ =? KFSW_FWU_VERIFIED); [by left|].
  destruct (negb _); [by left|]. destruct (negb _); [by left|]. destruct (negb _).
  - destruct (fwu_erase_slot _ _). by right; left.
  - destruct (stream_flash_write _ _ _). destruct (negb _); by right; left.
Qed.

Lemma verify_settles s : settles s (kfsw_fwu_verify s).2.
Proof. unfold kfsw_fwu_verify. case_match; [apply verify_locked_settles|by left]. Qed.

Lemma finish_settles s : settles s (kfsw_fwu_finish s).2.
Proof.
  unfold kfsw_fwu_finish. destruct FWU_PARTITION_SIZE as [n|]; [|by left].
  destruct (negb _); [by left|]. pose proof (verify_locked_settles n s).
  destruct (fwu_verify_locked n s) as [rc s1]. destruct (negb (rc =? 0)); [done|].
  destruct FWU_MCUBOOT; [|by right; left]. destruct (boot_request_upgrade_test _) as [rc2 f].
  destruct (negb (rc2 =? 0)); [by right; left|]. destruct (negb _); by right; left.
Qed.

Lemma abort_settles s : settles s (kfsw_fwu_abort s).2.
Proof.
  unfold kfsw_fwu_abort. destruct (_ || _); [by left|].
  destruct FWU_PARTITION_SIZE as [n|]; [|by right; left].
  destruct (fwu_erase_slot _ _) as [rc s1]. destruct (negb _); by right; left.
Qed.

Lemma block_aligned request s :
  fwu_inv s → decoded_request request → aligned s → aligned (handle_block request s).2.
Proof.
  intros (_ & Hrec & _) (_ & Hsz & Hdata) Ha. unfold handle_block.
  destruct (lm_data request) as [data|] eqn:Hd; [|done]. cbn in Hdata.
  destruct (lm_data_size request =? 0) eqn:G0; [done|]. cbn [kfsw_fwu_get_status].
  destruct (negb (fw_state (fwu_state s) =? _)) eqn:G1; [done|].
  destruct (negb (lm_block_index request =? _)) eqn:G2; [done|].
  destruct (_ && _) eqn:G3; [done|]. destruct (negb (crc32_ieee _ =? _)); [done|].
  destruct Hrec as (Ht & Hre & Hle & _); [lia|]. pose proof FWU_LITE_BLOCK_SIZE_range.
  pose proof (zlen_nonneg (written (flash s))).
  set (block := take _ data). assert (zlen block = lm_data_size request) as Hbl.
  { subst block. unfold zlen in *. rewrite length_take. clia. }
  unfold kfsw_fwu_write. destruct FWU_PARTITION_SIZE; [|done]. rewrite Hbl.
  rewrite G0, G1, Z.eqb_refl. cbn [negb]. rewrite u64_id by clia.
  destruct (_ >? fw_total_size _) eqn:G4; [done|].
  destruct (stream_flash_write _ _ _) as [rc f]. destruct (negb (rc =? 0)); cbn; [by intros ?|].
  intros _. cbn. rewrite u32_id by clia. rewrite u32_id in G3 by clia.
  destruct Ha as [Ha|Ha]; [lia|lia|].
  apply andb_false_iff in G3 as [G3|G3]; [left; lia|]. right.
  assert (lm_data_size request = FWU_LITE_BLOCK_SIZE) as -> by lia.
  rewrite <- Z.add_mod_idemp_l, Ha by lia. cbn [Z.add]. apply Z.mod_same. lia.
Qed.

Lemma handle_reaches request s :
  decoded_request request → rtc fwu_step s (handle_opcode request s).2.
Proof.
  intros (Ha & Hsz & Hd). unfold handle_opcode.
  destruct (_ =? KFSW_FWU_LITE_OP_BEGIN).
  { unfold handle_begin. destruct (kfsw_fwu_begin _ _ s) eqn:E. apply rtc_once. cbn.
    pose proof (fwu_step_begin _ (lm_extra request) s Ha) as H. by rewrite E in H. }
  destruct (_ =? KFSW_FWU_LITE_OP_BLOCK).
  { unfold handle_block. destruct (lm_data request) as [data|]; [|done]. cbn.
    repeat (case_match; [apply rtc_refl|]). destruct (kfsw_fwu_write _ _ s) eqn:E. apply rtc_once. cbn.
    match type of E with kfsw_fwu_write ?o ?d s = _ => pose proof (fwu_step_write o d s) as Hw end.
    rewrite E in Hw. apply Hw. unfold span_ok. cbn. unfold zlen. rewrite length_take. clia. }
  destruct (_ =? KFSW_FWU_LITE_OP_STATUS); [apply rtc_refl|].
  destruct (_ =? KFSW_FWU_LITE_OP_VERIFY).
  { unfold handle_verify. destruct (kfsw_fwu_verify s) eqn:E. apply rtc_once. cbn.
    pose proof (fwu_step_verify s) as H. by rewrite E in H. }
  destruct (_ =? KFSW_FWU_LITE_OP_START_FLASHING).
  { unfold handle_start_flashing. destruct (kfsw_fwu_finish s) eqn:E. apply rtc_once. cbn.
    pose proof (fwu_step_finish s) as H. by rewrite E in H. }
  destruct (_ =? KFSW_FWU_LITE_OP_ABORT); [|apply rtc_refl].
  destruct (kfsw_fwu_abort s) eqn:E. apply rtc_once. cbn.
  pose proof (fwu_step_abort s) as H. by rewrite E in H.
Qed.

Lemma handle_aligned request s :
  fwu_inv s → decoded_request request → aligned s → aligned (handle_opcode request s).2.
Proof.
  intros Hi Hr Ha. unfold handle_opcode, handle_begin, handle_verify, handle_start_flashing.
  pose proof (begin_settles (lm_argument request) (lm_extra request) s).
  pose proof (verify_settles s). pose proof (finish_settles s). pose proof (abort_settles s).
  destruct (kfsw_fwu_begin _ _ s), (kfsw_fwu_verify s), (kfsw_fwu_finish s), (kfsw_fwu_abort s).
  repeat (case_match; [by first [done | apply block_aligned | eapply settles_aligned]|]). done.
Qed.

Lemma lite_reachable_aligned f s : rtc lite_step (fwu_boot f) s → fwu_reachable s ∧ aligned s.
Proof.
  revert s. apply (rtc_ind_r (R := lite_step) (λ s, fwu_reachable s ∧ aligned s) (fwu_boot f)).
  - split; [by exists f|]. intros ?. done.
  - intros s1 s2 _ [request s' Hr] [[f' Hf] Ha]. split.
    + exists f'. etrans; [exact Hf|]. by apply handle_reaches.
    + apply handle_aligned; [|done..]. apply fwu_reachable_inv. by exists f'.
Qed.
End resume.

Section delivered.
Context {LC : FwuLiteConfig} {FC : FwuConfig} {CRC : Crc32} {F : Type} {FF : FwuFlash F}.
Implicit Types (s : fwu F) (image : list Z).

Lemma uploaded_verifies image k s verify :
  (∀ l flush (f : F), (stream_flash_write l flush f).1 = 0) → is_Some FWU_PARTITION_SIZE →
  uploaded image k s → zlen image <= Z.of_nat k * FWU_LITE_BLOCK_SIZE →
  lm_opcode verify = KFSW_FWU_LITE_OP_VERIFY →
  (handle_opcode verify s).1 = KFSW_FWU_LITE_STATUS_OK ∧
  fw_state (fwu_state (handle_opcode verify s).2) = KFSW_FWU_VERIFIED ∧
  take (length image) (readable (flash (handle_opcode verify s).2)) = image.
Proof.
  intros Hok [n Hn] (Hst & Ht & Hr & Hw & Hc & He) Hk Hv. unfold handle_opcode. rewrite Hv. cbn.
  rewrite held_length, Z.min_r in Hr by done.
  rewrite (take_ge image) in Hw, Hc by (pose proof (block_size_nat); unfold zlen in *; lia).
  unfold handle_verify, kfsw_fwu_verify, fwu_verify_locked. rewrite Hn, Hst, Hr, Ht, Hc, He, !Z.eqb_refl.
  cbn -[fwu_close_stream]. pose proof (Hok [] true (flash s)) as Ha.
  destruct (stream_flash_write [] true _) as [rc f] eqn:E.
  cbn in Ha. subst rc. cbn -[fwu_close_stream]. apply flush_lands in E as [_ E]. rewrite Hw in E.
  destruct (close_stream_status (set_flash f s)) as (_ & _ & _ & Hk').
  split_and!; [done|done|]. cbn -[fwu_close_stream]. rewrite Hk'. exact E.
Qed.

Lemma fwu_lite_reply request any s :
  kfsw_fwu_lite_handle (Some request) (Some any) s =
    (0, Some (describe_state (handle_opcode request s).2 {|
       lm_opcode := lm_opcode request; lm_status := (handle_opcode request s).1; lm_block_index := 0;
       lm_argument := 0; lm_extra := 0; lm_data_size := 0; lm_data := None |}), (handle_opcode request s).2).
Proof. unfold kfsw_fwu_lite_handle. by destruct (handle_opcode request s). Qed.
End delivered.

(** ** Properties *)


(** C32: a reply tells the sender where to go on. At every state the handler reaches,
    while an image is received, the bytes held are the blocks before the index in the
    reply, or the whole image; and a node that holds 65536 blocks refuses every block,
    since a request's index has 16 bits. *)
Theorem fwu_lite_resume_point {LC : FwuLiteConfig} {FC : FwuConfig} {CRC : Crc32} {F : Type}
    {FF : FwuFlash F} (f : F) (s : fwu F) request any :
  rtc lite_step (fwu_boot f) s → fw_state (fwu_state s) = KFSW_FWU_RECEIVING →
  let received := fw_received (fwu_state s) in
  (received < 65536 * FWU_LITE_BLOCK_SIZE →
     lm_opcode request = KFSW_FWU_LITE_OP_STATUS →
     ∃ reply, kfsw_fwu_lite_handle (Some request) (Some any) s = (0, Some reply, s) ∧
       lm_status reply = KFSW_FWU_LITE_STATUS_OK ∧ lm_extra reply = received ∧
       (received = lm_block_index reply * FWU_LITE_BLOCK_SIZE ∨
        received = fw_total_size (fwu_state s))) ∧
  (65536 * FWU_LITE_BLOCK_SIZE <= received → is_u16 (lm_block_index request) →
     lm_opcode request = KFSW_FWU_LITE_OP_BLOCK →
     (handle_opcode request s).1 ≠ KFSW_FWU_LITE_STATUS_OK ∧ (handle_opcode request s).2 = s).
Proof.
  intros Hr Hst received. apply lite_reachable_aligned in Hr as [Hreach Ha].
  apply fwu_reachable_inv in Hreach as (_ & Hrec & _). cbn zeta in Hrec.
  destruct (Hrec Hst) as (_ & Hre & _ & _). pose proof (zlen_nonneg (written (flash s))) as Hnn.
  rewrite <- Hre in Hnn. pose proof FWU_LITE_BLOCK_SIZE_range as HB. split.
  - intros Hlt Hop. rewrite fwu_lite_reply. unfold handle_opcode. rewrite Hop. cbn.
    eexists. split; [reflexivity|]. cbn. split_and!; [done..|].
    subst received. assert (0 <= fw_received (fwu_state s) / FWU_LITE_BLOCK_SIZE < 65536) as Hq.
    { split; [by apply Z.div_pos; lia|]. apply Z.div_lt_upper_bound; lia. }
    rewrite u16_id by clia. destruct (Ha Hst) as [Hd|Hd]; [by right|left].
    pose proof (Z.div_mod (fw_received (fwu_state s)) FWU_LITE_BLOCK_SIZE). lia.
  - intros Hge Hi Hop. unfold handle_opcode. rewrite Hop. cbn. unfold handle_block.
    destruct (lm_data request); [|done]. destruct (_ =? 0); [done|]. cbn [kfsw_fwu_get_status].
    rewrite Hst. cbn [negb Z.eqb].
    assert (65536 <= received / FWU_LITE_BLOCK_SIZE) as Hq by (apply Z.div_le_lower_bound; lia).
    destruct (negb (lm_block_index request =? _)) eqn:E; [done|]. exfalso.
    apply negb_false_iff, Z.eqb_eq in E. subst received. rewrite <- E in Hq. unfold is_u16 in Hi. lia.
Qed.

(** C33: the frame codec is a bijection on frames below 64 KiB: an encoded message is
    read back with every field and its payload, and an accepted frame is the frame
    of a well-formed message, the one that is read. *)
Theorem fwu_lite_codec {LC : FwuLiteConfig} {BO : ByteOrder} m buf capacity old any l m' :
  lite_message_wf m → 12 + lm_data_size m <= capacity → capacity <= zlen buf →
  bytes l → zlen l < 2 ^ 16 → kfsw_fwu_lite_decode (Some l) (zlen l) (Some any) = (0, Some m') →
  (∃ frame, kfsw_fwu_lite_encode (Some m) (Some buf) capacity (Some old) =
      (0, Some (frame ++ drop (length frame) buf), Some (zlen frame)) ∧
    kfsw_fwu_lite_decode (Some frame) (zlen frame) (Some any) = (0, Some m)) ∧
  lite_message_wf (lite_view m') ∧ lite_frame (lite_view m') = l.
Proof.
  intros Hwf Hc Hb Hl Hlen Hd. split; [|by eapply lite_frame_decode].
  exists (lite_frame m). split; [|by apply lite_decode_frame].
  rewrite lite_encode_frame by done. by rewrite <- lite_frame_length.
Qed.

(** the decoder takes the size of the payload modulo 65536: a frame followed by
    65536 bytes more is accepted as the frame, where the interface promises that a
    payload larger than the block size is refused. *)
Theorem fwu_lite_long_frame {LC : FwuLiteConfig} {BO : ByteOrder} m pad any :
  lite_message_wf m → zlen pad = 2 ^ 16 →
  FWU_LITE_BLOCK_SIZE < zlen (lite_frame m ++ pad) - KFSW_FWU_LITE_HEADER_SIZE ∧
  (kfsw_fwu_lite_decode (Some (lite_frame m ++ pad)) (zlen (lite_frame m ++ pad)) (Some any)).1 = 0.
Proof.
  intros Hwf Hp. split; [|by apply lite_long_frame_decode].
  rewrite zlen_app, (lite_frame_length m Hwf), Hp. pose proof FWU_LITE_BLOCK_SIZE_range.
  unfold KFSW_FWU_LITE_HEADER_SIZE. destruct Hwf as (_ & _ & _ & _ & _ & _ & _ & Hd).
  destruct (lm_data m) as [d|]; [pose proof (zlen_nonneg d)|]; lia.
Qed.

(** ** The properties at a concrete input *)

Section fwu_lite_witnesses.
#[local] Existing Instance fwu_lite_config_smallest.
#[local] Existing Instance fwu_config_sample.
#[local] Existing Instance crc32_bitwise.
#[local] Existing Instance sim_fwu_flash.
#[local] Existing Instance big_endian.

(** Twenty bytes: a whole block and a short one. *)
Definition small_image : list Z := cstr "firmware image 1.0.0".
Definition begin_request : kfsw_fwu_lite_message := {|
  lm_opcode := KFSW_FWU_LITE_OP_BEGIN; lm_status := 0; lm_block_index := 0; lm_argument := 20;
  lm_extra := crc32_ieee small_image; lm_data_size := 0; lm_data := None |}.
Definition damaged_request : kfsw_fwu_lite_message := {|
  lm_opcode := KFSW_FWU_LITE_OP_BLOCK; lm_status := 0; lm_block_index := 1; lm_argument := 1;
  lm_extra := 0; lm_data_size := 4; lm_data := Some [0; 0; 0; 0] |}.
Definition verify_request : kfsw_fwu_lite_message := {|
  lm_opcode := KFSW_FWU_LITE_OP_VERIFY; lm_status := 0; lm_block_index := 0; lm_argument := 0;
  lm_extra := 0; lm_data_size := 0; lm_data := None |}.
Definition status_request : kfsw_fwu_lite_message := {|
  lm_opcode := KFSW_FWU_LITE_OP_STATUS; lm_status := 0; lm_block_index := 0; lm_argument := 0;
  lm_extra := 0; lm_data_size := 0; lm_data := None |}.
Definition begun : fwu sim_flash := (handle_opcode begin_request blank).2.
Definition half_up : fwu sim_flash := (handle_opcode (block_request small_image 0) begun).2.
Definition bad_link : list kfsw_fwu_lite_message :=
  [block_request small_image 1; block_request small_image 0; damaged_request;
   block_request small_image 0; status_request; block_request small_image 1;
   block_request small_image 1].

Lemma bad_link_traffic : Forall (upload_traffic small_image) bad_link.
Proof.
  assert (∀ i : nat, (i <= 1)%nat → upload_traffic small_image (block_request small_image i)) as Hb.
  { intros i Hi. left. exists i. split; [|done]. cbn -[zlen small_image]. change (zlen small_image) with 20. lia. }
  assert (upload_traffic small_image damaged_request) as Hd.
  { right. left. split; [done|]. vm_compute. discriminate. }
  assert (upload_traffic small_image status_request) as Hs by (right; by right).
  unfold bad_link. repeat (apply Forall_cons; split; [first [apply Hb; lia|done]|]). constructor.
Qed.


Lemma fwu_lite_resume_point_witness :
  ∃ reply, kfsw_fwu_lite_handle (Some status_request) (Some status_request) half_up =
      (0, Some reply, half_up) ∧ lm_extra reply = 16.
Proof.
  assert (rtc lite_step (fwu_boot (flash blank)) half_up) as Hr.
  { assert (decoded_request begin_request) as H1 by (vm_compute; repeat split; congruence).
    assert (decoded_request (block_request small_image 0)) as H2 by (vm_compute; repeat split; congruence).
    eapply rtc_l; [exact (lite_step_handle begin_request blank H1)|].
    exact (rtc_once _ _ (lite_step_handle (block_request small_image 0) begun H2)). }
  assert (fw_state (fwu_state half_up) = KFSW_FWU_RECEIVING) as Hst by (vm_compute; reflexivity).
  destruct (fwu_lite_resume_point (flash blank) half_up status_request status_request Hr Hst) as [H _].
  destruct H as (reply & H1 & _ & H2 & _); [vm_compute; reflexivity|reflexivity|].
  exists reply. split; [exact H1|]. rewrite H2. vm_compute. reflexivity.
Defined.

Lemma fwu_lite_codec_witness :
  ∃ frame, kfsw_fwu_lite_decode (Some frame) (zlen frame) (Some status_request) =
    (0, Some (block_request small_image 1)).
Proof.
  assert (lite_message_wf (block_request small_image 1)) as Hwf.
  { apply (bool_decide_unpack _). vm_compute. exact I. }
  assert (bytes (lite_frame status_request)) as Hb.
  { apply (bool_decide_unpack _). vm_compute. exact I. }
  destruct (fwu_lite_codec (block_request small_image 1) (replicate 16 0) 16 0 status_request
    (lite_frame status_request) status_request Hwf) as [(frame & He & H) _].
  - vm_compute. discriminate.
  - vm_compute. discriminate.
  - exact Hb.
  - vm_compute. reflexivity.
  - vm_compute. reflexivity.
  - exists frame. exact H.
Defined.

Lemma fwu_lite_long_frame_witness :
  (kfsw_fwu_lite_decode (Some (lite_frame status_request ++ replicate (Z.to_nat (2 ^ 16)) 0)) (12 + 2 ^ 16)
    (Some status_request)).1 = 0.
Proof.
  assert (lite_message_wf status_request) as Hwf.
  { apply (bool_decide_unpack _). vm_compute. exact I. }
  assert (zlen (replicate (Z.to_nat (2 ^ 16)) 0) = 2 ^ 16) as Hp.
  { unfold zlen. rewrite length_replicate. lia. }
  destruct (fwu_lite_long_frame status_request _ status_request Hwf Hp) as [_ H].
  rewrite zlen_app, Hp in H. exact H.
Defined.
End fwu_lite_witnesses.
