(* ===== verification/Health.v ===== *)
(** * Health monitoring ([src/health/health.c])

    Components report, and the watchdog is fed only while all of them are within
    their deadlines. The table and the status are behind one mutex; the clock, the
    watchdog, the note for the next boot and the work queue are the platform's
    ([HealthPlatform]), the fault event goes to the event record. *)

From S2P Require Import Prelude Bytes Event.

(** [CONFIG_KFSW_HEALTH_MAX_COMPONENTS] and its Kconfig range. *)
Class HealthConfig := {
  KFSW_HEALTH_MAX_COMPONENTS : Z;
  KFSW_HEALTH_MAX_COMPONENTS_range : 1 <= KFSW_HEALTH_MAX_COMPONENTS <= 32;
}.
#[program] Definition health_config_default : HealthConfig := {| KFSW_HEALTH_MAX_COMPONENTS := 8 |}.
Next Obligation. lia. Qed.

Definition KFSW_HEALTH_NAME_SIZE : Z := 16.
Definition KFSW_HEALTH_OK : Z := 0.
Definition KFSW_HEALTH_FAULTED : Z := 1.
Definition KFSW_HEALTH_STOPPED : Z := 2.
Definition KFSW_EVENT_HEALTH_FAULT : Z := 1.

(** The platform calls of the file. [watchdog_info] is the result of the query and
    the timeout it fills in. *)
Class HealthPlatform (W : Type) := {
  monotonic_ms : W → Z;
  watchdog_feed : W → Z * W;
  watchdog_release : W → Z * W;
  watchdog_info : W → Z * Z;
  watchdog_configured_timeout_ms : Z;
  watchdog_feed_interval_ms : Z → Z;
  lastwords_withdraw : W → W;
  lastwords_write : Z → Z → W → W;
  work_reschedule : Z → W → W;
}.

(** A character array of 16, as the string it holds. *)
Record health_entry := {
  he_name : list Z; he_deadline_ms : Z; he_last_report_ms : Z; he_reports : Z;
  he_used : bool; he_warned : bool;
}.
#[export] Instance health_entry_inhabited : Inhabited health_entry :=
  populate (Build_health_entry [] 0 0 0 false false).

Record kfsw_health_component := {
  hc_name : list Z; hc_deadline_ms : Z; hc_since_report_ms : Z; hc_reports : Z; hc_overdue : bool;
}.
Record kfsw_health_status := {
  hs_state : Z; hs_count : Z; hs_feeding : bool; hs_faults : Z; hs_feeds : Z;
  hs_faulted_by : list Z;
}.
Record health (W : Type) := {
  health_interval_ms : Z;
  health_entries : list health_entry;
  health_state : kfsw_health_status;
  health_world : W;
}.
Arguments health_interval_ms {W}. Arguments health_entries {W}. Arguments health_state {W}.
Arguments health_world {W}.

Definition kfsw_health_state_name (state : Z) : string :=
  if state =? KFSW_HEALTH_OK then "ok"
  else if state =? KFSW_HEALTH_FAULTED then "faulted"
  else if state =? KFSW_HEALTH_STOPPED then "stopped"
  else "unknown".

Section health_ops.
Context {HC : HealthConfig} {W : Type} {HP : HealthPlatform W} {ES : EventSink W}.
Variable clock : W → Z.
Implicit Types (s : health W) (e : health_entry) (x : kfsw_health_status).

Definition health_boot (interval_ms : Z) (w : W) : health W := {|
  health_interval_ms := interval_ms;
  health_entries := replicate (Z.to_nat KFSW_HEALTH_MAX_COMPONENTS) inhabitant;
  health_state := {| hs_state := KFSW_HEALTH_STOPPED; hs_count := 0; hs_feeding := false;
                     hs_faults := 0; hs_feeds := 0; hs_faulted_by := [] |};
  health_world := w |}.

Definition set_entries (l : list health_entry) s : health W := {|
  health_interval_ms := health_interval_ms s; health_entries := l;
  health_state := health_state s; health_world := health_world s |}.
Definition set_health_state x s : health W := {|
  health_interval_ms := health_interval_ms s; health_entries := health_entries s;
  health_state := x; health_world := health_world s |}.
Definition set_health_world (w : W) s : health W := {|
  health_interval_ms := health_interval_ms s; health_entries := health_entries s;
  health_state := health_state s; health_world := w |}.

Definition entry_named (name : list Z) e : bool :=
  he_used e && strn_eq (he_name e) name (Z.to_nat KFSW_HEALTH_NAME_SIZE).
Definition find_by_name (name : list Z) (l : list health_entry) : option health_entry :=
  List.find (entry_named name) l.

(** The first free entry. *)
Definition free_index (l : list health_entry) : option nat :=
  fst <$> list_find (λ e, he_used e = false) l.

Definition set_count (count : Z) (faulted_by : list Z) x : kfsw_health_status := {|
  hs_state := hs_state x; hs_count := count; hs_feeding := hs_feeding x;
  hs_faults := hs_faults x; hs_feeds := hs_feeds x; hs_faulted_by := faulted_by |}.

Definition kfsw_health_register (name : option (list Z)) (deadline_ms : Z) (handle : option Z) s
    : Z * option Z * health W :=
  match name, handle with
  | Some name, Some _ =>
      if (char_at name 0 =? 0) || (deadline_ms =? 0) then (- EINVAL, handle, s)
      else if bool_decide (is_Some (find_by_name name (health_entries s)))
      then (- EEXIST, handle, s)
      else
        match free_index (health_entries s) with
        | None => (- ENOSPC, handle, s)
        | Some index =>
            let entry := {|
              he_name := str_truncate name (Z.to_nat KFSW_HEALTH_NAME_SIZE);
              he_deadline_ms := deadline_ms; he_last_report_ms := monotonic_ms (health_world s);
              he_reports := 0; he_used := true; he_warned := false |} in
            let x := health_state s in
            (0, Some (Z.of_nat index),
             set_health_state (set_count (u8 (hs_count x + 1)) (hs_faulted_by x) x)
               (set_entries (<[index := entry]> (health_entries s)) s))
        end
  | _, _ => (- EINVAL, handle, s)
  end.

Definition clear_entry e : health_entry := {|
  he_name := []; he_deadline_ms := he_deadline_ms e; he_last_report_ms := he_last_report_ms e;
  he_reports := he_reports e; he_used := false; he_warned := he_warned e |}.

Definition kfsw_health_unregister (handle : Z) s : Z * health W :=
  if handle >=? KFSW_HEALTH_MAX_COMPONENTS then (- EINVAL, s)
  else
    let e := health_entries s !!! Z.to_nat handle in
    if negb (he_used e) then (- EINVAL, s)
    else
      let x := health_state s in
      let faulted_by :=
        if strn_eq (hs_faulted_by x) (he_name e) (Z.to_nat KFSW_HEALTH_NAME_SIZE)
        then [] else hs_faulted_by x in
      (0, set_health_state (set_count (u8 (hs_count x - 1)) faulted_by x)
            (set_entries (<[Z.to_nat handle := clear_entry e]> (health_entries s)) s)).

Definition report_entry (now : Z) e : health_entry := {|
  he_name := he_name e; he_deadline_ms := he_deadline_ms e; he_last_report_ms := now;
  he_reports := sat_inc (he_reports e); he_used := he_used e; he_warned := he_warned e |}.

Definition kfsw_health_report (handle : Z) s : Z * health W :=
  if handle >=? KFSW_HEALTH_MAX_COMPONENTS then (- EINVAL, s)
  else
    let e := health_entries s !!! Z.to_nat handle in
    if negb (he_used e) then (- EINVAL, s)
    else (0, set_entries (<[Z.to_nat handle := report_entry (monotonic_ms (health_world s)) e]>
                            (health_entries s)) s).

Definition elapsed_ms (now : Z) e : Z := u32 (u64 (now - he_last_report_ms e)).
Definition set_warned (warned : bool) e : health_entry := {|
  he_name := he_name e; he_deadline_ms := he_deadline_ms e;
  he_last_report_ms := he_last_report_ms e; he_reports := he_reports e; he_used := he_used e;
  he_warned := warned |}.

(** The loop of [kfsw_health_evaluate]: it stops at the first overdue entry. *)
Fixpoint evaluate_entries (now : Z) (l : list health_entry) : list health_entry * option health_entry :=
  match l with
  | [] => ([], None)
  | e :: l =>
      if negb (he_used e) then
        let '(l', overdue) := evaluate_entries now l in (e :: l', overdue)
      else if elapsed_ms now e >? he_deadline_ms e then (e :: l, Some e)
      else
        let e' :=
          if (elapsed_ms now e >? u32 (he_deadline_ms e * 3) / 4) && negb (he_warned e)
          then set_warned true e
          else if elapsed_ms now e <=? he_deadline_ms e / 2 then set_warned false e
          else e in
        let '(l', overdue) := evaluate_entries now l in (e' :: l', overdue)
  end.

Definition health_all_ok x : kfsw_health_status := {|
  hs_state := KFSW_HEALTH_OK; hs_count := hs_count x; hs_feeding := hs_feeding x;
  hs_faults := hs_faults x; hs_feeds := hs_feeds x; hs_faulted_by := [] |}.
Definition health_fed x : kfsw_health_status := {|
  hs_state := hs_state x; hs_count := hs_count x; hs_feeding := true;
  hs_faults := hs_faults x; hs_feeds := sat_inc (hs_feeds x); hs_faulted_by := hs_faulted_by x |}.
Definition health_faulted (was_ok : bool) e x : kfsw_health_status := {|
  hs_state := KFSW_HEALTH_FAULTED; hs_count := hs_count x; hs_feeding := false;
  hs_faults := if was_ok then u32 (hs_faults x + 1) else hs_faults x; hs_feeds := hs_feeds x;
  hs_faulted_by := str_truncate (he_name e) (Z.to_nat KFSW_HEALTH_NAME_SIZE) |}.

(** What the first evaluation that finds a fault leaves for the ground. *)
Definition announce_fault (now : Z) e (w : W) : W :=
  let w := lastwords_write (u32 (u64 (now - he_last_report_ms e))) (u32 now) w in
  sink_emit (clock w) KFSW_EVENT_SOURCE_APP KFSW_EVENT_HEALTH_FAULT KFSW_EVENT_CRITICAL
    (Some (he_name e)) (Z.min (strlen (he_name e)) (KFSW_HEALTH_NAME_SIZE - 1)) w.

Definition kfsw_health_evaluate s : Z * health W :=
  if hs_state (health_state s) =? KFSW_HEALTH_STOPPED then (- EINVAL, s)
  else
    let now := monotonic_ms (health_world s) in
    let was_ok := hs_state (health_state s) =? KFSW_HEALTH_OK in
    let '(entries, overdue) := evaluate_entries now (health_entries s) in
    let s := set_entries entries s in
    match overdue with
    | None =>
        let s := if negb was_ok then set_health_world (lastwords_withdraw (health_world s)) s else s in
        let s := set_health_state (health_all_ok (health_state s)) s in
        let '(result, w) := watchdog_feed (health_world s) in
        let s := set_health_world w s in
        if result =? 0 then (0, set_health_state (health_fed (health_state s)) s) else (0, s)
    | Some e =>
        let s := set_health_state (health_faulted was_ok e (health_state s)) s in
        let s := if was_ok then set_health_world (announce_fault now e (health_world s)) s else s in
        (- ETIMEDOUT, s)
    end.

Definition health_work_handler s : health W :=
  let s := (kfsw_health_evaluate s).2 in
  set_health_world (work_reschedule (health_interval_ms s) (health_world s)) s.

Definition kfsw_health_check_interval_ms (interval_ms : Z) (w : W) : Z :=
  if interval_ms =? 0 then - EINVAL
  else
    let '(result, info_timeout) := watchdog_info w in
    let timeout := if (result =? 0) && negb (info_timeout =? 0) then info_timeout
                   else watchdog_configured_timeout_ms in
    if timeout =? 0 then 0
    else if interval_ms >? watchdog_feed_interval_ms timeout then - ERANGE
    else 0.

Definition just_reported (now : Z) e : health_entry :=
  if he_used e then {|
    he_name := he_name e; he_deadline_ms := he_deadline_ms e; he_last_report_ms := now;
    he_reports := he_reports e; he_used := he_used e; he_warned := he_warned e |} else e.

Definition kfsw_health_start s : Z * health W :=
  if negb (hs_state (health_state s) =? KFSW_HEALTH_STOPPED) then (- EALREADY, s)
  else
    let result := kfsw_health_check_interval_ms (health_interval_ms s) (health_world s) in
    if negb (result =? 0) then (result, s)
    else
      let '(result, w) := watchdog_release (health_world s) in
      let s := set_health_world w s in
      if negb (result =? 0) then (result, s)
      else
        let now := monotonic_ms (health_world s) in
        let x := health_state s in
        let s := set_entries (just_reported now <$> health_entries s) s in
        let s := set_health_state {|
          hs_state := KFSW_HEALTH_OK; hs_count := hs_count x; hs_feeding := hs_feeding x;
          hs_faults := hs_faults x; hs_feeds := hs_feeds x; hs_faulted_by := hs_faulted_by x |} s in
        (0, set_health_world (work_reschedule (health_interval_ms s) (health_world s)) s).

Definition kfsw_health_get_status (status : option kfsw_health_status) s
    : Z * option kfsw_health_status :=
  match status with
  | None => (- EINVAL, None)
  | Some _ => (0, Some (health_state s))
  end.

Definition kfsw_health_get_component (index : Z) (component : option kfsw_health_component) s
    : Z * option kfsw_health_component :=
  match component with
  | None => (- EINVAL, None)
  | Some _ =>
      if index >=? KFSW_HEALTH_MAX_COMPONENTS then (- ENOENT, component)
      else
        let e := health_entries s !!! Z.to_nat index in
        if negb (he_used e) then (- ENOENT, component)
        else
          let since := elapsed_ms (monotonic_ms (health_world s)) e in
          (0, Some {| hc_name := str_truncate (he_name e) (Z.to_nat KFSW_HEALTH_NAME_SIZE);
                      hc_deadline_ms := he_deadline_ms e; hc_since_report_ms := since;
                      hc_reports := he_reports e; hc_overdue := since >? he_deadline_ms e |})
  end.

Definition kfsw_health_get_interval_ms s : Z := health_interval_ms s.

Definition kfsw_health_set_interval_ms (interval_ms : Z) s : Z * health W :=
  let result := kfsw_health_check_interval_ms interval_ms (health_world s) in
  if negb (result =? 0) then (result, s)
  else
    let s := {| health_interval_ms := interval_ms; health_entries := health_entries s;
                health_state := health_state s; health_world := health_world s |} in
    (0, if negb (hs_state (health_state s) =? KFSW_HEALTH_STOPPED)
        then set_health_world (work_reschedule (health_interval_ms s) (health_world s)) s
        else s).
End health_ops.

(** ** The loop and the table *)

(** A component that has missed its deadline. *)
Definition overdue_entry (now : Z) (e : health_entry) : bool :=
  he_used e && (elapsed_ms now e >? he_deadline_ms e).

Lemma evaluate_find now l : (evaluate_entries now l).2 = List.find (overdue_entry now) l.
Proof.
  induction l as [|e l IH]; [done|]. cbn. unfold overdue_entry at 1.
  destruct (he_used e); cbn [negb andb]; [|by destruct (evaluate_entries now l)].
  destruct (elapsed_ms now e >? he_deadline_ms e); [done|].
  by destruct (evaluate_entries now l).
Qed.

(** Only the warning flags move. *)
Lemma evaluate_same now l :
  set_warned false <$> (evaluate_entries now l).1 = set_warned false <$> l.
Proof.
  induction l as [|e l IH]; [done|]. cbn.
  destruct (he_used e) eqn:U; cbn [negb].
  2: { destruct (evaluate_entries now l). cbn in *. by rewrite IH. }
  destruct (elapsed_ms now e >? he_deadline_ms e); [done|].
  destruct (evaluate_entries now l). cbn in *. rewrite IH. f_equal. by repeat case_match.
Qed.

Fixpoint used_count (l : list health_entry) : Z :=
  match l with
  | [] => 0
  | e :: l => Z.b2z (he_used e) + used_count l
  end.

Lemma used_count_range l : 0 <= used_count l <= zlen l.
Proof.
  induction l as [|e l IH]; [done|]. rewrite zlen_cons. cbn. destruct (he_used e); cbn; lia.
Qed.

Lemma used_count_insert l i e0 e :
  l !! i = Some e0 →
  used_count (<[i := e]> l) = used_count l - Z.b2z (he_used e0) + Z.b2z (he_used e).
Proof.
  revert i. induction l as [|a l IH]; intros [|i] H; [done|done| |].
  - injection H as ->. cbn. lia.
  - change (<[S i := e]> (a :: l)) with (a :: <[i := e]> l). cbn [used_count].
    rewrite (IH i) by done. lia.
Qed.

Lemma used_count_lookup l i e : l !! i = Some e → he_used e = true → 1 <= used_count l.
Proof.
  revert i. induction l as [|a l IH]; intros [|i] H U; [done|done| |]; cbn.
  - injection H as ->. rewrite U. cbn. pose proof (used_count_range l). lia.
  - pose proof (IH i H U). destruct (he_used a); cbn; lia.
Qed.

Lemma used_count_fmap f l : (∀ e, he_used (f e) = he_used e) → used_count (f <$> l) = used_count l.
Proof. intros Hf. induction l as [|e l IH]; [done|]. cbn. by rewrite Hf, IH. Qed.

Lemma used_count_same l l' :
  set_warned false <$> l' = set_warned false <$> l → used_count l' = used_count l.
Proof.
  intros H. rewrite <- (used_count_fmap (set_warned false) l') by done.
  rewrite H. by apply used_count_fmap.
Qed.

Lemma length_same l l' : set_warned false <$> l' = set_warned false <$> l → length l' = length l.
Proof. intros H. apply (f_equal length) in H. by rewrite !length_fmap in H. Qed.

Section health_proofs.
Context {HC : HealthConfig} {W : Type} {HP : HealthPlatform W} {ES : EventSink W}.
Variable clock : W → Z.
Implicit Types (s : health W) (e : health_entry).

Definition health_inv s : Prop :=
  zlen (health_entries s) = KFSW_HEALTH_MAX_COMPONENTS ∧
  hs_count (health_state s) = used_count (health_entries s) ∧
  0 <= hs_state (health_state s) <= 2 ∧
  (hs_state (health_state s) ≠ KFSW_HEALTH_FAULTED → hs_faulted_by (health_state s) = []) ∧
  Forall (λ e, he_used e = true → he_name e ≠ [] ∧ strlen (he_name e) < KFSW_HEALTH_NAME_SIZE)
    (health_entries s).

Lemma entry_at s i :
  zlen (health_entries s) = KFSW_HEALTH_MAX_COMPONENTS →
  0 <= i < KFSW_HEALTH_MAX_COMPONENTS →
  health_entries s !! Z.to_nat i = Some (health_entries s !!! Z.to_nat i).
Proof. intros Hl Hi. apply list_lookup_lookup_total_lt. unfold zlen in Hl. lia. Qed.

Lemma count_bound s :
  zlen (health_entries s) = KFSW_HEALTH_MAX_COMPONENTS → 0 <= used_count (health_entries s) <= 32.
Proof.
  intros Hl. pose proof (used_count_range (health_entries s)).
  pose proof KFSW_HEALTH_MAX_COMPONENTS_range. lia.
Qed.

Lemma free_index_some l i :
  free_index l = Some i → ∃ e, l !! i = Some e ∧ he_used e = false ∧
    ∀ j e', l !! j = Some e' → (j < i)%nat → he_used e' = true.
Proof.
  unfold free_index. intros H. destruct (list_find _ l) as [[j e]|] eqn:E; [|done].
  injection H as ->. apply list_find_Some in E as (Hi & Hu & Hlt). exists e. split_and!; [done..|].
  intros k e' Hk Hki. destruct (he_used e') eqn:U; [done|]. exfalso. by apply (Hlt k e').
Qed.

Lemma truncate_name name :
  char_at name 0 ≠ 0 →
  str_truncate name (Z.to_nat KFSW_HEALTH_NAME_SIZE) ≠ [] ∧
  strlen (str_truncate name (Z.to_nat KFSW_HEALTH_NAME_SIZE)) < KFSW_HEALTH_NAME_SIZE.
Proof.
  intros H. unfold str_truncate, strlen, zlen, KFSW_HEALTH_NAME_SIZE. rewrite length_take.
  split; [|lia]. destruct name; [done|]. done.
Qed.

Lemma register_inv name deadline handle s :
  health_inv s → health_inv (kfsw_health_register name deadline handle s).2.
Proof.
  intros Hi. pose proof Hi as (Hl & Hc & Hs & Hf & Hn). unfold kfsw_health_register.
  destruct name as [name|]; [|done]. destruct handle; [|done].
  destruct ((char_at name 0 =? 0) || (deadline =? 0)) eqn:G; [done|].
  case_bool_decide; [done|]. destruct (free_index (health_entries s)) as [i|] eqn:E; [|done].
  apply free_index_some in E as (e & He & Hu & _).
  pose proof (count_bound s Hl). pose proof (lookup_lt_Some _ _ _ He).
  unfold health_inv. cbn [snd set_health_state set_entries health_entries health_state set_count
    hs_count hs_state hs_faulted_by].
  split; [by unfold zlen in *; rewrite length_insert|].
  split; [|split; [done|split; [done|]]].
  - rewrite (used_count_insert _ _ e) by done. rewrite Hu. cbn. rewrite Hc.
    rewrite u8_id by clia. lia.
  - apply Forall_insert; [done|]. intros _. apply truncate_name. lia.
Qed.

Lemma unregister_inv handle s :
  0 <= handle → health_inv s → health_inv (kfsw_health_unregister handle s).2.
Proof.
  intros Hh Hi. pose proof Hi as (Hl & Hc & Hs & Hf & Hn). unfold kfsw_health_unregister.
  destruct (handle >=? KFSW_HEALTH_MAX_COMPONENTS) eqn:G; [done|].
  pose proof (entry_at s handle Hl ltac:(lia)) as He.
  destruct (he_used (health_entries s !!! Z.to_nat handle)) eqn:U; [|done].
  pose proof (count_bound s Hl). pose proof (used_count_lookup _ _ _ He U).
  unfold health_inv. cbn [negb snd set_health_state set_entries health_entries health_state set_count
    hs_count hs_state hs_faulted_by].
  split; [by unfold zlen in *; rewrite length_insert|].
  split; [|split; [done|split; [|]]].
  - rewrite (used_count_insert _ _ _ _ He), U. cbn. rewrite Hc. rewrite u8_id by clia. lia.
  - intros Hst. specialize (Hf Hst). by case_match.
  - apply Forall_insert; [done|]. done.
Qed.

Lemma report_inv handle s :
  0 <= handle → health_inv s → health_inv (kfsw_health_report handle s).2.
Proof.
  intros Hh Hi. pose proof Hi as (Hl & Hc & Hs & Hf & Hn). unfold kfsw_health_report.
  destruct (handle >=? KFSW_HEALTH_MAX_COMPONENTS) eqn:G; [done|].
  pose proof (entry_at s handle Hl ltac:(lia)) as He.
  destruct (he_used (health_entries s !!! Z.to_nat handle)) eqn:U; [|done].
  unfold health_inv. cbn [negb snd set_entries health_entries health_state].
  split; [by unfold zlen in *; rewrite length_insert|].
  split; [|split; [done|split; [done|]]].
  - rewrite (used_count_insert _ _ _ _ He). cbn. rewrite U. cbn. lia.
  - apply Forall_insert; [done|]. intros _. rewrite Forall_lookup in Hn. by apply (Hn _ _ He).
Qed.

(** Entries that differ in their flags and times only. *)
Lemma inv_entries s l :
  (λ e, (he_used e, he_name e)) <$> l = (λ e, (he_used e, he_name e)) <$> health_entries s →
  health_inv s → health_inv (set_entries l s).
Proof.
  intros E (Hl & Hc & Hs & Hf & Hn). unfold health_inv. cbn.
  pose proof (f_equal length E) as El. rewrite !length_fmap in El.
  assert (used_count l = used_count (health_entries s)) as Hu.
  { clear -E. revert E. generalize (health_entries s). induction l as [|e l IH]; intros [|e' l'] E;
      [done..|]. cbn in *. injection E as E1 _ E. by rewrite E1, (IH l'). }
  split; [unfold zlen in *; lia|]. split; [congruence|]. split; [done|]. split; [done|].
  rewrite Forall_lookup in *. intros i e He Hue.
  pose proof (f_equal (.!! i) E) as Ei. rewrite !list_lookup_fmap, He in Ei. cbn in Ei.
  destruct (health_entries s !! i) as [e'|] eqn:He'; [|done]. injection Ei as E1 E2.
  rewrite E2. apply (Hn i e'); congruence.
Qed.

Lemma inv_world s w : health_inv s → health_inv (set_health_world w s).
Proof. done. Qed.

Lemma evaluate_inv s : health_inv s → health_inv (kfsw_health_evaluate clock s).2.
Proof.
  intros Hi. unfold kfsw_health_evaluate.
  destruct (hs_state (health_state s) =? KFSW_HEALTH_STOPPED); [done|].
  pose proof (evaluate_same (monotonic_ms (health_world s)) (health_entries s)) as Hsame.
  destruct (evaluate_entries _ _) as [l overdue]. cbn [fst] in Hsame.
  apply (inv_entries s l) in Hi.
  2: { apply (f_equal (fmap (λ e, (he_used e, he_name e)))) in Hsame.
       by rewrite <- !list_fmap_compose in Hsame. }
  revert Hi. generalize (set_entries l s), (hs_state (health_state s) =? KFSW_HEALTH_OK),
    (monotonic_ms (health_world s)). clear s Hsame. intros s was_ok now (Hl & Hc & Hs & Hf & Hn).
  destruct overdue as [e|].
  - destruct was_ok; (split; [done|split; [done|split; [done|split; done]]]).
  - destruct (watchdog_feed _) as [rc w]. destruct (rc =? 0), was_ok;
      (split; [done|split; [done|split; [done|split; done]]]).
Qed.

Lemma start_inv s : health_inv s → health_inv (kfsw_health_start s).2.
Proof.
  intros Hi. unfold kfsw_health_start.
  destruct (negb (hs_state (health_state s) =? KFSW_HEALTH_STOPPED)) eqn:Hst; [done|].
  destruct (negb (_ =? 0)); [done|]. destruct (watchdog_release _) as [rc w].
  destruct (negb (rc =? 0)); [done|].
  apply (inv_world s w) in Hi.
  apply (inv_entries _ (just_reported (monotonic_ms w) <$> health_entries s)) in Hi.
  2: { rewrite <- list_fmap_compose. apply list_fmap_ext. intros i e _. unfold just_reported. cbn.
       by destruct (he_used e) eqn:U; cbn; rewrite ?U. }
  destruct Hi as (Hl & Hc & Hs & Hf & Hn).
  split; [done|split; [done|split; [done|split; [|done]]]].
  intros _. apply Hf. cbn. intros E. rewrite E in Hst. done.
Qed.

Lemma set_interval_inv interval s : health_inv s → health_inv (kfsw_health_set_interval_ms interval s).2.
Proof.
  intros Hi. unfold kfsw_health_set_interval_ms. destruct (negb (_ =? 0)); [done|].
  cbn [snd health_state]. by case_match.
Qed.

(** One call of the interface, one run of the timer, or time passing. *)
Inductive health_step : health W → health W → Prop :=
| health_step_register name deadline handle s :
    health_step s (kfsw_health_register name deadline handle s).2
| health_step_unregister handle s : 0 <= handle → health_step s (kfsw_health_unregister handle s).2
| health_step_report handle s : 0 <= handle → health_step s (kfsw_health_report handle s).2
| health_step_timer s : health_step s (health_work_handler clock s)
| health_step_evaluate s : health_step s (kfsw_health_evaluate clock s).2
| health_step_start s : health_step s (kfsw_health_start s).2
| health_step_interval interval s : health_step s (kfsw_health_set_interval_ms interval s).2
| health_step_world w s : health_step s (set_health_world w s).
Definition health_reachable s : Prop :=
  ∃ interval w, rtc health_step (health_boot interval w) s.

Lemma health_boot_inv interval w : health_inv (health_boot interval w).
Proof.
  pose proof KFSW_HEALTH_MAX_COMPONENTS_range. unfold health_inv, health_boot. cbn.
  split; [unfold zlen; rewrite length_replicate; lia|].
  split; [by induction (Z.to_nat _)|]. split; [done|]. split; [done|].
  by apply Forall_replicate.
Qed.

Lemma health_reachable_inv s : health_reachable s → health_inv s.
Proof.
  intros (interval & w & H). pose proof (health_boot_inv interval w) as Hb.
  induction H as [s|s s1 s2 Hs _ IH]; [done|]. apply IH. destruct Hs;
    auto using register_inv, unregister_inv, report_inv, evaluate_inv, start_inv, set_interval_inv.
  by apply evaluate_inv.
Qed.
End health_proofs.

(** ** Properties *)

Section health_facts.
Context {HC : HealthConfig} {W : Type} {HP : HealthPlatform W} {ES : EventSink W}.
Implicit Types (s : health W).

Lemma evaluate_spec (clock : W → Z) s :
  hs_state (health_state s) ≠ KFSW_HEALTH_STOPPED →
  let now := monotonic_ms (health_world s) in
  let was_ok := hs_state (health_state s) =? KFSW_HEALTH_OK in
  let '(rc, s') := kfsw_health_evaluate clock s in
  set_warned false <$> health_entries s' = set_warned false <$> health_entries s ∧
  match List.find (overdue_entry now) (health_entries s) with
  | None =>
      let w := if was_ok then health_world s else lastwords_withdraw (health_world s) in
      rc = 0 ∧ hs_state (health_state s') = KFSW_HEALTH_OK ∧ hs_faulted_by (health_state s') = [] ∧
      hs_faults (health_state s') = hs_faults (health_state s) ∧
      health_world s' = (watchdog_feed w).2 ∧
      hs_feeds (health_state s') = (if (watchdog_feed w).1 =? 0 then sat_inc (hs_feeds (health_state s))
                                    else hs_feeds (health_state s))
  | Some e =>
      rc = - ETIMEDOUT ∧ hs_state (health_state s') = KFSW_HEALTH_FAULTED ∧
      hs_faulted_by (health_state s') = str_truncate (he_name e) 16 ∧
      hs_feeding (health_state s') = false ∧
      hs_feeds (health_state s') = hs_feeds (health_state s) ∧
      hs_faults (health_state s') = (if was_ok then u32 (hs_faults (health_state s) + 1)
                                     else hs_faults (health_state s)) ∧
      health_world s' = (if was_ok then announce_fault clock now e (health_world s)
                         else health_world s)
  end.
Proof.
  intros Hst now was_ok. unfold kfsw_health_evaluate. fold now was_ok.
  rewrite (proj2 (Z.eqb_neq _ _) Hst).
  pose proof (evaluate_find now (health_entries s)) as Hf.
  pose proof (evaluate_same now (health_entries s)) as Hs.
  destruct (evaluate_entries now (health_entries s)) as [l overdue]. cbn [fst snd] in Hf, Hs.
  rewrite <- Hf. destruct overdue as [e|].
  - destruct was_ok; by split_and!.
  - destruct was_ok; cbn [negb set_health_state set_health_world set_entries health_world];
      destruct (watchdog_feed _) as [rc w]; cbn [fst snd]; destruct (rc =? 0); by split_and!.
Qed.

Lemma find_existsb {A} (f : A → bool) l x : x ∈ l → f x = true → is_Some (List.find f l).
Proof.
  intros Hx Hf. destruct (List.find f l) eqn:E; [done|]. exfalso.
  apply list_elem_of_In, (find_none _ _ E) in Hx. congruence.
Qed.

Lemma long_name_not_found name l :
  Forall (λ e, he_used e = true → he_name e ≠ [] ∧ strlen (he_name e) < KFSW_HEALTH_NAME_SIZE) l →
  is_cstr name → KFSW_HEALTH_NAME_SIZE <= strlen name → find_by_name name l = None.
Proof.
  intros Hl Hn Hs. unfold find_by_name. destruct (List.find _ l) as [e|] eqn:E; [exfalso|done].
  apply List.find_some in E as [He Hm]. apply list_elem_of_In in He.
  rewrite Forall_forall in Hl. unfold entry_named in Hm. apply andb_true_iff in Hm as [Hu Hm].
  destruct (Hl e He Hu) as [_ Hlt]. unfold strn_eq in Hm. apply bool_decide_eq_true in Hm.
  unfold KFSW_HEALTH_NAME_SIZE, strlen, zlen in *.
  rewrite (take_ge (he_name e ++ [0])), take_app_le in Hm by (rewrite ?length_app; cbn; lia).
  assert (0 ∈ take (Z.to_nat 16) name) as H0 by (rewrite <- Hm; set_solver).
  apply list_elem_of_lookup in H0 as [i H0]. apply lookup_take_Some in H0 as [H0 _]. unfold is_cstr in Hn.
  rewrite Forall_lookup in Hn. specialize (Hn _ _ H0). cbn in Hn. lia.
Qed.
End health_facts.


(** C27: a component that falls silent is caught: once a watched component has not
    reported for longer than its deadline (and for less than 2^32 ms), the next
    evaluation reports a fault and does not feed the watchdog, whatever the other
    components do. *)
Theorem health_silence_detected {HC : HealthConfig} {W} {HP : HealthPlatform W} {ES : EventSink W}
    (clock : W → Z) (s : health W) e :
  hs_state (health_state s) ≠ KFSW_HEALTH_STOPPED → e ∈ health_entries s → he_used e = true →
  let silent := monotonic_ms (health_world s) - he_last_report_ms e in
  0 <= he_deadline_ms e < silent → silent < 2 ^ 32 →
  let '(rc, s') := kfsw_health_evaluate clock s in
  rc = - ETIMEDOUT ∧ hs_state (health_state s') = KFSW_HEALTH_FAULTED ∧
  hs_feeds (health_state s') = hs_feeds (health_state s) ∧
  (hs_state (health_state s) = KFSW_HEALTH_FAULTED → health_world s' = health_world s).
Proof.
  intros Hst He Hu silent Hd Hw. pose proof (evaluate_spec clock s Hst) as Hs. cbn zeta in Hs.
  destruct (kfsw_health_evaluate clock s) as [rc s'].
  assert (overdue_entry (monotonic_ms (health_world s)) e = true) as Ho.
  { unfold overdue_entry, elapsed_ms. rewrite Hu. fold silent. rewrite u64_id, u32_id by clia. lia. }
  destruct (find_existsb _ _ _ He Ho) as [e' He']. rewrite He' in Hs.
  destruct Hs as (_ & -> & Hf & _ & _ & -> & _ & ->). split_and!; try done.
  intros ->. done.
Qed.

(** C38: whatever is registered, unregistered, reported and evaluated, in any order,
    the table stays consistent: its size is fixed, the count is the number of watched
    entries, every watched entry has a name that fits its array, and a component is
    blamed only while the service is faulted. *)
Theorem health_table_consistent {HC : HealthConfig} {W} {HP : HealthPlatform W} {ES : EventSink W}
    (clock : W → Z) (s : health W) :
  health_reachable clock s →
  zlen (health_entries s) = KFSW_HEALTH_MAX_COMPONENTS ∧
  hs_count (health_state s) = used_count (health_entries s) ∧
  hs_count (health_state s) <= KFSW_HEALTH_MAX_COMPONENTS ∧
  (hs_faulted_by (health_state s) ≠ [] → hs_state (health_state s) = KFSW_HEALTH_FAULTED) ∧
  Forall (λ e, he_used e = true → he_name e ≠ [] ∧ strlen (he_name e) < KFSW_HEALTH_NAME_SIZE)
    (health_entries s).
Proof.
  intros H. apply health_reachable_inv in H as (Hl & Hc & Hs & Hf & Hn).
  pose proof (used_count_range (health_entries s)). split_and!; [done|done|lia| |done].
  intros Hne. destruct (decide (hs_state (health_state s) = KFSW_HEALTH_FAULTED)); naive_solver.
Qed.

(** the uniqueness check misses long names: a name of sixteen characters or more is
    never found, although its truncated copy is in the table, so the same name can be
    registered again and again instead of being refused with [-EEXIST]. *)
Theorem health_long_name_duplicates {HC : HealthConfig} {W} {HP : HealthPlatform W} {ES : EventSink W}
    (clock : W → Z) (s : health W) name deadline handle :
  health_reachable clock s → is_cstr name → KFSW_HEALTH_NAME_SIZE <= strlen name →
  deadline ≠ 0 →
  (kfsw_health_register (Some name) deadline (Some handle) s).1.1 =
    if bool_decide (is_Some (free_index (health_entries s))) then 0 else - ENOSPC.
Proof.
  intros H Hn Hs Hd. apply health_reachable_inv in H as (_ & _ & _ & _ & Hl).
  unfold kfsw_health_register. rewrite (long_name_not_found name) by done.
  assert (char_at name 0 ≠ 0) as Hc.
  { destruct name as [|c name]; [done|]. apply Forall_cons in Hn as [Hc _]. cbn in *. lia. }
  rewrite (proj2 (Z.eqb_neq _ _) Hc), (proj2 (Z.eqb_neq _ _) Hd). cbn [orb].
  rewrite bool_decide_false by (by intros []). by destruct (free_index (health_entries s)).
Qed.

Section health_witnesses.
#[local] Existing Instance health_config_default.
#[local] Existing Instance event_config_default.

(** A board whose world is its clock and the events; its watchdog always works. *)
Definition sim_health_platform : HealthPlatform (Z * event_state) := {|
  monotonic_ms := fst; watchdog_feed w := (0, w); watchdog_release w := (0, w);
  watchdog_info w := (0, 8000); watchdog_configured_timeout_ms := 8000;
  watchdog_feed_interval_ms t := t / 2; lastwords_withdraw w := w;
  lastwords_write _ _ w := w; work_reschedule _ w := w |}.
#[local] Existing Instance sim_health_platform.
Definition pair_sink : EventSink (Z * event_state) := {|
  sink_emit now source id severity payload size w :=
    (w.1, sink_emit now source id severity payload size w.2);
  sink_log w := sink_log w.2; sink_ok w := sink_ok w.2;
  sink_emit_ok now source id severity payload size w :=
    sink_emit_ok now source id severity payload size w.2;
  sink_refuses now source id severity payload size w :=
    sink_refuses now source id severity payload size w.2;
  sink_records now source id severity payload size w :=
    sink_records now source id severity payload size w.2 |}.
#[local] Existing Instance pair_sink.

Definition long_name : list Z := cstr "telemetry-thread-1".
Definition health_0 : health (Z * event_state) := health_boot 1000 (0, event_boot).
Definition health_1 := (kfsw_health_register (Some long_name) 500 (Some 0) health_0).2.
Definition health_2 := (kfsw_health_start health_1).2.
Definition health_late := set_health_world (700, event_boot) health_2.

Lemma health_1_reachable : health_reachable (λ w, fst w) health_1.
Proof.
  exists 1000, (0, event_boot). exact (rtc_once _ _ (health_step_register _ (Some long_name) 500 (Some 0) health_0)).
Qed.


Lemma health_silence_detected_witness : (kfsw_health_evaluate fst health_late).1 = - ETIMEDOUT.
Proof.
  pose proof (health_silence_detected fst health_late (health_entries health_late !!! 0%nat)) as H.
  destruct (kfsw_health_evaluate fst health_late) as [rc s']. apply H.
  - vm_compute. discriminate.
  - vm_compute. left.
  - vm_compute. reflexivity.
  - vm_compute. split; congruence.
  - vm_compute. reflexivity.
Defined.

Lemma health_table_consistent_witness : hs_count (health_state health_1) = 1 ∧ used_count (health_entries health_1) = 1.
Proof.
  destruct (health_table_consistent _ health_1 health_1_reachable) as (_ & H & _).
  rewrite <- H. split; reflexivity.
Defined.

Lemma health_long_name_duplicates_witness :
  (kfsw_health_register (Some long_name) 500 (Some 0) health_1).1.1 = 0.
Proof.
  rewrite (health_long_name_duplicates _ health_1 long_name 500 0 health_1_reachable).
  - vm_compute. reflexivity.
  - apply (bool_decide_unpack _). vm_compute. exact I.
  - vm_compute. congruence.
  - discriminate.
Defined.
End health_witnesses.
