(* ===== verification/ParamTypes.v ===== *)
(** * Parameter values ([include/kfsw/services/parameter.h])

    The types a parameter may have and the scalar union that carries a value. The
    union is the 64 bits of its storage on a little-endian target; a member is read
    from its low bits. A floating-point member is decoded to the binary float it
    denotes. *)

From S2P Require Import Prelude Bytes.
From Stdlib Require Export Floats.SpecFloat.

Definition KFSW_PARAM_U8 : Z := 0.
Definition KFSW_PARAM_U16 : Z := 1.
Definition KFSW_PARAM_U32 : Z := 2.
Definition KFSW_PARAM_U64 : Z := 3.
Definition KFSW_PARAM_I8 : Z := 4.
Definition KFSW_PARAM_I16 : Z := 5.
Definition KFSW_PARAM_I32 : Z := 6.
Definition KFSW_PARAM_I64 : Z := 7.
Definition KFSW_PARAM_X8 : Z := 8.
Definition KFSW_PARAM_X16 : Z := 9.
Definition KFSW_PARAM_X32 : Z := 10.
Definition KFSW_PARAM_X64 : Z := 11.
Definition KFSW_PARAM_FLOAT : Z := 12.
Definition KFSW_PARAM_DOUBLE : Z := 13.
Definition KFSW_PARAM_STRING : Z := 14.
Definition KFSW_PARAM_DATA : Z := 15.
Definition KFSW_PARAM_INVALID : Z := 16.

Definition KFSW_PARAM_NAME_MAX : Z := 32.

(** [union kfsw_param_scalar]. *)
Definition kfsw_param_scalar : Type := Z.

(** An IEEE 754 interchange format of [mw] fraction and [ew] exponent bits. *)
Definition ieee_decode (mw ew : Z) (bits : Z) : spec_float :=
  let s := Z.testbit bits (mw + ew) in
  let m := bits mod 2 ^ mw in
  let e := (bits / 2 ^ mw) mod 2 ^ ew in
  let emin := 3 - 2 ^ (ew - 1) - (mw + 1) in
  if e =? 0 then
    if m =? 0 then S754_zero s else S754_finite s (Z.to_pos m) emin
  else if e =? 2 ^ ew - 1 then
    if m =? 0 then S754_infinity s else S754_nan
  else S754_finite s (Z.to_pos (m + 2 ^ mw)) (e - 1 + emin).

Definition sc_f32 (scalar : kfsw_param_scalar) : spec_float := ieee_decode 23 8 (u32 scalar).
Definition sc_f64 (scalar : kfsw_param_scalar) : spec_float := ieee_decode 52 11 (u64 scalar).

Example decode_one : sc_f32 1065353216 = S754_finite false 8388608 (-23).
Proof. vm_compute. reflexivity. Qed.
Example decode_tiny : sc_f64 1 = S754_finite false 1 (-1074).
Proof. vm_compute. reflexivity. Qed.

(** [CONFIG_KFSW_PARAM_MAX_DEFINITIONS], [..._MAX_TABLES], [..._STRING_MAX] and
    [CONFIG_KFSW_PARAM_FLOAT]. *)
Class ParamConfig := {
  PARAM_MAX_DEFINITIONS : Z;
  PARAM_MAX_DEFINITIONS_range : 1 <= PARAM_MAX_DEFINITIONS <= 512;
  PARAM_MAX_TABLES : Z;
  PARAM_MAX_TABLES_range : 1 <= PARAM_MAX_TABLES <= 100;
  PARAM_STRING_MAX : Z;
  PARAM_STRING_MAX_range : 8 <= PARAM_STRING_MAX <= 256;
  PARAM_FLOAT : bool;
}.
#[program] Definition param_config_default : ParamConfig := {|
  PARAM_MAX_DEFINITIONS := 256; PARAM_MAX_TABLES := 24; PARAM_STRING_MAX := 104;
  PARAM_FLOAT := true |}.
Solve All Obligations with lia.

Definition KFSW_PARAM_TABLE_CORE_FIRST : Z := 1.
Definition KFSW_PARAM_TABLE_CORE_LAST : Z := 24.
Definition KFSW_PARAM_TABLE_SERVICE_FIRST : Z := 25.
Definition KFSW_PARAM_TABLE_SERVICE_LAST : Z := 49.
Definition KFSW_PARAM_TABLE_MODULE_FIRST : Z := 50.
Definition KFSW_PARAM_TABLE_MODULE_LAST : Z := 99.

Definition KFSW_PARAM_FLAG_READ_ONLY : Z := 0x1.
Definition KFSW_PARAM_FLAG_PERSISTENT : Z := 0x10000.
Definition KFSW_PARAM_FLAG_LIVE : Z := 0x20000.

(** [KFSW_PARAM_ID]. *)
Definition KFSW_PARAM_ID (table offset : Z) : Z :=
  u16 (Z.lor (Z.shiftl (u16 table) 8) (u8 offset)).

(** [struct kfsw_param_value]; [text] and [bytes] share [pv_bytes]. *)
Record kfsw_param_value := {
  pv_type : Z; pv_size : Z; pv_scalar : kfsw_param_scalar; pv_bytes : list Z;
}.

Record kfsw_param_info := {
  pi_node : Z; pi_id : Z; pi_table : Z; pi_offset : Z; pi_array_size : Z; pi_type : Z;
  pi_flags : Z; pi_table_name : option (list Z); pi_name : list Z; pi_unit : option (list Z);
  pi_description : option (list Z); pi_read_only : bool;
}.
Record kfsw_param_table_info := {
  pt_id : Z; pt_name : list Z; pt_description : option (list Z); pt_count : Z;
}.

(** A definition names its storage by an address; its callbacks see the state [W] of
    the components, and a sampler rewrites the storage it is given. *)
Record kfsw_param_definition (W : Type) := {
  pd_offset : Z; pd_type : Z; pd_capacity : Z; pd_flags : Z; pd_name : option (list Z);
  pd_unit : option (list Z); pd_description : option (list Z); pd_value : option Z;
  pd_default_value : kfsw_param_scalar; pd_default_text : option (list Z);
  pd_validate : option (kfsw_param_scalar → W → Z);
  pd_apply : option (kfsw_param_scalar → W → Z * W);
  pd_changed : option (kfsw_param_scalar → W → W);
  pd_validate_text : option (list Z → W → Z);
  pd_changed_text : option (list Z → W → W);
  pd_validate_data : option (list Z → Z → W → Z);
  pd_changed_data : option (list Z → Z → W → W);
  pd_default_data : option (list Z);
  pd_sample : option (list Z → W → list Z * W);
}.
Arguments pd_offset {W}. Arguments pd_type {W}. Arguments pd_capacity {W}.
Arguments pd_flags {W}. Arguments pd_name {W}. Arguments pd_unit {W}.
Arguments pd_description {W}. Arguments pd_value {W}. Arguments pd_default_value {W}.
Arguments pd_default_text {W}. Arguments pd_validate {W}. Arguments pd_apply {W}.
Arguments pd_changed {W}. Arguments pd_validate_text {W}. Arguments pd_changed_text {W}.
Arguments pd_validate_data {W}. Arguments pd_changed_data {W}.
Arguments pd_default_data {W}. Arguments pd_sample {W}.

Record kfsw_param_definition_set (W : Type) := {
  ps_table : Z; ps_name : option (list Z); ps_description : option (list Z);
  ps_definitions : option (list (kfsw_param_definition W));
}.
Arguments ps_table {W}. Arguments ps_name {W}. Arguments ps_description {W}.
Arguments ps_definitions {W}.

Record kfsw_param_entry (W : Type) := {
  pe_info : kfsw_param_info; pe_definition : kfsw_param_definition W;
}.
Arguments pe_info {W}. Arguments pe_definition {W}.

(** ** Little-endian memory

    The bytes of a scalar in memory, on a little-endian target. *)
Fixpoint le_bytes (n : nat) (v : Z) : list Z :=
  match n with O => [] | S n => v mod 256 :: le_bytes n (v / 256) end.
Fixpoint le_value (l : list Z) : Z :=
  match l with [] => 0 | b :: l => b + 256 * le_value l end.

Lemma le_bytes_length n v : length (le_bytes n v) = n.
Proof. revert v. induction n; intros v; cbn; [done|]. by rewrite IHn. Qed.
Lemma le_bytes_bytes n v : bytes (le_bytes n v).
Proof. revert v. induction n; intros v; cbn; constructor; [clia|apply IHn]. Qed.
Lemma le_value_bytes n v : le_value (le_bytes n v) = v mod 2 ^ (8 * Z.of_nat n).
Proof.
  revert v. induction n as [|n IH]; intros v.
  { cbn. by rewrite Z.mod_1_r. }
  cbn [le_bytes le_value]. rewrite IH.
  replace (8 * Z.of_nat (S n)) with (8 + 8 * Z.of_nat n) by lia.
  rewrite Z.pow_add_r by lia. change (2 ^ 8) with 256. rewrite Z.rem_mul_r by lia. lia.
Qed.
Lemma le_bytes_value l : bytes l → le_bytes (length l) (le_value l) = l.
Proof.
  induction l as [|b l IH]; intros Hb; [done|]. apply Forall_cons in Hb as [Hb Hl].
  cbn [length le_bytes le_value]. unfold is_u8 in Hb.
  replace ((b + 256 * le_value l) mod 256) with b by lia.
  replace ((b + 256 * le_value l) / 256) with (le_value l) by lia. by rewrite IH.
Qed.
Lemma le_value_range l : bytes l → 0 <= le_value l < 2 ^ (8 * zlen l).
Proof.
  intros Hl. rewrite <- (le_bytes_value l Hl), le_value_bytes. unfold zlen.
  rewrite le_bytes_length. apply Z.mod_pos_bound. apply Z.pow_pos_nonneg; lia.
Qed.

(** What the services that watch parameters call of the parameter service
    ([kfsw_param_get_info], [kfsw_param_get], [kfsw_param_parse_text]): the result and,
    when that is zero, the type or the scalar. [Param] implements it. *)
Class ParamAccess (W : Type) := {
  access_info : list Z → W → Z * Z;
  access_get : list Z → W → Z * kfsw_param_scalar * W;
  access_parse : list Z → Z → Z * kfsw_param_scalar;
}.
