(* ===== verification/Param.v ===== *)
(** * Parameter service ([src/parameter/parameter.c])

    The registry of the node's parameters, the text and scalar values, and the
    operations that read, validate and write them. Each operation runs under the
    table lock and is one step. The storage behind a parameter is a byte object at its
    address; its callbacks are functions over the state of the components. The
    snapshot that an accepted change may write is an argument of [kfsw_param_set].
    [kfsw_param_wire_apply] of [param_wire.c] is here because the defaults use it. *)

From S2P Require Import Prelude Bytes CStdlib Sorted ParamTypes.

(** The C library's [strtof] and [strtod]: the bits of the number, the rest of the
    text and whether [errno] was set. *)
Class FloatText := {
  strtof : list Z → Z * list Z * bool;
  strtod : list Z → Z * list Z * bool;
}.

(** The service's static objects; [param_world] is the state of the components. *)
Record param_state (W : Type) := {
  parameter_table : list (kfsw_param_entry W);
  parameter_tables : list kfsw_param_table_info;
  initialized : bool;
  param_storage : gmap Z (list Z);
  param_saves : Z;
  param_load_failures : Z;
  param_world : W;
}.
Arguments parameter_table {W}. Arguments parameter_tables {W}. Arguments initialized {W}.
Arguments param_storage {W}. Arguments param_saves {W}. Arguments param_load_failures {W}.
Arguments param_world {W}.

(** ** Values *)

Definition name_is_within_limit (name : list Z) : bool := strlen name <=? KFSW_PARAM_NAME_MAX.

Definition scalar_size (type : Z) : Z :=
  if (type =? KFSW_PARAM_U8) || (type =? KFSW_PARAM_I8) || (type =? KFSW_PARAM_X8) then 1
  else if (type =? KFSW_PARAM_U16) || (type =? KFSW_PARAM_I16) || (type =? KFSW_PARAM_X16) then 2
  else if (type =? KFSW_PARAM_U32) || (type =? KFSW_PARAM_I32) || (type =? KFSW_PARAM_X32) then 4
  else if (type =? KFSW_PARAM_U64) || (type =? KFSW_PARAM_I64) || (type =? KFSW_PARAM_X64) then 8
  else if type =? KFSW_PARAM_FLOAT then 4
  else if type =? KFSW_PARAM_DOUBLE then 8
  else 0.

Definition is_array (type : Z) : bool := (type =? KFSW_PARAM_STRING) || (type =? KFSW_PARAM_DATA).

Definition info_capacity (info : kfsw_param_info) : Z :=
  if is_array (pi_type info) then pi_array_size info else scalar_size (pi_type info).
Definition entry_capacity {W} (entry : kfsw_param_entry W) : Z := info_capacity (pe_info entry).

(** The characters the bounded copy takes. *)
Fixpoint copy_length (destination_size source_size : Z) (source : list Z) (length : Z) : Z :=
  match source with
  | [] => length
  | c :: source =>
      if (length <? source_size) && (length + 1 <? destination_size) && negb (c =? 0)
      then copy_length destination_size source_size source (length + 1)
      else length
  end.
Definition copy_text (destination : list Z) (destination_size : Z) (source : list Z)
    (source_size : Z) : Z * list Z :=
  let length := copy_length destination_size source_size source 0 in
  (length, buf_put 0 (take (Z.to_nat length) source ++ [0]) destination).

(** A store through a member of the scalar union: the other bytes stay. *)
Definition put_member (bits : Z) (v old : kfsw_param_scalar) : kfsw_param_scalar :=
  old / 2 ^ bits * 2 ^ bits + v mod 2 ^ bits.

Definition is_unsigned (type : Z) : bool :=
  (type =? KFSW_PARAM_U8) || (type =? KFSW_PARAM_U16) || (type =? KFSW_PARAM_U32)
  || (type =? KFSW_PARAM_U64) || (type =? KFSW_PARAM_X8) || (type =? KFSW_PARAM_X16)
  || (type =? KFSW_PARAM_X32) || (type =? KFSW_PARAM_X64).
Definition is_signed (type : Z) : bool :=
  (type =? KFSW_PARAM_I8) || (type =? KFSW_PARAM_I16) || (type =? KFSW_PARAM_I32)
  || (type =? KFSW_PARAM_I64).

Definition set_scalar (v : kfsw_param_scalar) (value : kfsw_param_value) : kfsw_param_value := {|
  pv_type := pv_type value; pv_size := pv_size value; pv_scalar := v; pv_bytes := pv_bytes value |}.
Definition set_array (size : Z) (bytes : list Z) (value : kfsw_param_value) : kfsw_param_value := {|
  pv_type := pv_type value; pv_size := size; pv_scalar := pv_scalar value; pv_bytes := bytes |}.

Section parse.
Context {PC : ParamConfig} {CL : CLong} {FT : FloatText}.

(** The loop over the elements of an array; [room] is what is left of [bytes]. *)
Fixpoint parse_elements (room : nat) (cursor : list Z) (elements : list Z) : option (list Z) :=
  match room with
  | O => Some elements
  | S room =>
      if char_at cursor 0 =? 0 then Some elements
      else
        let '(element, rest, erange) := strtoul cursor 0 in
        if erange || bool_decide (rest = cursor) || (element >? UINT8_MAX) then None
        else
          let elements := elements ++ [u8 element] in
          if char_at rest 0 =? 44 then parse_elements room (drop 1 rest) elements
          else if negb (char_at rest 0 =? 0) then None
          else parse_elements room rest elements
  end.

(** The second switch: a number that was read is stored if it fits its type. *)
Definition store_unsigned (v : Z) (value : kfsw_param_value) : Z * kfsw_param_value :=
  let put bits := (0, set_scalar (put_member bits v (pv_scalar value)) value) in
  let type := pv_type value in
  if (type =? KFSW_PARAM_U8) || (type =? KFSW_PARAM_X8)
  then if v >? UINT8_MAX then (- ERANGE, value) else put 8
  else if (type =? KFSW_PARAM_U16) || (type =? KFSW_PARAM_X16)
  then if v >? UINT16_MAX then (- ERANGE, value) else put 16
  else if (type =? KFSW_PARAM_U32) || (type =? KFSW_PARAM_X32)
  then if v >? UINT32_MAX then (- ERANGE, value) else put 32
  else put 64.
Definition store_signed (v : Z) (value : kfsw_param_value) : Z * kfsw_param_value :=
  let put bits := (0, set_scalar (put_member bits v (pv_scalar value)) value) in
  let outside bits := (v <? - 2 ^ (bits - 1)) || (v >? 2 ^ (bits - 1) - 1) in
  let type := pv_type value in
  if type =? KFSW_PARAM_I8 then if outside 8 then (- ERANGE, value) else put 8
  else if type =? KFSW_PARAM_I16 then if outside 16 then (- ERANGE, value) else put 16
  else if type =? KFSW_PARAM_I32 then if outside 32 then (- ERANGE, value) else put 32
  else put 64.

Definition kfsw_param_parse_text (text : list Z) (value : kfsw_param_value)
    : Z * kfsw_param_value :=
  let type := pv_type value in
  if is_unsigned type then
    if char_at text 0 =? 45 then (- ERANGE, value)
    else
      let '(v, rest, erange) := strtoull text 0 in
      if erange || bool_decide (rest = text) || negb (char_at rest 0 =? 0) then (- EINVAL, value)
      else store_unsigned v value
  else if is_signed type then
    let '(v, rest, erange) := strtoll text 0 in
    if erange || bool_decide (rest = text) || negb (char_at rest 0 =? 0) then (- EINVAL, value)
    else store_signed v value
  else if PARAM_FLOAT && (type =? KFSW_PARAM_FLOAT) then
    let '(bits, rest, failed) := strtof text in
    ((if negb failed && negb (bool_decide (rest = text)) && (char_at rest 0 =? 0)
      then 0 else - EINVAL), set_scalar (put_member 32 bits (pv_scalar value)) value)
  else if PARAM_FLOAT && (type =? KFSW_PARAM_DOUBLE) then
    let '(bits, rest, failed) := strtod text in
    ((if negb failed && negb (bool_decide (rest = text)) && (char_at rest 0 =? 0)
      then 0 else - EINVAL), set_scalar (put_member 64 bits (pv_scalar value)) value)
  else if type =? KFSW_PARAM_STRING then
    let length := Z.min (PARAM_STRING_MAX - 1) (strlen text) in
    let copied := take (Z.to_nat length) text in
    if negb (char_at text (Z.to_nat length) =? 0)
    then (- EMSGSIZE, set_array (pv_size value) (buf_put 0 copied (pv_bytes value)) value)
    else (0, set_array (length + 1) (buf_put 0 (copied ++ [0]) (pv_bytes value)) value)
  else if type =? KFSW_PARAM_DATA then
    match parse_elements (Z.to_nat PARAM_STRING_MAX) text [] with
    | None | Some [] => (- EINVAL, value)
    | Some elements => (0, set_array (zlen elements) (buf_put 0 elements (pv_bytes value)) value)
    end
  else (- ENOTSUP, value).
End parse.

(** ** Entries *)

Section entries.
Context {PC : ParamConfig} {W : Type}.
Implicit Types (entry : kfsw_param_entry W) (st : param_state W) (value : kfsw_param_value).

Definition set_storage (m : gmap Z (list Z)) st : param_state W := {|
  parameter_table := parameter_table st; parameter_tables := parameter_tables st;
  initialized := initialized st; param_storage := m; param_saves := param_saves st;
  param_load_failures := param_load_failures st; param_world := param_world st |}.
Definition set_param_world (w : W) st : param_state W := {|
  parameter_table := parameter_table st; parameter_tables := parameter_tables st;
  initialized := initialized st; param_storage := param_storage st; param_saves := param_saves st;
  param_load_failures := param_load_failures st; param_world := w |}.
Definition set_table (l : list (kfsw_param_entry W)) (tables : list kfsw_param_table_info) st
    : param_state W := {|
  parameter_table := l; parameter_tables := tables; initialized := initialized st;
  param_storage := param_storage st; param_saves := param_saves st;
  param_load_failures := param_load_failures st; param_world := param_world st |}.
Definition set_initialized (b : bool) st : param_state W := {|
  parameter_table := parameter_table st; parameter_tables := parameter_tables st;
  initialized := b; param_storage := param_storage st; param_saves := param_saves st;
  param_load_failures := param_load_failures st; param_world := param_world st |}.

(** The storage of a registered definition, which has some. *)
Definition entry_address entry : Z := default 0 (pd_value (pe_definition entry)).
Definition entry_object entry st : list Z := default [] (param_storage st !! entry_address entry).
Definition put_object entry (bytes : list Z) st : param_state W :=
  set_storage (<[entry_address entry := buf_put 0 bytes (entry_object entry st)]> (param_storage st)) st.

Definition zero_text : list Z := replicate (Z.to_nat PARAM_STRING_MAX) 0.

Definition run_sampler entry st : param_state W :=
  match pd_sample (pe_definition entry) with
  | None => st
  | Some sample =>
      let '(object, w) := sample (entry_object entry st) (param_world st) in
      set_param_world w (set_storage (<[entry_address entry := object]> (param_storage st)) st)
  end.

Definition read_entry (entry : option (kfsw_param_entry W)) (value : option kfsw_param_value)
    (sample : bool) st : Z * option kfsw_param_value * param_state W :=
  match entry, value with
  | Some entry, Some _ =>
      let size := entry_capacity entry in
      if size =? 0 then (- ENOTSUP, value, st)
      else
        let st := if sample then run_sampler entry st else st in
        let object := entry_object entry st in
        let type := pi_type (pe_info entry) in
        if type =? KFSW_PARAM_STRING then
          let '(length, text) := copy_text zero_text PARAM_STRING_MAX object size in
          (0, Some {| pv_type := type; pv_size := length + 1; pv_scalar := 0; pv_bytes := text |}, st)
        else if type =? KFSW_PARAM_DATA then
          (0, Some {| pv_type := type; pv_size := size; pv_scalar := 0;
                      pv_bytes := buf_put 0 (take (Z.to_nat size) object) zero_text |}, st)
        else
          (0, Some {| pv_type := type; pv_size := size;
                      pv_scalar := le_value (take (Z.to_nat size) object);
                      pv_bytes := zero_text |}, st)
  | _, _ => (- EINVAL, value, st)
  end.
Definition kfsw_param_read_entry (entry : option (kfsw_param_entry W))
    (value : option kfsw_param_value) st := read_entry entry value true st.
Definition kfsw_param_read_stored_entry (entry : option (kfsw_param_entry W))
    (value : option kfsw_param_value) st := read_entry entry value false st.

(** A value's text is read up to its terminator. *)
Definition value_text value : list Z := cut_nul (pv_bytes value).

Definition kfsw_param_validate_entry (entry : option (kfsw_param_entry W))
    (value : option kfsw_param_value) st : Z :=
  match entry, value with
  | Some entry, Some value =>
      let size := entry_capacity entry in
      let definition := pe_definition entry in
      if size =? 0 then - ENOTSUP
      else if negb (pv_type value =? pi_type (pe_info entry)) then - EMSGSIZE
      else if pi_type (pe_info entry) =? KFSW_PARAM_STRING then
        if (pv_size value =? 0) || (pv_size value >? size) then - EMSGSIZE
        else match pd_validate_text definition with
             | Some validate => validate (value_text value) (param_world st)
             | None => 0
             end
      else if pi_type (pe_info entry) =? KFSW_PARAM_DATA then
        if negb (pv_size value =? size) then - EMSGSIZE
        else match pd_validate_data definition with
             | Some validate =>
                 validate (take (Z.to_nat (pv_size value)) (pv_bytes value)) (pv_size value) (param_world st)
             | None => 0
             end
      else if negb (pv_size value =? size) then - EMSGSIZE
      else match pd_validate definition with
           | Some validate => validate (pv_scalar value) (param_world st)
           | None => 0
           end
  | _, _ => - EINVAL
  end.

Definition kfsw_param_write_entry entry (value : kfsw_param_scalar) st : Z * param_state W :=
  let definition := pe_definition entry in
  let commit st :=
    let st := put_object entry (le_bytes (Z.to_nat (scalar_size (pi_type (pe_info entry)))) value) st in
    match pd_changed definition with
    | Some changed => set_param_world (changed value (param_world st)) st
    | None => st
    end in
  match pd_apply definition with
  | Some apply =>
      if initialized st then
        let '(result, w) := apply value (param_world st) in
        let st := set_param_world w st in
        if negb (result =? 0) then (result, st) else (0, commit st)
      else (0, commit st)
  | None => (0, commit st)
  end.

Definition kfsw_param_write_data_entry entry (data : list Z) (size : Z) st : param_state W :=
  let st := put_object entry (take (Z.to_nat size) data) st in
  match pd_changed_data (pe_definition entry) with
  | Some changed =>
      set_param_world (changed (take (Z.to_nat size) (entry_object entry st)) size (param_world st)) st
  | None => st
  end.

Definition kfsw_param_write_text_entry entry (text : list Z) st : param_state W :=
  let capacity := pi_array_size (pe_info entry) in
  let length := copy_length capacity capacity text 0 in
  let st := put_object entry (take (Z.to_nat length) text ++ [0]) st in
  match pd_changed_text (pe_definition entry) with
  | Some changed => set_param_world (changed (cut_nul (entry_object entry st)) (param_world st)) st
  | None => st
  end.

Definition kfsw_param_wire_apply entry (decoded : kfsw_param_value) st : Z * param_state W :=
  if pv_type decoded =? KFSW_PARAM_STRING
  then (0, kfsw_param_write_text_entry entry (value_text decoded) st)
  else if pv_type decoded =? KFSW_PARAM_DATA
  then (0, kfsw_param_write_data_entry entry (pv_bytes decoded) (pv_size decoded) st)
  else kfsw_param_write_entry entry (pv_scalar decoded) st.

Definition read_default entry : kfsw_param_value :=
  let type := pi_type (pe_info entry) in
  let definition := pe_definition entry in
  let size := entry_capacity entry in
  if type =? KFSW_PARAM_DATA then
    {| pv_type := type; pv_size := size; pv_scalar := 0;
       pv_bytes := match pd_default_data definition with
                   | Some data => buf_put 0 (take (Z.to_nat size) data) zero_text
                   | None => zero_text
                   end |}
  else if type =? KFSW_PARAM_STRING then
    let '(length, text) := copy_text zero_text PARAM_STRING_MAX
                             (default [] (pd_default_text definition)) (pi_array_size (pe_info entry)) in
    {| pv_type := type; pv_size := length + 1; pv_scalar := 0; pv_bytes := text |}
  else {| pv_type := type; pv_size := size; pv_scalar := pd_default_value definition;
          pv_bytes := zero_text |}.

Definition kfsw_param_write_default entry st : Z * param_state W :=
  let value := read_default entry in
  let result := if initialized st then kfsw_param_validate_entry (Some entry) (Some value) st else 0 in
  if result =? 0 then kfsw_param_wire_apply entry value st else (result, st).

Definition notify_changed entry value st : param_state W :=
  let definition := pe_definition entry in
  if pi_type (pe_info entry) =? KFSW_PARAM_STRING then
    match pd_changed_text definition with
    | Some changed => set_param_world (changed (value_text value) (param_world st)) st
    | None => st
    end
  else if pi_type (pe_info entry) =? KFSW_PARAM_DATA then
    match pd_changed_data definition with
    | Some changed =>
        set_param_world (changed (take (Z.to_nat (pv_size value)) (pv_bytes value)) (pv_size value)
                           (param_world st)) st
    | None => st
    end
  else
    match pd_changed definition with
    | Some changed => set_param_world (changed (pv_scalar value) (param_world st)) st
    | None => st
    end.

(** ** Looking up *)

Definition kfsw_param_entry_count st : nat := length (parameter_table st).
Definition kfsw_param_entry_at (index : nat) st : option (kfsw_param_entry W) :=
  parameter_table st !! index.

(** The binary search of the table, which is sorted by identifier. *)
Definition kfsw_param_find_id (id : Z) st : option (kfsw_param_entry W) :=
  let count := length (parameter_table st) in
  bisect (λ entry, pi_id (pe_info entry)) (S count) id 0 count (parameter_table st).

Definition kfsw_param_find_name (name : option (list Z)) st : option (kfsw_param_entry W) :=
  match name with
  | None => None
  | Some name => List.find (λ entry, str_eq (pi_name (pe_info entry)) name) (parameter_table st)
  end.

Definition stack_value : kfsw_param_value :=
  {| pv_type := 0; pv_size := 0; pv_scalar := 0; pv_bytes := zero_text |}.

Definition kfsw_param_value_accepted (id : Z) st : param_state W :=
  match kfsw_param_find_id id st with
  | Some entry =>
      match kfsw_param_read_stored_entry (Some entry) (Some stack_value) st with
      | (0, Some value, st) => notify_changed entry value st
      | (_, _, st) => st
      end
  | None => st
  end.
End entries.

(** ** Registering *)

Section registry.
Context {PC : ParamConfig} {W : Type}.
Implicit Types (entry : kfsw_param_entry W) (st : param_state W) (value : kfsw_param_value)
  (set : kfsw_param_definition_set W) (definition : kfsw_param_definition W).

Definition find_table (id : Z) st : option kfsw_param_table_info :=
  List.find (λ table, pt_id table =? id) (parameter_tables st).

Definition table_is_allocated (table : Z) : bool :=
  (table >=? KFSW_PARAM_TABLE_CORE_FIRST) && (table <=? KFSW_PARAM_TABLE_MODULE_LAST).

Definition add_table set st : Z * param_state W :=
  match ps_name set with
  | None => (- EINVAL, st)
  | Some name =>
      if (char_at name 0 =? 0) || negb (name_is_within_limit name) then (- EINVAL, st)
      else if negb (table_is_allocated (ps_table set)) then (- EINVAL, st)
      else if bool_decide (is_Some (find_table (ps_table set) st)) then (- EEXIST, st)
      else if zlen (parameter_tables st) >=? PARAM_MAX_TABLES then (- ENOSPC, st)
      else
        let tables := parameter_tables st in
        let position := insert_position (λ t, pt_id t >? ps_table set) tables in
        let table := {| pt_id := ps_table set; pt_name := name;
                        pt_description := ps_description set; pt_count := 0 |} in
        (0, set_table (parameter_table st) (insert_at position table tables) st)
  end.

(** A definition accepts its own default. *)
Definition check_default definition st : Z :=
  if pd_type definition =? KFSW_PARAM_DATA then
    match pd_validate_data definition with
    | Some validate =>
        let data := default (replicate (Z.to_nat PARAM_STRING_MAX) 0) (pd_default_data definition) in
        if negb (validate (take (Z.to_nat (pd_capacity definition)) data) (pd_capacity definition)
                   (param_world st) =? 0) then - ERANGE else 0
    | None => 0
    end
  else if pd_type definition =? KFSW_PARAM_STRING then
    let '(length, text) := copy_text zero_text PARAM_STRING_MAX
                             (default [] (pd_default_text definition)) (PARAM_STRING_MAX - 1) in
    if length >=? pd_capacity definition then - ERANGE
    else match pd_validate_text definition with
         | Some validate =>
             if negb (validate (cut_nul text) (param_world st) =? 0) then - ERANGE else 0
         | None => 0
         end
  else match pd_validate definition with
       | Some validate =>
           if negb (validate (pd_default_value definition) (param_world st) =? 0) then - ERANGE else 0
       | None => 0
       end.

(** The type and the capacity of a definition. *)
Definition check_capacity definition : Z :=
  if pd_type definition =? KFSW_PARAM_DATA then
    if (pd_capacity definition =? 0) || (pd_capacity definition >? PARAM_STRING_MAX) then - EINVAL else 0
  else if pd_type definition =? KFSW_PARAM_STRING then
    if (pd_capacity definition <? 2) || (pd_capacity definition >? PARAM_STRING_MAX) then - EINVAL else 0
  else if negb PARAM_FLOAT
          && ((pd_type definition =? KFSW_PARAM_FLOAT) || (pd_type definition =? KFSW_PARAM_DOUBLE))
  then - ENOTSUP
  else if scalar_size (pd_type definition) =? 0 then - EINVAL else 0.

(** Whether the identifier or the name is taken. *)
Definition is_taken (id : Z) (name : list Z) (l : list (kfsw_param_entry W)) : bool :=
  existsb (λ entry, (pi_id (pe_info entry) =? id) || str_eq (pi_name (pe_info entry)) name) l.

Definition live_flags definition : Z :=
  if bool_decide (is_Some (pd_apply definition)) || bool_decide (is_Some (pd_changed definition))
     || bool_decide (is_Some (pd_changed_text definition))
     || bool_decide (is_Some (pd_changed_data definition))
  then Z.lor (pd_flags definition) KFSW_PARAM_FLAG_LIVE else pd_flags definition.

Definition new_entry set definition (name : list Z) : kfsw_param_entry W := {|
  pe_info := {|
    pi_node := 0; pi_id := KFSW_PARAM_ID (ps_table set) (pd_offset definition);
    pi_table := ps_table set; pi_offset := pd_offset definition;
    pi_array_size := if is_array (pd_type definition) then pd_capacity definition else 1;
    pi_type := pd_type definition; pi_flags := live_flags definition;
    pi_table_name := ps_name set; pi_name := name; pi_unit := pd_unit definition;
    pi_description := pd_description definition;
    pi_read_only := negb (Z.land (live_flags definition) KFSW_PARAM_FLAG_READ_ONLY =? 0) |};
  pe_definition := definition |}.

(** [table->count++] through the pointer [find_table] answered. *)
Fixpoint count_in_table (id : Z) (tables : list kfsw_param_table_info) : list kfsw_param_table_info :=
  match tables with
  | [] => []
  | t :: tables =>
      if pt_id t =? id
      then {| pt_id := pt_id t; pt_name := pt_name t; pt_description := pt_description t;
              pt_count := u16 (pt_count t + 1) |} :: tables
      else t :: count_in_table id tables
  end.

Definition add_definition set definition st : Z * param_state W :=
  match pd_name definition, pd_value definition with
  | Some name, Some _ =>
      if char_at name 0 =? 0 then (- EINVAL, st)
      else if bool_decide (is_Some (pd_apply definition)) && is_array (pd_type definition)
      then (- EINVAL, st)
      else if negb (check_capacity definition =? 0) then (check_capacity definition, st)
      else if negb (name_is_within_limit name) then (- ENAMETOOLONG, st)
      else if zlen (parameter_table st) >=? PARAM_MAX_DEFINITIONS then (- ENOSPC, st)
      else
        match find_table (ps_table set) st with
        | None => (- ENOENT, st)
        | Some _ =>
            let wire_id := KFSW_PARAM_ID (ps_table set) (pd_offset definition) in
            if negb (check_default definition st =? 0) then (check_default definition st, st)
            else if is_taken wire_id name (parameter_table st) then (- EEXIST, st)
            else
              let position := insert_position (λ e, pi_id (pe_info e) >? wire_id) (parameter_table st) in
              (0, set_table (insert_at position (new_entry set definition name) (parameter_table st))
                    (count_in_table (ps_table set) (parameter_tables st)) st)
        end
  | _, _ => (- EINVAL, st)
  end.

Fixpoint add_definitions set (l : list (kfsw_param_definition W)) st : Z * param_state W :=
  match l with
  | [] => (0, st)
  | definition :: l =>
      let '(result, st) := add_definition set definition st in
      if negb (result =? 0) then (result, st) else add_definitions set l st
  end.

Fixpoint add_sets (l : list (option (kfsw_param_definition_set W))) st : Z * param_state W :=
  match l with
  | [] => (0, st)
  | None :: _ => (- EINVAL, st)
  | Some set :: l =>
      match ps_definitions set with
      | None | Some [] => (- EINVAL, st)
      | Some definitions =>
          let '(result, st) := add_table set st in
          if negb (result =? 0) then (result, st)
          else
            let '(result, st) := add_definitions set definitions st in
            if negb (result =? 0) then (result, st) else add_sets l st
      end
  end.

Fixpoint write_defaults (l : list (kfsw_param_entry W)) st : Z * param_state W :=
  match l with
  | [] => (0, st)
  | entry :: l =>
      let '(result, st) := kfsw_param_write_default entry st in
      if negb (result =? 0) then (result, st) else write_defaults l st
  end.

Definition kfsw_param_init (sets : option (list (option (kfsw_param_definition_set W)))) st
    : Z * param_state W :=
  match sets with
  | None | Some [] => (- EINVAL, st)
  | Some sets =>
      if initialized st then (0, st)
      else
        let '(result, st) := add_sets sets (set_table [] [] st) in
        let result := if (result =? 0) && (zlen (parameter_table st) =? 0) then - ENOENT else result in
        if result =? 0 then
          let '(result, st) := write_defaults (parameter_table st) st in
          (result, set_initialized (result =? 0) st)
        else (result, set_table [] [] st)
  end.

Definition param_boot (storage : gmap Z (list Z)) (w : W) : param_state W := {|
  parameter_table := []; parameter_tables := []; initialized := false; param_storage := storage;
  param_saves := 0; param_load_failures := 0; param_world := w |}.

(** ** Operations *)

Definition kfsw_param_is_initialized st : bool := initialized st.

Definition kfsw_param_get (name : option (list Z)) (value : option kfsw_param_value) st
    : Z * option kfsw_param_value * param_state W :=
  if bool_decide (name = None) || bool_decide (value = None) then (- EINVAL, value, st)
  else if negb (initialized st) then (- EACCES, value, st)
  else match kfsw_param_find_name name st with
       | None => (- ENOENT, value, st)
       | Some entry => kfsw_param_read_entry (Some entry) value st
       end.

Definition kfsw_param_get_by_id (id : Z) (value : option kfsw_param_value) st
    : Z * option kfsw_param_value * param_state W :=
  if bool_decide (value = None) then (- EINVAL, value, st)
  else if negb (initialized st) then (- EACCES, value, st)
  else match kfsw_param_find_id id st with
       | None => (- ENOENT, value, st)
       | Some entry => kfsw_param_read_entry (Some entry) value st
       end.

(** [autosave] is what follows an accepted change to a persistent value. *)
Definition kfsw_param_set (autosave : param_state W → param_state W) (name : option (list Z))
    (value : option kfsw_param_value) st : Z * param_state W :=
  match name, value with
  | Some _, Some value =>
      if negb (initialized st) then (- EACCES, st)
      else match kfsw_param_find_name name st with
           | None => (- ENOENT, st)
           | Some entry =>
               if pi_read_only (pe_info entry) then (- EACCES, st)
               else
                 let result := kfsw_param_validate_entry (Some entry) (Some value) st in
                 let '(result, st) := if result =? 0 then kfsw_param_wire_apply entry value st
                                      else (result, st) in
                 if result =? 0 then
                   (0, if negb (Z.land (pi_flags (pe_info entry)) KFSW_PARAM_FLAG_PERSISTENT =? 0)
                       then autosave st else st)
                 else (result, st)
           end
  | _, _ => (- EINVAL, st)
  end.

Definition is_persistent entry : bool :=
  negb (Z.land (pi_flags (pe_info entry)) KFSW_PARAM_FLAG_PERSISTENT =? 0).

(** The first loop: the defaults are checked before any is written. *)
Fixpoint check_defaults (l : list (kfsw_param_entry W)) (count : Z) (fallible : bool) st : Z * Z * bool :=
  match l with
  | [] => (0, count, fallible)
  | entry :: l =>
      if negb (is_persistent entry) then check_defaults l count fallible st
      else
        let fallible := fallible || bool_decide (is_Some (pd_apply (pe_definition entry))) in
        let result := kfsw_param_validate_entry (Some entry) (Some (read_default entry)) st in
        if negb (result =? 0) then (result, count + 1, fallible)
        else check_defaults l (count + 1) fallible st
  end.
Fixpoint apply_defaults (l : list (kfsw_param_entry W)) st : Z * param_state W :=
  match l with
  | [] => (0, st)
  | entry :: l =>
      if is_persistent entry then
        let '(result, st) := kfsw_param_wire_apply entry (read_default entry) st in
        if negb (result =? 0) then (result, st) else apply_defaults l st
      else apply_defaults l st
  end.
Definition kfsw_param_restore_defaults st : Z * param_state W :=
  if negb (initialized st) then (- EACCES, st)
  else
    let '(result, count, fallible) := check_defaults (parameter_table st) 0 false st in
    if negb (result =? 0) then (result, st)
    else if fallible && negb (count =? 1) then (- ENOTSUP, st)
    else apply_defaults (parameter_table st) st.

Fixpoint visit_list {A C} (visitor : A → C → C * bool) (l : list A) (c : C) : C :=
  match l with
  | [] => c
  | x :: l => let '(c, more) := visitor x c in if more then visit_list visitor l c else c
  end.
Definition kfsw_param_visit {C} (visitor : option (kfsw_param_info → C → C * bool)) st (c : C) : Z * C :=
  match visitor with
  | None => (- EINVAL, c)
  | Some visitor =>
      if negb (initialized st) then (- EACCES, c)
      else (0, visit_list (λ entry, visitor (pe_info entry)) (parameter_table st) c)
  end.
Definition kfsw_param_visit_tables {C} (visitor : option (kfsw_param_table_info → C → C * bool)) st
    (c : C) : Z * C :=
  match visitor with
  | None => (- EINVAL, c)
  | Some visitor =>
      if negb (initialized st) then (- EACCES, c)
      else (0, visit_list visitor (parameter_tables st) c)
  end.
Definition kfsw_param_table_count st : Z := zlen (parameter_tables st).

Definition kfsw_param_count_save st : param_state W := {|
  parameter_table := parameter_table st; parameter_tables := parameter_tables st;
  initialized := initialized st; param_storage := param_storage st;
  param_saves := u32 (param_saves st + 1); param_load_failures := param_load_failures st;
  param_world := param_world st |}.
Definition kfsw_param_count_load_failure st : param_state W := {|
  parameter_table := parameter_table st; parameter_tables := parameter_tables st;
  initialized := initialized st; param_storage := param_storage st; param_saves := param_saves st;
  param_load_failures := u32 (param_load_failures st + 1); param_world := param_world st |}.

Record kfsw_param_stats := {
  st_count : Z; st_tables : Z; st_persistent : Z; st_saves : Z; st_load_failures : Z;
  st_requests_dropped : Z;
}.
(** [dropped] is the count of the remote parameter server, zero without one. *)
Definition kfsw_param_get_stats (dropped : Z) (stats : option kfsw_param_stats) st
    : Z * option kfsw_param_stats :=
  match stats with
  | None => (- EINVAL, None)
  | Some _ => (0, Some {|
      st_count := u16 (zlen (parameter_table st)); st_tables := u16 (zlen (parameter_tables st));
      st_persistent := u16 (zlen (List.filter is_persistent (parameter_table st)));
      st_saves := param_saves st; st_load_failures := param_load_failures st;
      st_requests_dropped := dropped |})
  end.

Definition kfsw_param_sample_all st : param_state W :=
  fold_left (λ st entry, run_sampler entry st) (parameter_table st) st.

Definition kfsw_param_get_info (name : option (list Z)) (info : option kfsw_param_info) st
    : Z * option kfsw_param_info :=
  if bool_decide (name = None) || bool_decide (info = None) then (- EINVAL, info)
  else if negb (initialized st) then (- EACCES, info)
  else match kfsw_param_find_name name st with
       | None => (- ENOENT, info)
       | Some entry => (0, Some (pe_info entry))
       end.
End registry.

(** ** Names *)

Definition kfsw_param_band_name (table : Z) : string :=
  if (table >=? KFSW_PARAM_TABLE_CORE_FIRST) && (table <=? KFSW_PARAM_TABLE_CORE_LAST) then "core"
  else if (table >=? KFSW_PARAM_TABLE_SERVICE_FIRST) && (table <=? KFSW_PARAM_TABLE_SERVICE_LAST)
  then "service"
  else if (table >=? KFSW_PARAM_TABLE_MODULE_FIRST) && (table <=? KFSW_PARAM_TABLE_MODULE_LAST)
  then "module"
  else "invalid".

Definition kfsw_param_mode_name (flags : Z) : string :=
  let persistent := negb (Z.land flags KFSW_PARAM_FLAG_PERSISTENT =? 0) in
  if negb (Z.land flags KFSW_PARAM_FLAG_READ_ONLY =? 0) then if persistent then "rp" else "r"
  else if negb (Z.land flags KFSW_PARAM_FLAG_LIVE =? 0) then if persistent then "wp" else "w"
  else if persistent then "wpb" else "wb".

Definition kfsw_param_type_name (type : Z) : string :=
  nth (Z.to_nat type)
    ["u8"; "u16"; "u32"; "u64"; "i8"; "i16"; "i32"; "i64"; "x8"; "x16"; "x32"; "x64"; "float";
     "double"; "string"; "data"]%string "invalid"%string.
