(* ===== verification/ParamFacts.v ===== *)
(** * The parameter registry's invariant and the effect of its operations

    What [Param] promises: a registry that was built is sorted, without duplicates
    and consistent with the table list; a write lands in the storage of its parameter
    and nowhere else, and is read back. *)

From S2P Require Import Prelude Bytes CStdlib Sorted ParamTypes Param.

(** ** The registry *)

Section registry_proofs.
Context {PC : ParamConfig} {W : Type}.
Implicit Types (entry : kfsw_param_entry W) (st : param_state W) (set : kfsw_param_definition_set W)
  (definition : kfsw_param_definition W) (l : list (kfsw_param_entry W)).

Definition entry_id entry : Z := pi_id (pe_info entry).
Definition entry_name entry : list Z := pi_name (pe_info entry).
Definition entry_table entry : Z := pi_table (pe_info entry).

(** An entry describes its definition, which is one the service can run. *)
Definition entry_ok entry : Prop :=
  let info := pe_info entry in
  let definition := pe_definition entry in
  pd_name definition = Some (pi_name info) ∧ is_Some (pd_value definition) ∧
  pi_node info = 0 ∧ pi_id info = KFSW_PARAM_ID (pi_table info) (pi_offset info) ∧
  pi_offset info = pd_offset definition ∧ pi_type info = pd_type definition ∧
  pi_array_size info = (if is_array (pd_type definition) then pd_capacity definition else 1) ∧
  pi_flags info = live_flags definition ∧
  pi_read_only info = negb (Z.land (pi_flags info) KFSW_PARAM_FLAG_READ_ONLY =? 0) ∧
  char_at (pi_name info) 0 ≠ 0 ∧ strlen (pi_name info) <= KFSW_PARAM_NAME_MAX ∧
  check_capacity definition = 0 ∧
  (is_array (pd_type definition) = true → pd_apply definition = None) ∧
  (pd_type definition = KFSW_PARAM_STRING →
   copy_length PARAM_STRING_MAX (PARAM_STRING_MAX - 1) (default [] (pd_default_text definition)) 0
   < pd_capacity definition).

Definition table_ok (t : kfsw_param_table_info) : Prop :=
  table_is_allocated (pt_id t) = true ∧ char_at (pt_name t) 0 ≠ 0 ∧
  strlen (pt_name t) <= KFSW_PARAM_NAME_MAX.

Definition in_table (id : Z) l : list (kfsw_param_entry W) :=
  List.filter (λ entry, entry_table entry =? id) l.

Definition registry_wf st : Prop :=
  let l := parameter_table st in
  let tables := parameter_tables st in
  sorted_by entry_id l ∧ NoDup (entry_name <$> l) ∧ Forall entry_ok l ∧
  sorted_by pt_id tables ∧ Forall table_ok tables ∧
  Forall (λ entry, entry_table entry ∈ pt_id <$> tables) l ∧
  Forall (λ t, pt_count t = zlen (in_table (pt_id t) l)) tables ∧
  zlen l <= PARAM_MAX_DEFINITIONS ∧ zlen tables <= PARAM_MAX_TABLES.

Lemma registry_empty st : registry_wf (set_table [] [] st).
Proof.
  pose proof PARAM_MAX_DEFINITIONS_range. pose proof PARAM_MAX_TABLES_range.
  unfold registry_wf. cbn. split_and!; try (by constructor); unfold zlen; cbn; lia.
Qed.

Lemma find_table_none id st : find_table id st = None → id ∉ pt_id <$> parameter_tables st.
Proof.
  unfold find_table. intros H (t & -> & Ht)%list_elem_of_fmap.
  apply list_elem_of_In in Ht. pose proof (List.find_none _ _ H t Ht). cbn in *. lia.
Qed.
Lemma find_table_some id st t :
  find_table id st = Some t → id ∈ pt_id <$> parameter_tables st.
Proof.
  unfold find_table. intros [Ht Hi]%List.find_some. apply list_elem_of_fmap. exists t.
  split; [cbn in *; lia|by apply list_elem_of_In].
Qed.

Lemma in_table_none id l : Forall (λ entry, entry_table entry ≠ id) l → in_table id l = [].
Proof.
  unfold in_table. induction 1 as [|entry l H _ IH]; [done|]. cbn.
  by rewrite (proj2 (Z.eqb_neq _ _) H).
Qed.
Lemma in_table_perm id l l' : l ≡ₚ l' → zlen (in_table id l) = zlen (in_table id l').
Proof.
  intros H. unfold zlen, in_table. f_equal. apply Permutation_length.
  induction H as [| | |l1 l2 l3 _ IH1 _ IH2]; cbn; repeat case_match; try constructor; auto.
  by etrans.
Qed.
Lemma in_table_cons id entry l :
  zlen (in_table id (entry :: l)) = (if entry_table entry =? id then 1 else 0) + zlen (in_table id l).
Proof. unfold in_table. cbn [List.filter]. case_match; rewrite ?zlen_cons; lia. Qed.
Lemma in_table_length id l : zlen (in_table id l) <= zlen l.
Proof. unfold zlen, in_table. pose proof (List.filter_length_le (λ entry, entry_table entry =? id) l). lia. Qed.

Lemma add_table_wf set st st' :
  registry_wf st → add_table set st = (0, st') →
  registry_wf st' ∧ parameter_table st' = parameter_table st ∧ initialized st' = initialized st ∧
  param_storage st' = param_storage st ∧ param_world st' = param_world st ∧
  pt_id <$> parameter_tables st' ≡ₚ ps_table set :: (pt_id <$> parameter_tables st).
Proof.
  unfold add_table. intros (Hs & Hn & Ho & Hts & Hto & Htab & Hcnt & Hl & Ht) H.
  destruct (ps_name set) as [name|]; [|done].
  destruct ((char_at name 0 =? 0) || _) eqn:G0; [done|].
  destruct (negb (table_is_allocated _)) eqn:G1; [done|].
  case_bool_decide as G2; [done|]. destruct (zlen _ >=? _) eqn:G3; [done|]. injection H as <-.
  assert (find_table (ps_table set) st = None) as Hnone by (by apply eq_None_not_Some).
  pose proof (find_table_none _ _ Hnone) as Hnew.
  set (t := {| pt_id := _; pt_name := _; pt_description := _; pt_count := _ |}).
  set (i := insert_position _ _). pose proof (insert_at_perm i t (parameter_tables st)) as Hp.
  unfold registry_wf. cbn -[in_table]. split; [|split_and!; try done; by rewrite Hp].
  split_and!; try done.
  - by apply (insert_sorted pt_id t).
  - rewrite Hp. constructor; [|done]. unfold table_ok, name_is_within_limit in *. subst t. cbn [pt_id pt_name].
    split_and!; [by apply negb_false_iff|lia|lia].
  - eapply Forall_impl; [exact Htab|]. cbn. intros entry He. rewrite Hp. by apply list_elem_of_further.
  - rewrite Hp. constructor; [|done]. subst t. cbn [pt_count pt_id].
    rewrite in_table_none; [done|].
    eapply Forall_impl; [exact Htab|]. cbn. intros entry He Heq. apply Hnew. by rewrite <- Heq.
  - unfold zlen in *. rewrite insert_at_length. lia.
Qed.

Lemma count_in_table_ids id tables : pt_id <$> count_in_table id tables = pt_id <$> tables.
Proof. induction tables as [|t tables IH]; cbn; [done|]. case_match; cbn; congruence. Qed.

Lemma count_in_table_elem id tables t :
  sorted_by pt_id tables → t ∈ count_in_table id tables →
  ∃ t0, t0 ∈ tables ∧ pt_id t = pt_id t0 ∧ pt_name t = pt_name t0 ∧
    pt_count t = if pt_id t =? id then u16 (pt_count t0 + 1) else pt_count t0.
Proof.
  induction tables as [|t0 tables IH]; cbn; [by intros _ ?%elem_of_nil|].
  intros [Hs Ht0]%StronglySorted_inv. destruct (pt_id t0 =? id) eqn:E.
  - intros [->|Ht]%elem_of_cons.
    + exists t0. cbn. rewrite E. split_and!; try done. by apply list_elem_of_here.
    + exists t. split; [by apply list_elem_of_further|]. rewrite Forall_forall in Ht0.
      specialize (Ht0 t Ht). assert ((pt_id t =? id) = false) as -> by lia. done.
  - intros [->|Ht]%elem_of_cons.
    + exists t0. rewrite E. split_and!; try done. by apply list_elem_of_here.
    + destruct (IH Hs Ht) as (t1 & ? & ?). exists t1. split; [by apply list_elem_of_further|done].
Qed.

Lemma is_taken_false id name l :
  is_taken id name l = false → id ∉ entry_id <$> l ∧ name ∉ entry_name <$> l.
Proof.
  unfold is_taken. intros H. split; intros (entry & He & Hin)%list_elem_of_fmap;
    apply list_elem_of_In in Hin; apply not_true_iff_false in H; apply H; apply existsb_exists;
    exists entry; (split; [done|]); unfold entry_id, entry_name, str_eq in *; subst.
  - by rewrite Z.eqb_refl.
  - rewrite bool_decide_true by done. by rewrite orb_true_r.
Qed.

Definition definitions st : list (kfsw_param_definition W) := pe_definition <$> parameter_table st.
Definition table_ids st : list Z := pt_id <$> parameter_tables st.

(** Everything but the two arrays. *)
Definition same_rest st st' : Prop :=
  initialized st' = initialized st ∧ param_storage st' = param_storage st ∧
  param_world st' = param_world st.

Lemma check_default_text definition st :
  pd_type definition = KFSW_PARAM_STRING → check_default definition st = 0 →
  copy_length PARAM_STRING_MAX (PARAM_STRING_MAX - 1) (default [] (pd_default_text definition)) 0
  < pd_capacity definition.
Proof.
  unfold check_default. intros ->. cbn [Z.eqb KFSW_PARAM_STRING KFSW_PARAM_DATA Pos.eqb].
  unfold copy_text. destruct (_ >=? _) eqn:E; [done|]. intros _. lia.
Qed.

Lemma add_definition_wf set definition st st' :
  registry_wf st → add_definition set definition st = (0, st') →
  registry_wf st' ∧ definitions st' ≡ₚ definition :: definitions st ∧
  table_ids st' = table_ids st ∧ same_rest st st'.
Proof.
  unfold add_definition. intros (Hs & Hn & Ho & Hts & Hto & Htab & Hcnt & Hl & Ht) H.
  destruct (pd_name definition) as [name|] eqn:Ename; [|done].
  destruct (pd_value definition) as [loc|] eqn:Eloc; [|done].
  destruct (char_at name 0 =? 0) eqn:G0; [done|].
  destruct (bool_decide _ && is_array _) eqn:G1; [done|].
  destruct (negb (check_capacity definition =? 0)) eqn:G2; [by simplify_eq; rewrite H in *|].
  destruct (negb (name_is_within_limit name)) eqn:G3; [done|].
  destruct (zlen _ >=? _) eqn:G4; [done|]. destruct (find_table _ _) as [t|] eqn:G5; [|done].
  destruct (negb (check_default definition st =? 0)) eqn:G6; [by simplify_eq; rewrite H in *|].
  destruct (is_taken _ _ _) eqn:G7; [done|]. injection H as <-.
  apply is_taken_false in G7 as [Hid Hname]. apply find_table_some in G5.
  set (entry := new_entry set definition name). set (i := insert_position _ _).
  pose proof (insert_at_perm i entry (parameter_table st)) as Hp.
  pose proof PARAM_MAX_DEFINITIONS_range.
  unfold registry_wf, definitions, table_ids. cbn -[in_table entry]. rewrite count_in_table_ids.
  split; [|split; [by rewrite Hp|done]]. split_and!.
  - by apply (insert_sorted entry_id entry).
  - rewrite Hp. by constructor.
  - rewrite Hp. constructor; [|done]. unfold entry_ok.
    cbn -[char_at strlen check_capacity KFSW_PARAM_NAME_MAX]. rewrite Ename, Eloc.
    unfold name_is_within_limit in G3. split_and!; try done; [lia|lia|lia| |].
    + intros Ha. rewrite Ha, andb_true_r in G1. apply bool_decide_eq_false in G1.
      by apply eq_None_not_Some.
    + intros Ht0. apply (check_default_text _ st Ht0). lia.
  - apply sorted_by_keys. rewrite count_in_table_ids. by apply (sorted_by_keys pt_id).
  - rewrite Forall_forall. intros t0 H0. apply count_in_table_elem in H0 as (t1 & H1 & Hi & Hna & _); [|done].
    rewrite Forall_forall in Hto. specialize (Hto t1 H1). unfold table_ok in *. by rewrite Hi, Hna.
  - rewrite Hp. by constructor.
  - rewrite Forall_forall. intros t0 H0. apply count_in_table_elem in H0 as (t1 & H1 & Hi & _ & Hc); [|done].
    rewrite Forall_forall in Hcnt. specialize (Hcnt t1 H1). cbn in Hcnt.
    rewrite (in_table_perm _ _ _ Hp), Hc, Hcnt, Hi, in_table_cons.
    change (entry_table entry) with (ps_table set). rewrite (Z.eqb_sym (ps_table set)).
    pose proof (in_table_length (pt_id t1) (parameter_table st)).
    pose proof (zlen_nonneg (in_table (pt_id t1) (parameter_table st))).
    destruct (pt_id t1 =? ps_table set); [|lia]. rewrite u16_id by clia. lia.
  - unfold zlen in *. rewrite insert_at_length. lia.
  - unfold zlen in *. rewrite <- (length_fmap pt_id), count_in_table_ids, length_fmap. done.
Qed.

Lemma same_rest_trans st1 st2 st3 : same_rest st1 st2 → same_rest st2 st3 → same_rest st1 st3.
Proof. intros (? & ? & ?) (? & ? & ?). split_and!; congruence. Qed.

Lemma add_definitions_wf set ds st st' :
  registry_wf st → add_definitions set ds st = (0, st') →
  registry_wf st' ∧ definitions st' ≡ₚ ds ++ definitions st ∧ table_ids st' = table_ids st ∧
  same_rest st st'.
Proof.
  revert st. induction ds as [|d ds IH]; intros st Hwf H; cbn in H.
  { by injection H as <-. }
  destruct (add_definition set d st) as [rc st1] eqn:E. destruct (negb (rc =? 0)) eqn:G.
  { injection H as -> _. done. }
  assert (rc = 0) as -> by lia. apply add_definition_wf in E as (Hwf1 & Hd & Ht & Hr); [|done].
  destruct (IH st1 Hwf1 H) as (Hwf' & Hd' & Ht' & Hr'). split_and!; [done| |congruence|].
  - rewrite Hd', Hd. cbn. by rewrite Permutation_middle.
  - by eapply same_rest_trans.
Qed.

(** The definitions and the tables a composition supplies. *)
Definition set_definitions (o : option (kfsw_param_definition_set W)) : list (kfsw_param_definition W) :=
  match o with Some set => default [] (ps_definitions set) | None => [] end.
Definition set_id (o : option (kfsw_param_definition_set W)) : Z :=
  match o with Some set => ps_table set | None => 0 end.
Definition supplied (sets : list (option (kfsw_param_definition_set W))) : list (kfsw_param_definition W) :=
  concat (set_definitions <$> sets).

Lemma add_sets_wf sets st st' :
  registry_wf st → add_sets sets st = (0, st') →
  registry_wf st' ∧ definitions st' ≡ₚ supplied sets ++ definitions st ∧
  table_ids st' ≡ₚ (set_id <$> sets) ++ table_ids st ∧ same_rest st st'.
Proof.
  revert st. induction sets as [|[set|] sets IH]; intros st Hwf H; cbn in H; [by injection H as <-| |done].
  destruct (ps_definitions set) as [[|d ds]|] eqn:Eds; [done| |done].
  destruct (add_table set st) as [rc st1] eqn:E1. destruct (negb (rc =? 0)) eqn:G1.
  { injection H as -> _. done. }
  assert (rc = 0) as -> by lia. apply add_table_wf in E1 as (Hwf1 & Hl1 & Hi1 & Hs1 & Hw1 & Ht1); [|done].
  destruct (add_definitions set (d :: ds) st1) as [rc2 st2] eqn:E2. destruct (negb (rc2 =? 0)) eqn:G2.
  { injection H as -> _. done. }
  assert (rc2 = 0) as -> by lia. apply add_definitions_wf in E2 as (Hwf2 & Hd2 & Ht2 & Hr2); [|done].
  destruct (IH st2 Hwf2 H) as (Hwf3 & Hd3 & Ht3 & Hr3).
  assert (definitions st1 = definitions st) as Hd1 by (unfold definitions; by rewrite Hl1).
  split_and!; [done| | |].
  - assert (supplied (Some set :: sets) = (d :: ds) ++ supplied sets) as -> by (unfold supplied; cbn; by rewrite Eds).
    rewrite Hd3, Hd2, Hd1, !app_assoc. apply Permutation_app_tail, Permutation_app_comm.
  - rewrite Ht3, Ht2. unfold table_ids at 1. rewrite Ht1. cbn. by rewrite Permutation_middle.
  - eapply same_rest_trans; [|exact Hr3]. by eapply same_rest_trans; [|exact Hr2].
Qed.
End registry_proofs.

(** ** Storage *)

Lemma cut_nul_no_nul l : 0 ∉ cut_nul l.
Proof.
  induction l as [|c l IH]; cbn; [apply not_elem_of_nil|].
  destruct (c =? 0) eqn:E; [apply not_elem_of_nil|]. apply not_elem_of_cons. split; [lia|done].
Qed.
Lemma cut_nul_app t r : 0 ∉ t → cut_nul (t ++ 0 :: r) = t.
Proof.
  induction t as [|c t IH]; intros H; [done|]. cbn. apply not_elem_of_cons in H as [Hc H].
  assert ((c =? 0) = false) as -> by lia. by rewrite IH.
Qed.
Lemma cut_nul_id t : 0 ∉ t → cut_nul t = t.
Proof.
  induction t as [|c t IH]; intros H; [done|]. cbn. apply not_elem_of_cons in H as [Hc H].
  assert ((c =? 0) = false) as -> by lia. by rewrite IH.
Qed.

(** A text with room for its terminator holds it. *)
Lemma take_text l : (length (cut_nul l) < length l)%nat → take (Z.to_nat (zlen (cut_nul l) + 1)) l = cut_nul l ++ [0].
Proof.
  replace (Z.to_nat (zlen (cut_nul l) + 1)) with (S (length (cut_nul l))) by (unfold zlen; lia).
  induction l as [|c l IH]; cbn; [lia|]. destruct (c =? 0) eqn:E; cbn; intros H.
  - f_equal. lia.
  - f_equal. apply IH. lia.
Qed.

(** The bounded copy takes what fits of the text. *)
Lemma copy_length_spec d s source n :
  copy_length d s source n = Z.max n (Z.min (n + zlen (cut_nul source)) (Z.min s (d - 1))).
Proof.
  revert n. induction source as [|c source IH]; intros n; cbn [copy_length cut_nul].
  { rewrite zlen_nil. lia. }
  destruct (c =? 0) eqn:Ec; cbn [negb]; [rewrite andb_false_r, zlen_nil; lia|].
  rewrite andb_true_r, zlen_cons. pose proof (zlen_nonneg (cut_nul source)).
  destruct ((n <? s) && (n + 1 <? d)) eqn:G; [rewrite IH|]; lia.
Qed.

Section storage_proofs.
Context {PC : ParamConfig} {W : Type}.
Implicit Types (entry : kfsw_param_entry W) (st : param_state W) (value : kfsw_param_value).

(** A parameter has storage as large as its capacity, which is a [uint16_t]. *)
Definition entry_stored entry st : Prop :=
  is_u16 (pd_capacity (pe_definition entry)) ∧
  ∃ object, param_storage st !! entry_address entry = Some object ∧
    entry_capacity entry <= zlen object.
(** Every parameter has storage of its own. *)
Definition storage_ok st : Prop :=
  NoDup (entry_address <$> parameter_table st) ∧
  Forall (λ entry, entry_stored entry st) (parameter_table st).

(** A value as a caller builds it: a text's size counts its terminator. *)
Definition value_wf value : Prop :=
  zlen (pv_bytes value) = PARAM_STRING_MAX ∧
  (pv_type value = KFSW_PARAM_STRING → pv_size value = strlen (value_text value) + 1).

(** The bytes a write puts at the start of the storage: a text is cut to its room. *)
Definition written_bytes entry value : list Z :=
  if pi_type (pe_info entry) =? KFSW_PARAM_STRING then
    let room := pi_array_size (pe_info entry) in
    take (Z.to_nat (copy_length room room (value_text value) 0)) (value_text value) ++ [0]
  else if pi_type (pe_info entry) =? KFSW_PARAM_DATA then take (Z.to_nat (pv_size value)) (pv_bytes value)
  else le_bytes (Z.to_nat (scalar_size (pi_type (pe_info entry)))) (pv_scalar value).
(** The bytes that stand for a value. *)
Definition stored_bytes entry value : list Z :=
  if pi_type (pe_info entry) =? KFSW_PARAM_STRING then value_text value ++ [0]
  else if pi_type (pe_info entry) =? KFSW_PARAM_DATA then take (Z.to_nat (pv_size value)) (pv_bytes value)
  else le_bytes (Z.to_nat (scalar_size (pi_type (pe_info entry)))) (pv_scalar value).

(** The same value as far as its type and size reach. *)
Definition same_value (v v' : kfsw_param_value) : Prop :=
  pv_type v = pv_type v' ∧ pv_size v = pv_size v' ∧
  (is_array (pv_type v) = false → pv_scalar v = pv_scalar v' mod 2 ^ (8 * pv_size v')) ∧
  (is_array (pv_type v) = true →
     take (Z.to_nat (pv_size v)) (pv_bytes v) = take (Z.to_nat (pv_size v)) (pv_bytes v')).

Lemma entry_object_put entry bs st :
  entry_object entry (put_object entry bs st) = buf_put 0 bs (entry_object entry st).
Proof. unfold entry_object at 1, put_object. cbn. by rewrite lookup_insert_eq. Qed.

(** Two states whose storage differs only at the entry's address. *)
Definition only_writes entry (bs : list Z) st st' : Prop :=
  param_storage st' = <[entry_address entry := buf_put 0 bs (entry_object entry st)]> (param_storage st) ∧
  parameter_table st' = parameter_table st ∧ parameter_tables st' = parameter_tables st ∧
  initialized st' = initialized st.
(** Two states that differ in the components' state only. *)
Definition only_world st st' : Prop :=
  param_storage st' = param_storage st ∧ parameter_table st' = parameter_table st ∧
  parameter_tables st' = parameter_tables st ∧ initialized st' = initialized st.

Lemma validate_cases entry value st :
  kfsw_param_validate_entry (Some entry) (Some value) st = 0 →
  entry_capacity entry ≠ 0 ∧ pv_type value = pi_type (pe_info entry) ∧
  (pi_type (pe_info entry) = KFSW_PARAM_STRING → 0 ≠ pv_size value ∧ pv_size value <= entry_capacity entry) ∧
  (pi_type (pe_info entry) ≠ KFSW_PARAM_STRING → pv_size value = entry_capacity entry).
Proof.
  unfold kfsw_param_validate_entry. destruct (entry_capacity entry =? 0) eqn:G0; [done|].
  destruct (negb (pv_type value =? _)) eqn:G1; [done|].
  destruct (_ =? KFSW_PARAM_STRING) eqn:G2.
  { destruct (_ || _) eqn:G3; [done|]. intros _. split_and!; try lia. }
  destruct (_ =? KFSW_PARAM_DATA) eqn:G4.
  { destruct (negb (pv_size value =? _)) eqn:G3; [done|]. intros _. split_and!; lia. }
  destruct (negb (pv_size value =? _)) eqn:G3; [done|]. intros _. split_and!; lia.
Qed.

Lemma wire_apply_effect entry value st rc st' :
  pv_type value = pi_type (pe_info entry) → kfsw_param_wire_apply entry value st = (rc, st') →
  (rc = 0 → only_writes entry (written_bytes entry value) st st') ∧ (rc ≠ 0 → only_world st st').
Proof.
  intros Ht H. unfold kfsw_param_wire_apply, written_bytes in *. rewrite Ht in *.
  destruct (_ =? KFSW_PARAM_STRING) eqn:G1.
  { injection H as <- <-. split; [intros _|done]. unfold kfsw_param_write_text_entry.
    destruct (pd_changed_text _); by split_and!. }
  destruct (_ =? KFSW_PARAM_DATA) eqn:G2.
  { injection H as <- <-. split; [intros _|done]. unfold kfsw_param_write_data_entry.
    destruct (pd_changed_data _); by split_and!. }
  unfold kfsw_param_write_entry in H. destruct (pd_apply _) as [apply|].
  - destruct (initialized st) eqn:Hi.
    + destruct (apply (pv_scalar value) (param_world st)) as [result w].
      destruct (negb (result =? 0)) eqn:Hr; injection H as <- <-; split; intros H; try done; [lia|].
      destruct (pd_changed _); by split_and!.
    + injection H as <- <-. split; [intros _|done]. destruct (pd_changed _); by split_and!.
  - injection H as <- <-. split; [intros _|done]. destruct (pd_changed _); by split_and!.
Qed.

Lemma written_stored entry value :
  value_wf value → pv_type value = pi_type (pe_info entry) → pv_size value <= entry_capacity entry →
  written_bytes entry value = stored_bytes entry value.
Proof.
  intros (_ & Htext) Ht Hsz. unfold written_bytes, stored_bytes.
  destruct (_ =? KFSW_PARAM_STRING) eqn:G1; [|done]. cbv zeta.
  rewrite copy_length_spec, (cut_nul_id (value_text value)) by apply cut_nul_no_nul.
  unfold entry_capacity, info_capacity, is_array in Hsz. rewrite G1 in Hsz. cbn [orb] in Hsz.
  specialize (Htext ltac:(lia)). unfold strlen in Htext. pose proof (zlen_nonneg (value_text value)).
  rewrite take_ge by (unfold zlen in *; lia). done.
Qed.
End storage_proofs.

Section readback.
Context {PC : ParamConfig} {W : Type}.
Implicit Types (entry : kfsw_param_entry W) (st : param_state W) (value : kfsw_param_value).

(** A parameter that is read as it is stored. *)
Definition not_sampled entry : Prop := pd_sample (pe_definition entry) = None.

Lemma capacity_bounds entry :
  entry_ok entry → is_u16 (pd_capacity (pe_definition entry)) →
  0 < entry_capacity entry <= PARAM_STRING_MAX.
Proof.
  unfold is_u16. intros (_ & _ & _ & _ & _ & Ht & Ha & _ & _ & _ & _ & Hc & _ & _) Hu. pose proof PARAM_STRING_MAX_range.
  unfold entry_capacity, info_capacity, check_capacity in *. rewrite Ha, Ht.
  unfold is_array. destruct (_ =? KFSW_PARAM_DATA) eqn:Hd.
  { rewrite orb_true_r. destruct (_ || _) eqn:E in Hc; [done|]. cbn.
    lia. }
  rewrite orb_false_r. destruct (_ =? KFSW_PARAM_STRING).
  { destruct (_ || _) eqn:E in Hc; [done|]. lia. }
  destruct (negb PARAM_FLOAT && _); [done|]. destruct (scalar_size _ =? 0) eqn:E; [done|].
  unfold scalar_size in *. repeat case_match; lia.
Qed.

Lemma read_back entry value st st' any :
  entry_ok entry → value_wf value → kfsw_param_validate_entry (Some entry) (Some value) st = 0 →
  entry_stored entry st →
  entry_object entry st' = buf_put 0 (stored_bytes entry value) (entry_object entry st) →
  ∃ got, kfsw_param_read_stored_entry (Some entry) (Some any) st' = (0, Some got, st') ∧
    same_value got value.
Proof.
  intros Hok (Hlen & Htext) Hval (Hu & object & Hobj & Hsz) Hw.
  apply validate_cases in Hval as (Hc & Ht & Hs & Hn). pose proof (capacity_bounds entry Hok Hu) as Hcap.
  unfold kfsw_param_read_stored_entry, read_entry.
  rewrite (proj2 (Z.eqb_neq _ _) Hc), Hw. unfold entry_object. rewrite Hobj. cbn [default from_option id].
  rewrite buf_put_0. unfold stored_bytes, same_value.
  destruct (_ =? KFSW_PARAM_STRING) eqn:G1.
  { assert (pi_type (pe_info entry) = KFSW_PARAM_STRING) as E by lia.
    destruct (Hs E) as [_ Hle]. rewrite <- Ht in E. specialize (Htext E). unfold strlen in Htext.
    pose proof (zlen_nonneg (value_text value)) as Hnn.
    assert (cut_nul ((value_text value ++ [0]) ++ drop (length (value_text value ++ [0])) object)
      = value_text value) as Hcut.
    { rewrite <- app_assoc. apply cut_nul_app, cut_nul_no_nul. }
    unfold copy_text. rewrite copy_length_spec, Hcut.
    replace (Z.max 0 (Z.min (0 + zlen (value_text value)) (Z.min (entry_capacity entry) (PARAM_STRING_MAX - 1))))
      with (zlen (value_text value)) by lia.
    eexists. split; [reflexivity|]. cbn [pv_type pv_size pv_scalar pv_bytes]. split_and!; [lia|lia| |].
    - intros Ha. unfold is_array in Ha. rewrite G1 in Ha. done.
    - intros _. rewrite <- app_assoc, buf_put_0.
      replace (Z.to_nat (zlen (value_text value))) with (length (value_text value)) by (unfold zlen; lia).
      rewrite take_app_length.
      replace (Z.to_nat (zlen (value_text value) + 1)) with (length (value_text value ++ [0]))
        by (rewrite length_app; unfold zlen; cbn; lia).
      rewrite take_app_length. rewrite length_app. cbn [length].
      replace (length (value_text value) + 1)%nat with (Z.to_nat (zlen (cut_nul (pv_bytes value)) + 1))
        by (unfold zlen, value_text; lia).
      symmetry. apply take_text. unfold zlen, value_text in *. lia. }
  destruct (_ =? KFSW_PARAM_DATA) eqn:G2.
  { assert (pv_size value = entry_capacity entry) as Hsize by (apply Hn; lia).
    eexists. split; [reflexivity|]. cbn [pv_type pv_size pv_scalar pv_bytes]. split_and!; [lia|lia| |].
    - intros Ha. unfold is_array in Ha. rewrite G2, orb_true_r in Ha. done.
    - intros _. rewrite buf_put_0, Hsize. set (n := Z.to_nat (entry_capacity entry)).
      assert (length (take n (pv_bytes value)) = n) as Hn'
        by (rewrite length_take; subst n; unfold zlen in *; lia).
      rewrite (take_app_length' (take n (pv_bytes value)) _ n) by done.
      by apply take_app_length'. }
  assert (pv_size value = entry_capacity entry) as Hsize by (apply Hn; lia).
  assert (entry_capacity entry = scalar_size (pi_type (pe_info entry))) as Hcs.
  { unfold entry_capacity, info_capacity, is_array. by rewrite G1, G2. }
  eexists. split; [reflexivity|]. cbn [pv_type pv_size pv_scalar pv_bytes]. split_and!; [lia|lia| |].
  - intros _. rewrite take_app_le by (rewrite le_bytes_length; lia).
    rewrite take_ge by (rewrite le_bytes_length; lia). rewrite le_value_bytes. f_equal. f_equal. lia.
  - intros Ha. unfold is_array in Ha. rewrite G1, G2 in Ha. done.
Qed.
End readback.

(** ** The service *)

Section service.
Context {PC : ParamConfig} {W : Type}.
Implicit Types (entry : kfsw_param_entry W) (st : param_state W) (value : kfsw_param_value)
  (l : list (kfsw_param_entry W)).

(** The arrays and whether the service runs. *)
Definition same_registry st st' : Prop :=
  parameter_table st' = parameter_table st ∧ parameter_tables st' = parameter_tables st ∧
  initialized st' = initialized st.

Lemma same_registry_refl st : same_registry st st.
Proof. done. Qed.
Lemma same_registry_trans st1 st2 st3 :
  same_registry st1 st2 → same_registry st2 st3 → same_registry st1 st3.
Proof. intros (? & ? & ?) (? & ? & ?). split_and!; congruence. Qed.

(** The storage keeps its objects, each of its size: nothing was written past an end. *)
Definition same_sizes st st' : Prop :=
  ∀ a, length <$> (param_storage st' !! a) = length <$> (param_storage st !! a).

Lemma same_sizes_refl st : same_sizes st st.
Proof. done. Qed.
Lemma same_sizes_trans st1 st2 st3 : same_sizes st1 st2 → same_sizes st2 st3 → same_sizes st1 st3.
Proof. intros H1 H2 a. by rewrite H2. Qed.

Lemma buf_put_length_0 {A} (bs buf : list A) :
  (length bs <= length buf)%nat → length (buf_put 0 bs buf) = length buf.
Proof. intros. rewrite buf_put_0, length_app, length_drop. lia. Qed.

Lemma only_writes_sizes entry bs st st' object :
  param_storage st !! entry_address entry = Some object → (length bs <= length object)%nat →
  only_writes entry bs st st' → same_sizes st st'.
Proof.
  intros Ho Hl (Hs & _) a. rewrite Hs. unfold entry_object. rewrite Ho. cbn [default from_option id].
  destruct (decide (a = entry_address entry)) as [->|Hne].
  - rewrite lookup_insert_eq, Ho. cbn. by rewrite buf_put_length_0.
  - by rewrite lookup_insert_ne.
Qed.

Lemma written_bytes_length entry value :
  0 < entry_capacity entry →
  (pi_type (pe_info entry) = KFSW_PARAM_DATA → pv_size value <= entry_capacity entry) →
  zlen (written_bytes entry value) <= entry_capacity entry.
Proof.
  intros Hc Hs. unfold written_bytes. unfold entry_capacity, info_capacity, is_array in *.
  destruct (_ =? KFSW_PARAM_STRING) eqn:G1.
  { cbn [orb] in *. cbv zeta. rewrite copy_length_spec.
    pose proof (zlen_nonneg (cut_nul (value_text value))).
    set (n := Z.to_nat _). assert (Z.of_nat n + 1 <= pi_array_size (pe_info entry)) by (subst n; lia).
    unfold zlen. rewrite length_app, length_take. cbn [length]. lia. }
  destruct (_ =? KFSW_PARAM_DATA) eqn:G2.
  { cbn [orb] in *. unfold zlen. rewrite length_take. specialize (Hs ltac:(lia)). lia. }
  cbn [orb] in *. unfold zlen. rewrite le_bytes_length. lia.
Qed.

Lemma run_sampler_none entry st : not_sampled entry → run_sampler entry st = st.
Proof. unfold not_sampled, run_sampler. by intros ->. Qed.

Lemma only_writes_registry entry bs st st' : only_writes entry bs st st' → same_registry st st'.
Proof. intros (_ & ? & ? & ?). done. Qed.
Lemma only_world_registry st st' : only_world st st' → same_registry st st'.
Proof. intros (_ & ? & ? & ?). done. Qed.
Lemma only_world_sizes st st' : only_world st st' → same_sizes st st'.
Proof. intros (H & _) a. by rewrite H. Qed.

(** A write stays within its parameter's storage. *)
Lemma wire_apply_bounds entry value st rc st' :
  entry_ok entry → entry_stored entry st → pv_type value = pi_type (pe_info entry) →
  (pi_type (pe_info entry) = KFSW_PARAM_DATA → pv_size value <= entry_capacity entry) →
  kfsw_param_wire_apply entry value st = (rc, st') → same_registry st st' ∧ same_sizes st st'.
Proof.
  intros Hok (Hu & object & Hobj & Hsz) Ht Hs H. pose proof (capacity_bounds entry Hok Hu).
  destruct (wire_apply_effect entry value st rc st' Ht H) as [Hzero Herr].
  destruct (decide (rc = 0)) as [Hrc|Hrc].
  - specialize (Hzero Hrc). split; [by eapply only_writes_registry|].
    eapply only_writes_sizes; [exact Hobj| |exact Hzero].
    pose proof (written_bytes_length entry value ltac:(lia) Hs). unfold zlen in *. lia.
  - specialize (Herr Hrc). split; [by apply only_world_registry|by apply only_world_sizes].
Qed.

Lemma entry_stored_sizes entry st st' : same_sizes st st' → entry_stored entry st → entry_stored entry st'.
Proof.
  intros Hsz (Hu & object & Hobj & Hl). split; [done|]. specialize (Hsz (entry_address entry)).
  rewrite Hobj in Hsz. destruct (param_storage st' !! entry_address entry) as [object'|] eqn:E; [|done].
  cbn in Hsz. injection Hsz as Hsz. exists object'. split; [done|]. unfold zlen in *. lia.
Qed.

Lemma storage_ok_same st st' :
  same_registry st st' → same_sizes st st' → storage_ok st → storage_ok st'.
Proof.
  intros (Ht & _) Hs [Hn Hf]. unfold storage_ok. rewrite Ht. split; [done|].
  eapply Forall_impl; [exact Hf|]. intros entry. by apply entry_stored_sizes.
Qed.

Lemma zero_text_length : zlen zero_text = PARAM_STRING_MAX.
Proof. unfold zlen, zero_text. rewrite length_replicate. pose proof PARAM_STRING_MAX_range. lia. Qed.

Lemma take_cut_nul n t : (n <= length (cut_nul t))%nat → take n t = take n (cut_nul t).
Proof.
  revert n. induction t as [|c t IH]; intros [|n]; cbn; try done. destruct (c =? 0); cbn; [lia|].
  intros H. f_equal. apply IH. lia.
Qed.

(** What the bounded copy leaves in a cleared array. *)
Lemma copy_text_spec source n :
  0 < n → let '(k, text) := copy_text zero_text PARAM_STRING_MAX source n in
  k = Z.min (zlen (cut_nul source)) (Z.min n (PARAM_STRING_MAX - 1)) ∧
  zlen text = PARAM_STRING_MAX ∧ cut_nul text = take (Z.to_nat k) (cut_nul source) ∧
  byte_at text (Z.to_nat k) = 0.
Proof.
  intros Hn. pose proof PARAM_STRING_MAX_range. unfold copy_text. rewrite copy_length_spec.
  pose proof (zlen_nonneg (cut_nul source)) as Hnn.
  set (k := Z.max 0 _). assert (k = Z.min (zlen (cut_nul source)) (Z.min n (PARAM_STRING_MAX - 1))) as Hk
    by (subst k; lia).
  clearbody k. split; [done|]. rewrite take_cut_nul by (unfold zlen in *; lia).
  pose proof zero_text_length. split.
  - unfold zlen in *. rewrite buf_put_length_0; [done|]. rewrite length_app, length_take. cbn [length]. lia.
  - rewrite buf_put_0, <- app_assoc. split.
    + apply cut_nul_app. intros Hin. apply (cut_nul_no_nul source).
      rewrite <- (take_drop (Z.to_nat k) (cut_nul source)). apply elem_of_app. by left.
    + apply byte_at_app_r. rewrite length_take. unfold zlen in *. lia.
Qed.

(** A default is a value of its parameter's type and size. *)
Lemma read_default_wf entry :
  entry_ok entry → is_u16 (pd_capacity (pe_definition entry)) →
  value_wf (read_default entry) ∧ pv_type (read_default entry) = pi_type (pe_info entry) ∧
  pv_size (read_default entry) <= entry_capacity entry.
Proof.
  intros Hok Hu. pose proof (capacity_bounds entry Hok Hu) as Hc. pose proof zero_text_length as Hz.
  destruct Hok as (_ & _ & _ & _ & _ & Ht & Ha & _ & _ & _ & _ & _ & _ & Htext).
  unfold read_default, value_wf. destruct (_ =? KFSW_PARAM_DATA) eqn:G1.
  { cbn [pv_type pv_size pv_bytes]. split_and!; [|intros E; by rewrite E in G1|done|lia].
    destruct (pd_default_data _) as [data|]; [|done]. unfold zlen in *.
    rewrite buf_put_length_0; [done|]. rewrite length_take. lia. }
  destruct (_ =? KFSW_PARAM_STRING) eqn:G2; [|cbn [pv_type pv_size pv_bytes]; split_and!; [done|lia|done|lia]].
  rewrite copy_length_spec in Htext.
  assert (entry_capacity entry = pi_array_size (pe_info entry)) as Hcap.
  { unfold entry_capacity, info_capacity, is_array. by rewrite G2. }
  assert (pi_array_size (pe_info entry) = pd_capacity (pe_definition entry)) as Has.
  { rewrite Ha, <- Ht. unfold is_array. by rewrite G2. }
  pose proof (copy_text_spec (default [] (pd_default_text (pe_definition entry)))
    (pi_array_size (pe_info entry)) ltac:(lia)) as Hcopy.
  destruct (copy_text _ _ _ _) as [k text]. destruct Hcopy as (Hk & Hl & Hcut & _).
  cbn [pv_type pv_size pv_bytes]. specialize (Htext ltac:(lia)).
  pose proof (zlen_nonneg (cut_nul (default [] (pd_default_text (pe_definition entry))))).
  unfold value_text. cbn [pv_bytes]. split_and!; [done| |done|lia].
  intros _. rewrite Hcut. unfold strlen, zlen in *. rewrite length_take. lia.
Qed.

End service.
