(* ===== verification/ParamService.v ===== *)
(** * The parameter service as a state machine

    The runs of the service from its boot: registering, reading, writing, restoring,
    with the other components changing their own state in between. The properties of
    the parameter service are stated here. *)

From S2P Require Import Prelude Bytes CStdlib Sorted ParamTypes Param ParamFacts.

(** ** Effects of the operations *)

Section effects.
Context {PC : ParamConfig} {W : Type}.
Implicit Types (entry : kfsw_param_entry W) (st : param_state W) (value : kfsw_param_value)
  (l : list (kfsw_param_entry W)).

Lemma add_table_rest set st : same_rest st (add_table set st).2.
Proof. unfold add_table. by repeat case_match. Qed.
Lemma add_definition_rest set definition st : same_rest st (add_definition set definition st).2.
Proof. unfold add_definition. by repeat case_match. Qed.
Lemma add_definitions_rest set ds st : same_rest st (add_definitions set ds st).2.
Proof.
  revert st. induction ds as [|d ds IH]; intros st; cbn; [done|].
  pose proof (add_definition_rest set d st) as H. destruct (add_definition set d st) as [rc st1].
  destruct (negb (rc =? 0)); [done|]. eapply same_rest_trans; [exact H|apply IH].
Qed.
Lemma add_sets_rest sets st : same_rest st (add_sets sets st).2.
Proof.
  revert st. induction sets as [|[set|] sets IH]; intros st; cbn; [done| |done].
  destruct (ps_definitions set) as [[|d ds]|]; [done| |done].
  pose proof (add_table_rest set st) as H1. destruct (add_table set st) as [rc st1].
  destruct (negb (rc =? 0)); [done|].
  pose proof (add_definitions_rest set (d :: ds) st1) as H2.
  destruct (add_definitions set (d :: ds) st1) as [rc2 st2].
  destruct (negb (rc2 =? 0)); cbn [snd]; repeat (eapply same_rest_trans; [eassumption|]); [done|apply IH].
Qed.

Lemma same_rest_sizes st st' : same_rest st st' → same_sizes st st'.
Proof. intros (_ & H & _) a. by rewrite H. Qed.

(** A write that cannot be refused is accepted. *)
Lemma wire_apply_accepts entry value st :
  pd_apply (pe_definition entry) = None ∨ initialized st = false →
  (kfsw_param_wire_apply entry value st).1 = 0.
Proof.
  intros H. unfold kfsw_param_wire_apply, kfsw_param_write_entry.
  destruct (_ =? _); [done|]. destruct (_ =? _); [done|].
  destruct (pd_apply _) as [apply|]; [|done]. destruct H as [H|H]; [done|]. by rewrite H.
Qed.

Lemma write_default_bounds entry st rc st' :
  entry_ok entry → entry_stored entry st → kfsw_param_write_default entry st = (rc, st') →
  same_registry st st' ∧ same_sizes st st'.
Proof.
  intros Hok Hst H. pose proof (read_default_wf entry Hok (proj1 Hst)) as (_ & Ht & Hs).
  unfold kfsw_param_write_default in H. destruct ((if initialized st then _ else _) =? 0).
  - by eapply wire_apply_bounds.
  - injection H as _ <-. done.
Qed.

Lemma write_defaults_ok l st :
  initialized st = false → Forall entry_ok l → Forall (λ entry, entry_stored entry st) l →
  ∃ st', write_defaults l st = (0, st') ∧ same_registry st st' ∧ same_sizes st st'.
Proof.
  revert st. induction l as [|entry l IH]; intros st Hi Hok Hst; cbn; [by eexists|].
  apply Forall_cons in Hok as [He Hok]. apply Forall_cons in Hst as [Hs Hst].
  destruct (kfsw_param_write_default entry st) as [rc st1] eqn:E.
  pose proof (write_default_bounds entry st rc st1 He Hs E) as [Hr Hz].
  assert (rc = 0) as ->.
  { unfold kfsw_param_write_default in E. rewrite Hi in E. cbn [Z.eqb] in E.
    pose proof (wire_apply_accepts entry (read_default entry) st (or_intror Hi)). by rewrite E in H. }
  cbn [Z.eqb negb]. destruct (IH st1) as (st' & -> & Hr' & Hz').
  - destruct Hr as (_ & _ & ->). done.
  - done.
  - eapply Forall_impl; [exact Hst|]. intros e. by apply entry_stored_sizes.
  - exists st'. split_and!; [done|by eapply same_registry_trans|by eapply same_sizes_trans].
Qed.

(** A sampler fills the storage it is given. *)
Definition sampler_ok (definition : kfsw_param_definition W) : Prop :=
  ∀ sample, pd_sample definition = Some sample → ∀ object w, length (sample object w).1 = length object.

Lemma run_sampler_bounds entry st :
  sampler_ok (pe_definition entry) → entry_stored entry st →
  same_registry st (run_sampler entry st) ∧ same_sizes st (run_sampler entry st).
Proof.
  intros Hs (_ & object & Hobj & _). unfold run_sampler, entry_object. rewrite Hobj.
  destruct (pd_sample _) as [sample|] eqn:E; [|done]. specialize (Hs _ E object (param_world st)).
  cbn [default from_option id]. destruct (sample object (param_world st)) as [object' w]. cbn in Hs.
  split; [done|]. intros a. cbn.
  destruct (decide (a = entry_address entry)) as [->|Hne].
  - rewrite lookup_insert_eq, Hobj. cbn. by f_equal.
  - by rewrite lookup_insert_ne.
Qed.

Lemma read_entry_state entry (any : option kfsw_param_value) sample st :
  (read_entry (Some entry) any sample st).2 = st ∨
  (read_entry (Some entry) any sample st).2 = run_sampler entry st.
Proof.
  unfold read_entry. destruct any; [|by left]. destruct (_ =? 0); [by left|]. cbv zeta.
  destruct (_ =? KFSW_PARAM_STRING); [destruct (copy_text _ _ _ _); cbn [snd]|destruct (_ =? KFSW_PARAM_DATA); cbn [snd]];
    destruct sample; auto.
Qed.

Lemma read_stored_state entry (any : option kfsw_param_value) st :
  (kfsw_param_read_stored_entry (Some entry) any st).2 = st.
Proof.
  unfold kfsw_param_read_stored_entry, read_entry. destruct any; [|done]. destruct (_ =? 0); [done|]. cbv zeta.
  destruct (_ =? KFSW_PARAM_STRING); [by destruct (copy_text _ _ _ _)|by destruct (_ =? KFSW_PARAM_DATA)].
Qed.

Lemma notify_only_world entry value st : only_world st (notify_changed entry value st).
Proof. unfold notify_changed. by repeat case_match. Qed.
End effects.

(** ** Runs *)

(** What a composition owes the service: capacities are [uint16_t], samplers fill their
    storage, and every definition has storage of its own, as large as its capacity. *)
Section runs.
Context {PC : ParamConfig} {W : Type} (sets : list (option (kfsw_param_definition_set W)))
  (storage : gmap Z (list Z)) (w0 : W) (autosave : param_state W → param_state W).
Implicit Types (entry : kfsw_param_entry W) (st : param_state W) (value : kfsw_param_value).

Definition definition_size (definition : kfsw_param_definition W) : Z :=
  if is_array (pd_type definition) then pd_capacity definition else scalar_size (pd_type definition).
Definition composition_ok : Prop :=
  NoDup (default 0 ∘ pd_value <$> supplied sets) ∧
  Forall (λ d, is_u16 (pd_capacity d) ∧ sampler_ok d ∧
    ∃ object, storage !! default 0 (pd_value d) = Some object ∧ definition_size d <= zlen object)
    (supplied sets).

(** The snapshot after an accepted change writes no parameter. *)
Definition autosave_keeps : Prop :=
  ∀ st, same_registry st (autosave st) ∧ param_storage (autosave st) = param_storage st.

Inductive param_step : param_state W → param_state W → Prop :=
  | step_init st : param_step st (kfsw_param_init (Some sets) st).2
  | step_get name any st : param_step st (kfsw_param_get name any st).2
  | step_get_by_id id any st : param_step st (kfsw_param_get_by_id id any st).2
  | step_set name (value : option kfsw_param_value) st : param_step st (kfsw_param_set autosave name value st).2
  | step_restore st : param_step st (kfsw_param_restore_defaults st).2
  | step_accepted id st : param_step st (kfsw_param_value_accepted id st)
  | step_sample st : param_step st (kfsw_param_sample_all st)
  | step_count_save st : param_step st (kfsw_param_count_save st)
  | step_count_failure st : param_step st (kfsw_param_count_load_failure st)
  | step_components w st : param_step st (set_param_world w st).

Definition param_start : param_state W := param_boot storage w0.
Definition param_reachable st : Prop := rtc param_step param_start st.

(** The invariant of the runs. *)
Definition param_inv st : Prop :=
  registry_wf st ∧ (∀ d, d ∈ definitions st → d ∈ supplied sets) ∧
  NoDup (entry_address <$> parameter_table st) ∧ same_sizes param_start st.

Hypothesis Hcomp : composition_ok.
Hypothesis Hsave : autosave_keeps.

Lemma inv_entry entry st :
  param_inv st → entry ∈ parameter_table st →
  entry_ok entry ∧ entry_stored entry st ∧ sampler_ok (pe_definition entry).
Proof using Hcomp.
  intros ((_ & _ & Hok & _) & Hd & _ & Hz) Hin. rewrite Forall_forall in Hok. specialize (Hok entry Hin).
  destruct Hcomp as [_ Hall]. rewrite Forall_forall in Hall.
  destruct (Hall (pe_definition entry)) as (Hu & Hs & object & Hobj & Hl).
  { apply Hd. unfold definitions. by apply list_elem_of_fmap_2. }
  split_and!; [done| |done]. assert (entry_capacity entry <= zlen object) as Hc.
  { destruct Hok as (_ & _ & _ & _ & _ & Ht & Ha & _). unfold entry_capacity, info_capacity, definition_size in *.
    rewrite Ha, Ht. destruct (is_array _); done. }
  apply (entry_stored_sizes entry param_start); [done|]. split; [done|]. by exists object.
Qed.

Lemma inv_same st st' : same_registry st st' → same_sizes st st' → param_inv st → param_inv st'.
Proof.
  intros (Ht & Htt & Hi) Hz ((H1 & H2 & H3 & H4 & H5 & H6 & H7 & H8 & H9) & Hd & Hn & Hz0).
  unfold param_inv, registry_wf, definitions in *. rewrite Ht, Htt. split_and!; try done.
  by eapply same_sizes_trans.
Qed.

Lemma inv_find_name name st entry :
  kfsw_param_find_name name st = Some entry → entry ∈ parameter_table st.
Proof.
  unfold kfsw_param_find_name. destruct name; [|done]. intros [H _]%List.find_some. by apply list_elem_of_In.
Qed.
Lemma inv_find_id id st entry : kfsw_param_find_id id st = Some entry → entry ∈ parameter_table st.
Proof. unfold kfsw_param_find_id. by intros [H _]%bisect_sound. Qed.

Lemma inv_sampler entry st :
  param_inv st → entry ∈ parameter_table st →
  same_registry st (run_sampler entry st) ∧ same_sizes st (run_sampler entry st).
Proof using Hcomp.
  intros Hinv Hin. destruct (inv_entry entry st Hinv Hin) as (_ & Hst & Hs). by apply run_sampler_bounds.
Qed.

Lemma inv_read entry any st :
  param_inv st → entry ∈ parameter_table st → param_inv (kfsw_param_read_entry (Some entry) any st).2.
Proof using Hcomp.
  intros Hinv Hin. unfold kfsw_param_read_entry.
  destruct (read_entry_state entry any true st) as [->| ->]; [done|].
  destruct (inv_sampler entry st Hinv Hin). by eapply inv_same.
Qed.

Lemma inv_apply entry value st rc st' :
  param_inv st → entry ∈ parameter_table st → pv_type value = pi_type (pe_info entry) →
  (pi_type (pe_info entry) = KFSW_PARAM_DATA → pv_size value <= entry_capacity entry) →
  kfsw_param_wire_apply entry value st = (rc, st') → param_inv st' ∧ same_registry st st'.
Proof using Hcomp.
  intros Hinv Hin Ht Hs H. destruct (inv_entry entry st Hinv Hin) as (Hok & Hst & _).
  destruct (wire_apply_bounds entry value st rc st' Hok Hst Ht Hs H) as [Hr Hz].
  split; [by eapply inv_same|done].
Qed.

Lemma inv_empty st : same_sizes (param_start) st → param_inv (set_table [] [] st).
Proof.
  intros Hz. split_and!; [by apply registry_empty| |constructor|done].
  intros d Hd. by apply elem_of_nil in Hd.
Qed.

Lemma entry_addresses st :
  entry_address <$> parameter_table st = default 0 ∘ pd_value <$> definitions st.
Proof. unfold definitions. by rewrite <- list_fmap_compose. Qed.

(** What registering a composition leaves. *)
Definition init_done st : Prop :=
  param_inv st ∧ initialized st = true ∧ definitions st ≡ₚ supplied sets ∧
  table_ids st ≡ₚ (set_id <$> sets).
Definition init_refused st : Prop :=
  param_inv st ∧ initialized st = false ∧ parameter_table st = [] ∧ parameter_tables st = [].

Lemma inv_registered st rc st' :
  param_inv st → add_sets sets (set_table [] [] st) = (rc, st') →
  same_rest st st' ∧ same_sizes param_start st' ∧
  (rc = 0 → param_inv st' ∧ definitions st' ≡ₚ supplied sets ∧ table_ids st' ≡ₚ (set_id <$> sets)).
Proof using Hcomp.
  intros (_ & _ & _ & Hz) E. pose proof (add_sets_rest sets (set_table [] [] st)) as Hr. rewrite E in Hr.
  assert (same_sizes param_start st') as Hz'.
  { eapply same_sizes_trans; [exact Hz|]. by apply same_rest_sizes. }
  split_and!; [done|done|]. intros ->. apply add_sets_wf in E as (Hwf & Hd & Ht & _); [|by apply registry_empty].
  change (definitions (set_table [] [] st)) with (@nil (kfsw_param_definition W)) in Hd.
  change (table_ids (set_table [] [] st)) with (@nil Z) in Ht. rewrite app_nil_r in Hd, Ht.
  split_and!; [|done|done]. split_and!; [done| | |done].
  - intros d Hin. by rewrite <- Hd.
  - rewrite entry_addresses. destruct Hcomp as [Hn _]. by rewrite Hd.
Qed.

Lemma init_spec st rc st' :
  param_inv st → initialized st = false → kfsw_param_init (Some sets) st = (rc, st') →
  (rc = 0 → init_done st') ∧ (rc ≠ 0 → sets = [] ∧ st' = st ∨ init_refused st').
Proof using Hcomp.
  intros Hinv Hi. unfold kfsw_param_init. destruct sets as [|o os] eqn:Es.
  { intros [= <- <-]. split; [done|]. by left. }
  rewrite <- Es, Hi. destruct (add_sets sets _) as [rc1 st1] eqn:E1.
  apply inv_registered in E1 as ((Hi1 & _) & Hz1 & Hok); [|done]. rewrite Hi in Hi1.
  destruct ((rc1 =? 0) && (zlen (parameter_table st1) =? 0)) eqn:G.
  { intros [= <- <-]. split; [done|]. right. split_and!; [by apply inv_empty|done..]. }
  destruct (rc1 =? 0) eqn:G1.
  2: { intros [= <- <-]. split; [lia|]. right. split_and!; [by apply inv_empty|done..]. }
  destruct (Hok ltac:(lia)) as (Hinv1 & Hd & Ht).
  destruct (write_defaults_ok (parameter_table st1) st1 Hi1) as (st2 & -> & Hr2 & Hz2).
  { apply Forall_forall. intros e He. by apply (inv_entry e st1). }
  { apply Forall_forall. intros e He. by apply (inv_entry e st1). }
  intros [= <- <-]. split; [intros _|done]. pose proof (inv_same st1 st2 Hr2 Hz2 Hinv1) as Hinv2.
  destruct Hr2 as (Ht2 & Htt2 & _). unfold init_done, definitions, table_ids in *. cbn. rewrite Ht2, Htt2. done.
Qed.

Lemma inv_get name any st : param_inv st → param_inv (kfsw_param_get name any st).2.
Proof using Hcomp.
  intros Hinv. unfold kfsw_param_get. destruct (_ || _); [done|]. destruct (negb _); [done|].
  destruct (kfsw_param_find_name name st) as [entry|] eqn:E; [|done].
  apply inv_read; [done|by eapply inv_find_name].
Qed.
Lemma inv_get_by_id id any st : param_inv st → param_inv (kfsw_param_get_by_id id any st).2.
Proof using Hcomp.
  intros Hinv. unfold kfsw_param_get_by_id. destruct (bool_decide _); [done|]. destruct (negb _); [done|].
  destruct (kfsw_param_find_id id st) as [entry|] eqn:E; [|done].
  apply inv_read; [done|by eapply inv_find_id].
Qed.

(** What an accepted and a refused write leave. *)
Lemma set_spec name value st rc st' :
  kfsw_param_set autosave (Some name) (Some value) st = (rc, st') →
  (rc = 0 ∧ ∃ entry st1, kfsw_param_find_name (Some name) st = Some entry ∧
     initialized st = true ∧ pi_read_only (pe_info entry) = false ∧
     kfsw_param_validate_entry (Some entry) (Some value) st = 0 ∧
     kfsw_param_wire_apply entry value st = (0, st1) ∧ (st' = st1 ∨ st' = autosave st1)) ∨
  (rc ≠ 0 ∧ (st' = st ∨ ∃ entry, kfsw_param_find_name (Some name) st = Some entry ∧
     kfsw_param_validate_entry (Some entry) (Some value) st = 0 ∧
     kfsw_param_wire_apply entry value st = (rc, st'))).
Proof.
  unfold kfsw_param_set. destruct (initialized st) eqn:Hi; cbn [negb].
  2: { intros [= <- <-]. right. split; [done|by left]. }
  destruct (kfsw_param_find_name _ st) as [entry|] eqn:E.
  2: { intros [= <- <-]. right. split; [done|by left]. }
  destruct (pi_read_only _) eqn:Er.
  { intros [= <- <-]. right. split; [done|by left]. }
  remember (kfsw_param_validate_entry (Some entry) (Some value) st) as v eqn:Hv. cbv zeta.
  destruct (v =? 0) eqn:Ev.
  2: { rewrite Ev. intros [= <- <-]. right. split; [lia|by left]. }
  destruct (kfsw_param_wire_apply entry value st) as [rc1 st1] eqn:Ea.
  destruct (rc1 =? 0) eqn:E1.
  - intros [= <- <-]. left. split; [done|]. exists entry, st1. assert (rc1 = 0) as -> by lia.
    split_and!; try done; [lia|]. destruct (negb _); auto.
  - intros [= <- <-]. right. split; [lia|]. right. exists entry. split_and!; [done|lia|done].
Qed.

Lemma validate_fits entry value st :
  kfsw_param_validate_entry (Some entry) (Some value) st = 0 →
  pv_type value = pi_type (pe_info entry) ∧ pv_size value <= entry_capacity entry.
Proof.
  intros (_ & Ht & Hs & Hn)%validate_cases. split; [done|].
  destruct (decide (pi_type (pe_info entry) = KFSW_PARAM_STRING)) as [E|E]; [by apply Hs|].
  specialize (Hn E). lia.
Qed.

Lemma inv_autosave st : param_inv st → param_inv (autosave st).
Proof using Hsave.
  intros H. destruct (Hsave st) as [Hr Hs]. eapply inv_same; [exact Hr| |done].
  intros a. by rewrite Hs.
Qed.

Lemma inv_set name (value : option kfsw_param_value) st :
  param_inv st → param_inv (kfsw_param_set autosave name value st).2.
Proof using Hcomp Hsave.
  intros Hinv. destruct name as [name|], value as [value|]; [|done..].
  destruct (kfsw_param_set _ _ _ _) as [rc st'] eqn:E.
  apply set_spec in E as [(_ & entry & st1 & Hf & _ & _ & Hv & Ha & Hst)|(_ & [->|(entry & Hf & Hv & Ha)])]; [|done|].
  all: apply inv_find_name in Hf; apply validate_fits in Hv as [Ht Hs].
  all: apply (inv_apply entry value st) in Ha as [Hinv1 _]; try done.
  destruct Hst as [->| ->]; [done|by apply inv_autosave].
Qed.

Lemma inv_accepted id st : param_inv st → param_inv (kfsw_param_value_accepted id st).
Proof.
  intros Hinv. unfold kfsw_param_value_accepted. destruct (kfsw_param_find_id id st) as [entry|]; [|done].
  pose proof (read_stored_state entry (Some stack_value) st) as Hst.
  destruct (kfsw_param_read_stored_entry _ _ st) as [[rc v] st']. cbn in Hst. subst st'.
  destruct rc; [|done..]. destruct v as [v|]; [|done].
  pose proof (notify_only_world entry v st) as Hw.
  by eapply inv_same; [apply only_world_registry|apply only_world_sizes|].
Qed.

Lemma inv_sample_list l st :
  param_inv st → (∀ entry, entry ∈ l → entry ∈ parameter_table st) →
  param_inv (fold_left (λ st entry, run_sampler entry st) l st).
Proof using Hcomp.
  revert st. induction l as [|entry l IH]; intros st Hinv Hl; [done|]. cbn.
  destruct (inv_sampler entry st Hinv (Hl entry (list_elem_of_here _ _))) as [Hr Hz].
  apply IH; [by eapply inv_same|]. intros e He. destruct Hr as (-> & _). apply Hl.
  by apply list_elem_of_further.
Qed.

Lemma inv_apply_defaults l st :
  param_inv st → (∀ entry, entry ∈ l → entry ∈ parameter_table st) →
  param_inv (apply_defaults l st).2.
Proof using Hcomp.
  revert st. induction l as [|entry l IH]; intros st Hinv Hl; [done|]. cbn.
  destruct (is_persistent entry); [|apply IH; [done|]; intros e He; apply Hl; by apply list_elem_of_further].
  pose proof (Hl entry (list_elem_of_here _ _)) as Hin.
  destruct (kfsw_param_wire_apply _ _ st) as [rc st1] eqn:E.
  destruct (inv_entry entry st Hinv Hin) as (Hok & [Hu _] & _).
  destruct (read_default_wf entry Hok Hu) as (_ & Ht & Hs).
  apply inv_apply in E as [Hinv1 (Htab & _)]; [|done..].
  destruct (negb (rc =? 0)); [done|]. apply IH; [done|]. intros e He. rewrite Htab. apply Hl.
  by apply list_elem_of_further.
Qed.

Lemma inv_restore st : param_inv st → param_inv (kfsw_param_restore_defaults st).2.
Proof using Hcomp.
  intros Hinv. unfold kfsw_param_restore_defaults. destruct (negb _); [done|].
  destruct (check_defaults _ _ _ _) as [[rc count] fallible]. destruct (negb (rc =? 0)); [done|].
  destruct (_ && _); [done|]. by apply inv_apply_defaults.
Qed.

Lemma reachable_inv st : param_reachable st → param_inv st.
Proof using Hcomp Hsave.
  revert st. apply (rtc_ind_r (R := param_step) (λ st, param_inv st) param_start).
  { apply (inv_empty param_start). done. }
  intros st st' _ Hstep Hinv. destruct Hstep.
  - destruct (initialized st) eqn:Hi.
    { unfold kfsw_param_init. rewrite Hi. by destruct sets. }
    destruct (kfsw_param_init (Some sets) st) as [rc st'] eqn:E.
    apply init_spec in E as [H0 H1]; [|done..]. destruct (decide (rc = 0)) as [Hrc|Hrc].
    + by apply H0.
    + destruct (H1 Hrc) as [[_ ->]|H]; [done|by apply H].
  - by apply inv_get.
  - by apply inv_get_by_id.
  - by apply inv_set.
  - by apply inv_restore.
  - by apply inv_accepted.
  - by apply inv_sample_list.
  - done.
  - done.
  - done.
Qed.
End runs.

(** ** Restoring the defaults *)

Section restore.
Context {PC : ParamConfig} {W : Type}.
Implicit Types (entry : kfsw_param_entry W) (st : param_state W) (l : list (kfsw_param_entry W)).

Definition persistent_entries l : list (kfsw_param_entry W) := List.filter is_persistent l.
Definition has_apply entry : bool := bool_decide (is_Some (pd_apply (pe_definition entry))).

(** The first pass accepts when every default is valid, and says how many there are
    and whether one may be refused. *)
Lemma check_defaults_spec l c f st rc count fallible :
  check_defaults l c f st = (rc, count, fallible) → rc = 0 →
  count = c + zlen (persistent_entries l) ∧ fallible = f || existsb has_apply (persistent_entries l) ∧
  Forall (λ entry, kfsw_param_validate_entry (Some entry) (Some (read_default entry)) st = 0)
    (persistent_entries l).
Proof.
  intros H ->. revert c f H. unfold persistent_entries.
  induction l as [|entry l IH]; intros c f; cbn -[kfsw_param_validate_entry].
  { intros [= <- <-]. rewrite zlen_nil, orb_false_r. split_and!; [lia|done|done]. }
  destruct (is_persistent entry) eqn:Ep; cbn [negb]; [|apply IH].
  destruct (kfsw_param_validate_entry _ _ st =? 0) eqn:Ev; cbn [negb].
  - intros H. apply IH in H as (-> & -> & Hf). rewrite zlen_cons. split_and!; [lia| |].
    + cbn [existsb]. by rewrite orb_assoc.
    + constructor; [lia|done].
  - intros H. exfalso. apply Z.eqb_neq in Ev. apply Ev. congruence.
Qed.

Lemma apply_defaults_none l st : persistent_entries l = [] → apply_defaults l st = (0, st).
Proof.
  unfold persistent_entries. induction l as [|entry l IH]; cbn; [done|].
  destruct (is_persistent entry); [done|]. exact IH.
Qed.

(** Only a single default that is refused stops the second pass. *)
Lemma apply_defaults_refused l st rc st' :
  Forall (λ entry, pv_type (read_default entry) = pi_type (pe_info entry)) l →
  existsb has_apply (persistent_entries l) = false ∨ zlen (persistent_entries l) = 1 →
  apply_defaults l st = (rc, st') → rc ≠ 0 → param_storage st' = param_storage st.
Proof.
  revert st. unfold persistent_entries. induction l as [|entry l IH]; intros st Ht Hc H Hrc; cbn in H.
  { by simplify_eq. }
  apply Forall_cons in Ht as [Hte Ht]. cbn [List.filter] in Hc.
  destruct (is_persistent entry) eqn:Ep; [|by apply (IH st)].
  destruct (kfsw_param_wire_apply _ _ st) as [rc1 st1] eqn:E.
  destruct (wire_apply_effect entry (read_default entry) st rc1 st1 Hte E) as [_ Hw].
  destruct (rc1 =? 0) eqn:E1; cbn [negb] in H.
  2: { injection H as <- <-. apply Z.eqb_neq in E1. by destruct (Hw E1) as [-> _]. }
  exfalso. destruct Hc as [Hc|Hc].
  - assert (∀ l st, existsb has_apply (List.filter is_persistent l) = false → (apply_defaults l st).1 = 0) as Hall.
    { clear. intros l. induction l as [|e l IH]; intros st H; [done|]. cbn in *.
      destruct (is_persistent e); [|by apply IH]. cbn in H. apply orb_false_iff in H as [He H].
      unfold has_apply in He. apply bool_decide_eq_false in He. apply eq_None_not_Some in He.
      pose proof (wire_apply_accepts e (read_default e) st (or_introl He)) as Ha.
      destruct (kfsw_param_wire_apply _ _ st) as [rc st1]. cbn in Ha. subst rc. by apply IH. }
    cbn [existsb] in Hc. apply orb_false_iff in Hc as [_ Hc]. specialize (Hall l st1 Hc).
    rewrite H in Hall. done.
  - rewrite zlen_cons in Hc. pose proof (zlen_zero (List.filter is_persistent l) ltac:(lia)) as Hnil.
    rewrite apply_defaults_none in H by done. by injection H as <-.
Qed.

Lemma entry_object_other entry entry' bs st st' :
  entry_address entry' ≠ entry_address entry → only_writes entry bs st st' →
  entry_object entry' st' = entry_object entry' st.
Proof.
  intros Hne (Hs & _). unfold entry_object. by rewrite Hs, lookup_insert_ne.
Qed.

Definition default_ready entry : Prop :=
  value_wf (read_default entry) ∧ pv_type (read_default entry) = pi_type (pe_info entry) ∧
  pv_size (read_default entry) <= entry_capacity entry.

(** The second pass puts every persistent default in its storage and nothing else. *)
Lemma apply_defaults_storage l st st' :
  NoDup (entry_address <$> l) → Forall default_ready l → apply_defaults l st = (0, st') →
  (∀ entry, entry ∈ l → is_persistent entry = true →
     entry_object entry st' = buf_put 0 (stored_bytes entry (read_default entry)) (entry_object entry st)) ∧
  (∀ entry, (∀ e, e ∈ l → is_persistent e = true → entry_address entry ≠ entry_address e) →
     entry_object entry st' = entry_object entry st).
Proof.
  revert st. induction l as [|entry l IH]; intros st Hn Hr H; cbn in H.
  { injection H as <-. split; [|done]. intros e He. by apply elem_of_nil in He. }
  cbn [fmap list_fmap] in Hn. apply NoDup_cons in Hn as [Hnot Hn]. apply Forall_cons in Hr as [He Hr].
  assert (∀ e, e ∈ l → entry_address e ≠ entry_address entry) as Hother.
  { intros e Hin Heq. apply Hnot. rewrite <- Heq. by apply list_elem_of_fmap_2. }
  destruct (is_persistent entry) eqn:Ep.
  - destruct (kfsw_param_wire_apply _ _ st) as [rc1 st1] eqn:E. destruct (rc1 =? 0) eqn:E1; cbn [negb] in H.
    2: { injection H as -> _. done. }
    destruct He as (Hwf & Ht & Hs). destruct (wire_apply_effect _ _ _ _ _ Ht E) as [Hw _].
    specialize (Hw ltac:(lia)). rewrite (written_stored entry _ Hwf Ht Hs) in Hw.
    destruct (IH st1 Hn Hr H) as [IH1 IH2]. split.
    + intros e [->|Hin]%elem_of_cons Hp.
      * rewrite IH2 by (intros e Hin _ Heq; apply (Hother e Hin); congruence).
        destruct Hw as (Hw & _). unfold entry_object at 1. by rewrite Hw, lookup_insert_eq.
      * rewrite IH1 by done. by rewrite (entry_object_other entry e (stored_bytes entry (read_default entry)) st st1 (Hother e Hin) Hw).
    + intros e Hne. rewrite IH2 by (intros e' Hin; apply Hne; by apply list_elem_of_further).
      apply (entry_object_other entry e (stored_bytes entry (read_default entry)) st st1); [|done]. apply Hne; [apply list_elem_of_here|done].
  - destruct (IH st Hn Hr H) as [IH1 IH2]. split.
    + intros e [->|Hin]%elem_of_cons Hp; [congruence|by apply IH1].
    + intros e Hne. apply IH2. intros e' Hin. apply Hne. by apply list_elem_of_further.
Qed.
(** ** Writing several values

    Writes that were all accepted, one after another. *)
Fixpoint writes (items : list (kfsw_param_entry W * kfsw_param_value)) st st' : Prop :=
  match items with
  | [] => st' = st
  | (entry, value) :: items => ∃ st1, kfsw_param_wire_apply entry value st = (0, st1) ∧ writes items st1 st'
  end.

(** Each value is at the start of its parameter's storage and nothing else changed. *)
Lemma writes_storage items st st' :
  NoDup (entry_address ∘ fst <$> items) → Forall (λ x, pv_type x.2 = pi_type (pe_info x.1)) items → writes items st st' →
  same_registry st st' ∧
  (∀ entry value, (entry, value) ∈ items →
     entry_object entry st' = buf_put 0 (written_bytes entry value) (entry_object entry st)) ∧
  (∀ a, (∀ x, x ∈ items → a ≠ entry_address x.1) → param_storage st' !! a = param_storage st !! a).
Proof.
  revert st. induction items as [|[entry value] items IH]; intros st Hn Ht H; cbn in H.
  { subst st'. split; [done|]. split; [by intros ?? ?%elem_of_nil|done]. }
  destruct H as (st1 & Ha & H). cbn [fmap list_fmap] in Hn. apply NoDup_cons in Hn as [Hnot Hn].
  apply Forall_cons in Ht as [He Ht]. cbn [fst snd] in He.
  destruct (wire_apply_effect entry value st 0 st1 He Ha) as [Hw _]. specialize (Hw eq_refl).
  destruct (IH st1 Hn Ht H) as (Hreg & Hin & Hout).
  assert (∀ x, x ∈ items → entry_address entry ≠ entry_address x.1) as Hother.
  { intros x Hx Heq. apply Hnot. cbn. rewrite Heq. apply list_elem_of_fmap. by exists x. }
  pose proof Hw as (Hst & _). split_and!.
  - eapply same_registry_trans; [by eapply only_writes_registry|done].
  - intros e v [[= -> ->]|Hm]%elem_of_cons.
    + unfold entry_object at 1. rewrite Hout by done. by rewrite Hst, lookup_insert_eq.
    + rewrite (Hin e v Hm). f_equal. eapply entry_object_other; [|exact Hw].
      intros Heq. by apply (Hother _ Hm).
  - intros a Hne. rewrite Hout by (intros x Hx; apply Hne; by apply list_elem_of_further). rewrite Hst.
    rewrite lookup_insert_ne; [done|]. intros <-. by apply (Hne (entry, value) ltac:(apply list_elem_of_here)).
Qed.
End restore.

(** ** Properties *)

Lemma keys_inj {A K} (key : A → K) (l : list A) x y :
  NoDup (key <$> l) → x ∈ l → y ∈ l → key x = key y → x = y.
Proof.
  intros Hn [i Hi]%list_elem_of_lookup [j Hj]%list_elem_of_lookup Hk.
  assert (i = j) as ->; [|congruence]. eapply (NoDup_lookup _ _ _ (key x) Hn).
  - by rewrite list_lookup_fmap, Hi.
  - by rewrite list_lookup_fmap, Hj, Hk.
Qed.

Lemma find_name_key {PC : ParamConfig} {W} (st : param_state W) name entry :
  registry_wf st →
  kfsw_param_find_name (Some name) st = Some entry ↔ entry ∈ parameter_table st ∧ entry_name entry = name.
Proof.
  intros (_ & Hn & _). unfold kfsw_param_find_name. split.
  - intros [Hin Hs]%List.find_some. apply bool_decide_eq_true in Hs. by apply list_elem_of_In in Hin.
  - intros [Hin <-]. destruct (List.find _ _) as [e|] eqn:E.
    + apply List.find_some in E as [He Hs]. apply bool_decide_eq_true in Hs. f_equal.
      by apply (keys_inj entry_name (parameter_table st)); [|apply list_elem_of_In| |].
    + apply list_elem_of_In in Hin. pose proof (List.find_none _ _ E entry Hin) as H. cbn in H.
      by apply bool_decide_eq_false in H.
Qed.

Lemma find_id_key {PC : ParamConfig} {W} (st : param_state W) id entry :
  registry_wf st → kfsw_param_find_id id st = Some entry ↔ entry ∈ parameter_table st ∧ entry_id entry = id.
Proof.
  intros (Hsort & _). split.
  - by intros [??]%bisect_sound.
  - intros [[i Hi]%list_elem_of_lookup Hid]. pose proof (lookup_lt_Some _ _ _ Hi).
    apply (bisect_complete _ _ _ _ _ _ i); [done..|lia|lia|lia].
Qed.

Section properties.
Context {PC : ParamConfig} {W : Type} (sets : list (option (kfsw_param_definition_set W)))
  (storage : gmap Z (list Z)) (w0 : W) (autosave : param_state W → param_state W).
Implicit Types (entry : kfsw_param_entry W) (st : param_state W) (value : kfsw_param_value).

(** C13: In every reachable state the registry is sorted, without duplicates and agrees
    with its tables, and every object of the storage has the size it had: no write and
    no default ever reached past its parameter's storage. *)
Theorem param_storage_safe st :
  composition_ok sets storage → autosave_keeps autosave → param_reachable sets storage w0 autosave st →
  registry_wf st ∧ storage_ok st ∧
  ∀ a, length <$> (param_storage st !! a) = length <$> (storage !! a).
Proof.
  intros Hc Hs Hr. pose proof (reachable_inv sets storage w0 autosave Hc Hs st Hr) as Hinv.
  pose proof Hinv as (Hwf & _ & Hn & Hz). split_and!; [done| |done]. split; [done|].
  apply Forall_forall. intros e He. by apply (inv_entry sets storage w0 Hc e st Hinv He).
Qed.

(** C17: Starting the service either registers exactly the definitions and the tables of
    the composition and runs, or refuses it and leaves nothing registered. *)
Theorem param_init_registry st rc st' :
  composition_ok sets storage → autosave_keeps autosave → param_reachable sets storage w0 autosave st →
  initialized st = false → kfsw_param_init (Some sets) st = (rc, st') →
  (rc = 0 → initialized st' = true ∧ registry_wf st' ∧ definitions st' ≡ₚ supplied sets ∧
    table_ids st' ≡ₚ (set_id <$> sets)) ∧
  (rc ≠ 0 → sets ≠ [] → initialized st' = false ∧ parameter_table st' = [] ∧ parameter_tables st' = []).
Proof.
  intros Hc Hs Hr Hi H. pose proof (reachable_inv sets storage w0 autosave Hc Hs st Hr) as Hinv.
  apply (init_spec sets storage w0 Hc) in H as [H0 H1]; [|done..]. split.
  - intros Hrc. destruct (H0 Hrc) as ((Hwf & _) & ? & ? & ?). done.
  - intros Hrc Hne. destruct (H1 Hrc) as [[? _]|(_ & ? & ? & ?)]; done.
Qed.

(** In every reachable state the binary search by identifier and the linear search by
    name find exactly the parameter registered under it. *)
Theorem param_lookup_exact st id name entry :
  composition_ok sets storage → autosave_keeps autosave → param_reachable sets storage w0 autosave st →
  (kfsw_param_find_id id st = Some entry ↔ entry ∈ parameter_table st ∧ entry_id entry = id) ∧
  (kfsw_param_find_name (Some name) st = Some entry ↔ entry ∈ parameter_table st ∧ entry_name entry = name).
Proof.
  intros Hc Hs Hr. destruct (reachable_inv sets storage w0 autosave Hc Hs st Hr) as (Hwf & _).
  split; [by apply find_id_key|by apply find_name_key].
Qed.


End properties.

Section service_witnesses.
#[local] Existing Instance param_config_default.

Definition plain_definition (offset type capacity flags : Z) (name : string) (address v : Z)
    (text : option (list Z)) : kfsw_param_definition Z := {|
  pd_offset := offset; pd_type := type; pd_capacity := capacity; pd_flags := flags;
  pd_name := Some (cstr name); pd_unit := None; pd_description := None; pd_value := Some address;
  pd_default_value := v; pd_default_text := text; pd_validate := None; pd_apply := None;
  pd_changed := None; pd_validate_text := None; pd_changed_text := None; pd_validate_data := None;
  pd_changed_data := None; pd_default_data := None; pd_sample := None |}.

(** Two tables: a persistent counter and a text, and a read-only word. *)
Definition example_sets : list (option (kfsw_param_definition_set Z)) :=
  [Some {| ps_table := 25; ps_name := Some (cstr "service"); ps_description := None;
           ps_definitions := Some [plain_definition 1 KFSW_PARAM_STRING 8 0 "label" 101 0 (Some (cstr "kfsw"));
                                   plain_definition 0 KFSW_PARAM_U16 1 KFSW_PARAM_FLAG_PERSISTENT "count" 100 7 None] |};
   Some {| ps_table := 1; ps_name := Some (cstr "core"); ps_description := None;
           ps_definitions := Some [plain_definition 0 KFSW_PARAM_U32 1 KFSW_PARAM_FLAG_READ_ONLY "node" 102 9 None] |}].
Definition example_storage : gmap Z (list Z) :=
  <[100 := [0; 0]]> (<[101 := replicate 8 0]> (<[102 := [0; 0; 0; 0]]> ∅)).
Definition no_autosave : param_state Z → param_state Z := λ st, st.
Definition example_started : param_state Z :=
  (kfsw_param_init (Some example_sets) (param_start example_storage 0)).2.
Definition example_value : kfsw_param_value :=
  {| pv_type := KFSW_PARAM_U16; pv_size := 2; pv_scalar := 513; pv_bytes := zero_text |}.
Definition example_written : param_state Z :=
  (kfsw_param_set no_autosave (Some (cstr "count")) (Some example_value) example_started).2.

Lemma example_ok : composition_ok example_sets example_storage.
Proof.
  split; [apply (bool_decide_unpack _); vm_compute; exact I|].
  unfold supplied, example_sets. cbn [fmap list_fmap concat set_definitions ps_definitions default from_option id app].
  rewrite !Forall_cons, Forall_nil. split_and!; try done; try (intros ? [=]).
  all: try (vm_compute; congruence).
  all: eexists; split; [vm_compute; reflexivity|vm_compute; congruence].
Qed.
Lemma example_saves : autosave_keeps no_autosave.
Proof. intros st. done. Qed.
Lemma example_booted : param_reachable example_sets example_storage 0 no_autosave (param_start example_storage 0).
Proof. apply rtc_refl. Qed.
Lemma example_reached : param_reachable example_sets example_storage 0 no_autosave example_started.
Proof. apply rtc_once. apply step_init. Qed.
Lemma example_reached_write : param_reachable example_sets example_storage 0 no_autosave example_written.
Proof. eapply rtc_r; [exact example_reached|]. apply step_set. Qed.

Lemma param_storage_safe_witness : registry_wf example_written.
Proof.
  destruct (param_storage_safe example_sets example_storage 0 no_autosave example_written
    example_ok example_saves example_reached_write) as [H _]. exact H.
Defined.

Lemma param_init_registry_witness : definitions example_started ≡ₚ supplied example_sets.
Proof.
  assert (kfsw_param_init (Some example_sets) (param_start example_storage 0) = (0, example_started)) as E
    by (vm_compute; reflexivity).
  destruct (param_init_registry example_sets example_storage 0 no_autosave _ _ _
    example_ok example_saves example_booted eq_refl E) as [H _]. destruct (H eq_refl) as (_ & _ & Hd & _).
  exact Hd.
Defined.

Lemma param_lookup_exact_witness :
  ∃ entry, kfsw_param_find_id (KFSW_PARAM_ID 25 0) example_started = Some entry ∧ entry_id entry = 6400.
Proof.
  destruct (kfsw_param_find_id (KFSW_PARAM_ID 25 0) example_started) as [entry|] eqn:E;
    [|vm_compute in E; discriminate].
  destruct (param_lookup_exact example_sets example_storage 0 no_autosave example_started
    (KFSW_PARAM_ID 25 0) (cstr "count") entry example_ok example_saves example_reached) as [H _].
  destruct (proj1 H E) as [_ Hid]. exists entry. split; [reflexivity|]. rewrite Hid. vm_compute. reflexivity.
Defined.


End service_witnesses.
