(* ===== verification/ParamText.v ===== *)
(** * Numbers of parameters in text

    What [kfsw_param_parse_text] accepts of the decimal numbers an operator types: the
    range of every integer type is exact. *)

From S2P Require Import Prelude Bytes CStdlib ParamTypes Param.

Section numbers.
Context {PC : ParamConfig} {CL : CLong} {FT : FloatText}.
Implicit Types (value : kfsw_param_value) (ds : list Z).

Definition type_bits (type : Z) : Z := 8 * scalar_size type.

Lemma put_member_low bits v old : 0 <= bits → put_member bits v old mod 2 ^ bits = v mod 2 ^ bits.
Proof.
  intros Hb. unfold put_member. pose proof (Z.pow_pos_nonneg 2 bits ltac:(lia) Hb).
  rewrite Z.add_comm, Z.mod_add by lia. apply Z.mod_mod. lia.
Qed.

Lemma dec_value_pos ds :
  forallb isdigit ds = true → ds ≠ [] → char_at ds 0 ≠ 48 → 0 < dec_value ds.
Proof.
  unfold dec_value, char_at. destruct ds as [|c ds]; [done|]. cbn. intros [Hc H]%andb_true_iff _ H0.
  unfold isdigit in Hc. replace (0 * 10 + (c - 48)) with (c - 48) by lia.
  assert (0 < c - 48) as Ha by lia. revert H Ha. generalize (c - 48). clear.
  induction ds as [|c ds IH]; intros acc H Ha; [done|]. cbn in *. apply andb_true_iff in H as [Hc H].
  apply IH; [done|]. unfold isdigit in Hc. lia.
Qed.

(** The types, one by one. *)
Lemma unsigned_types type :
  is_unsigned type = true → In type [0; 1; 2; 3; 8; 9; 10; 11].
Proof.
  unfold is_unsigned. intros H. repeat rewrite orb_true_iff in H. rewrite !Z.eqb_eq in H. cbn. intuition.
Qed.
Lemma signed_types type : is_signed type = true → In type [4; 5; 6; 7].
Proof.
  unfold is_signed. intros H. repeat rewrite orb_true_iff in H. rewrite !Z.eqb_eq in H. cbn. intuition.
Qed.

Definition store_fitting (signed : bool) (v : Z) value : Z * kfsw_param_value :=
  let bits := type_bits (pv_type value) in
  let fits := if signed then (- 2 ^ (bits - 1) <=? v) && (v <? 2 ^ (bits - 1)) else v <? 2 ^ bits in
  if fits then (0, set_scalar (put_member bits v (pv_scalar value)) value) else (- ERANGE, value).

Lemma store_unsigned_fitting v value :
  is_unsigned (pv_type value) = true → v < 2 ^ 64 → store_unsigned v value = store_fitting false v value.
Proof.
  intros Hu%unsigned_types Hv. unfold store_unsigned, store_fitting, type_bits.
  repeat destruct Hu as [Hu|Hu]; try done; rewrite <- Hu;
    cbv [KFSW_PARAM_U8 KFSW_PARAM_X8 KFSW_PARAM_U16 KFSW_PARAM_X16 KFSW_PARAM_U32 KFSW_PARAM_X32
      Z.eqb Pos.eqb orb]; cbn [scalar_size Z.mul];
    match goal with |- context [8 * ?n] => let b := eval vm_compute in (8 * n) in change (8 * n) with b end;
    cbv zeta iota; repeat case_match; try done; exfalso; clia.
Qed.
Lemma store_signed_fitting v value :
  is_signed (pv_type value) = true → - 2 ^ 63 <= v < 2 ^ 63 → store_signed v value = store_fitting true v value.
Proof.
  intros Hu%signed_types Hv. unfold store_signed, store_fitting, type_bits.
  repeat destruct Hu as [Hu|Hu]; try done; rewrite <- Hu;
    cbv [KFSW_PARAM_I8 KFSW_PARAM_I16 KFSW_PARAM_I32 Z.eqb Pos.eqb orb];
    match goal with |- context [8 * ?n] => let b := eval vm_compute in (8 * n) in change (8 * n) with b end;
    cbv zeta iota; repeat case_match; try done; exfalso; clia.
Qed.

Lemma store_fitting_spec signed v value :
  0 < type_bits (pv_type value) →
  let '(rc, got) := store_fitting signed v value in
  let bits := type_bits (pv_type value) in
  (rc = 0 ↔ if signed then - 2 ^ (bits - 1) <= v < 2 ^ (bits - 1) else v < 2 ^ bits) ∧
  (rc ≠ 0 → got = value) ∧ (rc = 0 → pv_scalar got mod 2 ^ bits = v mod 2 ^ bits).
Proof.
  intros Hb. unfold store_fitting. cbv zeta. destruct (if signed then _ else _) eqn:E.
  - split; [|split; [done|intros _; cbn [pv_scalar set_scalar]; apply put_member_low; lia]]. split; [intros _|done].
    destruct signed; lia.
  - split; [|done]. split; [done|]. intros H. exfalso. destruct signed; lia.
Qed.

(** A number as the operator types it. *)
Definition decimal_text (negative : bool) ds : list Z := (if negative then [45] else []) ++ ds.
Definition decimal_number (negative : bool) ds : Z := if negative then - dec_value ds else dec_value ds.

Lemma integer_bits type :
  is_unsigned type || is_signed type = true → 0 < type_bits type <= 64 ∧ (is_signed type = negb (is_unsigned type)).
Proof.
  intros H. assert (In type [0; 1; 2; 3; 8; 9; 10; 11; 4; 5; 6; 7]) as Hin.
  { apply (in_or_app [0; 1; 2; 3; 8; 9; 10; 11] [4; 5; 6; 7]). apply orb_true_iff in H as [H|H].
    - left. by apply unsigned_types.
    - right. by apply signed_types. }
  cbn in Hin. repeat destruct Hin as [<-|Hin]; try done; vm_compute; split; try done; split; congruence.
Qed.

Lemma pow_bits bits : 0 < bits <= 64 → 0 < 2 ^ bits <= 2 ^ 64 ∧ 2 ^ (bits - 1) <= 2 ^ 63.
Proof.
  intros H. split; [split; [lia|]|]; apply Z.pow_le_mono_r; lia.
Qed.

Lemma parse_unsigned_text text v value :
  is_unsigned (pv_type value) = true → text ≠ [] → char_at text 0 ≠ 45 →
  scan_number text 0 = Some (false, v, []) →
  kfsw_param_parse_text text value = if v <? 2 ^ 64 then store_fitting false v value else (- EINVAL, value).
Proof.
  intros Hu Hne H0 Hs. unfold kfsw_param_parse_text. rewrite Hu, (proj2 (Z.eqb_neq _ _) H0).
  unfold strtoull, unsigned_of. rewrite Hs. destruct (v <? 2 ^ 64) eqn:E; [|done].
  rewrite bool_decide_false by congruence. cbn [orb negb char_at nth Z.eqb].
  apply store_unsigned_fitting; [done|lia].
Qed.
Lemma parse_signed_text text negative v value :
  is_signed (pv_type value) = true → is_unsigned (pv_type value) = false → text ≠ [] →
  scan_number text 0 = Some (negative, v, []) →
  let z := if negative then - v else v in
  kfsw_param_parse_text text value =
    if (- 2 ^ 63 <=? z) && (z <? 2 ^ 63) then store_fitting true z value else (- EINVAL, value).
Proof.
  intros Hsg Hu Hne Hs z. unfold kfsw_param_parse_text. rewrite Hu, Hsg.
  unfold strtoll, signed_of. rewrite Hs. fold z. change (64 - 1) with 63.
  destruct (z <? - 2 ^ 63) eqn:E1.
  { assert ((- 2 ^ 63 <=? z) = false) as -> by lia. done. }
  destruct (z >? 2 ^ 63 - 1) eqn:E2.
  { assert ((z <? 2 ^ 63) = false) as -> by lia. by rewrite andb_false_r. }
  rewrite bool_decide_false by congruence. cbn [orb negb char_at nth Z.eqb].
  assert ((- 2 ^ 63 <=? z) && (z <? 2 ^ 63) = true) as -> by lia.
  apply store_signed_fitting; [done|lia].
Qed.

(** C35: A decimal number is accepted for an integer parameter exactly when it lies in the
    range of its type, and what is stored is that number; otherwise nothing is stored. *)
Theorem param_parse_decimal negative ds value :
  forallb isdigit ds = true → ds ≠ [] → char_at ds 0 ≠ 48 →
  let signed := is_signed (pv_type value) in
  let bits := type_bits (pv_type value) in
  let number := decimal_number negative ds in
  is_unsigned (pv_type value) || signed = true →
  let '(rc, got) := kfsw_param_parse_text (decimal_text negative ds) value in
  (rc = 0 ↔ if signed then - 2 ^ (bits - 1) <= number < 2 ^ (bits - 1) else 0 <= number < 2 ^ bits) ∧
  (rc ≠ 0 → got = value) ∧ (rc = 0 → pv_scalar got mod 2 ^ bits = number mod 2 ^ bits).
Proof.
  intros Hd Hne H0 signed bits number Ht.
  pose proof (scan_signed_decimal negative ds Hd Hne H0) as Hscan.
  pose proof (dec_value_pos ds Hd Hne H0) as Hpos. destruct (integer_bits _ Ht) as [Hb Hsu].
  fold bits signed in Hb, Hsu. destruct (pow_bits bits Hb) as [Hp Hp'].
  assert (decimal_text negative ds ≠ []) as Hne' by (unfold decimal_text; destruct negative; [done|exact Hne]).
  pose proof (store_fitting_spec signed number value (proj1 Hb)) as Hfit. fold bits in Hfit. cbv zeta in Hfit.
  destruct signed eqn:Es.
  - rewrite (parse_signed_text _ negative (dec_value ds)); [|done|by destruct (is_unsigned _)|done|exact Hscan].
    fold (decimal_number negative ds). fold number. destruct (_ && _) eqn:E; [exact Hfit|].
    split; [|done]. split; [done|]. intros H. exfalso. lia.
  - destruct (is_unsigned (pv_type value)) eqn:Eu; [|done]. destruct negative.
    { unfold kfsw_param_parse_text. rewrite Eu. cbn [decimal_text app char_at nth Z.eqb Pos.eqb].
      split; [|done]. split; [done|]. subst number. cbn [decimal_number]. lia. }
    rewrite (parse_unsigned_text _ (dec_value ds)); [|done|done| |exact Hscan].
    2: { destruct ds as [|c ds]; [done|]. cbn in Hd. apply andb_true_iff in Hd as [Hc _].
         unfold isdigit in Hc. cbn. lia. }
    change (dec_value ds) with number. destruct (number <? 2 ^ 64) eqn:E.
    + destruct (store_fitting false number value) as [rc got]. destruct Hfit as ([H1 H2] & Hfit).
      split; [|done]. split; [intros H; split; [subst number; cbn; lia|by apply H1]|intros [_ H]; by apply H2].
    + split; [|done]. split; [done|]. intros H. exfalso. lia.
Qed.
End numbers.

(** A node without the floating-point types. *)
Definition no_float_text : FloatText := {| strtof := λ s, (0, s, true); strtod := λ s, (0, s, true) |}.

Section number_witnesses.
#[local] Existing Instance param_config_default.
#[local] Existing Instance clong32.
#[local] Existing Instance no_float_text.

Lemma param_parse_decimal_witness :
  (kfsw_param_parse_text (cstr "-128") {| pv_type := KFSW_PARAM_I8; pv_size := 1; pv_scalar := 0; pv_bytes := [] |}).1 = 0.
Proof.
  pose proof (param_parse_decimal true (cstr "128")
    {| pv_type := KFSW_PARAM_I8; pv_size := 1; pv_scalar := 0; pv_bytes := [] |}
    eq_refl ltac:(discriminate) ltac:(discriminate) eq_refl) as H.
  change (decimal_text true (cstr "128")) with (cstr "-128") in H.
  destruct (kfsw_param_parse_text (cstr "-128") _) as [rc got]. destruct H as [[_ H] _]. apply H.
  vm_compute. split; congruence.
Defined.
End number_witnesses.
