(* ===== verification/ParamWire.v ===== *)
(** * Parameter values in files ([src/parameter/param_wire.c])

    The type codes and the byte layout a value takes in a snapshot or a table image.
    What is encoded is decoded into the same value, and the decoder asks the parameter
    before it accepts. [kfsw_param_wire_apply] is in [Param]. *)

From S2P Require Import Prelude Bytes CStdlib ParamTypes Param ParamFacts.

Definition KFSW_PARAM_WIRE_U8 : Z := 1.
Definition KFSW_PARAM_WIRE_U32 : Z := 2.
Definition KFSW_PARAM_WIRE_I32 : Z := 3.
Definition KFSW_PARAM_WIRE_FLOAT : Z := 4.
Definition KFSW_PARAM_WIRE_U16 : Z := 5.
Definition KFSW_PARAM_WIRE_I16 : Z := 6.
Definition KFSW_PARAM_WIRE_STRING : Z := 7.
Definition KFSW_PARAM_WIRE_DATA : Z := 8.

Section wire.
Context {PC : ParamConfig} {BO : ByteOrder} {W : Type}.
Implicit Types (entry : kfsw_param_entry W) (st : param_state W).

(** The code and the size of a type, if a file can carry it ([-ENOTSUP] otherwise). *)
Definition kfsw_param_wire_type_of entry : option (Z * Z) :=
  let type := pi_type (pe_info entry) in
  if (type =? KFSW_PARAM_U8) || (type =? KFSW_PARAM_X8) then Some (KFSW_PARAM_WIRE_U8, 1)
  else if (type =? KFSW_PARAM_U16) || (type =? KFSW_PARAM_X16) then Some (KFSW_PARAM_WIRE_U16, 2)
  else if type =? KFSW_PARAM_I16 then Some (KFSW_PARAM_WIRE_I16, 2)
  else if (type =? KFSW_PARAM_U32) || (type =? KFSW_PARAM_X32) then Some (KFSW_PARAM_WIRE_U32, 4)
  else if type =? KFSW_PARAM_I32 then Some (KFSW_PARAM_WIRE_I32, 4)
  else if type =? KFSW_PARAM_FLOAT then Some (KFSW_PARAM_WIRE_FLOAT, 4)
  else if type =? KFSW_PARAM_DATA then Some (KFSW_PARAM_WIRE_DATA, pi_array_size (pe_info entry))
  else if type =? KFSW_PARAM_STRING then Some (KFSW_PARAM_WIRE_STRING, 0)
  else None.

(** The bytes of a value under a code; a member is the low bits of the scalar. *)
Definition wire_bytes (type : Z) (value : kfsw_param_value) (value_size : Z) : list Z :=
  let scalar := pv_scalar value in
  if type =? KFSW_PARAM_WIRE_U8 then [u8 scalar]
  else if type =? KFSW_PARAM_WIRE_U16 then put_be16 (u16 scalar)
  else if type =? KFSW_PARAM_WIRE_I16 then put_be16 (u16 (i16 scalar))
  else if type =? KFSW_PARAM_WIRE_U32 then put_be32 (u32 scalar)
  else if type =? KFSW_PARAM_WIRE_I32 then put_be32 (u32 (i32 scalar))
  else if type =? KFSW_PARAM_WIRE_FLOAT then put_be32 (u32 scalar)
  else take (Z.to_nat value_size) (pv_bytes value).

(** The result, the memory at [output] and the bytes encoded. *)
Definition kfsw_param_wire_encode entry (output : list Z) (output_size written : Z) st
    : Z * list Z * Z * param_state W :=
  match kfsw_param_wire_type_of entry with
  | None => (- ENOTSUP, output, written, st)
  | Some (type, value_size) =>
      match kfsw_param_read_entry (Some entry) (Some stack_value) st with
      | (result, value, st) =>
          if negb (result =? 0) then (result, output, written, st)
          else
            let value := default stack_value value in
            let value_size := if type =? KFSW_PARAM_WIRE_STRING then u16 (pv_size value) else value_size in
            if output_size <? value_size then (- ENOSPC, output, written, st)
            else (0, buf_put 0 (wire_bytes type value value_size) output, value_size, st)
      end
  end.

(** The scalar a decoder stores, in a cleared union. *)
Definition wire_scalar (type : Z) (value : list Z) : kfsw_param_scalar :=
  if type =? KFSW_PARAM_WIRE_U8 then put_member 8 (byte_at value 0) 0
  else if type =? KFSW_PARAM_WIRE_U16 then put_member 16 (get_be16 0 value) 0
  else if type =? KFSW_PARAM_WIRE_I16 then put_member 16 (i16 (get_be16 0 value)) 0
  else if type =? KFSW_PARAM_WIRE_I32 then put_member 32 (i32 (get_be32 0 value)) 0
  else put_member 32 (get_be32 0 value) 0.

Definition kfsw_param_wire_decode entry (type : Z) (value : list Z) (value_size : Z) st
    : Z * kfsw_param_value :=
  let decoded := {| pv_type := pi_type (pe_info entry); pv_size := value_size; pv_scalar := 0;
                    pv_bytes := zero_text |} in
  let array := {| pv_type := pi_type (pe_info entry); pv_size := value_size; pv_scalar := 0;
                  pv_bytes := buf_put 0 (take (Z.to_nat value_size) value) zero_text |} in
  let accept decoded := (kfsw_param_validate_entry (Some entry) (Some decoded) st, decoded) in
  match kfsw_param_wire_type_of entry with
  | None => (- ENOTSUP, decoded)
  | Some (expected_type, expected_size) =>
      if negb (type =? expected_type) then (- EBADMSG, decoded)
      else if negb (expected_size =? 0) && negb (value_size =? expected_size) then (- EBADMSG, decoded)
      else if type =? KFSW_PARAM_WIRE_DATA then
        if (value_size =? 0) || negb (value_size =? pi_array_size (pe_info entry))
           || (value_size >? PARAM_STRING_MAX) then (- EBADMSG, decoded)
        else accept array
      else if type =? KFSW_PARAM_WIRE_STRING then
        if (value_size =? 0) || (value_size >? PARAM_STRING_MAX)
           || negb (byte_at value (Z.to_nat (value_size - 1)) =? 0) then (- EBADMSG, decoded)
        else accept array
      else accept (set_scalar (wire_scalar type value) decoded)
  end.
End wire.

(** ** What is encoded is decoded *)

Section wire_proofs.
Context {PC : ParamConfig} {BO : ByteOrder} {W : Type}.
Implicit Types (entry : kfsw_param_entry W) (st : param_state W) (value : kfsw_param_value).

(** A value as reading answers it: a text is terminated within its size. *)
Definition value_read entry value : Prop :=
  pv_type value = pi_type (pe_info entry) ∧ value_wf value ∧
  (pv_type value = KFSW_PARAM_STRING → 0 < pv_size value <= PARAM_STRING_MAX ∧
     byte_at (pv_bytes value) (Z.to_nat (pv_size value - 1)) = 0) ∧
  (pv_type value ≠ KFSW_PARAM_STRING → pv_size value = entry_capacity entry).

Lemma read_entry_value entry any sample st value st' :
  entry_ok entry → is_u16 (pd_capacity (pe_definition entry)) →
  read_entry (Some entry) (Some any) sample st = (0, Some value, st') → value_read entry value.
Proof.
  intros Hok Hu. pose proof (capacity_bounds entry Hok Hu) as Hc. pose proof zero_text_length as Hz.
  unfold read_entry, value_read. destruct (entry_capacity entry =? 0) eqn:E0; [lia|]. cbv zeta.
  generalize (if sample then run_sampler entry st else st). intros st1.
  destruct (_ =? KFSW_PARAM_STRING) eqn:G1.
  { pose proof (copy_text_spec (entry_object entry st1) (entry_capacity entry) (proj1 Hc)) as Hcopy.
    destruct (copy_text _ _ _ _) as [k text]. destruct Hcopy as (Hk & Hl & Hcut & Hb).
    intros [= <- <-]. unfold value_wf, value_text. cbn [pv_type pv_size pv_bytes].
    pose proof (zlen_nonneg (cut_nul (entry_object entry st1))).
    split_and!; [done|done| | |intros H'; lia].
    - intros _. rewrite Hcut. unfold strlen, zlen in *. rewrite length_take. lia.
    - intros _. replace (k + 1 - 1) with k by lia. split; [lia|done]. }
  destruct (_ =? KFSW_PARAM_DATA) eqn:G2; intros [= <- <-]; unfold value_wf; cbn [pv_type pv_size pv_bytes];
    split_and!; try done; try (intros H'; rewrite H' in *; done).
  unfold zlen in *. rewrite buf_put_length_0; [done|]. rewrite length_take. lia.
Qed.

Lemma get_put_be16 v rest : get_be16 0 (put_be16 v ++ rest) = u16 v.
Proof. destruct (put_be16_shape v) as (a & b & -> & _ & H). exact H. Qed.
Lemma get_put_be32 v rest : get_be32 0 (put_be32 v ++ rest) = u32 v.
Proof. destruct (put_be32_shape v) as (a & b & c & d & -> & _ & H). exact H. Qed.
Lemma put_member_clear bits v : put_member bits v 0 = v mod 2 ^ bits.
Proof. unfold put_member. rewrite Zdiv_0_l. lia. Qed.

(** The codes a file can carry, with the width of their type. *)
Lemma type_of_cases entry type size :
  kfsw_param_wire_type_of entry = Some (type, size) →
  (type = KFSW_PARAM_WIRE_DATA ∧ pi_type (pe_info entry) = KFSW_PARAM_DATA ∧
   size = pi_array_size (pe_info entry)) ∨
  (type = KFSW_PARAM_WIRE_STRING ∧ pi_type (pe_info entry) = KFSW_PARAM_STRING ∧ size = 0) ∨
  (is_array (pi_type (pe_info entry)) = false ∧ size = scalar_size (pi_type (pe_info entry)) ∧
   ((type = KFSW_PARAM_WIRE_U8 ∧ size = 1) ∨
    ((type = KFSW_PARAM_WIRE_U16 ∨ type = KFSW_PARAM_WIRE_I16) ∧ size = 2) ∨
    ((type = KFSW_PARAM_WIRE_U32 ∨ type = KFSW_PARAM_WIRE_I32 ∨ type = KFSW_PARAM_WIRE_FLOAT) ∧ size = 4))).
Proof.
  unfold kfsw_param_wire_type_of. set (t := pi_type (pe_info entry)).
  assert (∀ a b, (t =? a) || (t =? b) = true → t = a ∨ t = b) as Hor by (intros a b; lia).
  assert (∀ a, (t =? a) = true → t = a) as Hone by (intros a; lia).
  repeat match goal with |- context [if ?b then _ else _] => let G := fresh "G" in destruct b eqn:G;
    [intros [= <- <-]; first [apply Hor in G as [G|G]|apply Hone in G]; rewrite ?G; vm_compute; tauto|] end.
  done.
Qed.

(** A scalar's bytes are its value modulo its width. *)
Lemma scalar_wire type value size rest :
  (type = KFSW_PARAM_WIRE_U8 ∧ size = 1) ∨
  ((type = KFSW_PARAM_WIRE_U16 ∨ type = KFSW_PARAM_WIRE_I16) ∧ size = 2) ∨
  ((type = KFSW_PARAM_WIRE_U32 ∨ type = KFSW_PARAM_WIRE_I32 ∨ type = KFSW_PARAM_WIRE_FLOAT) ∧ size = 4) →
  zlen (wire_bytes type value size) = size ∧
  wire_scalar type (wire_bytes type value size ++ rest) = pv_scalar value mod 2 ^ (8 * size).
Proof.
  intros H. split.
  - destruct H as [[-> ->]|[[[-> | ->] ->]|[[-> |[-> | ->]] ->]]]; cbn -[put_be16 put_be32]; split_stores; done.
  - unfold wire_scalar.
    destruct H as [[-> ->]|[[[-> | ->] ->]|[[-> |[-> | ->]] ->]]];
      cbn -[put_be16 put_be32 get_be16 get_be32 put_member Z.pow app];
      rewrite ?get_put_be16, ?get_put_be32, ?put_member_clear; [|clia..].
    change (byte_at ([u8 (pv_scalar value)] ++ rest) 0) with (u8 (pv_scalar value)). clia.
Qed.

(** An array that is copied out and back. *)
Lemma array_wire n l rest m :
  length (take n l) = n →
  take n (buf_put 0 (take n (take n l ++ rest)) m) = take n l :> list Z.
Proof.
  intros Hlen. rewrite (take_app_length' _ _ n) by done. rewrite buf_put_0. by apply take_app_length'.
Qed.

(** A value that is the same as a well-formed one is well formed. *)
Lemma same_value_wf v v' :
  value_wf v' → same_value v v' → zlen (pv_bytes v) = PARAM_STRING_MAX →
  (pv_type v' = KFSW_PARAM_STRING → pv_size v' <= PARAM_STRING_MAX) → value_wf v.
Proof.
  intros (Hl' & Hs') (Ht & Hsz & _ & Ha) Hl Hmax. split; [done|]. intros E. rewrite Ht in E.
  specialize (Hs' E). specialize (Hmax E). specialize (Ha ltac:(by rewrite Ht, E)). rewrite Hsz in *. unfold strlen in *.
  unfold value_text in Hs'. rewrite Hs' in Ha. rewrite (take_text (pv_bytes v')) in Ha by (unfold zlen in *; lia).
  unfold value_text. rewrite <- (take_drop (Z.to_nat (zlen (cut_nul (pv_bytes v')) + 1)) (pv_bytes v)), Ha.
  rewrite <- app_assoc. cbn [app]. rewrite cut_nul_app by apply cut_nul_no_nul. done.
Qed.

Lemma buf_put_zero_text n l :
  (n <= Z.to_nat PARAM_STRING_MAX)%nat → zlen (buf_put 0 (take n l) zero_text) = PARAM_STRING_MAX.
Proof.
  intros Hn. rewrite <- zero_text_length. unfold zlen. f_equal. apply buf_put_length_0.
  pose proof zero_text_length. unfold zlen in *. rewrite length_take. lia.
Qed.

(** What a file holds of a value. *)
Definition wire_size (type value_size : Z) value : Z :=
  if type =? KFSW_PARAM_WIRE_STRING then pv_size value else value_size.

Lemma decode_wire entry value type value_size st rest :
  entry_ok entry → is_u16 (pd_capacity (pe_definition entry)) → value_read entry value →
  kfsw_param_wire_type_of entry = Some (type, value_size) →
  let size := wire_size type value_size value in
  let data := wire_bytes type value size in
  zlen data = size ∧ size = pv_size value ∧ 0 < size <= PARAM_STRING_MAX ∧
  ∃ decoded, kfsw_param_wire_decode entry type (data ++ rest) size st =
    (kfsw_param_validate_entry (Some entry) (Some decoded) st, decoded) ∧ same_value decoded value ∧
    value_wf decoded.
Proof.
  intros Hok Hu (Ht & Hwf & Hs & Hn) Hty. pose proof (proj1 Hwf) as Hl. cbv zeta. pose proof (capacity_bounds entry Hok Hu) as Hc.
  pose proof zero_text_length as Hz. unfold kfsw_param_wire_decode, wire_size. rewrite Hty, Z.eqb_refl. cbn [negb].
  apply type_of_cases in Hty as [(-> & Hp & ->)|[(-> & Hp & ->)|(Ha & Hsz & Hcases)]].
  - change (KFSW_PARAM_WIRE_DATA =? KFSW_PARAM_WIRE_STRING) with false. cbv iota. rewrite Z.eqb_refl.
    assert (pi_array_size (pe_info entry) = entry_capacity entry) as Hcap.
    { unfold entry_capacity, info_capacity, is_array. by rewrite Hp. }
    assert (pv_size value = entry_capacity entry) as Hsize by (apply Hn; rewrite Ht, Hp; done).
    rewrite Hcap, !Z.eqb_refl, orb_false_r, andb_false_r, <- Hsize in *.
    assert ((pv_size value =? 0) || (pv_size value >? PARAM_STRING_MAX) = false) as -> by lia.
    change (wire_bytes KFSW_PARAM_WIRE_DATA value (pv_size value)) with (take (Z.to_nat (pv_size value)) (pv_bytes value)).
    assert (length (take (Z.to_nat (pv_size value)) (pv_bytes value)) = Z.to_nat (pv_size value)) as Hlen
      by (rewrite length_take; unfold zlen in *; lia).
    split_and!; [unfold zlen; lia|done|lia|lia|]. eexists. split; [reflexivity|].
    match goal with |- same_value ?d _ ∧ _ => assert (same_value d value) as Hsame end.
    { unfold same_value. cbn [pv_type pv_size pv_scalar pv_bytes]. split_and!; [done|done|by rewrite Hp|].
      intros _. by apply array_wire. }
    split; [done|]. apply (same_value_wf _ value); [done|done|apply buf_put_zero_text; lia|lia].
  - change (KFSW_PARAM_WIRE_STRING =? KFSW_PARAM_WIRE_DATA) with false. cbv iota. rewrite !Z.eqb_refl. cbn [negb andb].
    destruct (Hs ltac:(congruence)) as [Hsize Hlast].
    assert ((pv_size value =? 0) || (pv_size value >? PARAM_STRING_MAX) = false) as -> by lia.
    change (wire_bytes KFSW_PARAM_WIRE_STRING value (pv_size value)) with (take (Z.to_nat (pv_size value)) (pv_bytes value)).
    assert (length (take (Z.to_nat (pv_size value)) (pv_bytes value)) = Z.to_nat (pv_size value)) as Hlen
      by (rewrite length_take; unfold zlen in *; lia).
    assert (byte_at (take (Z.to_nat (pv_size value)) (pv_bytes value) ++ rest) (Z.to_nat (pv_size value - 1)) = 0) as ->.
    { unfold byte_at in *. rewrite app_nth1 by lia.
      by rewrite nth_lookup, lookup_take_lt, <- nth_lookup by lia. }
    cbn [orb negb Z.eqb]. split_and!; [unfold zlen; lia|done|lia|lia|]. eexists. split; [reflexivity|].
    match goal with |- same_value ?d _ ∧ _ => assert (same_value d value) as Hsame end.
    { unfold same_value. cbn [pv_type pv_size pv_scalar pv_bytes]. split_and!; [done|done|by rewrite Hp|].
      intros _. by apply array_wire. }
    split; [done|]. apply (same_value_wf _ value); [done|done|apply buf_put_zero_text; lia|lia].
  - assert ((type =? KFSW_PARAM_WIRE_STRING) = false ∧ (type =? KFSW_PARAM_WIRE_DATA) = false) as [-> ->]
      by (destruct Hcases as [[-> _]|[[[-> | ->] _]|[[-> |[-> | ->]] _]]]; done).
    destruct (scalar_wire type value value_size rest Hcases) as [Hlen Hscalar].
    assert (pv_size value = value_size) as Hsize.
    { rewrite Hsz, Hn; [|intros E; rewrite <- Ht, E in Ha; done].
      unfold entry_capacity, info_capacity. by rewrite Ha. }
    rewrite Z.eqb_refl, andb_false_r, Hsize. cbv iota.
    assert (0 < value_size) by (destruct Hcases as [[_ ->]|[[_ ->]|[_ ->]]]; lia).
    split_and!; [done|done|lia| |].
    { pose proof PARAM_STRING_MAX_range. destruct Hcases as [[_ ->]|[[_ ->]|[_ ->]]]; lia. }
    eexists. split; [reflexivity|]. unfold same_value, value_wf. cbn [pv_type pv_size pv_scalar pv_bytes set_scalar].
    split_and!; [done|done| |rewrite Ha; done|done|intros E; by rewrite E in Ha].
    intros _. by rewrite Hscalar, Hsize.
Qed.
(** What is decoded has the type of its parameter, and was accepted by it. *)
Lemma decode_type entry type data size st rc value :
  kfsw_param_wire_decode entry type data size st = (rc, value) → pv_type value = pi_type (pe_info entry).
Proof.
  unfold kfsw_param_wire_decode, set_scalar. cbv zeta.
  destruct (kfsw_param_wire_type_of entry) as [[ty sz]|]; repeat case_match; by intros [= _ <-].
Qed.
Lemma decode_accepted entry type data size st value :
  kfsw_param_wire_decode entry type data size st = (0, value) →
  kfsw_param_validate_entry (Some entry) (Some value) st = 0.
Proof.
  unfold kfsw_param_wire_decode, set_scalar. cbv zeta.
  destruct (kfsw_param_wire_type_of entry) as [[ty sz]|]; repeat case_match; try done; by intros [= Hv <-].
Qed.
End wire_proofs.

Section wire_properties.
Context {PC : ParamConfig} {BO : ByteOrder} {W : Type}.
Implicit Types (entry : kfsw_param_entry W) (st : param_state W) (value : kfsw_param_value).

Lemma read_entry_some entry any sample st (value : option kfsw_param_value) st' :
  read_entry (Some entry) (Some any) sample st = (0, value, st') → ∃ v, value = Some v.
Proof.
  unfold read_entry. destruct (_ =? 0); [done|]. cbv zeta.
  destruct (_ =? KFSW_PARAM_STRING); [destruct (copy_text _ _ _ _)|destruct (_ =? KFSW_PARAM_DATA)];
    intros [= <- _]; eauto.
Qed.

(** What an encoder that succeeds leaves. *)
Lemma encode_spec entry output room written st output' n st' :
  entry_ok entry → is_u16 (pd_capacity (pe_definition entry)) →
  kfsw_param_wire_encode entry output room written st = (0, output', n, st') →
  ∃ value type size, kfsw_param_wire_type_of entry = Some (type, size) ∧
    kfsw_param_read_entry (Some entry) (Some stack_value) st = (0, Some value, st') ∧
    value_read entry value ∧ n = wire_size type size value ∧ n <= room ∧
    output' = wire_bytes type value n ++ drop (length (wire_bytes type value n)) output.
Proof.
  intros Hok Hu. unfold kfsw_param_wire_encode. destruct (kfsw_param_wire_type_of entry) as [[type size]|]; [|done].
  destruct (kfsw_param_read_entry _ _ st) as [[rc v] st1] eqn:E. destruct (rc =? 0) eqn:Erc; cbn [negb].
  2: { intros [= -> _ _ _]. done. }
  assert (rc = 0) as -> by lia. destruct (read_entry_some _ _ _ _ _ _ E) as [value ->]. cbn [default from_option id].
  pose proof (read_entry_value entry stack_value true st value st1 Hok Hu E) as Hv.
  assert ((if type =? KFSW_PARAM_WIRE_STRING then u16 (pv_size value) else size) = wire_size type size value) as ->.
  { unfold wire_size. destruct (type =? KFSW_PARAM_WIRE_STRING) eqn:Es; [|done].
    pose proof PARAM_STRING_MAX_range. pose proof (capacity_bounds entry Hok Hu).
    destruct Hv as (Ht & _ & Hs & Hn). apply u16_id.
    destruct (decide (pv_type value = KFSW_PARAM_STRING)) as [Ee|Ee].
    - destruct (Hs Ee). clia.
    - rewrite (Hn Ee). clia. }
  destruct (room <? _) eqn:Er; [done|]. intros [= <- <- <-]. exists value, type, size. split_and!; try done. lia.
Qed.

(** C40: A value that is encoded for a file is decoded into the same value of the parameter's
    type, whatever follows it in the file, and the decoder answers what the parameter's own
    validation does. *)
Theorem param_wire_roundtrip entry output room written st output' n st' :
  entry_ok entry → is_u16 (pd_capacity (pe_definition entry)) →
  kfsw_param_wire_encode entry output room written st = (0, output', n, st') →
  ∃ value type size, kfsw_param_wire_type_of entry = Some (type, size) ∧
    kfsw_param_read_entry (Some entry) (Some stack_value) st = (0, Some value, st') ∧
    n = pv_size value ∧ 0 < n <= room ∧
    ∃ decoded, kfsw_param_wire_decode entry type output' n st' =
      (kfsw_param_validate_entry (Some entry) (Some decoded) st', decoded) ∧ same_value decoded value.
Proof.
  intros Hok Hu H. destruct (encode_spec _ _ _ _ _ _ _ _ Hok Hu H) as (value & type & size & Ht & Hr & Hv & -> & Hn & ->).
  exists value, type, size.
  destruct (decode_wire entry value type size st' (drop (length (wire_bytes type value (wire_size type size value))) output)
    Hok Hu Hv Ht) as (_ & Hsz & Hpos & decoded & Hd & Hs & _).
  split_and!; [done|done|done|lia|done|]. by exists decoded.
Qed.
End wire_properties.

Section wire_witnesses.
#[local] Existing Instance param_config_default.

Definition wire_entry : kfsw_param_entry Z := {|
  pe_info := {| pi_node := 0; pi_id := KFSW_PARAM_ID 25 0; pi_table := 25; pi_offset := 0;
    pi_array_size := 1; pi_type := KFSW_PARAM_I16; pi_flags := 0; pi_table_name := None;
    pi_name := cstr "trim"; pi_unit := None; pi_description := None; pi_read_only := false |};
  pe_definition := {| pd_offset := 0; pd_type := KFSW_PARAM_I16; pd_capacity := 1; pd_flags := 0;
    pd_name := Some (cstr "trim"); pd_unit := None; pd_description := None; pd_value := Some 100;
    pd_default_value := 0; pd_default_text := None; pd_validate := None; pd_apply := None;
    pd_changed := None; pd_validate_text := None; pd_changed_text := None; pd_validate_data := None;
    pd_changed_data := None; pd_default_data := None; pd_sample := None |} |}.

Lemma param_wire_roundtrip_witness :
  let st := param_boot (<[100 := [254; 255]]> ∅) 0 in
  ∃ decoded, kfsw_param_wire_decode wire_entry KFSW_PARAM_WIRE_I16 [255; 254; 7; 7] 2 st
    = (kfsw_param_validate_entry (Some wire_entry) (Some decoded) st, decoded).
Proof.
  assert (entry_ok wire_entry) as Hok.
  { unfold entry_ok. split_and!; try reflexivity; try (by eexists); try (vm_compute; discriminate).
    all: intros H; vm_compute in H; discriminate H. }
  assert (kfsw_param_wire_encode wire_entry [9; 9; 7; 7] 4 0 (param_boot (<[100 := [254; 255]]> ∅) 0)
    = (0, [255; 254; 7; 7], 2, param_boot (<[100 := [254; 255]]> ∅) 0)) as E by (vm_compute; reflexivity).
  destruct (param_wire_roundtrip wire_entry _ _ _ _ _ _ _ Hok ltac:(vm_compute; split; congruence) E)
    as (value & type & size & Ht & _ & _ & _ & decoded & Hd & _).
  vm_compute in Ht. injection Ht as <- _. exists decoded. exact Hd.
Defined.
End wire_witnesses.
