(* ===== verification/ParamPersist.v ===== *)
(** * Parameter snapshots ([src/parameter/parameter_persistence.c])

    The file the persistent parameters are saved to and loaded from at boot. The static
    buffer is the [snapshot] the functions pass on; every operation runs under the
    persistence lock and is one step. Log lines are left out, and with them the warning
    about wear. *)

From S2P Require Import Prelude Bytes CStdlib FileSystem SnapshotFile ParamTypes Param ParamFacts ParamWire.

(** [KFSW_STORAGE_MOUNT_POINT] is the platform's. *)
Class StoragePlatform := { KFSW_STORAGE_MOUNT_POINT : list Z }.

Definition KFSW_PARAM_PERSIST_MAX_BYTES : Z := 2048.
Definition KFSW_PARAM_PERSIST_MAX_ENTRY_COUNT : Z := 64.
Definition KFSW_PARAM_PERSIST_MAGIC : list Z := [75; 80; 65; 82].
Definition KFSW_PARAM_PERSIST_VERSION : Z := 1.
Definition KFSW_PARAM_PERSIST_HEADER_SIZE : Z := 20.
Definition KFSW_PARAM_PERSIST_CRC_OFFSET : nat := 16.
Definition KFSW_PARAM_PERSIST_ENTRY_HEADER_SIZE : Z := 4.
Definition KFSW_PARAM_PERSIST_MAX_NAME_SIZE : Z := KFSW_PARAM_NAME_MAX.

Definition bounded_string_length (text : list Z) (maximum : Z) : Z := Z.min (zlen (cut_nul text)) maximum.

(** [struct persist_entry]; a pointer is what the buffer holds from there on. *)
Record persist_entry := {
  pe_name : list Z; pe_value : list Z; pe_value_size : Z; pe_name_size : Z; pe_type : Z;
}.

Record param_persist (W F : Type) := {
  pp_params : param_state W; pp_files : F; snapshot_bytes : Z;
}.
Arguments pp_params {W F}. Arguments pp_files {W F}. Arguments snapshot_bytes {W F}.

Section snapshot.
Context {PC : ParamConfig} {BO : ByteOrder} {CRC : Crc32} {W : Type}.
Implicit Types (entry : kfsw_param_entry W) (st : param_state W) (snapshot data : list Z).

(** ** Building

    The loop of [build_snapshot]: the result, the offset, the entries and the buffer. *)
Fixpoint build_entries (l : list (kfsw_param_entry W)) (offset entry_count : Z) snapshot st
    : Z * Z * Z * list Z * param_state W :=
  match l with
  | [] => (0, offset, entry_count, snapshot, st)
  | entry :: l =>
      let info := pe_info entry in
      if negb (pi_node info =? 0) || (Z.land (pi_flags info) KFSW_PARAM_FLAG_PERSISTENT =? 0)
      then build_entries l offset entry_count snapshot st
      else
        let name_size := bounded_string_length (pi_name info) (KFSW_PARAM_PERSIST_MAX_NAME_SIZE + 1) in
        if (name_size =? 0) || (name_size >? KFSW_PARAM_PERSIST_MAX_NAME_SIZE)
        then (- ENAMETOOLONG, offset, entry_count, snapshot, st)
        else
          match kfsw_param_wire_type_of entry with
          | None => build_entries l offset entry_count snapshot st
          | Some (type, value_size) =>
              let value_size := if is_array (pi_type info) then pi_array_size info else value_size in
              if (entry_count >=? KFSW_PARAM_PERSIST_MAX_ENTRY_COUNT)
                 || (offset + KFSW_PARAM_PERSIST_ENTRY_HEADER_SIZE + name_size + value_size
                     >? KFSW_PARAM_PERSIST_MAX_BYTES)
              then (- E2BIG, offset, entry_count, snapshot, st)
              else
                let snapshot := buf_put (Z.to_nat offset) [u8 name_size; type] snapshot in
                let header_offset := offset in
                let offset := offset + KFSW_PARAM_PERSIST_ENTRY_HEADER_SIZE in
                let snapshot := buf_put (Z.to_nat offset) (take (Z.to_nat name_size) (pi_name info)) snapshot in
                let offset := offset + name_size in
                let '(result, output, value_size, st) :=
                  kfsw_param_wire_encode entry (drop (Z.to_nat offset) snapshot)
                    (KFSW_PARAM_PERSIST_MAX_BYTES - offset) value_size st in
                let snapshot := buf_put (Z.to_nat offset) output snapshot in
                if negb (result =? 0) then (result, offset, entry_count, snapshot, st)
                else
                  let snapshot := buf_put (Z.to_nat (header_offset + 2)) (put_be16 value_size) snapshot in
                  build_entries l (offset + value_size) (u16 (entry_count + 1)) snapshot st
          end
  end.

(** The header, with the CRC over everything computed with its field clear. *)
Definition put_header (offset entry_count : Z) snapshot : list Z :=
  let snapshot := buf_put 0 KFSW_PARAM_PERSIST_MAGIC snapshot in
  let snapshot := buf_put 4 (put_be16 KFSW_PARAM_PERSIST_VERSION) snapshot in
  let snapshot := buf_put 6 (put_be16 KFSW_PARAM_PERSIST_HEADER_SIZE) snapshot in
  let snapshot := buf_put 8 (put_be32 (u32 (offset - KFSW_PARAM_PERSIST_HEADER_SIZE))) snapshot in
  let snapshot := buf_put 12 (put_be16 entry_count) snapshot in
  let snapshot := buf_put 14 (put_be16 0) snapshot in
  let snapshot := buf_put KFSW_PARAM_PERSIST_CRC_OFFSET (put_be32 0) snapshot in
  buf_put KFSW_PARAM_PERSIST_CRC_OFFSET (put_be32 (crc32_ieee (take (Z.to_nat offset) snapshot))) snapshot.

(** The result, the size, the buffer. *)
Definition build_snapshot st : Z * Z * list Z * param_state W :=
  let snapshot := replicate (Z.to_nat KFSW_PARAM_PERSIST_MAX_BYTES) 0 in
  let '(result, offset, entry_count, snapshot, st) :=
    build_entries (parameter_table st) KFSW_PARAM_PERSIST_HEADER_SIZE 0 snapshot st in
  if negb (result =? 0) then (result, 0, snapshot, st)
  else (0, offset, put_header offset entry_count snapshot, st).

(** ** Reading *)

Definition next_entry data (size offset : Z) : option (Z * persist_entry) :=
  if offset + KFSW_PARAM_PERSIST_ENTRY_HEADER_SIZE >? size then None
  else
    let name_size := byte_at data (Z.to_nat offset) in
    let type := byte_at data (Z.to_nat (offset + 1)) in
    let value_size := get_be16 (Z.to_nat (offset + 2)) data in
    let offset := offset + KFSW_PARAM_PERSIST_ENTRY_HEADER_SIZE in
    let entry_size := name_size + value_size in
    if (name_size =? 0) || (name_size >? KFSW_PARAM_PERSIST_MAX_NAME_SIZE) || (value_size =? 0)
       || (value_size >? PARAM_STRING_MAX) || (offset + entry_size >? size)
    then None
    else Some (offset + entry_size,
      {| pe_name := drop (Z.to_nat offset) data; pe_value := drop (Z.to_nat (offset + name_size)) data;
         pe_value_size := value_size; pe_name_size := name_size; pe_type := type |}).

Fixpoint validate_entries (entry_count : nat) data (size offset : Z) : Z :=
  match entry_count with
  | O => if offset =? size then 0 else - EBADMSG
  | S entry_count =>
      match next_entry data size offset with
      | None => - EBADMSG
      | Some (offset, _) => validate_entries entry_count data size offset
      end
  end.

(** The result, the entries and the buffer, whose CRC field is cleared. *)
Definition validate_snapshot snapshot (size : Z) : Z * Z * list Z :=
  if size <? KFSW_PARAM_PERSIST_HEADER_SIZE then (- EMSGSIZE, 0, snapshot)
  else if negb (mem_eq snapshot KFSW_PARAM_PERSIST_MAGIC 4) then (- EBADMSG, 0, snapshot)
  else if negb (get_be16 4 snapshot =? KFSW_PARAM_PERSIST_VERSION) then (- EPROTONOSUPPORT, 0, snapshot)
  else if negb (get_be16 6 snapshot =? KFSW_PARAM_PERSIST_HEADER_SIZE) || negb (get_be16 14 snapshot =? 0)
  then (- EBADMSG, 0, snapshot)
  else
    let payload_size := get_be32 8 snapshot in
    let entry_count := get_be16 12 snapshot in
    if negb (payload_size =? size - KFSW_PARAM_PERSIST_HEADER_SIZE)
       || (entry_count >? KFSW_PARAM_PERSIST_MAX_ENTRY_COUNT) then (- EMSGSIZE, entry_count, snapshot)
    else
      let expected_crc := get_be32 KFSW_PARAM_PERSIST_CRC_OFFSET snapshot in
      let snapshot := buf_put KFSW_PARAM_PERSIST_CRC_OFFSET (put_be32 0) snapshot in
      if negb (crc32_ieee (take (Z.to_nat size) snapshot) =? expected_crc) then (- EBADMSG, entry_count, snapshot)
      else (validate_entries (Z.to_nat entry_count) snapshot size KFSW_PARAM_PERSIST_HEADER_SIZE,
            entry_count, snapshot).

Definition entry_matches entry (persist_entry : persist_entry) : bool :=
  match kfsw_param_wire_type_of entry with
  | None => false
  | Some (type, value_size) =>
      if negb (type =? pe_type persist_entry) then false
      else if type =? KFSW_PARAM_WIRE_STRING
      then pe_value_size persist_entry <=? pi_array_size (pe_info entry)
      else value_size =? pe_value_size persist_entry
  end.

(** The walk over the [remaining] entries; [entry_count] is their number in the snapshot. *)
Fixpoint walk_entries (remaining : nat) snapshot (size entry_count offset : Z) (apply : bool) st
    : Z * param_state W :=
  match remaining with
  | O => (0, st)
  | S remaining =>
      match next_entry snapshot size offset with
      | None => (- EBADMSG, st)
      | Some (offset, entry) =>
          let continue := walk_entries remaining snapshot size entry_count offset apply in
          let name := cut_nul (take (Z.to_nat (pe_name_size entry)) (pe_name entry)) in
          match kfsw_param_find_name (Some name) st with
          | None => continue st
          | Some param_entry =>
              if Z.land (pi_flags (pe_info param_entry)) KFSW_PARAM_FLAG_PERSISTENT =? 0 then continue st
              else if negb (entry_matches param_entry entry) then continue st
              else if bool_decide (is_Some (pd_apply (pe_definition param_entry))) && negb (entry_count =? 1)
              then (- ENOTSUP, st)
              else
                let '(result, value) :=
                  kfsw_param_wire_decode param_entry (pe_type entry) (pe_value entry) (pe_value_size entry) st in
                if negb (result =? 0) then continue st
                else if apply then
                  let '(result, st) := kfsw_param_wire_apply param_entry value st in
                  if negb (result =? 0) then (result, st) else continue st
                else continue st
          end
      end
  end.
Definition walk_snapshot snapshot (size entry_count : Z) (apply : bool) st : Z * param_state W :=
  walk_entries (Z.to_nat entry_count) snapshot size entry_count KFSW_PARAM_PERSIST_HEADER_SIZE apply st.

Definition apply_snapshot snapshot (size entry_count : Z) st : Z * param_state W :=
  let '(result, st) := walk_snapshot snapshot size entry_count false st in
  if result =? 0 then walk_snapshot snapshot size entry_count true st else (result, st).
End snapshot.

(** ** Files *)

Section files.
Context {PC : ParamConfig} {BO : ByteOrder} {CRC : Crc32} {SP : StoragePlatform} {W F : Type}
  `{FO : FileOps F}.
Implicit Types (s : param_persist W F) (f : F).

Definition KFSW_PARAM_PERSIST_DIRECTORY : list Z := KFSW_STORAGE_MOUNT_POINT ++ cstr "/params".
Definition KFSW_PARAM_PERSIST_PATH : list Z := KFSW_PARAM_PERSIST_DIRECTORY ++ cstr "/parameters.dat".
Definition KFSW_PARAM_PERSIST_TEMP_PATH : list Z := KFSW_PARAM_PERSIST_DIRECTORY ++ cstr "/parameters.tmp".

Definition check_budget (snapshot_size : Z) f : Z :=
  if snapshot_size >? KFSW_PARAM_PERSIST_MAX_BYTES then - EFBIG
  else
    let '(result, free_bytes) := kfsw_storage_free_bytes f in
    if negb (result =? 0) then 0
    else if snapshot_size >? free_bytes then - ENOSPC
    else 0.

(** A file that ends before its size is of the wrong size. *)
Definition read_all (fuel : nat) (file : fs_file_t) (data : list Z) (offset size : Z) f
    : Z * list Z * fs_file_t * F := read_up_to (- EMSGSIZE) fuel file data offset size f.

Definition persist_save s : Z * param_persist W F :=
  if negb (kfsw_param_is_initialized (pp_params s)) || negb (kfsw_storage_is_ready (pp_files s))
  then (- EACCES, s)
  else
    let '(result, snapshot_size, snapshot, st) := build_snapshot (pp_params s) in
    if negb (result =? 0)
    then (result, {| pp_params := st; pp_files := pp_files s; snapshot_bytes := snapshot_bytes s |})
    else
      let '(result, f) := fs_mkdir KFSW_PARAM_PERSIST_DIRECTORY (pp_files s) in
      let s := {| pp_params := st; pp_files := f; snapshot_bytes := u32 snapshot_size |} in
      if negb (result =? 0) && negb (result =? - EEXIST) then (result, s)
      else if negb (check_budget snapshot_size f =? 0) then (check_budget snapshot_size f, s)
      else
        let '(result, f) := kfsw_snapshot_write (Some KFSW_PARAM_PERSIST_PATH)
                              (Some KFSW_PARAM_PERSIST_TEMP_PATH) (Some snapshot) snapshot_size f in
        (result, {| pp_params := st; pp_files := f; snapshot_bytes := u32 snapshot_size |}).

(** [snapshot] is what the static buffer holds. *)
Definition persist_load (snapshot : list Z) s : Z * param_persist W F :=
  if negb (kfsw_param_is_initialized (pp_params s)) || negb (kfsw_storage_is_ready (pp_files s))
  then (- EACCES, s)
  else
    let with_files f := {| pp_params := pp_params s; pp_files := f; snapshot_bytes := snapshot_bytes s |} in
    let '(_, f) := fs_unlink KFSW_PARAM_PERSIST_TEMP_PATH (pp_files s) in
    let '(result, entry) := fs_stat KFSW_PARAM_PERSIST_PATH f in
    if negb (result =? 0) then (result, with_files f)
    else
      let size := de_size entry in
      if negb (de_type entry =? FS_DIR_ENTRY_FILE) || (size <? KFSW_PARAM_PERSIST_HEADER_SIZE)
         || (size >? KFSW_PARAM_PERSIST_MAX_BYTES) then (- EMSGSIZE, with_files f)
      else
        let '(result, file, f) := fs_open KFSW_PARAM_PERSIST_PATH FS_O_READ f in
        if negb (result =? 0) then (result, with_files f)
        else
          let '(result, snapshot, file, f) := read_all (S (Z.to_nat size)) file snapshot 0 size f in
          let '(close_result, f) := fs_close file f in
          let result := if result =? 0 then close_result else result in
          let '(result, entry_count, snapshot) :=
            if result =? 0 then validate_snapshot snapshot size else (result, 0, snapshot) in
          let '(result, st) :=
            if result =? 0 then apply_snapshot snapshot size entry_count (pp_params s)
            else (result, pp_params s) in
          (result, {| pp_params := st; pp_files := f;
                      snapshot_bytes := if result =? 0 then u32 size else snapshot_bytes s |}).

Definition kfsw_param_persist_clear s : Z * param_persist W F :=
  if negb (kfsw_param_is_initialized (pp_params s)) || negb (kfsw_storage_is_ready (pp_files s))
  then (- EACCES, s)
  else
    let '(active_result, f) := fs_unlink KFSW_PARAM_PERSIST_PATH (pp_files s) in
    let '(temp_result, f) := fs_unlink KFSW_PARAM_PERSIST_TEMP_PATH f in
    let s := {| pp_params := pp_params s; pp_files := f; snapshot_bytes := snapshot_bytes s |} in
    if negb (active_result =? 0) && negb (active_result =? - ENOENT) then (active_result, s)
    else if (temp_result =? 0) || (temp_result =? - ENOENT) then (0, s)
    else (temp_result, s).

Definition set_params (st : param_state W) s : param_persist W F :=
  {| pp_params := st; pp_files := pp_files s; snapshot_bytes := snapshot_bytes s |}.

Definition kfsw_param_persist_save s : Z * param_persist W F :=
  let '(result, s) := persist_save s in
  (result, if result =? 0 then set_params (kfsw_param_count_save (pp_params s)) s else s).

Definition kfsw_param_persist_load (snapshot : list Z) s : Z * param_persist W F :=
  let '(result, s) := persist_load snapshot s in
  (result, if negb (result =? 0) && negb (result =? - ENOENT)
           then set_params (kfsw_param_count_load_failure (pp_params s)) s else s).

Definition kfsw_param_persist_bytes s : Z := snapshot_bytes s.
Definition kfsw_param_persist_max_bytes : Z := KFSW_PARAM_PERSIST_MAX_BYTES.

(** The parameters of a table that a snapshot holds. *)
Definition kfsw_param_persist_table_count (table : Z) (count : option Z) s : Z * option Z :=
  match count with
  | None => (- EINVAL, None)
  | Some count =>
      let l := List.filter (λ entry, u8 (Z.shiftr (pi_id (pe_info entry)) 8) =? table)
                 (parameter_table (pp_params s)) in
      match l with
      | [] => (- ENOENT, Some count)
      | _ => (0, Some (u16 (zlen (List.filter is_persistent l))))
      end
  end.
End files.
