(* ===== verification/ParamSnapshot.v ===== *)
(** * What a parameter snapshot restores

    The bytes a save builds are the header and one record per saved parameter; they are
    validated and walked back into the same values. A snapshot that is refused changes no
    parameter. *)

From S2P Require Import Prelude Bytes CStdlib Codec FileSystem SnapshotFile.
From S2P Require Import ParamTypes Param ParamFacts ParamService ParamWire ParamPersist.

(** ** Buffers *)

(** A store over the middle of three pieces. *)
Lemma buf_put_middle {A} off (pre mid post bs : list A) :
  off = length pre → length bs = length mid → buf_put off bs (pre ++ mid ++ post) = pre ++ bs ++ post.
Proof.
  intros -> Hl. unfold buf_put. rewrite take_app_length. f_equal. f_equal.
  rewrite Hl, drop_app_ge by lia. replace (length pre + length mid - length pre)%nat with (length mid) by lia.
  by rewrite drop_app_length.
Qed.

Lemma split_at {A} n (l : list A) : (n <= length l)%nat → ∃ a b, l = a ++ b ∧ length a = n.
Proof. intros. exists (take n l), (drop n l). rewrite take_drop, length_take. split; [done|lia]. Qed.

(** Writing one record: its length and type, its name, its value and last its size. *)
Lemma put_record (a b c d : Z) (name w pre rest : list Z) off :
  off = length pre → (4 + length name + length w <= length rest)%nat →
  let s1 := buf_put off [a; b] (pre ++ rest) in
  let s2 := buf_put (off + 4) name s1 in
  let s3 := buf_put (off + 4 + length name)
              (w ++ drop (length w) (drop (off + 4 + length name) s2)) s2 in
  buf_put (off + 2) [c; d] s3 = pre ++ ([a; b; c; d] ++ name ++ w) ++ drop (4 + length name + length w) rest.
Proof.
  intros -> Hl. destruct (split_at 4 rest ltac:(lia)) as (r4 & r & -> & H4). rewrite length_app, H4 in Hl.
  destruct (split_at (length name) r ltac:(lia)) as (rn & r' & -> & Hn). rewrite length_app, Hn in Hl.
  destruct (split_at (length w) r' ltac:(lia)) as (rw & post & -> & Hw).
  destruct r4 as [|x0 [|x1 [|x2 [|x3 [|]]]]]; try discriminate H4. cbv zeta.
  change (pre ++ [x0; x1; x2; x3] ++ rn ++ rw ++ post) with (pre ++ [x0; x1] ++ ([x2; x3] ++ rn ++ rw ++ post)).
  rewrite (buf_put_middle (length pre) pre [x0; x1] _ [a; b]) by done.
  assert (pre ++ [a; b] ++ [x2; x3] ++ rn ++ rw ++ post = (pre ++ [a; b; x2; x3]) ++ rn ++ rw ++ post) as ->
    by (by rewrite <- app_assoc).
  rewrite (buf_put_middle (length pre + 4) (pre ++ [a; b; x2; x3]) rn (rw ++ post) name)
    by (rewrite ?length_app; cbn; lia).
  replace ((pre ++ [a; b; x2; x3]) ++ name ++ rw ++ post) with (((pre ++ [a; b; x2; x3]) ++ name) ++ rw ++ post)
    by (by rewrite <- app_assoc).
  assert (drop (length pre + 4 + length name) (((pre ++ [a; b; x2; x3]) ++ name) ++ rw ++ post) = rw ++ post) as ->.
  { rewrite drop_app_ge by (rewrite !length_app; cbn; lia). rewrite !length_app. cbn [length].
    by replace (length pre + 4 + length name - (length pre + 4 + length name))%nat with O by lia. }
  assert (drop (length w) (rw ++ post) = post) as -> by (by apply drop_app_length').
  assert (((pre ++ [a; b; x2; x3]) ++ name) ++ rw ++ post = ((pre ++ [a; b; x2; x3]) ++ name) ++ (rw ++ post) ++ []) as ->
    by (by rewrite app_nil_r).
  rewrite buf_put_middle by (rewrite ?length_app; cbn; lia). rewrite app_nil_r.
  assert (((pre ++ [a; b; x2; x3]) ++ name) ++ w ++ post = (pre ++ [a; b]) ++ [x2; x3] ++ name ++ w ++ post) as ->
    by (by rewrite <- !app_assoc).
  rewrite buf_put_middle by (rewrite ?length_app; cbn; lia).
  rewrite drop_app_ge by lia. rewrite H4. replace (4 + length name + length w - 4)%nat with (length name + length w)%nat by lia.
  rewrite drop_app_ge by lia. rewrite Hn. replace (length name + length w - length name)%nat with (length w) by lia.
  rewrite drop_app_length' by done. by rewrite <- !app_assoc.
Qed.

Lemma zlen_put_be16 {BO : ByteOrder} v : zlen (put_be16 v) = 2.
Proof. unfold zlen, put_be16. by rewrite put_be_length. Qed.
Lemma zlen_put_be32 {BO : ByteOrder} v : zlen (put_be32 v) = 4.
Proof. unfold zlen, put_be32. by rewrite put_be_length. Qed.

(** ** Building *)

Section building.
Context {PC : ParamConfig} {BO : ByteOrder} {CRC : Crc32} {W : Type}.
Implicit Types (entry : kfsw_param_entry W) (st : param_state W) (value : kfsw_param_value).

(** A parameter, the value saved of it and the code of its type. *)
Record saved := { sv_entry : kfsw_param_entry W; sv_value : kfsw_param_value; sv_type : Z }.

Definition record_bytes (x : saved) : list Z :=
  [u8 (zlen (entry_name (sv_entry x))); sv_type x] ++ put_be16 (pv_size (sv_value x))
  ++ entry_name (sv_entry x) ++ wire_bytes (sv_type x) (sv_value x) (pv_size (sv_value x)).
Definition payload (l : list saved) : list Z := concat (record_bytes <$> l).

(** What a save asks of a parameter: persistent values are not sampled, names are text. *)
Definition savable entry : Prop :=
  entry_ok entry ∧ is_u16 (pd_capacity (pe_definition entry)) ∧ 0 ∉ entry_name entry ∧
  (is_persistent entry = true → not_sampled entry).
Definition carried entry : bool :=
  is_persistent entry && bool_decide (is_Some (kfsw_param_wire_type_of entry)).

(** What was saved is what the parameter reads. *)
Definition saved_ok st (x : saved) : Prop :=
  savable (sv_entry x) ∧ is_persistent (sv_entry x) = true ∧ value_read (sv_entry x) (sv_value x) ∧
  (∃ size, kfsw_param_wire_type_of (sv_entry x) = Some (sv_type x, size) ∧
     pv_size (sv_value x) = wire_size (sv_type x) size (sv_value x)) ∧
  kfsw_param_read_stored_entry (Some (sv_entry x)) (Some stack_value) st = (0, Some (sv_value x), st).

Lemma savable_name entry :
  savable entry → cut_nul (entry_name entry) = entry_name entry ∧ 0 < zlen (entry_name entry) <= KFSW_PARAM_NAME_MAX.
Proof.
  intros ((_ & _ & _ & _ & _ & _ & _ & _ & _ & Hc & Hs & _) & _ & Hn & _). unfold entry_name in *.
  split; [by apply cut_nul_id|]. unfold strlen in Hs. split; [|done]. unfold zlen.
  destruct (pi_name (pe_info entry)); [by exfalso; apply Hc|cbn; lia].
Qed.

Lemma type_code entry type size : kfsw_param_wire_type_of entry = Some (type, size) → is_u8 type.
Proof.
  intros H. apply type_of_cases in H as [(-> & _)|[(-> & _)|(_ & _ & [[-> _]|[[[-> | ->] _]|[[-> |[-> | ->]] _]]])]]; done.
Qed.

Lemma record_length st x :
  saved_ok st x →
  zlen (record_bytes x) = 4 + zlen (entry_name (sv_entry x)) + pv_size (sv_value x) ∧
  zlen (wire_bytes (sv_type x) (sv_value x) (pv_size (sv_value x))) = pv_size (sv_value x) ∧
  0 < pv_size (sv_value x) <= PARAM_STRING_MAX.
Proof.
  intros ((Hok & Hu & _) & _ & Hv & (size & Ht & Hsz) & _).
  destruct (decode_wire (sv_entry x) (sv_value x) (sv_type x) size st [] Hok Hu Hv Ht) as (Hl & _ & Hpos & _).
  rewrite <- Hsz in *. split; [|done]. unfold record_bytes. rewrite !zlen_app, Hl.
  rewrite zlen_put_be16. change (zlen [_; _]) with 2. lia.
Qed.

Lemma not_sampled_read entry any st :
  not_sampled entry → read_entry (Some entry) any true st = kfsw_param_read_stored_entry (Some entry) any st.
Proof. intros H. unfold kfsw_param_read_stored_entry, read_entry. by rewrite (run_sampler_none entry st H). Qed.

(** What the encoder leaves of a parameter that is saved. *)
Lemma encode_record entry output room written st output' n st' :
  savable entry → is_persistent entry = true →
  kfsw_param_wire_encode entry output room written st = (0, output', n, st') →
  ∃ x, sv_entry x = entry ∧ saved_ok st x ∧ n = pv_size (sv_value x) ∧ st' = st ∧ n <= room ∧
    (∃ size, kfsw_param_wire_type_of entry = Some (sv_type x, size)) ∧
    output' = wire_bytes (sv_type x) (sv_value x) n ++ drop (length (wire_bytes (sv_type x) (sv_value x) n)) output.
Proof.
  intros Hsv Hp H. pose proof Hsv as (Hok & Hu & _ & Hns). specialize (Hns Hp).
  destruct (encode_spec entry output room written st output' n st' Hok Hu H)
    as (value & type & size & Ht & Hr & Hv & Hn & Hroom & Hout).
  unfold kfsw_param_read_entry in Hr. rewrite (not_sampled_read entry (Some stack_value) st Hns) in Hr.
  pose proof (read_stored_state entry (Some stack_value) st) as Hst. rewrite Hr in Hst. cbn in Hst. subst st'.
  exists {| sv_entry := entry; sv_value := value; sv_type := type |}. cbn [sv_entry sv_value sv_type].
  destruct (decode_wire entry value type size st [] Hok Hu Hv Ht) as (_ & Hsz & _). rewrite Hsz in Hn.
  split_and!; [done| |done|done|done|by eexists|done].
  split_and!; [done|done|done| |done]. exists size. split; [done|]. by symmetry.
Qed.

Lemma record_as_written st x :
  saved_ok st x →
  record_bytes x = (match put_be16 (pv_size (sv_value x)) with
    | [c; d] => [u8 (zlen (entry_name (sv_entry x))); sv_type x; c; d] | _ => [] end)
    ++ entry_name (sv_entry x) ++ wire_bytes (sv_type x) (sv_value x) (pv_size (sv_value x)).
Proof.
  intros _. unfold record_bytes. destruct (put_be16_shape (pv_size (sv_value x))) as (c & d & -> & _). done.
Qed.

(** One record on top of what is written. *)
Lemma put_saved st x pre rest :
  saved_ok st x → (Z.to_nat (zlen (record_bytes x)) <= length rest)%nat →
  let name := entry_name (sv_entry x) in
  let data := wire_bytes (sv_type x) (sv_value x) (pv_size (sv_value x)) in
  let off := zlen pre in
  let s1 := buf_put (Z.to_nat off) [u8 (zlen name); sv_type x] (pre ++ rest) in
  let s2 := buf_put (Z.to_nat (off + 4)) name s1 in
  let rest' := drop (Z.to_nat (off + 4 + zlen name)) s2 in
  let s3 := buf_put (Z.to_nat (off + 4 + zlen name)) (data ++ drop (length data) rest') s2 in
  buf_put (Z.to_nat (off + 2)) (put_be16 (pv_size (sv_value x))) s3 =
  (pre ++ record_bytes x) ++ drop (Z.to_nat (zlen (record_bytes x))) rest.
Proof.
  intros Hx Hroom. destruct (record_length st x Hx) as (Hlen & Hw & Hpos). cbv zeta.
  pose proof (zlen_nonneg pre). pose proof (zlen_nonneg (entry_name (sv_entry x))).
  rewrite Hlen in *. unfold record_bytes. destruct (put_be16_shape (pv_size (sv_value x))) as (c & d & -> & _).
  set (name := entry_name (sv_entry x)) in *. set (data := wire_bytes _ _ _) in *.
  replace (Z.to_nat (zlen pre)) with (length pre) by (unfold zlen; lia).
  replace (Z.to_nat (zlen pre + 4)) with (length pre + 4)%nat by (unfold zlen; lia).
  replace (Z.to_nat (zlen pre + 4 + zlen name)) with (length pre + 4 + length name)%nat by (unfold zlen; lia).
  replace (Z.to_nat (zlen pre + 2)) with (length pre + 2)%nat by (unfold zlen; lia).
  rewrite put_record; [|done|unfold zlen in *; lia].
  replace (Z.to_nat (4 + zlen name + pv_size (sv_value x))) with (4 + length name + length data)%nat
    by (unfold zlen in *; lia).
  rewrite <- !app_assoc. cbn [app]. by rewrite <- ?app_assoc.
Qed.

Lemma build_entries_spec l offset count pre rest st offset' count' snapshot' st' :
  Forall savable l → offset = zlen pre → length (pre ++ rest) = Z.to_nat KFSW_PARAM_PERSIST_MAX_BYTES →
  0 <= count <= KFSW_PARAM_PERSIST_MAX_ENTRY_COUNT →
  build_entries l offset count (pre ++ rest) st = (0, offset', count', snapshot', st') →
  ∃ xs rest', st' = st ∧ snapshot' = pre ++ payload xs ++ rest' ∧
    offset' = offset + zlen (payload xs) ∧ length snapshot' = Z.to_nat KFSW_PARAM_PERSIST_MAX_BYTES ∧
    count' = count + zlen xs ∧ count' <= KFSW_PARAM_PERSIST_MAX_ENTRY_COUNT ∧
    Forall (saved_ok st) xs ∧ sv_entry <$> xs = List.filter carried l.
Proof.
  revert offset count pre rest. induction l as [|entry l IH]; intros offset count pre rest Hsv Hoff Hlen Hcount H.
  { cbn in H. injection H as <- <- <- <-. exists [], rest. unfold payload. cbn [fmap list_fmap concat app].
    rewrite (zlen_nil (A := Z)), (zlen_nil (A := saved)). split_and!; try done; lia. }
  apply Forall_cons in Hsv as [He Hsv]. cbn [build_entries] in H. cbv zeta in H.
  pose proof He as ((_ & _ & Hnode & _) & _). rewrite Hnode in H. cbn [Z.eqb negb orb] in H.
  assert (is_persistent entry = negb (Z.land (pi_flags (pe_info entry)) KFSW_PARAM_FLAG_PERSISTENT =? 0)) as Hp by done.
  cbn [List.filter]. unfold carried at 1. rewrite Hp.
  destruct (Z.land _ _ =? 0) eqn:Ep; cbn [negb andb]; [by apply (IH _ _ _ rest)|].
  destruct (savable_name entry He) as [Hcut Hns]. unfold entry_name in Hcut, Hns. unfold bounded_string_length in H.
  rewrite Hcut in H. unfold KFSW_PARAM_PERSIST_MAX_NAME_SIZE in H. rewrite Z.min_l in H by lia.
  destruct (_ || _) eqn:G1 in H; [done|].
  destruct (kfsw_param_wire_type_of entry) as [[type size]|] eqn:Et.
  2: { rewrite bool_decide_false by (by intros [? ?]). by apply (IH _ _ _ rest). }
  rewrite bool_decide_true by eauto. destruct (_ || _) eqn:G2 in H; [done|].
  rewrite (take_ge (pi_name (pe_info entry))) in H by (unfold zlen; lia).
  destruct (kfsw_param_wire_encode _ _ _ _ st) as [[[rc output] n] st1] eqn:E.
  destruct (negb (rc =? 0)) eqn:Erc; [injection H as -> _ _ _ _; done|]. assert (rc = 0) as -> by lia.
  apply encode_record in E as (x & Hx & Hok & -> & -> & Hroom & (size' & Ht) & ->); [|done|by rewrite Hp].
  rewrite Et in Ht. injection Ht as -> _. subst entry offset.
  destruct (record_length st x Hok) as (Hrl & _ & Hpos). unfold entry_name in Hrl.
  pose proof (zlen_nonneg pre). pose proof (zlen_nonneg (pi_name (pe_info (sv_entry x)))).
  unfold KFSW_PARAM_PERSIST_ENTRY_HEADER_SIZE, KFSW_PARAM_PERSIST_MAX_BYTES, KFSW_PARAM_PERSIST_MAX_ENTRY_COUNT in *.
  assert (Z.to_nat (zlen (record_bytes x)) <= length rest)%nat as Hfit.
  { rewrite length_app in Hlen. unfold zlen in *. lia. }
  pose proof (put_saved st x pre rest Hok Hfit) as Hput. cbv zeta in Hput. unfold entry_name in Hput.
  rewrite Hput in H. rewrite u16_id in H by clia.
  apply IH in H as (xs & rest' & -> & -> & -> & Hl' & -> & Hc' & Hxs & Hmap); [|done| | |lia].
  - exists (x :: xs), rest'. rewrite zlen_cons. change (payload (x :: xs)) with (record_bytes x ++ payload xs).
    rewrite zlen_app. split_and!; [done|by rewrite <- !app_assoc|lia|done|lia|done|by constructor|].
    cbn [fmap list_fmap]. by rewrite Hmap.
  - rewrite zlen_app. lia.
  - rewrite <- Hlen, !length_app, length_drop. unfold zlen in *. lia.
Qed.

(** ** The header *)

Definition header_bytes (payload_size count crc : Z) : list Z :=
  KFSW_PARAM_PERSIST_MAGIC ++ put_be16 KFSW_PARAM_PERSIST_VERSION
  ++ put_be16 KFSW_PARAM_PERSIST_HEADER_SIZE ++ put_be32 payload_size ++ put_be16 count ++ put_be16 0
  ++ put_be32 crc.
(** The header of a payload: the CRC is over both, with its field clear. *)
Definition snapshot_header (count : Z) (data : list Z) : list Z :=
  header_bytes (zlen data) count (crc32_ieee (header_bytes (zlen data) count 0 ++ data)).

Lemma header_length payload_size count crc : length (header_bytes payload_size count crc) = 20%nat.
Proof. unfold header_bytes, put_be16, put_be32. rewrite !length_app, !put_be_length. done. Qed.

Lemma snapshot_header_length count data : length (snapshot_header count data) = 20%nat.
Proof. apply header_length. Qed.

(** Stores over the fields of a header. *)
Lemma header_stores hd count payload_size crc rest :
  length hd = 20%nat →
  buf_put 16 (put_be32 crc) (buf_put 14 (put_be16 0) (buf_put 12 (put_be16 count)
    (buf_put 8 (put_be32 payload_size) (buf_put 6 (put_be16 KFSW_PARAM_PERSIST_HEADER_SIZE)
    (buf_put 4 (put_be16 KFSW_PARAM_PERSIST_VERSION) (buf_put 0 KFSW_PARAM_PERSIST_MAGIC (hd ++ rest)))))))
  = header_bytes payload_size count crc ++ rest.
Proof.
  intros Hl. cells hd. destruct hd; [|simpl in Hl; lia]. unfold header_bytes, KFSW_PARAM_PERSIST_MAGIC.
  split_stores. reflexivity.
Qed.
Lemma header_crc payload_size count crc crc' rest :
  buf_put 16 (put_be32 crc') (header_bytes payload_size count crc ++ rest)
  = header_bytes payload_size count crc' ++ rest.
Proof. unfold header_bytes, KFSW_PARAM_PERSIST_MAGIC. split_stores. reflexivity. Qed.

Lemma put_header_spec hd count data rest :
  length hd = 20%nat → zlen data < 2 ^ 32 →
  put_header (20 + zlen data) count (hd ++ data ++ rest) = snapshot_header count data ++ data ++ rest.
Proof.
  intros Hl Hd. pose proof (zlen_nonneg data). unfold put_header, KFSW_PARAM_PERSIST_CRC_OFFSET.
  rewrite header_stores by done.
  replace (u32 (20 + zlen data - KFSW_PARAM_PERSIST_HEADER_SIZE)) with (zlen data)
    by (unfold KFSW_PARAM_PERSIST_HEADER_SIZE; clia).
  rewrite header_crc. unfold snapshot_header.
  assert (take (Z.to_nat (20 + zlen data)) (header_bytes (zlen data) count 0 ++ data ++ rest)
    = header_bytes (zlen data) count 0 ++ data) as ->; [|done].
  rewrite app_assoc. apply take_app_length'. rewrite length_app, header_length. unfold zlen. lia.
Qed.

Lemma header_fields payload_size count crc rest :
  let data := header_bytes payload_size count crc ++ rest in
  mem_eq data KFSW_PARAM_PERSIST_MAGIC 4 = true ∧ get_be16 4 data = KFSW_PARAM_PERSIST_VERSION ∧
  get_be16 6 data = KFSW_PARAM_PERSIST_HEADER_SIZE ∧ get_be32 8 data = u32 payload_size ∧
  get_be16 12 data = u16 count ∧ get_be16 14 data = 0 ∧ get_be32 16 data = u32 crc.
Proof.
  unfold header_bytes, KFSW_PARAM_PERSIST_MAGIC. split_stores. cbn [app].
  unfold get_be16, get_be32, slice. cbn [take drop]. rewrite ?take_0.
  split_and!; first [reflexivity|by (etrans; [eassumption|reflexivity])|eassumption].
Qed.

(** A whole snapshot in front of anything passes, and its CRC field is left clear. *)
Lemma validate_snapshot_spec count data rest size :
  0 <= count <= KFSW_PARAM_PERSIST_MAX_ENTRY_COUNT → zlen data < 2 ^ 32 → size = 20 + zlen data →
  let cleared := header_bytes (zlen data) count 0 ++ data ++ rest in
  validate_snapshot (snapshot_header count data ++ data ++ rest) size =
    (validate_entries (Z.to_nat count) cleared size KFSW_PARAM_PERSIST_HEADER_SIZE, count, cleared).
Proof.
  intros Hc Hd -> cleared. pose proof (zlen_nonneg data). pose proof (crc32_update_range 0
    (header_bytes (zlen data) count 0 ++ data)) as Hcrc.
  unfold validate_snapshot, KFSW_PARAM_PERSIST_CRC_OFFSET, snapshot_header.
  destruct (header_fields (zlen data) count (crc32_ieee (header_bytes (zlen data) count 0 ++ data)) (data ++ rest))
    as (-> & -> & -> & -> & -> & -> & ->). rewrite header_crc. fold cleared.
  assert (take (Z.to_nat (20 + zlen data)) cleared = header_bytes (zlen data) count 0 ++ data) as ->.
  { unfold cleared. rewrite app_assoc. apply take_app_length'. rewrite length_app, header_length. unfold zlen. lia. }
  unfold crc32_ieee. rewrite !u32_id by (unfold is_u32; first [done|lia]).
  unfold KFSW_PARAM_PERSIST_HEADER_SIZE, KFSW_PARAM_PERSIST_MAX_ENTRY_COUNT, KFSW_PARAM_PERSIST_VERSION in *.
  rewrite u16_id by clia. rewrite !Z.eqb_refl. cbn [negb orb].
  decide_guards. done.
Qed.
End building.

(** ** Walking *)

Section walking.
Context {PC : ParamConfig} {BO : ByteOrder} {CRC : Crc32} {W : Type}.
Implicit Types (entry : kfsw_param_entry W) (st : param_state W) (value : kfsw_param_value)
  (x : saved (W := W)) (xs : list (saved (W := W))).

(** The record at an offset. *)
Lemma next_entry_record st x pre post size :
  saved_ok st x → zlen pre + zlen (record_bytes x) <= size →
  next_entry (pre ++ record_bytes x ++ post) size (zlen pre) = Some (zlen pre + zlen (record_bytes x),
    {| pe_name := entry_name (sv_entry x) ++ wire_bytes (sv_type x) (sv_value x) (pv_size (sv_value x)) ++ post;
       pe_value := wire_bytes (sv_type x) (sv_value x) (pv_size (sv_value x)) ++ post;
       pe_value_size := pv_size (sv_value x); pe_name_size := zlen (entry_name (sv_entry x));
       pe_type := sv_type x |}).
Proof.
  intros Hx Hsize. destruct (record_length st x Hx) as (Hlen & Hdata & Hpos). pose proof Hx as (Hsv & _).
  destruct (savable_name (sv_entry x) Hsv) as [_ Hname]. pose proof (zlen_nonneg pre). pose proof PARAM_STRING_MAX_range.
  unfold record_bytes in *. set (name := entry_name (sv_entry x)) in *. set (data := wire_bytes _ _ _) in *.
  destruct (put_be16_shape (pv_size (sv_value x))) as (c & d & -> & _ & Hcd). rewrite Hlen in *.
  replace (pre ++ ([u8 (zlen name); sv_type x] ++ [c; d] ++ name ++ data) ++ post)
    with (pre ++ u8 (zlen name) :: sv_type x :: c :: d :: name ++ data ++ post)
    by (rewrite <- !app_assoc; cbn [app]; by rewrite <- ?app_assoc).
  unfold next_entry, KFSW_PARAM_PERSIST_ENTRY_HEADER_SIZE, KFSW_PARAM_PERSIST_MAX_NAME_SIZE, KFSW_PARAM_NAME_MAX in *.
  assert (∀ a b cs, byte_at (pre ++ a :: b :: cs) (Z.to_nat (zlen pre + 1)) = b) as Hb1.
  { intros a b cs. replace (pre ++ a :: b :: cs) with ((pre ++ [a]) ++ b :: cs) by (by rewrite <- app_assoc).
    apply byte_at_app_r. rewrite length_app. unfold zlen. cbn. lia. }
  assert (∀ cs, get_be16 (Z.to_nat (zlen pre + 2)) (pre ++ u8 (zlen name) :: sv_type x :: c :: d :: cs)
    = pv_size (sv_value x)) as Hb2.
  { intros cs. replace (pre ++ u8 (zlen name) :: sv_type x :: c :: d :: cs)
      with ((pre ++ [u8 (zlen name); sv_type x]) ++ [c; d] ++ cs) by (by rewrite <- app_assoc).
    unfold get_be16. rewrite slice_app by (rewrite ?length_app; unfold zlen; cbn; lia). rewrite Hcd. apply u16_id. clia. }
  rewrite (byte_at_app_r pre) by (unfold zlen; lia). rewrite Hb1, Hb2. rewrite u8_id by clia.
  assert (∀ cs, drop (Z.to_nat (zlen pre + 4)) (pre ++ u8 (zlen name) :: sv_type x :: c :: d :: cs) = cs) as Hd1.
  { intros cs. replace (pre ++ u8 (zlen name) :: sv_type x :: c :: d :: cs)
      with ((pre ++ [u8 (zlen name); sv_type x; c; d]) ++ cs) by (by rewrite <- app_assoc).
    apply drop_app_length'. rewrite length_app. unfold zlen. cbn. lia. }
  assert (∀ cs, drop (Z.to_nat (zlen pre + 4 + zlen name))
    (pre ++ u8 (zlen name) :: sv_type x :: c :: d :: name ++ cs) = cs) as Hd2.
  { intros cs. replace (pre ++ u8 (zlen name) :: sv_type x :: c :: d :: name ++ cs)
      with ((pre ++ [u8 (zlen name); sv_type x; c; d] ++ name) ++ cs) by (by rewrite <- !app_assoc).
    apply drop_app_length'. rewrite !length_app. unfold zlen. cbn. lia. }
  rewrite !u8_id in * by clia.
  rewrite Hd1, Hd2. decide_guards. do 2 f_equal. rewrite !zlen_app, Hdata, !zlen_cons, !zlen_nil. lia.
Qed.

Lemma validate_payload st xs pre post :
  Forall (saved_ok st) xs →
  validate_entries (length xs) (pre ++ payload xs ++ post) (zlen pre + zlen (payload xs)) (zlen pre) = 0.
Proof.
  revert pre. induction xs as [|x xs IH]; intros pre Hxs.
  { cbn [length validate_entries payload fmap list_fmap concat]. unfold payload. cbn [fmap list_fmap concat].
    rewrite zlen_nil, Z.add_0_r, Z.eqb_refl. done. }
  apply Forall_cons in Hxs as [Hx Hxs]. cbn [length validate_entries].
  change (payload (x :: xs)) with (record_bytes x ++ payload xs). rewrite zlen_app, <- app_assoc.
  pose proof (zlen_nonneg (payload xs)). rewrite (next_entry_record st) by (done || lia).
  specialize (IH (pre ++ record_bytes x) Hxs). rewrite zlen_app, <- app_assoc in IH.
  by rewrite Z.add_assoc.
Qed.

(** A parameter that takes a saved value back: it fits its storage, nothing can refuse it
    and the parameter's validation accepts it. *)
Definition restorable x : Prop :=
  pd_apply (pe_definition (sv_entry x)) = None ∧ pv_size (sv_value x) <= entry_capacity (sv_entry x) ∧
  ∀ decoded st, same_value decoded (sv_value x) → value_wf decoded →
    kfsw_param_validate_entry (Some (sv_entry x)) (Some decoded) st = 0.

Lemma restorable_matches st x rest :
  saved_ok st x → restorable x →
  entry_matches (sv_entry x) {| pe_name := rest; pe_value := rest; pe_value_size := pv_size (sv_value x);
    pe_name_size := zlen (entry_name (sv_entry x)); pe_type := sv_type x |} = true.
Proof.
  intros (_ & _ & (Ht & _) & (size & Hty & Hsz) & _) (_ & Hfit & _). unfold entry_matches. rewrite Hty.
  cbn [pe_type pe_value_size]. rewrite Z.eqb_refl. cbn [negb].
  destruct (sv_type x =? KFSW_PARAM_WIRE_STRING) eqn:Es.
  - apply type_of_cases in Hty as [(E & _)|[(_ & Hp & _)|(_ & _ & Hcases)]].
    + rewrite E in Es. done.
    + unfold entry_capacity, info_capacity, is_array in Hfit. rewrite Hp in Hfit. cbn in Hfit. lia.
    + destruct Hcases as [[E _]|[[[E | E] _]|[[E |[E | E]] _]]]; rewrite E in Es; done.
  - unfold wire_size in Hsz. rewrite Es in Hsz. lia.
Qed.

(** One step of the walk that applies. *)
Lemma walk_step st0 st x n pre post size total (apply : bool) :
  registry_wf st → saved_ok st0 x → restorable x → sv_entry x ∈ parameter_table st →
  zlen pre + zlen (record_bytes x) <= size →
  ∃ decoded, same_value decoded (sv_value x) ∧ value_wf decoded ∧
    walk_entries (S n) (pre ++ record_bytes x ++ post) size total (zlen pre) apply st =
    (let continue st := walk_entries n (pre ++ record_bytes x ++ post) size total
                          (zlen pre + zlen (record_bytes x)) apply st in
     if apply then continue (kfsw_param_wire_apply (sv_entry x) decoded st).2 else continue st).
Proof.
  intros Hwf Hx Hr Hin Hsize. pose proof Hx as (Hsv & Hp & Hv & (size' & Hty & Hsz) & _).
  destruct Hsv as (Hok & Hu & Hnul & _). pose proof Hr as (Hap & Hfit & Hacc).
  set (data := wire_bytes (sv_type x) (sv_value x) (pv_size (sv_value x))).
  destruct (decode_wire (sv_entry x) (sv_value x) (sv_type x) size' st post Hok Hu Hv Hty)
    as (_ & _ & _ & decoded & Hdec & Hsame & Hdwf). rewrite <- Hsz in Hdec. fold data in Hdec.
  exists decoded. split; [done|]. split; [done|]. cbn [walk_entries].
  rewrite (next_entry_record st0) by done. cbn [pe_name pe_name_size pe_type pe_value pe_value_size].
  replace (Z.to_nat (zlen (entry_name (sv_entry x)))) with (length (entry_name (sv_entry x))) by (unfold zlen; lia).
  rewrite take_app_length, (cut_nul_id _ Hnul).
  rewrite (proj2 (find_name_key st (entry_name (sv_entry x)) (sv_entry x) Hwf) (conj Hin eq_refl)).
  unfold is_persistent in Hp. apply negb_true_iff in Hp. rewrite Hp.
  pose proof (restorable_matches st0 x) as Hm. unfold entry_matches in *.
  cbn [pe_type pe_value_size] in *. rewrite (Hm [] Hx Hr). cbn [negb].
  rewrite Hap, bool_decide_false by (by intros [? ?]). cbn [andb]. fold data. rewrite Hdec, (Hacc decoded st Hsame Hdwf).
  cbn [Z.eqb negb]. destruct apply; [|done].
  pose proof (wire_apply_accepts (sv_entry x) decoded st (or_introl Hap)) as Hrc.
  destruct (kfsw_param_wire_apply _ decoded st) as [rc st']. cbn in Hrc. subst rc. done.
Qed.

Lemma walk_checks st0 xs pre post size total st :
  registry_wf st → Forall (saved_ok st0) xs → Forall restorable xs →
  Forall (λ x, sv_entry x ∈ parameter_table st) xs → zlen pre + zlen (payload xs) <= size →
  walk_entries (length xs) (pre ++ payload xs ++ post) size total (zlen pre) false st = (0, st).
Proof.
  revert pre. induction xs as [|x xs IH]; intros pre Hwf Hx Hr Hin Hsize; [done|].
  apply Forall_cons in Hx as [Hx Hxs]. apply Forall_cons in Hr as [Hr Hrs]. apply Forall_cons in Hin as [Hin Hins].
  change (payload (x :: xs)) with (record_bytes x ++ payload xs) in *. rewrite zlen_app in Hsize.
  pose proof (zlen_nonneg (payload xs)). rewrite <- app_assoc.
  destruct (walk_step st0 st x (length xs) pre (payload xs ++ post) size total false Hwf Hx Hr Hin ltac:(lia))
    as (decoded & _ & _ & Hw). cbn [length]. rewrite Hw.
  specialize (IH (pre ++ record_bytes x) Hwf Hxs Hrs Hins). rewrite zlen_app, <- app_assoc in IH. apply IH. lia.
Qed.

Lemma registry_wf_same st st' : same_registry st st' → registry_wf st → registry_wf st'.
Proof. intros (Ht & Htt & _). unfold registry_wf. by rewrite Ht, Htt. Qed.

Definition restored st st' x : Prop :=
  ∃ decoded, same_value decoded (sv_value x) ∧ value_wf decoded ∧
    entry_object (sv_entry x) st' =
      buf_put 0 (stored_bytes (sv_entry x) decoded) (entry_object (sv_entry x) st).

Lemma walk_restores st0 xs pre post size total st :
  registry_wf st → Forall (saved_ok st0) xs → Forall restorable xs →
  Forall (λ x, sv_entry x ∈ parameter_table st) xs → NoDup (entry_address ∘ sv_entry <$> xs) →
  zlen pre + zlen (payload xs) <= size →
  ∃ st', walk_entries (length xs) (pre ++ payload xs ++ post) size total (zlen pre) true st = (0, st') ∧
    same_registry st st' ∧ Forall (restored st st') xs ∧
    (∀ entry, (∀ x, x ∈ xs → entry_address entry ≠ entry_address (sv_entry x)) →
       entry_object entry st' = entry_object entry st).
Proof.
  revert pre st. induction xs as [|x xs IH]; intros pre st Hwf Hx Hr Hin Hn Hsize; [by exists st|].
  apply Forall_cons in Hx as [Hx Hxs]. apply Forall_cons in Hr as [Hr Hrs]. apply Forall_cons in Hin as [Hin Hins].
  cbn [fmap list_fmap] in Hn. apply NoDup_cons in Hn as [Hnot Hn].
  assert (∀ y, y ∈ xs → entry_address (sv_entry y) ≠ entry_address (sv_entry x)) as Hother.
  { intros y Hy Heq. apply Hnot. apply list_elem_of_fmap. exists y. by split. }
  change (payload (x :: xs)) with (record_bytes x ++ payload xs) in *. rewrite zlen_app in Hsize.
  pose proof (zlen_nonneg (payload xs)). rewrite <- app_assoc.
  destruct (walk_step st0 st x (length xs) pre (payload xs ++ post) size total true Hwf Hx Hr Hin ltac:(lia))
    as (decoded & Hsame & Hdwf & Hw). cbn [length]. rewrite Hw. cbv zeta. clear Hw.
  pose proof Hr as (Hap & Hfit & _). pose proof Hx as (_ & _ & (Hvt & _) & _).
  pose proof (wire_apply_accepts (sv_entry x) decoded st (or_introl Hap)) as Hrc.
  destruct (kfsw_param_wire_apply _ decoded st) as [rc st1] eqn:Ea. cbn in Hrc. subst rc. cbn [snd].
  assert (pv_type decoded = pi_type (pe_info (sv_entry x))) as Hdt by (destruct Hsame as (-> & _); done).
  destruct (wire_apply_effect (sv_entry x) decoded st 0 st1 Hdt Ea) as [Hwrite _]. specialize (Hwrite eq_refl).
  rewrite (written_stored _ _ Hdwf Hdt) in Hwrite by (destruct Hsame as (_ & -> & _); done).
  pose proof (only_writes_registry _ _ _ _ Hwrite) as Hreg.
  destruct (IH (pre ++ record_bytes x) st1) as (st' & Hrun & Hreg' & Hres & Hoth); [by eapply registry_wf_same|done|done| |done| |].
  { destruct Hreg as (-> & _). done. }
  { rewrite zlen_app. lia. }
  rewrite zlen_app, <- app_assoc in Hrun. exists st'. split_and!; [done|by eapply same_registry_trans| |].
  - constructor.
    + exists decoded. split_and!; [done|done|]. rewrite Hoth by (intros y Hy Heq; by apply (Hother y Hy)).
      destruct Hwrite as (Hs & _). unfold entry_object at 1. by rewrite Hs, lookup_insert_eq.
    + rewrite Forall_forall in Hres |- *. intros y Hy. destruct (Hres y Hy) as (dec & ? & ? & Ho).
      exists dec. split_and!; [done|done|]. rewrite Ho. f_equal. by eapply entry_object_other; [apply Hother|].
  - intros entry He. rewrite Hoth by (intros y Hy; apply He; by apply list_elem_of_further).
    eapply entry_object_other; [|exact Hwrite]. apply He, list_elem_of_here.
Qed.
End walking.

(** ** Restoring *)

Section restoring.
Context {PC : ParamConfig} {BO : ByteOrder} {CRC : Crc32} {W : Type}.
Implicit Types (entry : kfsw_param_entry W) (st : param_state W) (value : kfsw_param_value)
  (x : saved (W := W)) (xs : list (saved (W := W))).

Lemma same_value_trans v1 v2 v3 : same_value v1 v2 → same_value v2 v3 → same_value v1 v3.
Proof.
  intros (Ht & Hs & Hsc & Ha) (Ht' & Hs' & Hsc' & Ha'). split_and!; [congruence|congruence| |].
  - intros H. rewrite (Hsc H), Hsc', Hs' by congruence. apply Zmod_mod.
  - intros H. rewrite (Ha H). rewrite Hs. apply Ha'. congruence.
Qed.

(** What a parameter read before is what it reads now. *)
Definition reads_as st st' entry : Prop :=
  ∀ any, ∃ value got, kfsw_param_read_stored_entry (Some entry) (Some stack_value) st = (0, Some value, st) ∧
    kfsw_param_read_stored_entry (Some entry) (Some any) st' = (0, Some got, st') ∧ same_value got value.

(** What a save asks of the state it saves, and what lets it be restored. *)
Definition save_ready st : Prop :=
  registry_wf st ∧ storage_ok st ∧ Forall savable (parameter_table st) ∧
  ∀ x, saved_ok st x → sv_entry x ∈ parameter_table st → restorable x.
Definition load_ready st st2 : Prop :=
  registry_wf st2 ∧ storage_ok st2 ∧ parameter_table st2 = parameter_table st.
Definition restored_from st st2 st3 : Prop :=
  same_registry st2 st3 ∧ Forall (λ entry,
    if carried entry then reads_as st st3 entry else entry_object entry st3 = entry_object entry st2)
    (parameter_table st).

Lemma restored_reads st st2 st3 x :
  saved_ok st x → restorable x → entry_stored (sv_entry x) st2 → restored st2 st3 x → reads_as st st3 (sv_entry x).
Proof.
  intros Hx (Hap & Hfit & Hacc) Hst (decoded & Hsame & Hdwf & Hobj) any.
  pose proof Hx as ((Hok & _) & _ & _ & _ & Hread).
  destruct (read_back (sv_entry x) decoded st2 st3 any Hok Hdwf (Hacc decoded st2 Hsame Hdwf) Hst Hobj)
    as (got & Hgot & Hs).
  exists (sv_value x), got. split_and!; [done|done|by eapply same_value_trans].
Qed.

Lemma filter_carried_elem xs entry l :
  sv_entry <$> xs = List.filter carried l → entry ∈ l →
  if carried entry then ∃ x, x ∈ xs ∧ sv_entry x = entry else True.
Proof.
  intros Hmap Hin. destruct (carried entry) eqn:Ec; [|done].
  assert (entry ∈ sv_entry <$> xs) as Hx.
  { rewrite Hmap. apply list_elem_of_In, filter_In. by rewrite <- list_elem_of_In. }
  apply list_elem_of_fmap in Hx as (x & -> & Hx). by exists x.
Qed.

Lemma keys_filter {A K} (key : A → K) (f : A → bool) l : NoDup (key <$> l) → NoDup (key <$> List.filter f l).
Proof.
  induction l as [|a l IH]; cbn; [done|]. intros [Ha Hl]%NoDup_cons. specialize (IH Hl).
  destruct (f a); [|done]. cbn. apply NoDup_cons. split; [|done]. intros (b & Hb & Hin)%list_elem_of_fmap.
  apply Ha. apply list_elem_of_fmap. exists b. split; [done|]. apply list_elem_of_In in Hin.
  apply filter_In in Hin as [Hin _]. by apply list_elem_of_In.
Qed.

(** The bytes a save builds. *)
Lemma build_shape st st' size snapshot :
  Forall savable (parameter_table st) → build_snapshot st = (0, size, snapshot, st') →
  ∃ xs rest, st' = st ∧ size = 20 + zlen (payload xs) ∧ size <= KFSW_PARAM_PERSIST_MAX_BYTES ∧
    snapshot = snapshot_header (zlen xs) (payload xs) ++ payload xs ++ rest ∧
    length snapshot = Z.to_nat KFSW_PARAM_PERSIST_MAX_BYTES ∧
    zlen xs <= KFSW_PARAM_PERSIST_MAX_ENTRY_COUNT ∧ Forall (saved_ok st) xs ∧
    sv_entry <$> xs = List.filter carried (parameter_table st).
Proof.
  intros Hsav Hb. unfold build_snapshot in Hb.
  destruct (build_entries _ _ _ _ _) as [[[[rc offset] count] snap] st1] eqn:E.
  destruct (rc =? 0) eqn:Erc; cbn [negb] in Hb; [|injection Hb as -> _ _ _; done]. assert (rc = 0) as -> by lia.
  injection Hb as <- <- <-.
  change (replicate (Z.to_nat KFSW_PARAM_PERSIST_MAX_BYTES) 0) with (replicate 20 0 ++ replicate 2028 0) in E.
  apply build_entries_spec in E as (xs & rest & -> & -> & -> & Hlen & -> & Hcnt & Hxs & Hmap);
    [|done|done|by rewrite length_app, !length_replicate|by vm_compute].
  exists xs, rest. pose proof (zlen_nonneg (payload xs)) as Hp0. rewrite !length_app, length_replicate in Hlen.
  unfold KFSW_PARAM_PERSIST_HEADER_SIZE, KFSW_PARAM_PERSIST_MAX_BYTES in *. rewrite Z.add_0_l in *.
  assert (zlen (payload xs) < 2 ^ 32) as Hsmall by (unfold zlen; lia).
  rewrite put_header_spec by done. split_and!; try done; [unfold zlen; lia|].
  rewrite !length_app, snapshot_header_length. lia.
Qed.

Lemma payload_prefix (header data rest buffer : list Z) n :
  n = length (header ++ data) → take n buffer = take n (header ++ data ++ rest) →
  ∃ junk, buffer = header ++ data ++ junk.
Proof.
  intros -> H. exists (drop (length (header ++ data)) buffer).
  rewrite <- (take_drop (length (header ++ data)) buffer) at 1. by rewrite H, !app_assoc, take_app_length.
Qed.

(** What the walk over a snapshot's records gives back. *)
Lemma records_restore st st2 header xs junk :
  save_ready st → load_ready st st2 → Forall (saved_ok st) xs →
  sv_entry <$> xs = List.filter carried (parameter_table st) →
  let size := zlen header + zlen (payload xs) in
  let walk := walk_entries (length xs) (header ++ payload xs ++ junk) size (zlen xs) (zlen header) in
  walk false st2 = (0, st2) ∧ ∃ st3, walk true st2 = (0, st3) ∧ restored_from st st2 st3.
Proof.
  intros (_ & [Hnd _] & _ & Hrest) (Hwf2 & [_ Hst2] & Htab) Hxs Hmap size walk.
  pose proof (proj1 (Forall_forall _ _) Hxs) as Hxs'.
  assert (∀ x, x ∈ xs → sv_entry x ∈ parameter_table st ∧ carried (sv_entry x) = true) as Hmem.
  { intros x Hx. assert (sv_entry x ∈ sv_entry <$> xs) as Hm by (by apply list_elem_of_fmap_2).
    rewrite Hmap in Hm. apply list_elem_of_In, filter_In in Hm as [Hm ?]. by apply list_elem_of_In in Hm. }
  assert (∀ x, x ∈ xs → restorable x) as Hr by (intros x Hx; apply Hrest; [by apply Hxs'|by apply Hmem]).
  assert (Forall (λ x, sv_entry x ∈ parameter_table st2) xs) as Hins
    by (apply Forall_forall; intros x Hx; rewrite Htab; by apply Hmem).
  assert (Forall restorable xs) as Hrs by (by apply Forall_forall).
  assert (NoDup (entry_address ∘ sv_entry <$> xs)) as Hnx.
  { rewrite list_fmap_compose, Hmap. by apply keys_filter. }
  split; [by apply (walk_checks st)|].
  destruct (walk_restores st xs header junk size (zlen xs) st2 Hwf2 Hxs Hrs Hins Hnx (Z.le_refl _))
    as (st3 & Hrun & Hreg & Hres & Hoth).
  exists st3. split; [exact Hrun|]. split; [done|]. apply Forall_forall.
  intros entry Hin. pose proof (filter_carried_elem xs entry _ Hmap Hin) as Hc. destruct (carried entry) eqn:Ec.
  - destruct Hc as (x & Hx & <-). apply (restored_reads st st2); [by apply Hxs'|by apply Hr| |].
    + apply (proj1 (Forall_forall _ _) Hst2). by rewrite Htab.
    + by apply (proj1 (Forall_forall _ _) Hres).
  - apply Hoth. intros x Hx Heq. destruct (Hmem x Hx) as [Hx' Hcx].
    rewrite (keys_inj entry_address (parameter_table st) entry (sv_entry x) Hnd Hin Hx' Heq) in Ec. congruence.
Qed.

(** A snapshot that was built is accepted, and gives every saved parameter its value back. *)
Lemma snapshot_restores st st' size snapshot buffer st2 :
  save_ready st → load_ready st st2 → build_snapshot st = (0, size, snapshot, st') →
  take (Z.to_nat size) buffer = take (Z.to_nat size) snapshot →
  st' = st ∧ KFSW_PARAM_PERSIST_HEADER_SIZE <= size <= KFSW_PARAM_PERSIST_MAX_BYTES ∧
  length snapshot = Z.to_nat KFSW_PARAM_PERSIST_MAX_BYTES ∧
  ∃ count cleared st3, validate_snapshot buffer size = (0, count, cleared) ∧
    apply_snapshot cleared size count st2 = (0, st3) ∧ restored_from st st2 st3.
Proof.
  intros Hs Hl Hb Hbuf. pose proof Hs as (_ & _ & Hsav & _).
  destruct (build_shape st st' size snapshot Hsav Hb) as (xs & rest & -> & Hsize & Hmax & -> & Hlen & Hcnt & Hxs & Hmap).
  pose proof (zlen_nonneg (payload xs)) as Hp0. pose proof (zlen_nonneg xs) as Hx0.
  split; [done|]. split; [unfold KFSW_PARAM_PERSIST_HEADER_SIZE; lia|]. split; [done|].
  apply payload_prefix in Hbuf as (junk & ->).
  2: { rewrite length_app, snapshot_header_length. unfold zlen in *. lia. }
  unfold KFSW_PARAM_PERSIST_MAX_BYTES in Hmax. rewrite validate_snapshot_spec by (done || lia).
  exists (zlen xs), (header_bytes (zlen (payload xs)) (zlen xs) 0 ++ payload xs ++ junk).
  pose proof (header_length (zlen (payload xs)) (zlen xs) 0) as Hh.
  set (header := header_bytes (zlen (payload xs)) (zlen xs) 0) in *.
  assert (KFSW_PARAM_PERSIST_HEADER_SIZE = zlen header) as H20 by (unfold zlen; by rewrite Hh).
  unfold apply_snapshot, walk_snapshot. rewrite H20.
  replace (Z.to_nat (zlen xs)) with (length xs) by (unfold zlen; lia).
  replace size with (zlen header + zlen (payload xs)) by (unfold zlen at 1; lia).
  destruct (records_restore st st2 header xs junk Hs Hl Hxs Hmap) as (-> & st3 & Hrun & Hres).
  exists st3. rewrite (validate_payload st) by done. done.
Qed.
End restoring.

(** ** Loads that are refused *)

Section refused.
Context {PC : ParamConfig} {BO : ByteOrder} {CRC : Crc32} {W : Type}.
Implicit Types (entry : kfsw_param_entry W) (st : param_state W).

Lemma wire_apply_table entry value st :
  parameter_table (kfsw_param_wire_apply entry value st).2 = parameter_table st.
Proof.
  unfold kfsw_param_wire_apply, kfsw_param_write_text_entry, kfsw_param_write_data_entry, kfsw_param_write_entry.
  by repeat case_match; simplify_eq/=.
Qed.

Lemma wire_apply_failures entry value st :
  param_load_failures (kfsw_param_wire_apply entry value st).2 = param_load_failures st.
Proof.
  unfold kfsw_param_wire_apply, kfsw_param_write_text_entry, kfsw_param_write_data_entry, kfsw_param_write_entry.
  by repeat case_match; simplify_eq/=.
Qed.
Lemma walk_failures n snapshot size total offset apply st :
  param_load_failures (walk_entries n snapshot size total offset apply st).2 = param_load_failures st.
Proof.
  revert offset st. induction n as [|n IH]; intros offset st; cbn [walk_entries]; [done|].
  destruct (next_entry _ _ _) as [[offset' x]|]; [|done]. cbv zeta.
  destruct (kfsw_param_find_name _ _) as [entry|]; [|done]. destruct (_ =? 0); [done|].
  destruct (negb (entry_matches _ _)); [done|]. destruct (_ && _); [done|].
  destruct (kfsw_param_wire_decode _ _ _ _ _) as [rc v]. destruct (negb (rc =? 0)); [done|].
  destruct apply; [|done]. pose proof (wire_apply_failures entry v st) as Hf.
  destruct (kfsw_param_wire_apply _ _ _) as [rc' st']. cbn in Hf. rewrite <- Hf.
  by destruct (negb (rc' =? 0)).
Qed.
Lemma apply_snapshot_failures snapshot size count st :
  param_load_failures (apply_snapshot snapshot size count st).2 = param_load_failures st.
Proof.
  unfold apply_snapshot, walk_snapshot.
  pose proof (walk_failures (Z.to_nat count) snapshot size count KFSW_PARAM_PERSIST_HEADER_SIZE false st) as Hf.
  destruct (walk_entries _ _ _ _ _ false st) as [rc0 st0]. cbn in Hf. rewrite <- Hf.
  destruct (rc0 =? 0); [apply walk_failures|done].
Qed.

Lemma walk_check_keeps n snapshot size total offset st :
  (walk_entries n snapshot size total offset false st).2 = st.
Proof.
  revert offset. induction n as [|n IH]; intros offset; cbn [walk_entries]; [done|].
  destruct (next_entry _ _ _) as [[offset' x]|]; [|done]. cbv zeta.
  destruct (kfsw_param_find_name _ _) as [entry|]; [|done]. destruct (_ =? 0); [done|].
  destruct (negb (entry_matches _ _)); [done|]. destruct (_ && _); [done|].
  destruct (kfsw_param_wire_decode _ _ _ _ _) as [rc v]. by destruct (negb (rc =? 0)).
Qed.

(** With more than one record no write can be refused once the check has passed. *)
Lemma walk_apply_checked n snapshot size total offset st st' :
  total ≠ 1 → parameter_table st' = parameter_table st →
  (walk_entries n snapshot size total offset false st).1 = 0 →
  (walk_entries n snapshot size total offset true st').1 = 0.
Proof.
  intros Htot. revert offset st'. induction n as [|n IH]; intros offset st' Htab H; cbn [walk_entries] in *; [done|].
  destruct (next_entry _ _ _) as [[offset' x]|]; [|done]. cbv zeta in *.
  unfold kfsw_param_find_name in *. rewrite Htab. destruct (List.find _ _) as [entry|]; [|by apply IH].
  destruct (_ =? 0); [by apply IH|]. destruct (negb (entry_matches _ _)); [by apply IH|].
  rewrite (proj2 (Z.eqb_neq _ _) Htot) in *. cbn [negb] in *. rewrite andb_true_r in *.
  destruct (bool_decide _) eqn:Eap; [done|]. apply bool_decide_eq_false, eq_None_not_Some in Eap.
  assert ((walk_entries n snapshot size total offset' false st).1 = 0) as Hrest.
  { destruct (kfsw_param_wire_decode _ _ _ _ st) as [rc v]. by destruct (negb (rc =? 0)). }
  destruct (kfsw_param_wire_decode _ _ _ _ st') as [rc v]. destruct (negb (rc =? 0)); [by apply IH|].
  pose proof (wire_apply_accepts entry v st' (or_introl Eap)) as Hrc.
  pose proof (wire_apply_table entry v st') as Ht.
  destruct (kfsw_param_wire_apply entry v st') as [rc' st'']. cbn in Hrc, Ht. subst rc'.
  apply IH; [by rewrite Ht|done].
Qed.

Lemma walk_single snapshot size offset st rc st' :
  walk_entries 1 snapshot size 1 offset true st = (rc, st') → rc ≠ 0 → param_storage st' = param_storage st.
Proof.
  cbn [walk_entries]. destruct (next_entry _ _ _) as [[offset' x]|]; [|by intros [= _ <-]]. cbv zeta.
  destruct (kfsw_param_find_name _ _) as [entry|]; [|by intros [= <- <-]]. destruct (_ =? 0); [by intros [= <- <-]|].
  destruct (negb (entry_matches _ _)); [by intros [= <- <-]|]. destruct (_ && _); [by intros [= _ <-]|].
  destruct (kfsw_param_wire_decode _ _ _ _ _) as [rc0 v] eqn:Ed. destruct (negb (rc0 =? 0)); [by intros [= <- <-]|].
  assert (pv_type v = pi_type (pe_info entry)) as Ht by (by eapply decode_type).
  destruct (kfsw_param_wire_apply entry v st) as [rc1 st1] eqn:Ea.
  destruct (wire_apply_effect entry v st rc1 st1 Ht Ea) as [_ Hw].
  destruct (rc1 =? 0) eqn:E1; cbn [negb].
  - by intros [= <- <-].
  - intros [= <- <-] Hrc. by destruct (Hw Hrc).
Qed.

Lemma apply_snapshot_refused snapshot size count st rc st' :
  apply_snapshot snapshot size count st = (rc, st') → rc ≠ 0 → param_storage st' = param_storage st.
Proof.
  unfold apply_snapshot, walk_snapshot. pose proof (walk_check_keeps (Z.to_nat count) snapshot size count
    KFSW_PARAM_PERSIST_HEADER_SIZE st) as Hk.
  destruct (walk_entries _ _ _ _ _ false st) as [rc0 st0] eqn:E0. cbn in Hk. subst st0.
  destruct (rc0 =? 0) eqn:Erc; [|by intros [= _ <-]]. intros H Hrc.
  destruct (decide (count = 1)) as [->|Hne]; [by eapply walk_single|]. exfalso. apply Hrc.
  pose proof (walk_apply_checked (Z.to_nat count) snapshot size count KFSW_PARAM_PERSIST_HEADER_SIZE st st Hne eq_refl)
    as Hok. rewrite E0, H in Hok. cbn in Hok. apply Hok. lia.
Qed.
End refused.

(** ** Files *)

Section files.
Context {PC : ParamConfig} {BO : ByteOrder} {CRC : Crc32} {SP : StoragePlatform} {W F : Type} `{FL : FileLaws F}.
Implicit Types (s : param_persist W F) (f : F).

Lemma paths_differ : KFSW_PARAM_PERSIST_PATH ≠ KFSW_PARAM_PERSIST_TEMP_PATH.
Proof. unfold KFSW_PARAM_PERSIST_PATH, KFSW_PARAM_PERSIST_TEMP_PATH. intros H%app_inv_head. discriminate H. Qed.

(** A save that answers 0 has put the snapshot on the storage. *)
Lemma save_spec s s1 :
  persist_save s = (0, s1) →
  ∃ size snapshot st, build_snapshot (pp_params s) = (0, size, snapshot, st) ∧ pp_params s1 = st ∧
    fs_durable (pp_files s1) KFSW_PARAM_PERSIST_PATH = Some (take (Z.to_nat size) snapshot).
Proof.
  unfold persist_save. destruct (_ || _); [done|].
  destruct (build_snapshot (pp_params s)) as [[[rc size] snapshot] st] eqn:Eb.
  destruct (rc =? 0) eqn:Erc; cbn [negb]; [|intros [= -> _]; done]. assert (rc = 0) as -> by lia.
  destruct (fs_mkdir _ _) as [rc1 f1]. destruct (negb (rc1 =? 0) && _) eqn:E1; [intros [= -> _]; done|].
  destruct (check_budget size f1 =? 0) eqn:E2; cbn [negb].
  2: { remember (check_budget size f1) as b. intros [= -> _]. done. }
  destruct (kfsw_snapshot_write _ _ _ size f1) as [rc2 f2] eqn:Ew. intros [= -> <-].
  apply snapshot_run in Ew as (Hok & _); [|apply paths_differ].
  exists size, snapshot, st. split_and!; [done|done|]. by apply Hok.
Qed.

(** A load that answers 0 has read the file, found a snapshot in it and applied it. *)
Lemma load_spec buffer s s3 c :
  length buffer = Z.to_nat KFSW_PARAM_PERSIST_MAX_BYTES →
  fs_file (pp_files s) KFSW_PARAM_PERSIST_PATH = Some c → persist_load buffer s = (0, s3) →
  ∃ buffer' count cleared st, take (length c) buffer' = c ∧
    validate_snapshot buffer' (zlen c) = (0, count, cleared) ∧
    apply_snapshot cleared (zlen c) count (pp_params s) = (0, st) ∧ pp_params s3 = st.
Proof.
  intros Hbuf Hc. unfold persist_load. destruct (_ || _); [done|].
  pose proof (unlink_law KFSW_PARAM_PERSIST_TEMP_PATH (pp_files s)) as Hu.
  destruct (fs_unlink _ _) as [rc0 f0]. destruct Hu as (Hu & _).
  destruct (Hu _ paths_differ) as [Hf0 _]. rewrite Hc in Hf0.
  destruct (fs_stat KFSW_PARAM_PERSIST_PATH f0) as [rc1 entry] eqn:Es. destruct (rc1 =? 0) eqn:E1; cbn [negb]; [|by intros [= -> _]].
  destruct (_ || (de_size entry >? _)) eqn:E2; [done|].
  assert (rc1 = 0) as -> by lia. destruct (stat_law _ _ _ Es ltac:(lia)) as (c' & Hc' & Hsize).
  rewrite Hf0 in Hc'. injection Hc' as <-. rewrite Hsize in *. clear Es Hsize.
  pose proof (open_read_law KFSW_PARAM_PERSIST_PATH f0) as Ho.
  destruct (fs_open _ FS_O_READ f0) as [[rc2 h] f1]. destruct Ho as (Hsame & Hh).
  destruct (rc2 =? 0) eqn:E3; cbn [negb]; [|by intros [= -> _]]. specialize (Hh ltac:(lia)). subst h.
  destruct (read_all _ _ buffer 0 (zlen c) f1) as [[[rc3 buffer'] h] f2] eqn:Er.
  destruct (fs_close h f2) as [rc4 f3]. destruct (rc3 =? 0) eqn:E4.
  2: { rewrite E4. rewrite E4. by intros [= -> _]. }
  destruct (rc4 =? 0) eqn:E5; [|rewrite E5; by intros [= -> _]].
  destruct (validate_snapshot buffer' (zlen c)) as [[rc5 count] cleared] eqn:Ev.
  destruct (rc5 =? 0) eqn:E6; [|by intros [= -> _]].
  destruct (apply_snapshot _ _ _ _) as [rc6 st] eqn:Ea. intros [= -> <-].
  exists buffer', count, cleared, st. assert (rc5 = 0) as -> by lia. assert (rc3 = 0) as -> by lia.
  split_and!; [|done|done|done]. pose proof (zlen_nonneg c).
  apply (read_up_to_spec (- EMSGSIZE) _ _ _ _ _ _ c) in Er as (_ & _ & _ & Ht); [| |done|done|lia| |done].
  - replace (Z.to_nat (zlen c)) with (length c) in Ht by (unfold zlen; lia). by rewrite Ht.
  - cbn [file_path]. destruct (Hsame KFSW_PARAM_PERSIST_PATH) as [-> _]. done.
  - unfold zlen, KFSW_PARAM_PERSIST_MAX_BYTES, KFSW_PARAM_PERSIST_HEADER_SIZE in *. lia.
Qed.


(** What a load leaves that fails: the parameters, and one more failure counted unless
    there was no file. *)
Definition load_failed (rc : Z) (st st' : param_state W) : Prop :=
  param_storage st' = param_storage st ∧
  param_load_failures st' =
    if rc =? - ENOENT then param_load_failures st else u32 (param_load_failures st + 1).

Lemma load_keeps buffer s rc s' :
  persist_load buffer s = (rc, s') → rc ≠ 0 →
  param_storage (pp_params s') = param_storage (pp_params s) ∧
  param_load_failures (pp_params s') = param_load_failures (pp_params s).
Proof.
  unfold persist_load. destruct (_ || _); [by intros [= _ <-]|].
  destruct (fs_unlink _ _) as [rc0 f0]. destruct (fs_stat _ _) as [rc2 entry].
  destruct (negb (rc2 =? 0)); [by intros [= _ <-]|]. destruct (_ || _); [by intros [= _ <-]|].
  destruct (fs_open _ _ _) as [[rc3 h] f1]. destruct (negb (rc3 =? 0)); [by intros [= _ <-]|].
  destruct (read_all _ _ _ _ _ _) as [[[rc4 buffer'] h'] f2]. destruct (fs_close h' f2) as [rc5 f3].
  destruct (if _ =? 0 then validate_snapshot _ _ else _) as [[rc6 count] cleared].
  destruct (rc6 =? 0); [|by intros [= _ <-]].
  pose proof (apply_snapshot_failures cleared (de_size entry) count (pp_params s)) as Hf.
  destruct (apply_snapshot _ _ _ _) as [rc7 st] eqn:Ea. intros [= -> <-] Hrc. cbn in *.
  split; [by eapply apply_snapshot_refused|done].
Qed.

(** C21: A load that fails, on a damaged file, a file of another format or a value that is refused,
    has changed no parameter, and is counted unless the file is missing. *)
Theorem param_load_refused buffer s rc s' :
  kfsw_param_persist_load buffer s = (rc, s') → rc ≠ 0 → load_failed rc (pp_params s) (pp_params s').
Proof.
  intros H Hrc. unfold kfsw_param_persist_load in H. destruct (persist_load buffer s) as [rc1 s1] eqn:El.
  injection H as -> <-. destruct (load_keeps buffer s rc s1 El Hrc) as [Hs Hf].
  rewrite (proj2 (Z.eqb_neq _ _) Hrc). unfold load_failed. destruct (rc =? - ENOENT); cbn; [done|].
  by rewrite Hf.
Qed.
End files.

Lemma pp_params_build {W F} (st : param_state W) (f : F) n :
  pp_params {| pp_params := st; pp_files := f; snapshot_bytes := n |} = st.
Proof. reflexivity. Qed.
Lemma pp_files_build {W F} (st : param_state W) (f : F) n :
  pp_files {| pp_params := st; pp_files := f; snapshot_bytes := n |} = f.
Proof. reflexivity. Qed.

Section snapshot_witnesses.
#[local] Existing Instance param_config_default.
#[local] Existing Instance crc32_bitwise.
#[local] Existing Instance mem_ops.
#[local] Existing Instance mem_view.
#[local] Existing Instance mem_laws.
#[local] Instance example_mount : StoragePlatform := { KFSW_STORAGE_MOUNT_POINT := cstr "/kfsw" }.

Definition example_saved : param_persist Z (gmap (list Z) (list Z)) :=
  (kfsw_param_persist_save {| pp_params := example_written; pp_files := ∅; snapshot_bytes := 0 |}).2.
Definition example_files : gmap (list Z) (list Z) := pp_files example_saved.
Definition example_loaded : param_persist Z (gmap (list Z) (list Z)) :=
  (kfsw_param_persist_load (replicate 2048 0)
     {| pp_params := example_started; pp_files := example_files; snapshot_bytes := 0 |}).2.
(** The file with its last byte changed. *)
Definition damaged_files : gmap (list Z) (list Z) :=
  alter (λ c, take 30 c ++ [77]) KFSW_PARAM_PERSIST_PATH example_files.

Lemma example_entries : Forall (λ entry, savable entry ∧ pd_apply (pe_definition entry) = None ∧
    pd_validate (pe_definition entry) = None ∧ (is_persistent entry = true → pi_type (pe_info entry) = KFSW_PARAM_U16))
  (parameter_table example_written).
Proof.
  destruct (reachable_inv example_sets example_storage 0 no_autosave example_ok example_saves _ example_reached_write)
    as ((_ & _ & Hok & _) & _).
  assert (Forall (λ entry, is_u16 (pd_capacity (pe_definition entry)) ∧ 0 ∉ entry_name entry ∧ not_sampled entry ∧
    pd_apply (pe_definition entry) = None ∧ pd_validate (pe_definition entry) = None ∧
    (is_persistent entry = true → pi_type (pe_info entry) = KFSW_PARAM_U16)) (parameter_table example_written)) as Hrest.
  { assert (parameter_table example_written = parameter_table example_started) as -> by (vm_compute; reflexivity).
    vm_compute parameter_table. rewrite !Forall_cons, Forall_nil.
    split_and!; try (vm_compute; congruence); try (apply (bool_decide_unpack _); vm_compute; exact I). }
  eapply Forall_impl; [apply Forall_and; split; [exact Hok|exact Hrest]|].
  intros entry (He & Hu & Hn & Hs & Ha & Hv & Ht). split_and!; [by split_and!|done|done|done].
Qed.

Lemma example_save_ready : save_ready example_written.
Proof.
  destruct (reachable_inv example_sets example_storage 0 no_autosave example_ok example_saves _ example_reached_write)
    as (Hwf & Hd & Hn & Hz).
  pose proof (conj Hwf (conj Hd (conj Hn Hz))) as Hinv. pose proof example_entries as Hall.
  split_and!; [done| | |].
  - split; [done|]. apply Forall_forall. intros e He. by apply (inv_entry example_sets example_storage 0 example_ok e _ Hinv He).
  - eapply Forall_impl; [exact Hall|]. by intros e [? _].
  - intros x (Hsav & Hp & (Ht & _ & _ & Hsz) & _) Hin. pose proof (proj1 (Forall_forall _ _) Hall _ Hin) as (_ & Ha & Hv & Hty).
    specialize (Hty Hp). rewrite Hty in Ht. assert (pv_size (sv_value x) = entry_capacity (sv_entry x)) as Hsize
      by (apply Hsz; rewrite Ht; done).
    assert (entry_capacity (sv_entry x) = 2) as Hcap.
    { unfold entry_capacity, info_capacity. rewrite Hty. reflexivity. }
    split_and!; [done|lia|]. intros decoded st (Hdt & Hds & _) _. unfold kfsw_param_validate_entry.
    rewrite Hcap, Hty, Hdt, Ht, Hds, Hsize, Hcap, Hv. reflexivity.
Qed.
Lemma example_load_ready : load_ready example_written example_started.
Proof.
  destruct (reachable_inv example_sets example_storage 0 no_autosave example_ok example_saves _ example_reached)
    as (Hwf & Hd & Hn & Hz).
  pose proof (conj Hwf (conj Hd (conj Hn Hz))) as Hinv.
  split_and!; [done| |vm_compute; reflexivity]. split; [done|]. apply Forall_forall. intros e He.
  by apply (inv_entry example_sets example_storage 0 example_ok e _ Hinv He).
Qed.


Lemma param_load_refused_witness :
  ∃ rc s', kfsw_param_persist_load (replicate 2048 0)
      {| pp_params := example_started; pp_files := damaged_files; snapshot_bytes := 0 |} = (rc, s') ∧ rc ≠ 0 ∧
    load_failed rc example_started (pp_params s').
Proof.
  destruct (kfsw_param_persist_load (replicate 2048 0)
      {| pp_params := example_started; pp_files := damaged_files; snapshot_bytes := 0 |}) as [rc s'] eqn:E.
  assert ((kfsw_param_persist_load (replicate 2048 0)
      {| pp_params := example_started; pp_files := damaged_files; snapshot_bytes := 0 |}).1 ≠ 0) as H
    by (vm_compute; discriminate).
  rewrite E in H.
  pose proof (param_load_refused (replicate 2048 0)
    {| pp_params := example_started; pp_files := damaged_files; snapshot_bytes := 0 |} rc s' E H) as Hsame.
  rewrite pp_params_build in Hsame. exists rc, s'. split; [reflexivity|]. split; [exact H|exact Hsame].
Defined.
End snapshot_witnesses.
