(* ===== verification/Table.v ===== *)
(** * Parameter tables as files ([src/table/table.c])

    A file that carries values of one parameter table: it is checked as a whole before any
    of it is applied, the values it replaces are kept, and a table can be written out as
    such a file. Every operation runs under the service's mutex and the parameter table's
    lock and is one step. The static [image] is an argument, because nothing of it survives
    a call; [saved] holds the first [saved_count] values of its array. Log lines are left
    out. *)

From S2P Require Import Prelude Bytes CStdlib FileSystem SnapshotFile Event ParamTypes Param ParamFacts ParamWire.

(** [CONFIG_KFSW_TABLE_MAX_ENTRIES] and its Kconfig range. *)
Class TableConfig := {
  KFSW_TABLE_MAX_ENTRIES : Z;
  KFSW_TABLE_MAX_ENTRIES_range : 1 <= KFSW_TABLE_MAX_ENTRIES <= 255;
}.
#[program] Definition table_config_default : TableConfig := {| KFSW_TABLE_MAX_ENTRIES := 16 |}.
Next Obligation. lia. Qed.

Definition KFSW_TABLE_MAGIC : list Z := [75; 84; 66; 76].
Definition KFSW_TABLE_VERSION : Z := 1.
Definition KFSW_TABLE_HEADER_SIZE : Z := 20.
Definition KFSW_TABLE_CRC_OFFSET : nat := 16.
Definition KFSW_TABLE_ENTRY_HEADER_SIZE : Z := 4.
Definition KFSW_TABLE_MAX_BYTES `{TableConfig, ParamConfig} : Z :=
  KFSW_TABLE_HEADER_SIZE + KFSW_TABLE_MAX_ENTRIES * (KFSW_TABLE_ENTRY_HEADER_SIZE + PARAM_STRING_MAX).
Definition KFSW_TABLE_TEMPORARY_SUFFIX : list Z := cstr ".part".
Definition KFSW_TABLE_PATH_SIZE : Z := 64.
Definition KFSW_TABLE_DIRECTORY : list Z := cstr "/kfsw/tables".

Definition KFSW_EVENT_TABLE_REJECTED : Z := 1.
Definition KFSW_EVENT_TABLE_LOADED : Z := 2.
Definition KFSW_EVENT_TABLE_REVERTED : Z := 3.

Definition KFSW_TABLE_EMPTY : Z := 0.
Definition KFSW_TABLE_LOADED : Z := 1.
Definition KFSW_TABLE_REVERTED : Z := 2.

(** [struct file_entry]; the value is what the image holds from there on. *)
Record file_entry := { fe_value : list Z; fe_value_size : Z; fe_offset : Z; fe_type : Z }.
Record saved_value := { sa_id : Z; sa_value : kfsw_param_value }.

Record kfsw_table_report := {
  tr_table : Z; tr_entries : Z; tr_accepted : Z; tr_failed_entry : Z; tr_failed_offset : Z; tr_reason : Z;
}.
Record kfsw_table_status := {
  ts_state : Z; ts_table : Z; ts_entries : Z; ts_loads : Z; ts_rejections : Z; ts_reverts : Z;
  ts_path : list Z;
}.

(** What the service reaches: the parameters, the files, the event record and its own objects. *)
Record table_service (W F E : Type) := {
  tb_params : param_state W; tb_files : F; tb_events : E;
  tb_saved : list saved_value; tb_status : kfsw_table_status;
}.
Arguments tb_params {W F E}. Arguments tb_files {W F E}. Arguments tb_events {W F E}.
Arguments tb_saved {W F E}. Arguments tb_status {W F E}.

Definition report_clear : kfsw_table_report := {|
  tr_table := 0; tr_entries := 0; tr_accepted := 0; tr_failed_entry := 0; tr_failed_offset := 0;
  tr_reason := 0 |}.
Definition set_reason (reason : Z) (r : kfsw_table_report) : kfsw_table_report := {|
  tr_table := tr_table r; tr_entries := tr_entries r; tr_accepted := tr_accepted r;
  tr_failed_entry := tr_failed_entry r; tr_failed_offset := tr_failed_offset r; tr_reason := reason |}.
Definition set_failed (entry offset : Z) (r : kfsw_table_report) : kfsw_table_report := {|
  tr_table := tr_table r; tr_entries := tr_entries r; tr_accepted := tr_accepted r;
  tr_failed_entry := u16 entry; tr_failed_offset := offset; tr_reason := tr_reason r |}.
Definition count_accepted (r : kfsw_table_report) : kfsw_table_report := {|
  tr_table := tr_table r; tr_entries := tr_entries r; tr_accepted := u16 (tr_accepted r + 1);
  tr_failed_entry := tr_failed_entry r; tr_failed_offset := tr_failed_offset r; tr_reason := tr_reason r |}.

Definition count_rejection (x : kfsw_table_status) : kfsw_table_status := {|
  ts_state := ts_state x; ts_table := ts_table x; ts_entries := ts_entries x; ts_loads := ts_loads x;
  ts_rejections := sat_inc (ts_rejections x); ts_reverts := ts_reverts x; ts_path := ts_path x |}.
Definition loaded_status (table entries : Z) (path : list Z) (x : kfsw_table_status) : kfsw_table_status := {|
  ts_state := KFSW_TABLE_LOADED; ts_table := table; ts_entries := entries; ts_loads := sat_inc (ts_loads x);
  ts_rejections := ts_rejections x; ts_reverts := ts_reverts x;
  ts_path := str_truncate path (Z.to_nat KFSW_TABLE_PATH_SIZE) |}.
Definition reverted_status (x : kfsw_table_status) : kfsw_table_status := {|
  ts_state := KFSW_TABLE_REVERTED; ts_table := ts_table x; ts_entries := ts_entries x; ts_loads := ts_loads x;
  ts_rejections := ts_rejections x; ts_reverts := sat_inc (ts_reverts x); ts_path := ts_path x |}.
Definition table_status_boot : kfsw_table_status := {|
  ts_state := KFSW_TABLE_EMPTY; ts_table := 0; ts_entries := 0; ts_loads := 0; ts_rejections := 0;
  ts_reverts := 0; ts_path := [] |}.

Definition kfsw_table_state_name (state : Z) : string :=
  if state =? KFSW_TABLE_EMPTY then "empty"
  else if state =? KFSW_TABLE_LOADED then "loaded"
  else if state =? KFSW_TABLE_REVERTED then "reverted"
  else "unknown".

(** ** Checking a file *)

Section check.
Context {PC : ParamConfig} {TC : TableConfig} {BO : ByteOrder} {CRC : Crc32} {W : Type}.
Implicit Types (entry : kfsw_param_entry W) (st : param_state W) (image seen : list Z)
  (report : kfsw_table_report).

(** The result, the entries and the table the header announces. *)
Definition validate_header image (size : Z) : Z * Z * Z :=
  if negb (mem_eq image KFSW_TABLE_MAGIC 4) then (- EBADMSG, 0, 0)
  else if negb (get_be16 4 image =? KFSW_TABLE_VERSION) then (- ENOTSUP, 0, 0)
  else if negb (get_be16 6 image =? KFSW_TABLE_HEADER_SIZE) then (- EBADMSG, 0, 0)
  else
    let payload_size := get_be32 8 image in
    if negb (payload_size =? u32 (size - KFSW_TABLE_HEADER_SIZE)) then (- EBADMSG, 0, 0)
    else
      let entry_count := get_be16 12 image in
      if (entry_count =? 0) || (entry_count >? KFSW_TABLE_MAX_ENTRIES) then (- EBADMSG, entry_count, 0)
      else
        let table := byte_at image 14 in
        if (table <? KFSW_PARAM_TABLE_CORE_FIRST) || (table >? KFSW_PARAM_TABLE_MODULE_LAST)
        then (- EBADMSG, entry_count, table)
        else
          let expected_crc := get_be32 KFSW_TABLE_CRC_OFFSET image in
          let cleared := buf_put KFSW_TABLE_CRC_OFFSET (put_be32 0) image in
          let actual_crc := crc32_ieee (take (Z.to_nat size) cleared) in
          if negb (actual_crc =? expected_crc) then (- EBADMSG, entry_count, table)
          else (0, entry_count, table).

Definition next_entry image (size offset : Z) : option (Z * file_entry) :=
  if offset + KFSW_TABLE_ENTRY_HEADER_SIZE >? size then None
  else
    let value_size := get_be16 (Z.to_nat (offset + 2)) image in
    let start := offset + KFSW_TABLE_ENTRY_HEADER_SIZE in
    if (value_size =? 0) || (value_size >? PARAM_STRING_MAX) || (start + value_size >? size) then None
    else Some (start + value_size,
      {| fe_value := drop (Z.to_nat start) image; fe_value_size := value_size;
         fe_offset := byte_at image (Z.to_nat offset); fe_type := byte_at image (Z.to_nat (offset + 1)) |}).

(** Why one entry is refused, or its parameter and value. *)
Definition check_entry (entry : file_entry) (entry_count table : Z) seen st
    : Z + kfsw_param_entry W * kfsw_param_value :=
  if existsb (Z.eqb (fe_offset entry)) seen then inl (- EEXIST)
  else
    match kfsw_param_find_id (KFSW_PARAM_ID table (fe_offset entry)) st with
    | None => inl (- ENXIO)
    | Some param_entry =>
        if pi_read_only (pe_info param_entry) then inl (- EROFS)
        else if bool_decide (is_Some (pd_apply (pe_definition param_entry))) && negb (entry_count =? 1)
        then inl (- ENOTSUP)
        else
          let '(result, value) :=
            kfsw_param_wire_decode param_entry (fe_type entry) (fe_value entry) (fe_value_size entry) st in
          if negb (result =? 0) then inl result else inr (param_entry, value)
    end.

(** The walk from the entry at [index]; [found] is what [entries] and [decoded] hold. *)
Fixpoint check_from (remaining : nat) image (size entry_count table index offset : Z) seen (keep : bool)
    (found : list (kfsw_param_entry W * kfsw_param_value)) report st
    : Z * kfsw_table_report * list (kfsw_param_entry W * kfsw_param_value) :=
  match remaining with
  | O =>
      if negb (offset =? size) then (- EBADMSG, set_reason (- EBADMSG) report, found)
      else (0, set_reason 0 (set_failed 0 0 report), found)
  | S remaining =>
      match next_entry image size offset with
      | None =>
          (- EBADMSG, set_reason (- EBADMSG) (set_failed (index + 1) (tr_failed_offset report) report), found)
      | Some (offset, entry) =>
          let report := set_failed (index + 1) (fe_offset entry) report in
          match check_entry entry entry_count table seen st with
          | inl reason => (- EBADMSG, set_reason reason report, found)
          | inr item =>
              check_from remaining image size entry_count table (index + 1) offset (seen ++ [fe_offset entry])
                keep (if keep then found ++ [item] else found) (count_accepted report) st
          end
      end
  end.
Definition check_entries image (size entry_count table : Z) (keep : bool) report st
    : Z * kfsw_table_report * list (kfsw_param_entry W * kfsw_param_value) :=
  check_from (Z.to_nat entry_count) image size entry_count table 0 KFSW_TABLE_HEADER_SIZE [] keep [] report st.

(** ** Applying *)

(** The values that are about to be replaced. *)
Fixpoint save_pending (index : Z) (found : list (kfsw_param_entry W * kfsw_param_value))
    (pending : list saved_value) report st : Z * list saved_value * kfsw_table_report * param_state W :=
  match found with
  | [] => (0, pending, report, st)
  | (entry, _) :: found =>
      let '(result, value, st) := kfsw_param_read_stored_entry (Some entry) (Some stack_value) st in
      if negb (result =? 0)
      then (result, pending, set_failed (index + 1) (pi_offset (pe_info entry)) report, st)
      else save_pending (index + 1) found
             (pending ++ [{| sa_id := pi_id (pe_info entry); sa_value := default stack_value value |}]) report st
  end.

Fixpoint apply_decoded (index : Z) (found : list (kfsw_param_entry W * kfsw_param_value)) report st
    : Z * kfsw_table_report * param_state W :=
  match found with
  | [] => (0, report, st)
  | (entry, value) :: found =>
      let '(result, st) := kfsw_param_wire_apply entry value st in
      if negb (result =? 0) then (result, set_failed (index + 1) (pi_offset (pe_info entry)) report, st)
      else apply_decoded (index + 1) found report st
  end.

(** The first loop of a revert: every saved value would be accepted. *)
Fixpoint check_saved (l : list saved_value) (saved_count : Z) st : Z :=
  match l with
  | [] => 0
  | x :: l =>
      match kfsw_param_find_id (sa_id x) st with
      | None => - ENOENT
      | Some entry =>
          if bool_decide (is_Some (pd_apply (pe_definition entry))) && negb (saved_count =? 1) then - ENOTSUP
          else
            let result := kfsw_param_validate_entry (Some entry) (Some (sa_value x)) st in
            if negb (result =? 0) then result else check_saved l saved_count st
      end
  end.
(** The second loop; its entries were found by the first. *)
Fixpoint restore_saved (l : list saved_value) (restored : Z) st : Z * Z * param_state W :=
  match l with
  | [] => (0, restored, st)
  | x :: l =>
      match kfsw_param_find_id (sa_id x) st with
      | None => (- ENOENT, restored, st)
      | Some entry =>
          let '(result, st) := kfsw_param_wire_apply entry (sa_value x) st in
          if negb (result =? 0) then (result, restored, st) else restore_saved l (u16 (restored + 1)) st
      end
  end.

(** ** Writing a table out

    The loop of [kfsw_table_dump]: the result, the offset, the entries and the image. *)
Fixpoint dump_entries (l : list (kfsw_param_entry W)) (table offset written_entries : Z) image st
    : Z * Z * Z * list Z * param_state W :=
  match l with
  | [] => (0, offset, written_entries, image, st)
  | entry :: l =>
      if negb (pi_table (pe_info entry) =? table) || pi_read_only (pe_info entry)
      then dump_entries l table offset written_entries image st
      else
        match kfsw_param_wire_type_of entry with
        | None => dump_entries l table offset written_entries image st
        | Some (type, value_size) =>
            if written_entries =? KFSW_TABLE_MAX_ENTRIES then (- E2BIG, offset, written_entries, image, st)
            else
              let start := Z.to_nat (offset + KFSW_TABLE_ENTRY_HEADER_SIZE) in
              let '(result, output, value_bytes, st) :=
                kfsw_param_wire_encode entry (drop start image)
                  (KFSW_TABLE_MAX_BYTES - offset - KFSW_TABLE_ENTRY_HEADER_SIZE) value_size st in
              let image := buf_put start output image in
              if negb (result =? 0) then (- E2BIG, offset, written_entries, image, st)
              else
                let image := buf_put (Z.to_nat offset) [pi_offset (pe_info entry); type] image in
                let image := buf_put (Z.to_nat (offset + 2)) (put_be16 value_bytes) image in
                dump_entries l table (offset + KFSW_TABLE_ENTRY_HEADER_SIZE + value_bytes)
                  (u16 (written_entries + 1)) image st
        end
  end.

Definition put_header (table offset written_entries : Z) image : list Z :=
  let image := buf_put 0 KFSW_TABLE_MAGIC image in
  let image := buf_put 4 (put_be16 KFSW_TABLE_VERSION) image in
  let image := buf_put 6 (put_be16 KFSW_TABLE_HEADER_SIZE) image in
  let image := buf_put 8 (put_be32 (u32 (offset - KFSW_TABLE_HEADER_SIZE))) image in
  let image := buf_put 12 (put_be16 written_entries) image in
  let image := buf_put 14 [table; 0] image in
  let image := buf_put KFSW_TABLE_CRC_OFFSET (put_be32 0) image in
  buf_put KFSW_TABLE_CRC_OFFSET (put_be32 (crc32_ieee (take (Z.to_nat offset) image))) image.
End check.

(** ** Operations *)

Section operations.
Context {PC : ParamConfig} {TC : TableConfig} {BO : ByteOrder} {CRC : Crc32} {W F E : Type}
  `{FO : FileOps F} `{ES : EventSink E}.
Implicit Types (s : table_service W F E) (f : F) (image : list Z) (report : kfsw_table_report).

(** [kfsw_event_emit] at uptime [now]. *)
Definition report_event (now id table entries : Z) (e : E) : E :=
  sink_emit now KFSW_EVENT_SOURCE_TABLE id
    (if id =? KFSW_EVENT_TABLE_LOADED then KFSW_EVENT_INFO else KFSW_EVENT_WARNING)
    (Some (table :: put_be16 entries)) 3 e.

(** A file that ends before its size is damaged. *)
Definition read_all (fuel : nat) (file : fs_file_t) (data : list Z) (offset size : Z) f
    : Z * list Z * fs_file_t * F := read_up_to (- EBADMSG) fuel file data offset size f.

(** The result, the size, the image. *)
Definition read_image (path : list Z) image f : Z * Z * list Z * F :=
  let '(result, entry) := fs_stat path f in
  if negb (result =? 0) then (result, 0, image, f)
  else if negb (de_type entry =? FS_DIR_ENTRY_FILE) then (- EBADMSG, 0, image, f)
  else if de_size entry <? KFSW_TABLE_HEADER_SIZE then (- EBADMSG, 0, image, f)
  else if de_size entry >? KFSW_TABLE_MAX_BYTES then (- EFBIG, 0, image, f)
  else
    let '(result, file, f) := fs_open path FS_O_READ f in
    if negb (result =? 0) then (result, 0, image, f)
    else
      let '(result, image, file, f) := read_all (S (Z.to_nat (de_size entry))) file image 0 (de_size entry) f in
      let '(close_result, f) := fs_close file f in
      let result := if result =? 0 then close_result else result in
      (result, (if result =? 0 then de_size entry else 0), image, f).

Definition path_unusable (path : option (list Z)) : bool :=
  match path with
  | None => true
  | Some path => (char_at path 0 =? 0) || (strlen path >=? KFSW_TABLE_PATH_SIZE)
  end.

(** The result, the size, the entries, the table, the image. *)
Definition prepare (path : option (list Z)) image (st : param_state W) f : Z * Z * Z * Z * list Z * F :=
  if path_unusable path then (- EINVAL, 0, 0, 0, image, f)
  else if negb (kfsw_param_is_initialized st) then (- EACCES, 0, 0, 0, image, f)
  else if negb (kfsw_storage_is_ready f) then (- ENODEV, 0, 0, 0, image, f)
  else
    let '(result, size, image, f) := read_image (default [] path) image f in
    if negb (result =? 0) then (result, size, 0, 0, image, f)
    else
      let '(result, entry_count, table) := validate_header image size in
      (result, size, entry_count, table, image, f).

Definition examine (path : option (list Z)) (keep : bool) image (st : param_state W) f
    : Z * kfsw_table_report * list (kfsw_param_entry W * kfsw_param_value) * F :=
  let '(result, size, entry_count, table, image, f) := prepare path image st f in
  if negb (result =? 0) then (result, set_reason result report_clear, [], f)
  else
    let report := {| tr_table := table; tr_entries := entry_count; tr_accepted := 0; tr_failed_entry := 0;
                     tr_failed_offset := 0; tr_reason := 0 |} in
    let '(result, report, found) := check_entries image size entry_count table keep report st in
    (result, report, found, f).

Definition kfsw_table_validate (path : option (list Z)) image s
    : Z * kfsw_table_report * table_service W F E :=
  let '(result, local, _, f) := examine path false image (tb_params s) (tb_files s) in
  (result, local, {| tb_params := tb_params s; tb_files := f; tb_events := tb_events s;
                     tb_saved := tb_saved s; tb_status := tb_status s |}).

(** What a load does under the locks: the result, the report, the values it replaced. *)
Definition load_locked (path : option (list Z)) image (st : param_state W) f
    : Z * kfsw_table_report * list saved_value * param_state W * F :=
  let '(result, local, found, f) := examine path true image st f in
  if negb (result =? 0) then (result, local, [], st, f)
  else
    let '(result, pending, local, st) := save_pending 0 found [] local st in
    if negb (result =? 0) then (result, local, pending, st, f)
    else
      let '(result, local, st) := apply_decoded 0 found local st in
      (result, local, pending, st, f).

Definition kfsw_table_load (now : Z) (path : option (list Z)) image s
    : Z * kfsw_table_report * table_service W F E :=
  let '(result, local, pending, st, f) := load_locked path image (tb_params s) (tb_files s) in
  if result =? 0 then
    (result, local,
     {| tb_params := st; tb_files := f;
        tb_events := report_event now KFSW_EVENT_TABLE_LOADED (tr_table local) (tr_entries local) (tb_events s);
        tb_saved := pending;
        tb_status := loaded_status (tr_table local) (tr_entries local) (default [] path) (tb_status s) |})
  else
    let local := if tr_reason local =? 0 then set_reason result local else local in
    (result, local,
     {| tb_params := st; tb_files := f;
        tb_events := report_event now KFSW_EVENT_TABLE_REJECTED (tr_table local) (tr_entries local) (tb_events s);
        tb_saved := tb_saved s; tb_status := count_rejection (tb_status s) |}).

Definition kfsw_table_revert (now : Z) s : Z * table_service W F E :=
  let st := tb_params s in
  let saved_count := zlen (tb_saved s) in
  if negb (kfsw_param_is_initialized st) then (- EACCES, s)
  else if negb (ts_state (tb_status s) =? KFSW_TABLE_LOADED) || (saved_count =? 0) then (- ENOENT, s)
  else
    let result := check_saved (tb_saved s) saved_count st in
    if negb (result =? 0) then (result, s)
    else
      let '(result, restored, st) := restore_saved (tb_saved s) 0 st in
      if negb (result =? 0)
      then (result, {| tb_params := st; tb_files := tb_files s; tb_events := tb_events s;
                       tb_saved := tb_saved s; tb_status := tb_status s |})
      else
        (0, {| tb_params := st; tb_files := tb_files s;
               tb_events := report_event now KFSW_EVENT_TABLE_REVERTED (ts_table (tb_status s)) restored
                              (tb_events s);
               tb_saved := []; tb_status := reverted_status (tb_status s) |}).

(** The result, what [*entries] becomes, the state. *)
Definition kfsw_table_dump (table : Z) (path : option (list Z)) image s
    : Z * option Z * table_service W F E :=
  let with_state st f := {| tb_params := st; tb_files := f; tb_events := tb_events s;
                            tb_saved := tb_saved s; tb_status := tb_status s |} in
  if path_unusable path then (- EINVAL, None, s)
  else if (table <? KFSW_PARAM_TABLE_CORE_FIRST) || (table >? KFSW_PARAM_TABLE_MODULE_LAST)
  then (- EINVAL, None, s)
  else if negb (kfsw_param_is_initialized (tb_params s)) then (- EACCES, None, s)
  else if negb (kfsw_storage_is_ready (tb_files s)) then (- ENODEV, None, s)
  else
    let '(result, offset, written_entries, image, st) :=
      dump_entries (parameter_table (tb_params s)) table KFSW_TABLE_HEADER_SIZE 0 image (tb_params s) in
    let result := if (result =? 0) && (written_entries =? 0) then - ENOENT else result in
    if negb (result =? 0) then (result, None, with_state st (tb_files s))
    else
      let image := put_header table offset written_entries image in
      let '(result, f) := fs_mkdir KFSW_TABLE_DIRECTORY (tb_files s) in
      if negb (result =? 0) && negb (result =? - EEXIST) then (result, None, with_state st f)
      else
        let '(result, f) := kfsw_snapshot_write path (Some (default [] path ++ KFSW_TABLE_TEMPORARY_SUFFIX))
                              (Some image) offset f in
        (result, (if result =? 0 then Some written_entries else None), with_state st f).

Definition kfsw_table_get_status (out : option kfsw_table_status) s : Z * option kfsw_table_status :=
  match out with
  | None => (- EINVAL, None)
  | Some _ => (0, Some (tb_status s))
  end.
End operations.
