(* ===== verification/TableFacts.v ===== *)
(** * What loading, reverting and dumping a table do

    A load that fails has changed no parameter; one that succeeds wrote every value of the
    file and kept what it replaced, which a revert puts back; and a table that was dumped is
    accepted with the values it was dumped with. *)

From S2P Require Import Prelude Bytes CStdlib Codec Sorted FileSystem SnapshotFile Event.
From S2P Require Import ParamTypes Param ParamFacts ParamService ParamWire ParamPersist ParamSnapshot Table.

(** ** Checking *)

Section checking.
Context {PC : ParamConfig} {TC : TableConfig} {BO : ByteOrder} {CRC : Crc32} {W : Type}.
Implicit Types (entry : kfsw_param_entry W) (st : param_state W) (value : kfsw_param_value)
  (report : kfsw_table_report) (found : list (kfsw_param_entry W * kfsw_param_value)).

(** A value of a file that passed every check, of a file of [entry_count] entries. *)
Definition item_ok (entry_count : Z) st (x : kfsw_param_entry W * kfsw_param_value) : Prop :=
  x.1 ∈ parameter_table st ∧ pi_read_only (pe_info x.1) = false ∧
  (pd_apply (pe_definition x.1) = None ∨ entry_count = 1) ∧ pv_type x.2 = pi_type (pe_info x.1) ∧
  kfsw_param_validate_entry (Some x.1) (Some x.2) st = 0.

Lemma check_entry_ok file entry_count table seen st x :
  check_entry file entry_count table seen st = inr x →
  fe_offset file ∉ seen ∧ item_ok entry_count st x ∧ entry_id x.1 = KFSW_PARAM_ID table (fe_offset file).
Proof.
  unfold check_entry. destruct (existsb _ seen) eqn:E1; [done|].
  destruct (kfsw_param_find_id _ st) as [entry|] eqn:E2; [|done].
  destruct (pi_read_only _) eqn:E3; [done|]. destruct (_ && _) eqn:E4; [done|].
  destruct (kfsw_param_wire_decode _ _ _ _ st) as [rc value] eqn:E5.
  destruct (rc =? 0) eqn:E6; cbn [negb]; [|done]. assert (rc = 0) as -> by lia. intros [= <-]. cbn [fst snd].
  apply bisect_sound in E2 as [Hin Hid]. split.
  - intros Hs. apply not_true_iff_false in E1. apply E1, existsb_exists. exists (fe_offset file).
    split; [by apply list_elem_of_In|apply Z.eqb_refl].
  - split; [|done]. unfold item_ok. cbn [fst snd]. split_and!; [done|done| |by eapply decode_type|by eapply decode_accepted].
    apply andb_false_iff in E4 as [E4|E4]; [left|right; lia].
    by apply bool_decide_eq_false, eq_None_not_Some in E4.
Qed.

Lemma check_entry_reason file entry_count table seen st reason :
  check_entry file entry_count table seen st = inl reason → reason ≠ 0.
Proof.
  unfold check_entry. destruct (existsb _ seen); [by intros [= <-]|].
  destruct (kfsw_param_find_id _ st); [|by intros [= <-]]. destruct (pi_read_only _); [by intros [= <-]|].
  destruct (_ && _); [by intros [= <-]|]. destruct (kfsw_param_wire_decode _ _ _ _ st) as [rc value].
  destruct (rc =? 0) eqn:E; [done|]. intros [= <-]. lia.
Qed.

Definition same_file (r r' : kfsw_table_report) : Prop :=
  tr_table r' = tr_table r ∧ tr_entries r' = tr_entries r.

Lemma check_from_spec n image size entry_count table index offset seen keep found report st rc report' found' :
  check_from n image size entry_count table index offset seen keep found report st = (rc, report', found') →
  same_file report report' ∧ (rc = 0 ∨ tr_reason report' ≠ 0) ∧
  (rc = 0 → keep = true → ∃ items offsets, found' = found ++ items ∧ length items = n ∧
     Forall (item_ok entry_count st) items ∧ entry_id ∘ fst <$> items = KFSW_PARAM_ID table <$> offsets ∧
     (NoDup seen → NoDup (seen ++ offsets)) ∧ (bytes image → bytes offsets)).
Proof.
  revert index offset seen found report. induction n as [|n IH]; intros index offset seen found report H; cbn [check_from] in H.
  { destruct (negb (offset =? size)); injection H as <- <- <-; split_and!; try done; [by right|by left|].
    intros _ _. exists [], []. rewrite !app_nil_r. split_and!; try done. intros _. by apply Forall_nil. }
  destruct (next_entry image size offset) as [[offset1 file]|] eqn:En; [|injection H as <- <- <-; split_and!; try done; by right].
  destruct (check_entry _ _ _ _ _) as [reason|x] eqn:E.
  { injection H as <- <- <-. split_and!; try done. right. by eapply check_entry_reason. }
  apply check_entry_ok in E as (Hnew & Hok & Hid). apply IH in H as (Hsame & Hr & Hall).
  split; [done|]. split; [done|]. intros Hrc Hkeep. destruct (Hall Hrc Hkeep) as (items & offsets & -> & Hlen & Hitems & Hids & Hnd & Hb).
  rewrite Hkeep. exists (x :: items), (fe_offset file :: offsets). rewrite <- !app_assoc in *. cbn [app] in *.
  split_and!; [done|cbn; lia|by constructor|cbn; by rewrite Hids, Hid| |].
  - intros Hs. apply Hnd. rewrite NoDup_snoc_iff. done.
  - intros Hi. constructor; [|by apply Hb]. unfold next_entry in En. cbv zeta in En.
    repeat case_match; simplify_eq/=. by apply byte_at_range.
Qed.

(** ** Applying *)

Lemma save_pending_spec found index pending report st rc pending' report' st' :
  save_pending index found pending report st = (rc, pending', report', st') →
  st' = st ∧ same_file report report' ∧ (rc = 0 → report' = report ∧
    ∃ olds, pending' = pending ++ zip_with (λ x old, {| sa_id := entry_id x.1; sa_value := old |}) found olds ∧
      length olds = length found ∧
      Forall2 (λ x old, kfsw_param_read_stored_entry (Some x.1) (Some stack_value) st = (0, Some old, st)) found olds).
Proof.
  revert index pending. induction found as [|[entry value] found IH]; intros index pending H; cbn [save_pending] in H.
  { injection H as <- <- <- <-. split_and!; [done|done|]. intros _. split; [done|]. exists []. by rewrite app_nil_r. }
  pose proof (read_stored_state entry (Some stack_value) st) as Hst.
  destruct (kfsw_param_read_stored_entry (Some entry) (Some stack_value) st) as [[rc1 old] st1] eqn:Er.
  cbn in Hst. subst st1. destruct (rc1 =? 0) eqn:E1; cbn [negb] in H.
  2: { injection H as <- <- <- <-. split_and!; [done|done|]. intros ->. lia. }
  assert (rc1 = 0) as -> by lia. destruct (read_entry_some _ _ _ _ _ _ Er) as [v ->]. cbn [default from_option id] in H.
  apply IH in H as (-> & Hsame & Hall). split_and!; [done|done|]. intros Hrc.
  destruct (Hall Hrc) as (-> & olds & -> & Hlen & Hrd). split; [done|]. exists (v :: olds).
  rewrite <- app_assoc. cbn. split_and!; [done|lia|by constructor].
Qed.

Lemma apply_decoded_spec found index report st rc report' st' :
  apply_decoded index found report st = (rc, report', st') →
  same_file report report' ∧ tr_reason report' = tr_reason report ∧ (rc = 0 → report' = report ∧ writes found st st').
Proof.
  revert index st. induction found as [|[entry value] found IH]; intros index st H; cbn [apply_decoded] in H.
  { by injection H as <- <- <-. }
  destruct (kfsw_param_wire_apply entry value st) as [rc1 st1] eqn:E. destruct (rc1 =? 0) eqn:E1; cbn [negb] in H.
  - assert (rc1 = 0) as -> by lia. apply IH in H as (? & ? & Hw). split_and!; [done|done|].
    intros Hrc. destruct (Hw Hrc) as [-> ?]. split; [done|]. by exists st1.
  - injection H as <- <- <-. split_and!; [done|done|lia].
Qed.

(** Writes nothing can refuse are all accepted. *)
Lemma apply_decoded_accepts found index report st :
  Forall (λ x, pd_apply (pe_definition x.1) = None) found → (apply_decoded index found report st).1.1 = 0.
Proof.
  revert index st. induction found as [|[entry value] found IH]; intros index st H; cbn [apply_decoded]; [done|].
  apply Forall_cons in H as [He H]. pose proof (wire_apply_accepts entry value st (or_introl He)) as Hrc.
  destruct (kfsw_param_wire_apply entry value st) as [rc1 st1]. cbn in Hrc. subst rc1. by apply IH.
Qed.

(** A load's writes are all refused or all accepted. *)
Lemma apply_decoded_refused found entry_count index report st rc report' st' :
  Forall (item_ok entry_count st) found → zlen found = entry_count →
  apply_decoded index found report st = (rc, report', st') → rc ≠ 0 → only_world st st'.
Proof.
  intros Hok Hlen H Hrc. destruct (decide (entry_count = 1)) as [->|Hne].
  - destruct found as [|[entry value] [|]]; try (unfold zlen in Hlen; cbn in Hlen; lia).
    apply Forall_cons in Hok as [(_ & _ & _ & Ht & _) _]. cbn [apply_decoded fst snd] in *.
    destruct (kfsw_param_wire_apply entry value st) as [rc1 st1] eqn:E. destruct (rc1 =? 0) eqn:E1; cbn [negb] in H.
    + by injection H as <-.
    + injection H as <- <- <-. destruct (wire_apply_effect entry value st rc1 st1 Ht E) as [_ Hw]. by apply Hw.
  - exfalso. pose proof (apply_decoded_accepts found index report st) as Hacc. rewrite H in Hacc. apply Hrc, Hacc.
    eapply Forall_impl; [exact Hok|]. intros x (_ & _ & [?|?] & _); done.
Qed.
End checking.

(** ** Loading *)

Lemma NoDup_keys {A K L} (key : A → K) (key' : A → L) (l : list A) :
  (∀ x y, x ∈ l → y ∈ l → key' x = key' y → key x = key y) → NoDup (key <$> l) → NoDup (key' <$> l).
Proof.
  induction l as [|x l IH]; intros Hinj H; cbn in *; [constructor|]. apply NoDup_cons in H as [Hx H].
  apply NoDup_cons. split.
  - intros (y & Hy & Hin)%list_elem_of_fmap. apply Hx. apply list_elem_of_fmap. exists y. split; [|done].
    apply Hinj; [apply list_elem_of_here|by apply list_elem_of_further|done].
  - apply IH; [|done]. intros a b Ha Hb. apply Hinj; by apply list_elem_of_further.
Qed.

Lemma param_id_offset table offset : u8 (KFSW_PARAM_ID table offset) = u8 offset.
Proof.
  unfold KFSW_PARAM_ID, u8, u16. rewrite <- !Z.land_ones by lia. apply Z.bits_inj'. intros n Hn.
  rewrite !Z.land_spec, Z.lor_spec, Z.land_spec. destruct (decide (n < 8)).
  - rewrite Z.shiftl_spec_low by lia. rewrite !Z.ones_spec_low by lia. by rewrite !andb_true_r.
  - by rewrite (Z.ones_spec_high 8) by lia; rewrite !andb_false_r.
Qed.

Lemma param_ids_distinct table offsets : bytes offsets → NoDup offsets → NoDup (KFSW_PARAM_ID table <$> offsets).
Proof.
  intros Hb Hn. apply (NoDup_keys id); [|by rewrite list_fmap_id]. intros x y Hx Hy H. cbn.
  pose proof (proj1 (Forall_forall _ _) Hb) as Hb'. rewrite <- (u8_id x), <- (u8_id y) by auto.
  by rewrite <- (param_id_offset table x), H, param_id_offset.
Qed.

Section loading.
Context {PC : ParamConfig} {TC : TableConfig} {BO : ByteOrder} {CRC : Crc32} {W F Ev : Type}
  `{FL : FileLaws F} `{ES : EventSink Ev}.
Implicit Types (entry : kfsw_param_entry W) (st : param_state W) (value : kfsw_param_value)
  (report : kfsw_table_report) (found : list (kfsw_param_entry W * kfsw_param_value))
  (s : table_service W F Ev) (f : F).

(** The file at a path holds bytes. *)
Definition file_bytes f p : Prop := ∀ c, fs_file f p = Some c → bytes c.

Lemma read_up_to_bytes short n h data offset size f rc data' h' f' :
  file_bytes f (file_path h) → offset <= size → bytes data →
  read_up_to short n h data offset size f = (rc, data', h', f') → bytes data'.
Proof.
  revert h data offset f. induction n as [|n IH]; intros h data offset f Hf Ho Hd H; cbn [read_up_to] in H.
  { by injection H as _ <- _ _. }
  destruct (offset <? size) eqn:E1; cbn [negb] in H; [|by injection H as _ <- _ _].
  pose proof (read_law h (size - offset) f ltac:(lia)) as Hlaw.
  destruct (fs_read h (size - offset) f) as [[[k bs] h1] f1]. destruct Hlaw as (Hsame & Hp & Hk & Hread).
  destruct (k <? 0) eqn:E2; [by injection H as _ <- _ _|]. destruct (k =? 0) eqn:E3; [by injection H as _ <- _ _|].
  destruct (Hread ltac:(lia)) as (_ & c & Hc & _ & ->). specialize (Hf c Hc) as Hcb.
  eapply IH; [| | |exact H]; [|lia|by auto with kfsw].
  intros c' Hc'. rewrite Hp in Hc'. destruct (Hsame (file_path h)) as [Hs _]. rewrite Hs in Hc'. by apply Hf.
Qed.

Lemma prepare_bytes p image st f rc size n table image' f' :
  file_bytes f p → bytes image → prepare (Some p) image st f = (rc, size, n, table, image', f') → bytes image'.
Proof.
  intros Hf Hi. unfold prepare. destruct (path_unusable _); [by intros [= _ _ _ _ <- _]|].
  destruct (negb _); [by intros [= _ _ _ _ <- _]|]. destruct (negb _); [by intros [= _ _ _ _ <- _]|].
  cbn [default from_option id]. destruct (read_image p image f) as [[[rc1 size1] image1] f1] eqn:E.
  assert (bytes image1) as Hb.
  { unfold read_image in E. destruct (fs_stat p f) as [rc0 entry]. destruct (negb (rc0 =? 0)); [by injection E as _ _ <- _|].
    destruct (negb _); [by injection E as _ _ <- _|]. destruct (_ <? _) eqn:G; [by injection E as _ _ <- _|].
    destruct (_ >? _); [by injection E as _ _ <- _|]. pose proof (open_read_law p f) as Ho.
    destruct (fs_open p FS_O_READ f) as [[rc2 h] f2]. destruct Ho as (Hsame & Hh).
    destruct (rc2 =? 0) eqn:E2; cbn [negb] in E; [|by injection E as _ _ <- _]. rewrite (Hh ltac:(lia)) in E.
    destruct (read_all _ _ _ _ _ f2) as [[[rc3 image2] h2] f3] eqn:Er. destruct (fs_close h2 f3) as [rc4 f4].
    injection E as _ _ <- _. eapply read_up_to_bytes; [| | |exact Er]; [|unfold KFSW_TABLE_HEADER_SIZE in *; lia|done].
    intros c Hc. cbn in Hc. destruct (Hsame p) as [Hs _]. rewrite Hs in Hc. by apply Hf. }
  destruct (negb (rc1 =? 0)); [by intros [= _ _ _ _ <- _]|].
  destruct (validate_header image1 size1) as [[rc2 n2] t2]. by intros [= _ _ _ _ <- _].
Qed.

Lemma examine_spec path image st f rc report found f' :
  examine path true image st f = (rc, report, found, f') →
  (rc ≠ 0 → tr_reason report ≠ 0) ∧
  (rc = 0 → Forall (item_ok (tr_entries report) st) found ∧ length found = Z.to_nat (tr_entries report) ∧
    path_unusable path = false ∧ kfsw_param_is_initialized st = true ∧
    ((∀ p, path = Some p → file_bytes f p) → bytes image → NoDup (entry_id ∘ fst <$> found))).
Proof.
  unfold examine. destruct (prepare path image st f) as [[[[[rc1 size] n] table] image1] f1] eqn:E.
  destruct (rc1 =? 0) eqn:E1; cbn [negb].
  2: { intros [= <- <- <- <-]. cbn. split; [lia|]. intros ->. lia. }
  unfold check_entries. set (r0 := {| tr_table := table; tr_entries := n; tr_accepted := 0; tr_failed_entry := 0;
                     tr_failed_offset := 0; tr_reason := 0 |}).
  destruct (check_from _ _ _ _ _ _ _ _ _ _ _ st) as [[rc2 report2] found2] eqn:Ec. intros [= <- <- <- <-].
  pose proof Ec as Ec0.
  apply check_from_spec in Ec as ((_ & Hn) & Hr & Hall). cbn in Hn. rewrite Hn.
  split; [by destruct Hr as [?|?]|]. intros Hrc. destruct (Hall Hrc eq_refl) as (items & offsets & -> & Hlen & Hit & Hids & Hnd & Hb).
  cbn [app] in *. split; [done|]. split; [done|].
  assert (path_unusable path = false ∧ kfsw_param_is_initialized st = true) as [Hp Hi].
  { unfold prepare in E. destruct (path_unusable path); [injection E as <- _; done|].
    destruct (kfsw_param_is_initialized st); [done|injection E as <- _; done]. }
  split; [done|]. split; [done|]. intros Hf Hi'. rewrite Hids. apply param_ids_distinct; [|by apply Hnd; constructor].
  apply Hb. destruct path as [p|]; [|done]. eapply prepare_bytes; [by apply Hf| |exact E]. done.
Qed.

(** What a load did under the locks. *)
Lemma load_locked_spec path image st f rc local pending st' f' :
  load_locked path image st f = (rc, local, pending, st', f') →
  (rc ≠ 0 → only_world st st') ∧
  (rc = 0 → ∃ found olds, Forall (item_ok (tr_entries local) st) found ∧
    length found = Z.to_nat (tr_entries local) ∧ writes found st st' ∧
    pending = zip_with (λ x old, {| sa_id := entry_id x.1; sa_value := old |}) found olds ∧
    length olds = length found ∧
    Forall2 (λ x old, kfsw_param_read_stored_entry (Some x.1) (Some stack_value) st = (0, Some old, st)) found olds ∧
    path_unusable path = false ∧ kfsw_param_is_initialized st = true ∧
    ((∀ p, path = Some p → file_bytes f p) → bytes image → NoDup (entry_id ∘ fst <$> found))).
Proof.
  unfold load_locked. destruct (examine path true image st f) as [[[rc1 local1] found] f1] eqn:Ex.
  apply examine_spec in Ex as (_ & Hex). destruct (rc1 =? 0) eqn:E1; cbn [negb].
  2: { intros [= <- _ _ <- _]. split; [done|]. intros ->. lia. }
  destruct (Hex ltac:(lia)) as (Hok & Hlen & Hpath & Hinit & Hnd).
  destruct (save_pending 0 found [] local1 st) as [[[rc2 pending2] local2] st2] eqn:Es.
  apply save_pending_spec in Es as (-> & _ & Hsave). destruct (rc2 =? 0) eqn:E2; cbn [negb].
  2: { intros [= <- _ _ <- _]. split; [done|]. intros ->. lia. }
  destruct (Hsave ltac:(lia)) as (-> & olds & -> & Hol & Hreads).
  destruct (apply_decoded 0 found local1 st) as [[rc3 local3] st3] eqn:Ea. intros [= <- <- <- <- _].
  split; [intros Hrc|intros ->].
  - destruct (decide (tr_entries local1 < 0)) as [Hneg|Hneg].
    + destruct found; [|cbn in Hlen; lia]. cbn in Ea. by injection Ea as <- _ _.
    + eapply apply_decoded_refused; [exact Hok| |exact Ea|done]. unfold zlen. lia.
  - apply apply_decoded_spec in Ea as (_ & _ & Hw). destruct (Hw eq_refl) as [-> Hwr]. by exists found, olds.
Qed.

(** ** Reverting *)

Lemma check_saved_spec l n st :
  check_saved l n st = 0 → ∃ entries, Forall2 (λ x entry, kfsw_param_find_id (sa_id x) st = Some entry ∧
    (pd_apply (pe_definition entry) = None ∨ n = 1) ∧
    kfsw_param_validate_entry (Some entry) (Some (sa_value x)) st = 0) l entries.
Proof.
  induction l as [|x l IH]; cbn [check_saved]; [by exists []|].
  destruct (kfsw_param_find_id _ st) as [entry|] eqn:Ef; [|done]. destruct (_ && _) eqn:Ea; [done|].
  destruct (kfsw_param_validate_entry _ _ st =? 0) eqn:Ev'; cbn [negb].
  2: { remember (kfsw_param_validate_entry _ _ _) as rc. intros ->. done. }
  intros H. destruct (IH H) as [entries Hall]. exists (entry :: entries). constructor; [|done].
  split_and!; [done| |lia]. apply andb_false_iff in Ea as [Ea|Ea]; [left|right; lia].
  by apply bool_decide_eq_false, eq_None_not_Some in Ea.
Qed.

Lemma restore_saved_spec l entries n st0 st rc n' st' :
  Forall2 (λ x entry, kfsw_param_find_id (sa_id x) st0 = Some entry) l entries →
  parameter_table st = parameter_table st0 → restore_saved l n st = (rc, n', st') →
  rc = 0 → writes (zip entries (sa_value <$> l)) st st'.
Proof.
  intros H. revert n st. induction H as [|x entry l entries Hx _ IH]; intros n st Ht Hr Hrc; cbn [restore_saved] in Hr.
  { by injection Hr as <- <- <-. }
  unfold kfsw_param_find_id in *. rewrite Ht, Hx in Hr.
  destruct (kfsw_param_wire_apply entry (sa_value x) st) as [rc1 st1] eqn:E.
  pose proof (wire_apply_table entry (sa_value x) st) as Ht1. rewrite E in Ht1. cbn in Ht1.
  destruct (rc1 =? 0) eqn:E1; cbn [negb] in Hr.
  - assert (rc1 = 0) as -> by lia. cbn. exists st1. split; [done|]. eapply IH; [congruence|exact Hr|done].
  - injection Hr as -> _ _. lia.
Qed.

(** A revert's writes are all refused or all accepted. *)
Lemma restore_saved_refused l entries st rc n' st' :
  Forall2 (λ x entry, kfsw_param_find_id (sa_id x) st = Some entry ∧
    (pd_apply (pe_definition entry) = None ∨ zlen l = 1) ∧
    kfsw_param_validate_entry (Some entry) (Some (sa_value x)) st = 0) l entries →
  restore_saved l 0 st = (rc, n', st') → rc ≠ 0 → only_world st st'.
Proof.
  intros H Hr Hrc. destruct (decide (zlen l = 1)) as [H1|Hne].
  - destruct l as [|x [|]]; try (unfold zlen in H1; cbn in H1; lia). apply Forall2_cons_inv_l in H as (entry & [|] & (Hf & _ & Hv) & H' & ->).
    2: by inversion H'. cbn [restore_saved] in Hr. rewrite Hf in Hr. apply validate_cases in Hv as (_ & Ht & _).
    destruct (kfsw_param_wire_apply entry (sa_value x) st) as [rc1 st1] eqn:Ea.
    destruct (wire_apply_effect _ _ _ _ _ Ht Ea) as [_ Hw].
    destruct (rc1 =? 0) eqn:E1; cbn [negb] in Hr; injection Hr as <- _ <-; [done|by apply Hw].
  - exfalso. apply Hrc. clear Hrc. assert (∀ m st1, parameter_table st1 = parameter_table st →
      (restore_saved l m st1).1.1 = 0) as Hacc; [|by specialize (Hacc 0 st eq_refl); rewrite Hr in Hacc].
    clear Hr. generalize (zlen l), Hne, H. clear Hne H. intros z Hz H.
    induction H as [|x entry l entries (Hf & Hap & _) _ IH]; intros m st1 Ht; cbn [restore_saved]; [done|].
    unfold kfsw_param_find_id in *. rewrite Ht, Hf. destruct Hap as [Hap|?]; [|done].
    pose proof (wire_apply_accepts entry (sa_value x) st1 (or_introl Hap)) as Hrc.
    pose proof (wire_apply_table entry (sa_value x) st1) as Ht1.
    destruct (kfsw_param_wire_apply entry (sa_value x) st1) as [rc1 st2]. cbn in Hrc, Ht1. subst rc1.
    apply IH. congruence.
Qed.
End loading.

(** ** Properties *)

Section table_properties.
Context {PC : ParamConfig} {TC : TableConfig} {BO : ByteOrder} {CRC : Crc32} {W F Ev : Type}
  `{FL : FileLaws F} `{ES : EventSink Ev}.
Implicit Types (entry : kfsw_param_entry W) (st : param_state W) (value : kfsw_param_value)
  (s : table_service W F Ev) (found : list (kfsw_param_entry W * kfsw_param_value)).

(** The registry and its storage as the service keeps them. *)
Definition params_ready st : Prop := registry_wf st ∧ storage_ok st.

Lemma found_addresses n st found :
  storage_ok st → Forall (item_ok n st) found → NoDup (entry_id ∘ fst <$> found) →
  NoDup (entry_address ∘ fst <$> found).
Proof.
  intros [Hn _] Hok. apply NoDup_keys. intros x y Hx Hy Ha. cbn in *.
  pose proof (proj1 (Forall_forall _ _) Hok) as Hok'.
  by rewrite (keys_inj entry_address (parameter_table st) x.1 y.1 Hn (proj1 (Hok' x Hx)) (proj1 (Hok' y Hy)) Ha).
Qed.

Lemma item_types n st found : Forall (item_ok n st) found → Forall (λ x, pv_type x.2 = pi_type (pe_info x.1)) found.
Proof. intros H. eapply Forall_impl; [exact H|]. by intros x (_ & _ & _ & ? & _). Qed.


Lemma saved_ids found olds :
  length olds = length found →
  sa_id <$> zip_with (λ x old, {| sa_id := entry_id x.1; sa_value := old |}) found olds = entry_id ∘ fst <$> found ∧
  sa_value <$> zip_with (λ x old, {| sa_id := entry_id x.1; sa_value := old |}) found olds = olds.
Proof.
  revert olds. induction found as [|x found IH]; intros [|old olds] H; try done. cbn in *. injection H as H.
  destruct (IH olds H) as [-> ->]. done.
Qed.

(** The saved values belong to the parameters of the file. *)
Lemma saved_entries n st st2 found olds entries (P : kfsw_param_entry W → kfsw_param_value → Prop) :
  registry_wf st → parameter_table st2 = parameter_table st → Forall (item_ok n st) found →
  length olds = length found →
  Forall2 (λ x entry, kfsw_param_find_id (sa_id x) st2 = Some entry ∧ P entry (sa_value x))
    (zip_with (λ x old, {| sa_id := entry_id x.1; sa_value := old |}) found olds) entries →
  entries = fst <$> found ∧ Forall2 (λ x old, P x.1 old) found olds.
Proof.
  intros (Hs & _) Ht Hok. revert olds entries. induction Hok as [|x found Hx Hok IH]; intros [|old olds] entries Hl H; try done.
  { by inversion H. }
  cbn [zip_with] in H. apply Forall2_cons_inv_l in H as (entry & entries' & (Hf & HP) & H & ->). injection Hl as Hl.
  cbn [sa_id sa_value] in Hf, HP.
  destruct (IH olds entries' Hl H) as [-> Hall]. apply bisect_sound in Hf as [Hin Hid]. rewrite Ht in Hin.
  assert (entry = x.1) as -> by (by apply (sorted_key_inj entry_id (parameter_table st)); [| |apply Hx|]).
  split; [done|]. by constructor.
Qed.

(** A value that was read, written again where it is accepted, reads the same. *)
Lemma write_back st st2 st3 entry old :
  entry_ok entry → entry_stored entry st2 →
  kfsw_param_read_stored_entry (Some entry) (Some stack_value) st = (0, Some old, st) →
  kfsw_param_validate_entry (Some entry) (Some old) st2 = 0 →
  entry_object entry st3 = buf_put 0 (written_bytes entry old) (entry_object entry st2) → reads_as st st3 entry.
Proof.
  intros Hok Hst Hr Hv Ho any. pose proof (read_entry_value _ _ _ _ _ _ Hok (proj1 Hst) Hr) as (_ & Hwf & _).
  pose proof (validate_cases _ _ _ Hv) as (_ & Ht & Hs & Hn).
  rewrite written_stored in Ho; [|done|done|].
  2: { destruct (decide (pi_type (pe_info entry) = KFSW_PARAM_STRING)) as [E|E]; [by destruct (Hs E)|rewrite (Hn E); lia]. }
  destruct (read_back entry old st2 st3 any Hok Hwf Hv Hst Ho) as (got & Hg & Hsame). by exists old, got.
Qed.

(** C7: A revert after a load, whatever changed in between, either fails and changes nothing,
    so that it can be tried again, or puts back what the load replaced: every parameter of the
    file reads what it read before the load, and the others keep their storage. *)
Theorem table_revert_restores now now' path image s report s1 s2 rc s3 :
  params_ready (tb_params s) → (∀ p, path = Some p → file_bytes (tb_files s) p) → bytes image →
  kfsw_table_load now path image s = (0, report, s1) →
  same_registry (tb_params s1) (tb_params s2) → storage_ok (tb_params s2) → tb_saved s2 = tb_saved s1 →
  kfsw_table_revert now' s2 = (rc, s3) →
  (rc ≠ 0 → param_storage (tb_params s3) = param_storage (tb_params s2) ∧ tb_saved s3 = tb_saved s2 ∧
    tb_status s3 = tb_status s2) ∧
  (rc = 0 → tb_saved s3 = [] ∧ tb_status s3 = reverted_status (tb_status s2) ∧
    ∀ entry, entry ∈ parameter_table (tb_params s) →
      if bool_decide (entry_id entry ∈ sa_id <$> tb_saved s1) then reads_as (tb_params s) (tb_params s3) entry
      else entry_object entry (tb_params s3) = entry_object entry (tb_params s2)).
Proof.
  intros [Hwf Hst] Hf Hb Hload Hreg Hst2 Hsav Hrev. unfold kfsw_table_load in Hload.
  destruct (load_locked path image _ _) as [[[[rc1 local] pending] st1] f1] eqn:El.
  apply load_locked_spec in El as [_ Hok]. destruct (rc1 =? 0) eqn:E1; [|by injection Hload as -> _ _].
  injection Hload as -> <- <-. cbn [tb_params tb_saved tb_status] in *.
  destruct (Hok eq_refl) as (found & olds & Hit & Hlen & Hw & -> & Hol & Hreads & _ & _ & Hnd). specialize (Hnd Hf Hb).
  pose proof (found_addresses _ _ _ Hst Hit Hnd) as Haddr.
  destruct (writes_storage found (tb_params s) st1 Haddr (item_types _ _ _ Hit) Hw) as (Hreg1 & _ & _).
  assert (parameter_table (tb_params s2) = parameter_table (tb_params s)) as Htab
    by (destruct Hreg as (-> & _), Hreg1 as (-> & _); done).
  destruct (saved_ids found olds Hol) as [Hids Hvals]. rewrite Hids. unfold kfsw_table_revert in Hrev.
  destruct (negb _); [by injection Hrev as <- <-|]. destruct (_ || _); [by injection Hrev as <- <-|].
  destruct (check_saved _ _ _ =? 0) eqn:Ec; cbn [negb] in Hrev.
  2: { injection Hrev as <- <-. split; [done|]. intros Hrc. lia. }
  destruct (check_saved_spec _ _ _ ltac:(by apply Z.eqb_eq in Ec)) as [entries Hall].
  destruct (restore_saved (tb_saved s2) 0 (tb_params s2)) as [[rc2 restored] st3] eqn:Er.
  destruct (rc2 =? 0) eqn:E2; cbn [negb] in Hrev; injection Hrev as <- <-; cbn [tb_params tb_saved tb_status].
  2: { split; [|lia]. intros Hrc. destruct (restore_saved_refused _ _ _ _ _ _ Hall Er Hrc) as (-> & _). done. }
  split; [done|]. intros _. split; [done|]. split; [done|].
  assert (writes (zip entries (sa_value <$> tb_saved s2)) (tb_params s2) st3) as Hw3.
  { eapply (restore_saved_spec _ _ _ (tb_params s2)); [|done|exact Er|lia]. eapply Forall2_impl; [exact Hall|]. by intros x e (? & _). }
  rewrite Hsav in *. rewrite Hvals in Hw3.
  destruct (saved_entries _ _ _ _ _ _ (λ entry old, (pd_apply (pe_definition entry) = None ∨ _ = 1) ∧
    kfsw_param_validate_entry (Some entry) (Some old) (tb_params s2) = 0) Hwf Htab Hit Hol Hall) as [-> Hval].
  apply writes_storage in Hw3 as (_ & Hin & Hout).
  2: { by rewrite list_fmap_compose, fst_zip, <- list_fmap_compose by (rewrite length_fmap; lia). }
  2: { clear - Hval. induction Hval as [|x old found' olds' (_ & Hv) _ IH]; cbn; constructor; [|done].
       by apply validate_cases in Hv as (_ & ? & _). }
  intros entry Hentry. case_bool_decide as Hid.
  - apply list_elem_of_fmap in Hid as (x & Hid & Hx). cbn in Hid.
    pose proof (proj1 (Forall_forall _ _) Hit x Hx) as (Hxin & _).
    pose proof Hwf as (Hsort & _ & Heok & _).
    assert (entry = x.1) as -> by (by apply (sorted_key_inj entry_id (parameter_table (tb_params s)))).
    apply list_elem_of_lookup in Hx as [i Hi].
    destruct (Forall2_lookup_l _ _ _ _ _ Hval Hi) as (old & Ho & _ & Hv).
    destruct (Forall2_lookup_l _ _ _ _ _ Hreads Hi) as (old' & Ho' & Hr). rewrite Ho in Ho'. injection Ho' as <-.
    eapply (write_back (tb_params s) (tb_params s2)); [| |done|done|].
    + by apply (proj1 (Forall_forall _ _) Heok).
    + apply (proj1 (Forall_forall _ _) (proj2 Hst2)). by rewrite Htab.
    + apply Hin. apply list_elem_of_lookup. exists i. rewrite lookup_zip_with, list_lookup_fmap, Hi. cbn. by rewrite Ho.
  - unfold entry_object. f_equal. apply Hout. intros [e old] Hm Ha. apply elem_of_zip_l in Hm.
    apply list_elem_of_fmap in Hm as (x & -> & Hx). cbn in Ha. apply Hid. apply list_elem_of_fmap. exists x.
    split; [|done]. cbn. f_equal. apply (keys_inj entry_address (parameter_table (tb_params s))); [apply Hst|done| |done].
    by apply (proj1 (Forall_forall _ _) Hit x Hx).
Qed.
End table_properties.
