(* ===== verification/TableImage.v ===== *)
(** * What a dumped table is read back as

    The image a dump builds is a header and one record per writable parameter of the table;
    a load accepts it and gives every one of them the value it was dumped with. *)

From S2P Require Import Prelude Bytes CStdlib Codec Sorted FileSystem SnapshotFile Event.
From S2P Require Import ParamTypes Param ParamFacts ParamService ParamWire ParamPersist ParamSnapshot Table TableFacts.

(** Writing one record: its value, its offset and type, and last its size. *)
Lemma put_item (a b c d : Z) (w pre rest : list Z) off :
  off = length pre → (4 + length w <= length rest)%nat →
  let s1 := buf_put (off + 4) (w ++ drop (length w) (drop (off + 4) (pre ++ rest))) (pre ++ rest) in
  let s2 := buf_put off [a; b] s1 in
  buf_put (off + 2) [c; d] s2 = pre ++ ([a; b; c; d] ++ w) ++ drop (4 + length w) rest.
Proof.
  intros -> Hl. destruct (split_at 4 rest ltac:(lia)) as (r4 & r & -> & H4). rewrite length_app, H4 in Hl.
  destruct (split_at (length w) r ltac:(lia)) as (rw & post & -> & Hw).
  destruct r4 as [|x0 [|x1 [|x2 [|x3 [|]]]]]; try discriminate H4. cbv zeta.
  assert (drop (length pre + 4) (pre ++ [x0; x1; x2; x3] ++ rw ++ post) = rw ++ post) as ->.
  { rewrite drop_app_ge by lia. by replace (length pre + 4 - length pre)%nat with 4%nat by lia. }
  assert (drop (length w) (rw ++ post) = post) as -> by (by apply drop_app_length').
  assert (pre ++ [x0; x1; x2; x3] ++ rw ++ post = (pre ++ [x0; x1; x2; x3]) ++ (rw ++ post) ++ []) as ->
    by (by rewrite app_nil_r, <- app_assoc).
  rewrite buf_put_middle by (rewrite ?length_app; cbn; lia). rewrite app_nil_r.
  assert ((pre ++ [x0; x1; x2; x3]) ++ w ++ post = pre ++ [x0; x1] ++ ([x2; x3] ++ w ++ post)) as ->
    by (by rewrite <- !app_assoc).
  rewrite (buf_put_middle (length pre) pre [x0; x1] _ [a; b]) by done.
  assert (pre ++ [a; b] ++ [x2; x3] ++ w ++ post = (pre ++ [a; b]) ++ [x2; x3] ++ w ++ post) as ->
    by (by rewrite <- !app_assoc).
  rewrite buf_put_middle by (rewrite ?length_app; cbn; lia).
  rewrite drop_app_ge by lia. rewrite H4. replace (4 + length w - 4)%nat with (length w) by lia.
  rewrite drop_app_length' by done. by rewrite <- !app_assoc.
Qed.

(** ** Building *)

Section image.
Context {PC : ParamConfig} {TC : TableConfig} {BO : ByteOrder} {CRC : Crc32} {W : Type}.
Implicit Types (entry : kfsw_param_entry W) (st : param_state W) (value : kfsw_param_value)
  (x : saved (W := W)) (xs : list (saved (W := W))).

Definition item_bytes x : list Z :=
  [pi_offset (pe_info (sv_entry x)); sv_type x] ++ put_be16 (pv_size (sv_value x))
  ++ wire_bytes (sv_type x) (sv_value x) (pv_size (sv_value x)).
Definition items_bytes xs : list Z := concat (item_bytes <$> xs).

(** The parameters a dump carries, and what it asks of them. *)
Definition dumps (table : Z) entry : bool :=
  (pi_table (pe_info entry) =? table) && negb (pi_read_only (pe_info entry))
  && bool_decide (is_Some (kfsw_param_wire_type_of entry)).
Definition dumpable (table : Z) entry : Prop :=
  entry_ok entry ∧ is_u16 (pd_capacity (pe_definition entry)) ∧ is_u8 (pi_offset (pe_info entry)) ∧
  (dumps table entry = true → not_sampled entry).

(** What was dumped is what the parameter reads. *)
Definition dumped_ok (table : Z) st x : Prop :=
  dumpable table (sv_entry x) ∧ dumps table (sv_entry x) = true ∧ value_read (sv_entry x) (sv_value x) ∧
  (∃ size, kfsw_param_wire_type_of (sv_entry x) = Some (sv_type x, size) ∧
     pv_size (sv_value x) = wire_size (sv_type x) size (sv_value x)) ∧
  kfsw_param_read_stored_entry (Some (sv_entry x)) (Some stack_value) st = (0, Some (sv_value x), st).

Lemma item_length table st x :
  dumped_ok table st x →
  zlen (item_bytes x) = 4 + pv_size (sv_value x) ∧
  zlen (wire_bytes (sv_type x) (sv_value x) (pv_size (sv_value x))) = pv_size (sv_value x) ∧
  0 < pv_size (sv_value x) <= PARAM_STRING_MAX.
Proof.
  intros ((Hok & Hu & _) & _ & Hv & (size & Ht & Hsz) & _).
  destruct (decode_wire (sv_entry x) (sv_value x) (sv_type x) size st [] Hok Hu Hv Ht) as (Hl & _ & Hpos & _).
  rewrite <- Hsz in *. split; [|done]. unfold item_bytes. rewrite !zlen_app, Hl.
  rewrite zlen_put_be16. change (zlen [_; _]) with 2. lia.
Qed.

(** What the encoder leaves of a parameter that is dumped. *)
Lemma encode_item table entry output room written st output' n st' :
  dumpable table entry → dumps table entry = true →
  kfsw_param_wire_encode entry output room written st = (0, output', n, st') →
  ∃ x, sv_entry x = entry ∧ dumped_ok table st x ∧ n = pv_size (sv_value x) ∧ st' = st ∧ n <= room ∧
    (∃ size, kfsw_param_wire_type_of entry = Some (sv_type x, size)) ∧
    output' = wire_bytes (sv_type x) (sv_value x) n ++ drop (length (wire_bytes (sv_type x) (sv_value x) n)) output.
Proof.
  intros Hd Hp H. pose proof Hd as (Hok & Hu & _ & Hns). specialize (Hns Hp).
  destruct (encode_spec entry output room written st output' n st' Hok Hu H)
    as (value & type & size & Ht & Hr & Hv & Hn & Hroom & Hout).
  unfold kfsw_param_read_entry in Hr. rewrite (not_sampled_read entry (Some stack_value) st Hns) in Hr.
  pose proof (read_stored_state entry (Some stack_value) st) as Hst. rewrite Hr in Hst. cbn in Hst. subst st'.
  exists {| sv_entry := entry; sv_value := value; sv_type := type |}. unfold dumped_ok. cbn [sv_entry sv_value sv_type].
  destruct (decode_wire entry value type size st [] Hok Hu Hv Ht) as (_ & Hsz & _). rewrite Hsz in Hn.
  split_and!; try done; by exists size.
Qed.

(** One record on top of what is written. *)
Lemma put_dumped table st x pre rest :
  dumped_ok table st x → (Z.to_nat (zlen (item_bytes x)) <= length rest)%nat →
  let data := wire_bytes (sv_type x) (sv_value x) (pv_size (sv_value x)) in
  let start := Z.to_nat (zlen pre + 4) in
  let s1 := buf_put start (data ++ drop (length data) (drop start (pre ++ rest))) (pre ++ rest) in
  let s2 := buf_put (Z.to_nat (zlen pre)) [pi_offset (pe_info (sv_entry x)); sv_type x] s1 in
  buf_put (Z.to_nat (zlen pre + 2)) (put_be16 (pv_size (sv_value x))) s2 =
  (pre ++ item_bytes x) ++ drop (Z.to_nat (zlen (item_bytes x))) rest.
Proof.
  intros Hx Hroom. destruct (item_length table st x Hx) as (Hlen & Hw & Hpos). cbv zeta.
  pose proof (zlen_nonneg pre). rewrite Hlen in *. unfold item_bytes.
  destruct (put_be16_shape (pv_size (sv_value x))) as (c & d & -> & _). set (data := wire_bytes _ _ _) in *.
  replace (Z.to_nat (zlen pre)) with (length pre) by (unfold zlen; lia).
  replace (Z.to_nat (zlen pre + 4)) with (length pre + 4)%nat by (unfold zlen; lia).
  replace (Z.to_nat (zlen pre + 2)) with (length pre + 2)%nat by (unfold zlen; lia).
  rewrite put_item; [|done|unfold zlen in *; lia].
  replace (Z.to_nat (4 + pv_size (sv_value x))) with (4 + length data)%nat by (unfold zlen in *; lia).
  rewrite <- !app_assoc. cbn [app]. by rewrite <- ?app_assoc.
Qed.

Lemma dump_entries_spec table l offset count pre rest st offset' count' image' st' :
  Forall (dumpable table) l → offset = zlen pre → length (pre ++ rest) = Z.to_nat KFSW_TABLE_MAX_BYTES →
  0 <= count <= KFSW_TABLE_MAX_ENTRIES →
  dump_entries l table offset count (pre ++ rest) st = (0, offset', count', image', st') →
  ∃ xs rest', st' = st ∧ image' = pre ++ items_bytes xs ++ rest' ∧
    offset' = offset + zlen (items_bytes xs) ∧ length image' = Z.to_nat KFSW_TABLE_MAX_BYTES ∧
    count' = count + zlen xs ∧ count' <= KFSW_TABLE_MAX_ENTRIES ∧
    Forall (dumped_ok table st) xs ∧ sv_entry <$> xs = List.filter (dumps table) l.
Proof.
  pose proof KFSW_TABLE_MAX_ENTRIES_range as Hmax.
  revert offset count pre rest. induction l as [|entry l IH]; intros offset count pre rest Hd Hoff Hlen Hcount H.
  { cbn in H. injection H as <- <- <- <-. exists [], rest. unfold items_bytes. cbn [fmap list_fmap concat app].
    split_and!; try done; unfold zlen; cbn; lia. }
  apply Forall_cons in Hd as [He Hd]. cbn [dump_entries] in H. cbv zeta in H. cbn [List.filter].
  destruct (dumps table entry) eqn:Ed; unfold dumps in Ed.
  2: { destruct (negb (_ =? _) || _) eqn:E0; [by apply (IH _ _ _ rest)|].
       destruct (kfsw_param_wire_type_of entry) as [[type size]|]; [|by apply (IH _ _ _ rest)].
       rewrite bool_decide_true in Ed by done. apply orb_false_iff in E0 as [E0 E0'].
       apply negb_false_iff in E0. rewrite E0, E0' in Ed. done. }
  apply andb_true_iff in Ed as [Ed Ety]. apply andb_true_iff in Ed as [Etab Ero].
  rewrite Etab in H. apply negb_true_iff in Ero. rewrite Ero in H. cbn [negb orb] in H.
  assert (dumps table entry = true) as Ed by (unfold dumps; by rewrite Etab, Ero, Ety).
  destruct (kfsw_param_wire_type_of entry) as [[type size]|] eqn:Et; [|done].
  destruct (count =? KFSW_TABLE_MAX_ENTRIES) eqn:G1; [done|].
  destruct (kfsw_param_wire_encode _ _ _ _ st) as [[[rc output] n] st1] eqn:E.
  destruct (negb (rc =? 0)) eqn:Erc; [done|]. assert (rc = 0) as -> by lia.
  apply (encode_item table) in E as (x & Hx & Hok & -> & -> & Hroom & (size' & Ht) & ->); [|done|done].
  rewrite Et in Ht. injection Ht as -> _. subst entry offset.
  destruct (item_length table st x Hok) as (Hrl & _ & Hpos). pose proof (zlen_nonneg pre).
  unfold KFSW_TABLE_ENTRY_HEADER_SIZE in *.
  assert (Z.to_nat (zlen (item_bytes x)) <= length rest)%nat as Hfit.
  { rewrite length_app in Hlen. unfold zlen in *. lia. }
  pose proof (put_dumped table st x pre rest Hok Hfit) as Hput. cbv zeta in Hput. rewrite Hput in H.
  rewrite u16_id in H by clia.
  apply IH in H as (xs & rest' & -> & -> & -> & Hl' & -> & Hc' & Hxs & Hmap); [|done| | |lia].
  - exists (x :: xs), rest'. rewrite zlen_cons. change (items_bytes (x :: xs)) with (item_bytes x ++ items_bytes xs).
    rewrite zlen_app. split_and!; [done|by rewrite <- !app_assoc|lia|done|lia|done|by constructor|].
    cbn [fmap list_fmap]. by rewrite Hmap.
  - rewrite zlen_app. lia.
  - rewrite <- Hlen, !length_app, length_drop. unfold zlen in *. lia.
Qed.

(** ** The header *)

Definition table_header_bytes (payload_size count table crc : Z) : list Z :=
  KFSW_TABLE_MAGIC ++ put_be16 KFSW_TABLE_VERSION ++ put_be16 KFSW_TABLE_HEADER_SIZE
  ++ put_be32 payload_size ++ put_be16 count ++ [table; 0] ++ put_be32 crc.
Definition table_header (count table : Z) (data : list Z) : list Z :=
  table_header_bytes (zlen data) count table (crc32_ieee (table_header_bytes (zlen data) count table 0 ++ data)).

Lemma table_header_length payload_size count table crc : length (table_header_bytes payload_size count table crc) = 20%nat.
Proof. unfold table_header_bytes, put_be16, put_be32. rewrite !length_app, !put_be_length. done. Qed.

Lemma table_header_stores hd count table payload_size crc rest :
  length hd = 20%nat →
  buf_put 16 (put_be32 crc) (buf_put 14 [table; 0] (buf_put 12 (put_be16 count)
    (buf_put 8 (put_be32 payload_size) (buf_put 6 (put_be16 KFSW_TABLE_HEADER_SIZE)
    (buf_put 4 (put_be16 KFSW_TABLE_VERSION) (buf_put 0 KFSW_TABLE_MAGIC (hd ++ rest)))))))
  = table_header_bytes payload_size count table crc ++ rest.
Proof.
  intros Hl. cells hd. destruct hd; [|simpl in Hl; lia]. unfold table_header_bytes, KFSW_TABLE_MAGIC.
  split_stores. reflexivity.
Qed.
Lemma table_header_crc payload_size count table crc crc' rest :
  buf_put 16 (put_be32 crc') (table_header_bytes payload_size count table crc ++ rest)
  = table_header_bytes payload_size count table crc' ++ rest.
Proof. unfold table_header_bytes, KFSW_TABLE_MAGIC. split_stores. reflexivity. Qed.

Lemma table_header_take payload_size count table crc data rest :
  take (Z.to_nat (20 + zlen data)) (table_header_bytes payload_size count table crc ++ data ++ rest)
  = table_header_bytes payload_size count table crc ++ data.
Proof. rewrite app_assoc. apply take_app_length'. rewrite length_app, table_header_length. unfold zlen. lia. Qed.

Lemma put_table_header hd table count data rest :
  length hd = 20%nat → zlen data < 2 ^ 32 →
  put_header table (20 + zlen data) count (hd ++ data ++ rest) = table_header count table data ++ data ++ rest.
Proof.
  intros Hl Hd. pose proof (zlen_nonneg data). unfold put_header, KFSW_TABLE_CRC_OFFSET.
  rewrite table_header_stores by done.
  replace (u32 (20 + zlen data - KFSW_TABLE_HEADER_SIZE)) with (zlen data) by (unfold KFSW_TABLE_HEADER_SIZE; clia).
  by rewrite table_header_crc, table_header_take.
Qed.

Lemma table_header_fields payload_size count table crc rest :
  let data := table_header_bytes payload_size count table crc ++ rest in
  mem_eq data KFSW_TABLE_MAGIC 4 = true ∧ get_be16 4 data = KFSW_TABLE_VERSION ∧
  get_be16 6 data = KFSW_TABLE_HEADER_SIZE ∧ get_be32 8 data = u32 payload_size ∧
  get_be16 12 data = u16 count ∧ byte_at data 14 = table ∧ get_be32 16 data = u32 crc.
Proof.
  unfold table_header_bytes, KFSW_TABLE_MAGIC. split_stores. cbn [app].
  unfold get_be16, get_be32, slice. cbn [take drop]. rewrite ?take_0.
  split_and!; first [reflexivity|by (etrans; [eassumption|reflexivity])|eassumption].
Qed.

(** A whole image in front of anything passes. *)
Lemma validate_header_spec count table data rest size :
  0 < count <= KFSW_TABLE_MAX_ENTRIES → KFSW_PARAM_TABLE_CORE_FIRST <= table <= KFSW_PARAM_TABLE_MODULE_LAST →
  zlen data < 2 ^ 32 → size = 20 + zlen data →
  validate_header (table_header count table data ++ data ++ rest) size = (0, count, table).
Proof.
  intros Hc Ht Hd ->. pose proof (zlen_nonneg data). pose proof KFSW_TABLE_MAX_ENTRIES_range.
  pose proof (crc32_update_range 0 (table_header_bytes (zlen data) count table 0 ++ data)) as Hcrc.
  unfold validate_header, KFSW_TABLE_CRC_OFFSET, table_header.
  destruct (table_header_fields (zlen data) count table (crc32_ieee (table_header_bytes (zlen data) count table 0 ++ data))
    (data ++ rest)) as (-> & -> & -> & -> & -> & -> & ->). rewrite table_header_crc, table_header_take.
  unfold crc32_ieee. rewrite !u32_id by (unfold is_u32, KFSW_TABLE_HEADER_SIZE; first [done|lia]).
  rewrite u16_id by clia. unfold KFSW_TABLE_HEADER_SIZE, KFSW_TABLE_VERSION in *. rewrite !Z.eqb_refl.
  cbn [negb orb]. decide_guards. done.
Qed.
End image.

(** ** Reading *)

Section reading_image.
Context {PC : ParamConfig} {TC : TableConfig} {BO : ByteOrder} {CRC : Crc32} {W : Type}.
Implicit Types (entry : kfsw_param_entry W) (st : param_state W) (value : kfsw_param_value)
  (x : saved (W := W)) (xs : list (saved (W := W))).

Definition item_offset x : Z := pi_offset (pe_info (sv_entry x)).

(** The record at an offset. *)
Lemma next_item table st x pre post size :
  dumped_ok table st x → zlen pre + zlen (item_bytes x) <= size →
  next_entry (pre ++ item_bytes x ++ post) size (zlen pre) = Some (zlen pre + zlen (item_bytes x),
    {| fe_value := wire_bytes (sv_type x) (sv_value x) (pv_size (sv_value x)) ++ post;
       fe_value_size := pv_size (sv_value x); fe_offset := item_offset x; fe_type := sv_type x |}).
Proof.
  intros Hx Hsize. destruct (item_length table st x Hx) as (Hlen & Hdata & Hpos).
  pose proof (zlen_nonneg pre). pose proof PARAM_STRING_MAX_range. rewrite Hlen in *.
  unfold item_bytes, item_offset in *. set (o := pi_offset _). set (data := wire_bytes _ _ _) in *.
  destruct (put_be16_shape (pv_size (sv_value x))) as (c & d & -> & _ & Hcd).
  replace (pre ++ ([o; sv_type x] ++ [c; d] ++ data) ++ post) with (pre ++ o :: sv_type x :: c :: d :: data ++ post)
    by (rewrite <- !app_assoc; cbn [app]; by rewrite <- ?app_assoc).
  unfold next_entry, KFSW_TABLE_ENTRY_HEADER_SIZE.
  assert (∀ a b cs, byte_at (pre ++ a :: b :: cs) (Z.to_nat (zlen pre + 1)) = b) as Hb1.
  { intros a b cs. replace (pre ++ a :: b :: cs) with ((pre ++ [a]) ++ b :: cs) by (by rewrite <- app_assoc).
    apply byte_at_app_r. rewrite length_app. unfold zlen. cbn. lia. }
  assert (∀ a b cs, get_be16 (Z.to_nat (zlen pre + 2)) (pre ++ a :: b :: c :: d :: cs) = pv_size (sv_value x)) as Hb2.
  { intros a b cs. replace (pre ++ a :: b :: c :: d :: cs)
      with ((pre ++ [a; b]) ++ [c; d] ++ cs) by (by rewrite <- app_assoc).
    unfold get_be16. rewrite slice_app by (rewrite ?length_app; unfold zlen; cbn; lia). rewrite Hcd. apply u16_id. clia. }
  assert (∀ a b cs, drop (Z.to_nat (zlen pre + 4)) (pre ++ a :: b :: c :: d :: cs) = cs) as Hd1.
  { intros a b cs. replace (pre ++ a :: b :: c :: d :: cs)
      with ((pre ++ [a; b; c; d]) ++ cs) by (by rewrite <- app_assoc).
    apply drop_app_length'. rewrite length_app. unfold zlen. cbn. lia. }
  rewrite (byte_at_app_r pre) by (unfold zlen; lia). rewrite Hb1, Hb2, Hd1.
  decide_guards. do 2 f_equal. lia.
Qed.

(** A record is accepted with the value that was dumped. *)
Lemma check_item table st st2 x n seen post :
  registry_wf st2 → dumped_ok table st x → restorable x → sv_entry x ∈ parameter_table st2 → item_offset x ∉ seen →
  ∃ decoded, same_value decoded (sv_value x) ∧ value_wf decoded ∧
    check_entry {| fe_value := wire_bytes (sv_type x) (sv_value x) (pv_size (sv_value x)) ++ post;
       fe_value_size := pv_size (sv_value x); fe_offset := item_offset x; fe_type := sv_type x |} n table seen st2
    = inr (sv_entry x, decoded).
Proof.
  intros Hwf ((Hok & Hu & _) & Hd & Hv & (size & Ht & Hsz) & _) (Hap & _ & Hacc) Hin Hseen.
  destruct (decode_wire (sv_entry x) (sv_value x) (sv_type x) size st2 post Hok Hu Hv Ht)
    as (_ & _ & _ & decoded & Hdec & Hsame & Hdwf). rewrite <- Hsz in Hdec.
  exists decoded. split; [done|]. split; [done|]. unfold check_entry. cbn [fe_value fe_value_size fe_offset fe_type].
  assert (existsb (Z.eqb (item_offset x)) seen = false) as ->.
  { apply not_true_iff_false. intros (o & Ho & Heq%Z.eqb_eq)%existsb_exists. apply list_elem_of_In in Ho. by rewrite Heq in Hseen. }
  unfold dumps in Hd. apply andb_true_iff in Hd as [Hd _]. apply andb_true_iff in Hd as [Htab Hro].
  apply negb_true_iff in Hro. assert (pi_table (pe_info (sv_entry x)) = table) as Htable by lia.
  rewrite (proj2 (find_id_key st2 (KFSW_PARAM_ID table (item_offset x)) (sv_entry x) Hwf)).
  2: { split; [done|]. destruct Hok as (_ & _ & _ & Hid & _). unfold entry_id. by rewrite Hid, Htable. }
  rewrite Hro, Hap, bool_decide_false by (by intros [? ?]). cbn [andb]. by rewrite Hdec, (Hacc decoded st2 Hsame Hdwf).
Qed.

Lemma check_items table st st2 xs pre post size n index seen found report :
  registry_wf st2 → Forall (dumped_ok table st) xs → Forall restorable xs →
  Forall (λ x, sv_entry x ∈ parameter_table st2) xs → NoDup (seen ++ (item_offset <$> xs)) →
  size = zlen pre + zlen (items_bytes xs) →
  ∃ report' decoded, check_from (length xs) (pre ++ items_bytes xs ++ post) size n table index (zlen pre) seen true
      found report st2 = (0, report', found ++ zip (sv_entry <$> xs) decoded) ∧
    same_file report report' ∧ Forall2 (λ x d, same_value d (sv_value x) ∧ value_wf d) xs decoded.
Proof.
  revert pre size index seen found report.
  induction xs as [|x xs IH]; intros pre size index seen found report Hwf Hx Hr Hin Hn ->.
  { cbn [length check_from]. unfold items_bytes. cbn [fmap list_fmap concat]. rewrite zlen_nil, Z.add_0_r, Z.eqb_refl.
    cbn [negb]. eexists _, []. cbn. rewrite app_nil_r. by split_and!. }
  apply Forall_cons in Hx as [Hx Hxs]. apply Forall_cons in Hr as [Hr Hrs]. apply Forall_cons in Hin as [Hin Hins].
  change (items_bytes (x :: xs)) with (item_bytes x ++ items_bytes xs). rewrite zlen_app, <- app_assoc.
  pose proof (zlen_nonneg (items_bytes xs)). cbn [length check_from]. rewrite (next_item table st) by (done || lia).
  change (item_offset <$> x :: xs) with ([item_offset x] ++ (item_offset <$> xs)) in Hn. rewrite app_assoc in Hn.
  assert (item_offset x ∉ seen) as Hseen by (by apply NoDup_app in Hn as ([_ ?]%NoDup_snoc_iff & _)).
  destruct (check_item table st st2 x n seen (items_bytes xs ++ post) Hwf Hx Hr Hin Hseen) as (d & Hsame & Hdwf & Hc).
  cbn [fe_offset]. rewrite Hc.
  specialize (IH (pre ++ item_bytes x) (zlen pre + (zlen (item_bytes x) + zlen (items_bytes xs))) (index + 1) (seen ++ [item_offset x]) (found ++ [(sv_entry x, d)])
    (count_accepted (set_failed (index + 1) (item_offset x) report)) Hwf Hxs Hrs Hins Hn ltac:(rewrite zlen_app; lia)).
  destruct IH as (report' & ds & Hrun & Hfile & Hds). rewrite zlen_app, <- !app_assoc in Hrun.
  exists report', (d :: ds). split; [exact Hrun|]. split; [exact Hfile|by constructor].
Qed.

(** Reading the storage of a parameter succeeds. *)
Lemma read_stored_ok entry st :
  entry_ok entry → is_u16 (pd_capacity (pe_definition entry)) →
  ∃ value, kfsw_param_read_stored_entry (Some entry) (Some stack_value) st = (0, Some value, st).
Proof.
  intros Hok Hu. pose proof (capacity_bounds entry Hok Hu). unfold kfsw_param_read_stored_entry, read_entry.
  decide_guards. cbv zeta. destruct (_ =? KFSW_PARAM_STRING); [destruct (copy_text _ _ _ _); by eexists|].
  destruct (_ =? KFSW_PARAM_DATA); by eexists.
Qed.

Lemma save_pending_ok found index pending report st :
  Forall (λ y, entry_ok y.1 ∧ is_u16 (pd_capacity (pe_definition y.1))) found →
  ∃ pending', save_pending index found pending report st = (0, pending', report, st).
Proof.
  revert index pending. induction found as [|[entry value] found IH]; intros index pending H; cbn [save_pending]; [by eexists|].
  apply Forall_cons in H as [[Hok Hu] H]. destruct (read_stored_ok entry st Hok Hu) as [v ->]. by apply IH.
Qed.

Lemma apply_decoded_run found index report st :
  Forall (λ y, pd_apply (pe_definition y.1) = None) found →
  ∃ st', apply_decoded index found report st = (0, report, st') ∧ writes found st st'.
Proof.
  intros H. pose proof (apply_decoded_accepts found index report st H) as Hrc.
  destruct (apply_decoded index found report st) as [[rc r] st'] eqn:E. cbn in Hrc. subst rc.
  destruct (apply_decoded_spec _ _ _ _ _ _ _ E) as (_ & _ & Hw). destruct (Hw eq_refl) as [-> ?]. by exists st'.
Qed.
End reading_image.

(** ** Dumping and loading *)

Section dump_load.
Context {PC : ParamConfig} {TC : TableConfig} {BO : ByteOrder} {CRC : Crc32} {W F Ev : Type}
  `{FL : FileLaws F} `{ES : EventSink Ev}.
Implicit Types (entry : kfsw_param_entry W) (st : param_state W) (s : table_service W F Ev) (f : F)
  (x : saved (W := W)) (xs : list (saved (W := W))).

(** What a dump asks of the state: values a load could put back. *)
Definition dump_ready (table : Z) st : Prop :=
  params_ready st ∧ Forall (dumpable table) (parameter_table st) ∧
  ∀ x, dumped_ok table st x → sv_entry x ∈ parameter_table st → restorable x.

Definition image_bytes (table : Z) xs : list Z :=
  table_header (zlen xs) table (items_bytes xs) ++ items_bytes xs.

Lemma image_length table xs : zlen (image_bytes table xs) = 20 + zlen (items_bytes xs).
Proof. unfold image_bytes. rewrite zlen_app. unfold zlen at 1. unfold table_header. by rewrite table_header_length. Qed.

(** A dump that answers 0 has put the image of the table on the storage. *)
Lemma dump_spec table p image s s1 n :
  Forall (dumpable table) (parameter_table (tb_params s)) → length image = Z.to_nat KFSW_TABLE_MAX_BYTES →
  kfsw_table_dump table (Some p) image s = (0, Some n, s1) →
  ∃ xs, n = zlen xs ∧ 0 < n <= KFSW_TABLE_MAX_ENTRIES ∧ Forall (dumped_ok table (tb_params s)) xs ∧
    sv_entry <$> xs = List.filter (dumps table) (parameter_table (tb_params s)) ∧
    KFSW_PARAM_TABLE_CORE_FIRST <= table <= KFSW_PARAM_TABLE_MODULE_LAST ∧ path_unusable (Some p) = false ∧
    zlen (image_bytes table xs) <= KFSW_TABLE_MAX_BYTES ∧ fs_durable (tb_files s1) p = Some (image_bytes table xs).
Proof.
  intros Hd Hlen. pose proof KFSW_TABLE_MAX_ENTRIES_range. pose proof PARAM_STRING_MAX_range.
  assert (20 <= KFSW_TABLE_MAX_BYTES < 2 ^ 32) as Hmax.
  { unfold KFSW_TABLE_MAX_BYTES, KFSW_TABLE_HEADER_SIZE, KFSW_TABLE_ENTRY_HEADER_SIZE. nia. }
  unfold kfsw_table_dump. cbv zeta. destruct (path_unusable (Some p)) eqn:Ep; [done|].
  destruct (_ || _) eqn:Et; [done|]. destruct (negb _); [done|]. destruct (negb _); [done|].
  destruct (split_at 20 image ltac:(lia)) as (hd & rest & -> & Hhd).
  destruct (dump_entries _ _ _ _ _ _) as [[[[rc offset] count] image1] st] eqn:E.
  destruct ((rc =? 0) && (count =? 0)) eqn:E0; [done|]. destruct (rc =? 0) eqn:E1; cbn [negb].
  2: done.
  assert (rc = 0) as -> by lia.
  apply dump_entries_spec in E as (xs & rest' & -> & -> & -> & Hl & -> & Hc & Hxs & Hmap);
    [|done|unfold zlen; by rewrite Hhd|done|lia].
  pose proof (zlen_nonneg (items_bytes xs)) as Hi0. pose proof (zlen_nonneg xs) as Hx0.
  rewrite !length_app, Hhd in Hl. unfold KFSW_TABLE_HEADER_SIZE in *. rewrite Z.add_0_l in *.
  rewrite put_table_header by (first [done|unfold zlen in *; lia]).
  destruct (fs_mkdir _ _) as [rc1 f1]. destruct (negb (rc1 =? 0) && _) eqn:E2; [done|].
  cbn [default from_option id]. destruct (kfsw_snapshot_write _ _ _ _ f1) as [rc2 f2] eqn:Ew.
  destruct (rc2 =? 0) eqn:E3; [|done]. intros [= -> <- <-]. apply snapshot_run in Ew as (Hok & _).
  2: { intros Heq. apply (f_equal length) in Heq. rewrite length_app in Heq. cbn in Heq. lia. }
  exists xs. destruct (Hok eq_refl) as [_ Hdur]. unfold table_header in *.
  rewrite table_header_take in Hdur. rewrite image_length. cbn [tb_files]. split_and!; try done; unfold zlen in *; lia.
Qed.

Lemma read_image_spec p image f size image' f' c :
  length image = Z.to_nat KFSW_TABLE_MAX_BYTES → fs_file f p = Some c →
  read_image p image f = (0, size, image', f') → size = zlen c ∧ take (length c) image' = c.
Proof.
  intros Hlen Hc. unfold read_image. destruct (fs_stat p f) as [rc0 entry] eqn:Es.
  destruct (rc0 =? 0) eqn:E0; cbn [negb]; [|by intros [= -> _ _ _]]. assert (rc0 = 0) as -> by lia.
  destruct (negb _) eqn:Et; [done|]. destruct (_ <? _) eqn:E1; [done|]. destruct (_ >? _) eqn:E2; [done|].
  destruct (stat_law _ _ _ Es ltac:(lia)) as (c' & Hc' & Hsize). rewrite Hc in Hc'. injection Hc' as <-.
  rewrite Hsize in *. pose proof (open_read_law p f) as Ho. destruct (fs_open p FS_O_READ f) as [[rc2 h] f2].
  destruct Ho as (Hsame & Hh). destruct (rc2 =? 0) eqn:E3; cbn [negb]; [|by intros [= -> _ _ _]].
  rewrite (Hh ltac:(lia)). destruct (read_all _ _ _ _ _ f2) as [[[rc3 image2] h2] f3] eqn:Er.
  destruct (fs_close h2 f3) as [rc4 f4]. intros [= Hrc <- <- <-].
  destruct (rc3 =? 0) eqn:E4; [|lia]. assert (rc3 = 0) as -> by lia. rewrite Hrc. split; [done|].
  pose proof (zlen_nonneg c).
  apply (read_up_to_spec (- EBADMSG) _ _ _ _ _ _ c) in Er as (_ & _ & _ & Ht);
    [| |done|done|lia| |unfold EBADMSG; lia].
  - replace (Z.to_nat (zlen c)) with (length c) in Ht by (unfold zlen; lia). by rewrite Ht.
  - cbn [file_path]. by destruct (Hsame p) as [-> _].
  - unfold zlen in *. lia.
Qed.

Lemma dumped_offsets table st xs l :
  registry_wf st → parameter_table st = l → Forall (dumped_ok table st) xs →
  sv_entry <$> xs = List.filter (dumps table) l → NoDup (item_offset <$> xs).
Proof.
  intros (Hs & _ & Hok & _) <- Hxs Hmap. pose proof (proj1 (Forall_forall _ _) Hxs) as Hxs'.
  assert (NoDup (entry_id ∘ sv_entry <$> xs)) as Hn.
  { rewrite list_fmap_compose, Hmap. apply keys_filter. by apply sorted_keys_NoDup. }
  revert Hn. apply NoDup_keys. intros x y Hx Hy Heq. cbn. unfold entry_id.
  destruct (Hxs' x Hx) as (((_ & _ & _ & Hi & _) & _) & Hd & _).
  destruct (Hxs' y Hy) as (((_ & _ & _ & Hj & _) & _) & Hd' & _). unfold dumps, item_offset in *.
  apply andb_true_iff in Hd as [Hd _]. apply andb_true_iff in Hd as [Hd _].
  apply andb_true_iff in Hd' as [Hd' _]. apply andb_true_iff in Hd' as [Hd' _].
  rewrite Hi, Hj, Heq. f_equal. lia.
Qed.

(** Loading an image that was dumped. *)
Lemma load_image table xs st st2 p image size image' f f' :
  dump_ready table st → params_ready st2 → parameter_table st2 = parameter_table st →
  kfsw_param_is_initialized st2 = true → kfsw_storage_is_ready f = true → path_unusable (Some p) = false →
  KFSW_PARAM_TABLE_CORE_FIRST <= table <= KFSW_PARAM_TABLE_MODULE_LAST →
  0 < zlen xs <= KFSW_TABLE_MAX_ENTRIES → zlen (items_bytes xs) < 2 ^ 32 →
  Forall (dumped_ok table st) xs → sv_entry <$> xs = List.filter (dumps table) (parameter_table st) →
  read_image p image f = (0, size, image', f') → size = zlen (image_bytes table xs) →
  take (length (image_bytes table xs)) image' = image_bytes table xs →
  ∃ report pending decoded st3, load_locked (Some p) image st2 f = (0, report, pending, st3, f') ∧
    tr_entries report = zlen xs ∧ writes (zip (sv_entry <$> xs) decoded) st2 st3 ∧
    Forall2 (λ x d, same_value d (sv_value x) ∧ value_wf d) xs decoded.
Proof.
  intros ([Hwf _] & Hdump & Hrest) [Hwf2 _] Htab Hi Hf Hp Ht Hn Hsmall Hxs Hmap Hread -> Htake.
  assert (∃ junk, image' = table_header (zlen xs) table (items_bytes xs) ++ items_bytes xs ++ junk) as (junk & ->).
  { apply (payload_prefix _ _ [] _ (length (image_bytes table xs))); [done|]. rewrite app_nil_r. rewrite Htake.
    unfold image_bytes. by rewrite firstn_all. }
  unfold load_locked, examine, prepare. rewrite Hp, Hi, Hf. cbn [negb default from_option id]. rewrite Hread.
  cbn [Z.eqb negb]. rewrite image_length, validate_header_spec by done. cbn [Z.eqb negb]. unfold check_entries.
  pose proof (table_header_length (zlen (items_bytes xs)) (zlen xs) table
    (crc32_ieee (table_header_bytes (zlen (items_bytes xs)) (zlen xs) table 0 ++ items_bytes xs))) as Hh.
  fold (table_header (zlen xs) table (items_bytes xs)) in Hh. set (header := table_header _ _ _) in *.
  set (report0 := {| tr_table := table; tr_entries := zlen xs; tr_accepted := 0; tr_failed_entry := 0;
    tr_failed_offset := 0; tr_reason := 0 |}).
  assert (∀ x, x ∈ xs → sv_entry x ∈ parameter_table st) as Hin.
  { intros x Hx. assert (sv_entry x ∈ sv_entry <$> xs) as Hm by (by apply list_elem_of_fmap_2).
    rewrite Hmap in Hm. apply list_elem_of_In, filter_In in Hm as [Hm _]. by apply list_elem_of_In. }
  pose proof (proj1 (Forall_forall _ _) Hxs) as Hxs'.
  assert (Forall restorable xs) as Hr by (apply Forall_forall; auto).
  destruct (check_items table st st2 xs header junk (20 + zlen (items_bytes xs)) (zlen xs) 0 [] [] report0)
    as (report & decoded & Hrun & [_ Hentries] & Hdec);
    [done|done|done|apply Forall_forall; intros x Hx; rewrite Htab; by apply Hin| |unfold zlen at 2; by rewrite Hh|].
  { by apply (dumped_offsets table st xs (parameter_table st)). }
  replace (Z.to_nat (zlen xs)) with (length xs) by (unfold zlen; lia).
  change KFSW_TABLE_HEADER_SIZE with 20. replace 20 with (zlen header) in Hrun at 2 by (unfold zlen; by rewrite Hh).
  assert (zlen header = 20) as H20 by (unfold zlen; by rewrite Hh). rewrite H20 in Hrun. rewrite Hrun. cbn [Z.eqb negb app].
  set (found := zip (sv_entry <$> xs) decoded).
  assert (∀ y, y ∈ found → y.1 ∈ parameter_table st ∧ pd_apply (pe_definition y.1) = None ∧ dumpable table y.1) as Hfound.
  { intros [entry d] Hy. apply elem_of_zip_l in Hy. apply list_elem_of_fmap in Hy as (x & -> & Hx). cbn.
    destruct (Hrest x (Hxs' x Hx) (Hin x Hx)) as (? & _). destruct (Hxs' x Hx) as (? & _). auto. }
  destruct (save_pending_ok found 0 [] report st2) as [pending ->].
  { apply Forall_forall. intros y Hy. by destruct (Hfound y Hy) as (_ & _ & ? & ? & _). }
  cbn [Z.eqb negb]. destruct (apply_decoded_run found 0 report st2) as (st3 & -> & Hw).
  { apply Forall_forall. intros y Hy. by destruct (Hfound y Hy) as (_ & ? & _). }
  exists report, pending, decoded, st3. by rewrite Hentries.
Qed.

(** The writes of a load give every parameter that was dumped its value back. *)
Lemma writes_restore table st st2 st3 xs decoded :
  dump_ready table st → params_ready st2 → parameter_table st2 = parameter_table st →
  Forall (dumped_ok table st) xs → sv_entry <$> xs = List.filter (dumps table) (parameter_table st) →
  Forall2 (λ x d, same_value d (sv_value x) ∧ value_wf d) xs decoded →
  writes (zip (sv_entry <$> xs) decoded) st2 st3 →
  ∀ entry, entry ∈ parameter_table st →
    if dumps table entry then reads_as st st3 entry else entry_object entry st3 = entry_object entry st2.
Proof.
  intros ([Hwf Hst] & _ & Hrest) [_ [_ Hst2]] Htab Hxs Hmap Hdec Hw entry Hentry.
  pose proof (proj1 (Forall_forall _ _) Hxs) as Hxs'.
  assert (∀ e, e ∈ sv_entry <$> xs ↔ e ∈ parameter_table st ∧ dumps table e = true) as Hin.
  { intros e. by rewrite Hmap, list_elem_of_In, filter_In, <- list_elem_of_In. }
  pose proof (Forall2_length _ _ _ Hdec) as Hl.
  apply writes_storage in Hw as (_ & Hwr & Hout).
  2: { rewrite list_fmap_compose, fst_zip, Hmap by (rewrite length_fmap; lia). by apply keys_filter, Hst. }
  2: { clear - Hdec Hxs. revert Hxs. induction Hdec as [|x d xs' ds [(Ht & _) _] _ IH]; intros Hxs; cbn; [constructor|].
       apply Forall_cons in Hxs as [(_ & _ & (Hv & _) & _) Hxs]. constructor; [cbn; congruence|by apply IH]. }
  destruct (dumps table entry) eqn:Ed.
  - pose proof (proj2 (Hin entry) (conj Hentry Ed)) as Hx. apply list_elem_of_fmap in Hx as (x & -> & Hx).
    pose proof Hx as Hx'. apply list_elem_of_lookup in Hx' as [i Hi].
    destruct (Forall2_lookup_l _ _ _ _ _ Hdec Hi) as (d & Hd & Hsame & Hdwf).
    destruct (Hxs' x Hx) as ((Hok & Hu & _) & _ & (Hvt & _) & _ & Hread). destruct (Hrest x (Hxs' x Hx) Hentry) as (_ & Hfit & Hacc).
    assert (entry_object (sv_entry x) st3 = buf_put 0 (written_bytes (sv_entry x) d) (entry_object (sv_entry x) st2)) as Ho.
    { apply Hwr, list_elem_of_lookup. exists i. by rewrite lookup_zip_with, list_lookup_fmap, Hi; cbn; rewrite Hd. }
    pose proof Hsame as (Hdt & Hds & _).
    rewrite written_stored in Ho; [|done|congruence|by rewrite Hds].
    intros any. destruct (read_back (sv_entry x) d st2 st3 any Hok Hdwf (Hacc d st2 Hsame Hdwf)) as (got & Hg & Hgs); [|done|].
    { apply (proj1 (Forall_forall _ _) Hst2). by rewrite Htab. }
    exists (sv_value x), got. split_and!; [done|done|by eapply same_value_trans].
  - unfold entry_object. f_equal. apply Hout. intros [e d] Hm Ha. cbn in Ha. apply elem_of_zip_l, Hin in Hm as [Hm He].
    rewrite (keys_inj entry_address (parameter_table st) entry e) in Ed; [congruence|apply Hst|done|done|done].
Qed.

End dump_load.

(** ** Examples *)

Section plain.
Context {PC : ParamConfig} {BO : ByteOrder} {W : Type}.
Implicit Types (entry : kfsw_param_entry W) (st : param_state W) (x : saved (W := W)).

(** A parameter without an applier and validators takes back what fits it. *)
Definition entry_plain entry : Prop :=
  pd_apply (pe_definition entry) = None ∧ pd_validate (pe_definition entry) = None ∧
  pd_validate_text (pe_definition entry) = None ∧ pd_validate_data (pe_definition entry) = None.

Lemma plain_restorable table st x :
  dumped_ok table st x → entry_plain (sv_entry x) → pv_size (sv_value x) <= entry_capacity (sv_entry x) → restorable x.
Proof.
  intros ((Hok & Hu & _) & _ & (Ht & _ & Hs & Hn) & _) (Ha & Hv & Hvt & Hvd) Hfit. split_and!; [done|done|].
  intros decoded st' (Hdt & Hds & _) _. pose proof (capacity_bounds _ Hok Hu).
  unfold kfsw_param_validate_entry. rewrite Hv, Hvt, Hvd, Hdt, Hds, Ht, Z.eqb_refl. cbn [negb].
  destruct (entry_capacity (sv_entry x) =? 0) eqn:E0; [lia|]. rewrite Ht in Hs, Hn.
  destruct (_ =? KFSW_PARAM_STRING) eqn:E1.
  - destruct (Hs ltac:(lia)) as [? _]. by decide_guards.
  - rewrite (Hn ltac:(lia)), Z.eqb_refl. cbn [negb]. by destruct (_ =? KFSW_PARAM_DATA).
Qed.
End plain.

Lemma tb_params_build {W F Ev} (st : param_state W) (f : F) (e : Ev) saved status :
  tb_params {| tb_params := st; tb_files := f; tb_events := e; tb_saved := saved; tb_status := status |} = st.
Proof. reflexivity. Qed.
Lemma tb_files_build {W F Ev} (st : param_state W) (f : F) (e : Ev) saved status :
  tb_files {| tb_params := st; tb_files := f; tb_events := e; tb_saved := saved; tb_status := status |} = f.
Proof. reflexivity. Qed.

Section table_witnesses.
#[local] Existing Instance param_config_default.
#[local] Existing Instance table_config_default.
#[local] Existing Instance event_config_default.
#[local] Existing Instance big_endian.
#[local] Existing Instance crc32_bitwise.
#[local] Existing Instance mem_ops.
#[local] Existing Instance mem_view.
#[local] Existing Instance mem_laws.

Definition table_path : list Z := cstr "/kfsw/tables/t".
Definition blank_image : list Z := replicate (Z.to_nat KFSW_TABLE_MAX_BYTES) 0.
(** The file of the example's table: a counter of 513 and the text "kfsw". *)
Definition table_image : list Z :=
  [75; 84; 66; 76; 0; 1; 0; 20; 0; 0; 0; 15; 0; 2; 25; 0; 159; 3; 183; 121;
   0; 5; 0; 2; 2; 1; 1; 7; 0; 5; 107; 102; 115; 119; 0].
Definition table_files : gmap (list Z) (list Z) := {[table_path := table_image]}.

Lemma example_params_ready st :
  param_reachable example_sets example_storage 0 no_autosave st → params_ready st.
Proof.
  intros H. pose proof (reachable_inv example_sets example_storage 0 no_autosave example_ok example_saves _ H) as Hinv.
  pose proof Hinv as (Hwf & _ & Hn & _). split; [done|]. split; [done|].
  apply Forall_forall. intros e He. by apply (inv_entry example_sets example_storage 0 example_ok e _ Hinv He).
Qed.

Lemma example_dump_ready : dump_ready 25 example_written.
Proof.
  pose proof (example_params_ready _ example_reached_write) as Hready. pose proof Hready as [(_ & _ & Hok & _) _].
  assert (Forall (λ entry, is_u16 (pd_capacity (pe_definition entry)) ∧ is_u8 (pi_offset (pe_info entry)) ∧
    not_sampled entry ∧ entry_plain entry ∧
    (let '(rc, v, _) := kfsw_param_read_stored_entry (Some entry) (Some stack_value) example_written in
     pv_size (default stack_value v) <= entry_capacity entry)) (parameter_table example_written)) as Hall.
  { assert (parameter_table example_written = parameter_table example_started) as -> by (vm_compute; reflexivity).
    vm_compute parameter_table. rewrite !Forall_cons, Forall_nil.
    split_and!; try (vm_compute; congruence); apply (bool_decide_unpack _); vm_compute; exact I. }
  split; [done|]. split.
  - eapply Forall_impl; [apply Forall_and; split; [exact Hok|exact Hall]|].
    intros e (He & Hu & Ho & Hs & _). by split_and!.
  - intros x Hx Hin. pose proof (proj1 (Forall_forall _ _) Hall _ Hin) as (_ & _ & _ & Hp & Hsz).
    pose proof Hx as (_ & _ & _ & _ & Hread). rewrite Hread in Hsz. by eapply plain_restorable.
Qed.

Lemma mem_durable (f : gmap (list Z) (list Z)) p : fs_file f p = fs_durable f p.
Proof. reflexivity. Qed.
Lemma mem_ready (f : gmap (list Z) (list Z)) : kfsw_storage_is_ready f = true.
Proof. reflexivity. Qed.


Lemma table_bytes : file_bytes table_files table_path.
Proof. intros c Hc. change (table_files !! table_path = Some c) in Hc.
  unfold table_files in Hc. rewrite lookup_singleton_eq in Hc. injection Hc as <-. apply (bool_decide_unpack _). vm_compute. exact I. Qed.
Lemma blank_bytes : bytes blank_image.
Proof. apply (bool_decide_unpack _). vm_compute. exact I. Qed.


(** A change that comes between the load and the revert is undone with it. *)
Lemma table_revert_restores_witness :
  ∃ report s1 s3, kfsw_table_load 0 (Some table_path) blank_image
      {| tb_params := example_started; tb_files := table_files; tb_events := event_boot; tb_saved := [];
         tb_status := table_status_boot |} = (0, report, s1) ∧
    kfsw_table_revert 0 {| tb_params := example_written; tb_files := table_files; tb_events := event_boot;
      tb_saved := tb_saved s1; tb_status := tb_status s1 |} = (0, s3) ∧ tb_saved s3 = [].
Proof.
  destruct (kfsw_table_load 0 (Some table_path) blank_image
      {| tb_params := example_started; tb_files := table_files; tb_events := event_boot; tb_saved := [];
         tb_status := table_status_boot |}) as [[rc report] s1] eqn:E.
  assert (rc = 0) as ->.
  { assert ((kfsw_table_load 0 (Some table_path) blank_image
      {| tb_params := example_started; tb_files := table_files; tb_events := event_boot; tb_saved := [];
         tb_status := table_status_boot |}).1.1 = 0) as H by (vm_compute; reflexivity). rewrite E in H. exact H. }
  set (s2 := {| tb_params := example_written; tb_files := table_files; tb_events := event_boot;
      tb_saved := tb_saved s1; tb_status := tb_status s1 |}).
  destruct (kfsw_table_revert 0 s2) as [rc s3] eqn:E3.
  assert (rc = 0) as ->.
  { assert (let s1 := (kfsw_table_load 0 (Some table_path) blank_image
      {| tb_params := example_started; tb_files := table_files; tb_events := event_boot; tb_saved := [];
         tb_status := table_status_boot |}).2 in
      (kfsw_table_revert 0 {| tb_params := example_written; tb_files := table_files; tb_events := event_boot;
        tb_saved := tb_saved s1; tb_status := tb_status s1 |}).1 = 0) as H by (vm_compute; reflexivity).
    rewrite E in H. cbv zeta in H. cbn [snd] in H. fold s2 in H. rewrite E3 in H. exact H. }
  assert (same_registry (tb_params s1) example_written) as Hreg.
  { assert (same_registry (tb_params (kfsw_table_load 0 (Some table_path) blank_image
      {| tb_params := example_started; tb_files := table_files; tb_events := event_boot; tb_saved := [];
         tb_status := table_status_boot |}).2) example_written) as H by (vm_compute; split_and!; reflexivity).
    rewrite E in H. exact H. }
  destruct (example_params_ready _ example_reached_write) as [_ Hst].
  pose proof (table_revert_restores 0 0 (Some table_path) blank_image
    {| tb_params := example_started; tb_files := table_files; tb_events := event_boot; tb_saved := [];
       tb_status := table_status_boot |} report s1 s2 0 s3) as H.
  rewrite tb_params_build, tb_files_build in H.
  destruct (H (example_params_ready _ example_reached) ltac:(intros p [= <-]; exact table_bytes) blank_bytes E
    ltac:(exact Hreg) ltac:(exact Hst) eq_refl E3) as [_ Hok].
  exists report, s1, s3. split; [reflexivity|]. split; [exact E3|]. apply Hok. reflexivity.
Defined.
End table_witnesses.
