(* ===== verification/Limits.v ===== *)
(** * Parameter limits ([src/limits/limits.c])

    Rules watch parameters and release a command when a bound is crossed. The rule
    file is parsed as a whole before it replaces the rules in force. The parameter
    service, the scheduler, the file system and the work queue are interfaces; the
    command registry is the one of [Command]. *)

From S2P Require Import Prelude Bytes CStdlib Event CommandProtocol Command ParamTypes.

(** [CONFIG_KFSW_LIMITS_MAX_RULES], [..._INTERVAL_MS] with its build assertion,
    [..._FILE] and [CONFIG_KFSW_COMMAND_CSP]. *)
Class LimitsConfig := {
  LIMITS_MAX_RULES : Z;
  LIMITS_MAX_RULES_range : 1 <= LIMITS_MAX_RULES <= 64;
  LIMITS_INTERVAL_MS : Z;
  LIMITS_INTERVAL_MS_range : LIMITS_INTERVAL_MS = 0 ∨ 100 <= LIMITS_INTERVAL_MS <= 3600000;
  LIMITS_FILE : list Z;
  LIMITS_COMMAND_CSP : bool;
}.
#[program] Definition limits_config_default : LimitsConfig := {|
  LIMITS_MAX_RULES := 16; LIMITS_INTERVAL_MS := 10000; LIMITS_FILE := cstr "rules.txt";
  LIMITS_COMMAND_CSP := true |}.
Next Obligation. lia. Qed.
Next Obligation. right. lia. Qed.

Definition LIMITS_LINE_BYTES : Z := 192.
Definition LIMITS_FIELDS : nat := 5.
Definition LIMITS_RELEASE_DELAY_S : Z := 1.
Definition KFSW_LIMITS_INTERVAL_MIN_MS : Z := 100.
Definition KFSW_LIMITS_INTERVAL_MAX_MS : Z := 3600000.
Definition KFSW_LIMITS_DWELL_MAX : Z := 255.
Definition KFSW_LIMITS_NO_RULE : Z := 255.
Definition KFSW_LIMITS_BOUND_TEXT_MAX : Z := 24.
Definition KFSW_FBO_NAME_MAX : Z := 32.
Definition KFSW_FBO_SCHEDULE_LINE_MAX : Z := 80.
Definition KFSW_FBO_TIME_RELATIVE : Z := 0.
Definition KFSW_EVENT_LIMITS_FIRED : Z := 1.

Definition KFSW_LIMITS_GT : Z := 0.
Definition KFSW_LIMITS_GE : Z := 1.
Definition KFSW_LIMITS_LT : Z := 2.
Definition KFSW_LIMITS_LE : Z := 3.
Definition KFSW_LIMITS_EQ : Z := 4.
Definition KFSW_LIMITS_NE : Z := 5.

Definition comparisons : list (string * Z) :=
  [ (">", KFSW_LIMITS_GT); (">=", KFSW_LIMITS_GE); ("<", KFSW_LIMITS_LT);
    ("<=", KFSW_LIMITS_LE); ("==", KFSW_LIMITS_EQ); ("!=", KFSW_LIMITS_NE) ]%string.

Definition kfsw_limits_cmp_text (cmp : Z) : string :=
  match List.find (λ c, c.2 =? cmp) comparisons with
  | Some c => c.1
  | None => "?"
  end.

Record kfsw_limits_rule := {
  lr_index : Z; lr_parameter : list Z; lr_type : Z; lr_cmp : Z; lr_bound : kfsw_param_scalar;
  lr_bound_text : list Z; lr_dwell : Z; lr_streak : Z; lr_latched : bool; lr_node : Z;
  lr_action : list Z;
}.
Record kfsw_limits_status := {
  ls_rules : Z; ls_sweeps : Z; ls_fires : Z; ls_failures : Z; ls_parse_errors : Z;
  ls_last_fired_index : Z; ls_last_fired_ms : Z; ls_error_line : Z; ls_error : string;
  ls_running : bool;
}.
(** [rules] are the first [rule_count] entries of the array. *)
Record limits (W : Type) := {
  limits_enabled : Z;
  limits_interval_ms : Z;
  rules : list kfsw_limits_rule;
  limits_state : kfsw_limits_status;
  limits_initialized : bool;
  limits_world : W;
}.
Arguments limits_enabled {W}. Arguments limits_interval_ms {W}. Arguments rules {W}.
Arguments limits_state {W}. Arguments limits_initialized {W}. Arguments limits_world {W}.

(** ** Comparing *)

Inductive wide := WideUnsigned (u : Z) | WideSigned (i : Z) | WideFloat (f : spec_float).

Definition is_numeric (type : Z) : bool := type <=? KFSW_PARAM_DOUBLE.
Definition is_float (type : Z) : bool :=
  (type =? KFSW_PARAM_FLOAT) || (type =? KFSW_PARAM_DOUBLE).

(** A float member is widened to a double exactly, so it keeps its order. *)
Definition widen (type : Z) (scalar : kfsw_param_scalar) : wide :=
  if (type =? KFSW_PARAM_U8) || (type =? KFSW_PARAM_X8) then WideUnsigned (u8 scalar)
  else if (type =? KFSW_PARAM_U16) || (type =? KFSW_PARAM_X16) then WideUnsigned (u16 scalar)
  else if (type =? KFSW_PARAM_U32) || (type =? KFSW_PARAM_X32) then WideUnsigned (u32 scalar)
  else if (type =? KFSW_PARAM_U64) || (type =? KFSW_PARAM_X64) then WideUnsigned (u64 scalar)
  else if type =? KFSW_PARAM_I8 then WideSigned (i8 scalar)
  else if type =? KFSW_PARAM_I16 then WideSigned (i16 scalar)
  else if type =? KFSW_PARAM_I32 then WideSigned (i32 scalar)
  else if type =? KFSW_PARAM_I64 then WideSigned (i64 scalar)
  else if type =? KFSW_PARAM_FLOAT then WideFloat (sc_f32 scalar)
  else if type =? KFSW_PARAM_DOUBLE then WideFloat (sc_f64 scalar)
  else WideUnsigned 0.

Definition ORDER_NONE : Z := 2.
Definition order_z (a b : Z) : Z := Z.b2z (a >? b) - Z.b2z (a <? b).
(** [a] and [b] are widened from one type, so they have one kind. *)
Definition order (a b : wide) : Z :=
  match a, b with
  | WideSigned a, WideSigned b => order_z a b
  | WideFloat a, WideFloat b =>
      match SFcompare a b with
      | None => ORDER_NONE
      | Some Gt => 1
      | Some Eq => 0
      | Some Lt => -1
      end
  | WideUnsigned a, WideUnsigned b => order_z a b
  | _, _ => ORDER_NONE
  end.

Definition holds (cmp ordering : Z) : bool :=
  if ordering =? ORDER_NONE then false
  else if cmp =? KFSW_LIMITS_GT then ordering >? 0
  else if cmp =? KFSW_LIMITS_GE then ordering >=? 0
  else if cmp =? KFSW_LIMITS_LT then ordering <? 0
  else if cmp =? KFSW_LIMITS_LE then ordering <=? 0
  else if cmp =? KFSW_LIMITS_EQ then ordering =? 0
  else negb (ordering =? 0).

(** ** Parsing a line *)

Definition is_blank (c : Z) : bool := (c =? 32) || (c =? 9).
Fixpoint skip_blanks (s : list Z) : list Z :=
  match s with
  | c :: s' => if is_blank c then skip_blanks s' else s
  | [] => []
  end.
Fixpoint take_word (s : list Z) : list Z * list Z :=
  match s with
  | c :: s' => if is_blank c then ([], s') else let '(w, rest) := take_word s' in (c :: w, rest)
  | [] => ([], [])
  end.
(** The field and the new cursor. *)
Definition next_field (cursor : list Z) : option (list Z) * list Z :=
  match skip_blanks cursor with
  | [] => (None, [])
  | start => let '(field, rest) := take_word start in (Some field, rest)
  end.

Fixpoint take_fields (n : nat) (cursor : list Z) : option (list (list Z) * list Z) :=
  match n with
  | O => Some ([], cursor)
  | S n =>
      match next_field cursor with
      | (None, _) => None
      | (Some field, cursor) =>
          '(fields, cursor) ← take_fields n cursor; Some (field :: fields, cursor)
      end
  end.

(** The text after the fields, without the blanks around it. *)
Definition trim_blanks (s : list Z) : list Z := reverse (skip_blanks (reverse (skip_blanks s))).

Section parse.
Context {CL : CLong} {LC : LimitsConfig} {W CW : Type} {PA : ParamAccess W}.
(** The command registry the actions are checked against. *)
Variables (commands : command_registry CW) (world : W).

Definition parse_unsigned (text : list Z) (maximum : Z) : option Z :=
  if (char_at text 0 <? 48) || (char_at text 0 >? 57) then None
  else
    let '(value, rest, erange) := strtoul text 10 in
    if negb erange && (char_at rest 0 =? 0) && (value <=? maximum) then Some value else None.

(** The loop over the arguments a command declares; [None] is a refusal. *)
Fixpoint check_action_args (n : nat) (index : nat) (types : list Z) (cursor : list Z)
    : option (list Z) :=
  match n with
  | O => Some cursor
  | S n =>
      match next_field cursor with
      | (None, _) => None
      | (Some token, cursor) =>
          if negb ((kfsw_command_parse_arg (Some token) (types !!! index) (Some (ArgOther 0))).1 =? 0)
          then None
          else check_action_args n (S index) types cursor
      end
  end.

Definition no_info : kfsw_command_info := {|
  info_id := 0; info_name := None; info_help := None; info_flags := 0; info_arg_count := 0;
  info_arg_types := None |}.

Definition check_action (action : list Z) : option string :=
  if strlen action >=? KFSW_FBO_SCHEDULE_LINE_MAX then Some "action is too long"
  else
    match next_field action with
    | (None, _) => Some "action is not a registered command"
    | (Some token, cursor) =>
        match kfsw_command_find (Some token) (Some no_info) commands with
        | (0, Some info) =>
            match check_action_args (Z.to_nat (info_arg_count info)) 0
                    (default [] (info_arg_types info)) cursor with
            | None => Some "action argument is missing or of the wrong type"
            | Some cursor =>
                if bool_decide (is_Some (next_field cursor).1)
                then Some "action has more arguments than the command takes"
                else None
            end
        | _ => Some "action is not a registered command"
        end
    end.

Definition parse_comparison (text : list Z) : option Z :=
  snd <$> List.find (λ c, str_eq (cstr c.1) text) comparisons.

Definition missing : string := "expected parameter, comparison, bound, dwell, node and an action".

(** The reason a line is refused, or its rule. *)
Definition parse_line (text : list Z) : string + kfsw_limits_rule :=
  match take_fields LIMITS_FIELDS text with
  | Some ([f0; f1; f2; f3; f4], cursor) =>
      let action := trim_blanks cursor in
      if bool_decide (action = []) then inl missing
      else if strlen f0 >? KFSW_PARAM_NAME_MAX then inl "parameter name is too long"%string
      else
        let '(rc, type) := access_info f0 world in
        if negb (rc =? 0) then inl "unknown parameter"%string
        else if negb (is_numeric type) then inl "parameter is not a number"%string
        else
          match parse_comparison f1 with
          | None => inl "unknown comparison"%string
          | Some cmp =>
              if is_float type && ((cmp =? KFSW_LIMITS_EQ) || (cmp =? KFSW_LIMITS_NE))
              then inl "equality is refused for a float parameter"%string
              else if strlen f2 >=? KFSW_LIMITS_BOUND_TEXT_MAX then inl "bound is too long"%string
              else
                let '(rc, bound) := access_parse f2 type in
                if negb (rc =? 0) then inl "bound does not fit the type of the parameter"%string
                else
                  match parse_unsigned f3 KFSW_LIMITS_DWELL_MAX with
                  | None | Some 0 => inl "dwell must be 1 to 255"%string
                  | Some dwell =>
                      match parse_unsigned f4 UINT16_MAX with
                      | None => inl "node is not an address"%string
                      | Some node =>
                          if negb LIMITS_COMMAND_CSP && negb (node =? 0)
                          then inl "this build has no remote commanding"%string
                          else
                            match check_action action with
                            | Some reason => inl reason
                            | None => inr {|
                                lr_index := 0; lr_parameter := f0; lr_type := type; lr_cmp := cmp;
                                lr_bound := bound; lr_bound_text := f2; lr_dwell := u8 dwell;
                                lr_streak := 0; lr_latched := false; lr_node := u16 node;
                                lr_action := action |}
                            end
                      end
                  end
          end
  | _ => inl missing
  end.
End parse.

(** ** Reading the file *)

(** What a one-byte [fs_read] answers; at the end of the list, the end of the file. *)
Inductive read_result := ReadChar (c : Z) | ReadError (rc : Z).

(** The file system, the scheduler and the work queue. [limits_open] answers the
    result and the reads the open file will give. *)
Class LimitsPlatform (W : Type) := {
  limits_storage_ready : W → bool;
  limits_open : list Z → W → Z * list read_result;
  limits_mkdir : list Z → W → Z * W;
  limits_uptime_ms : W → Z;
  limits_reschedule : Z → W → W;
  limits_cancel : W → W;
  kfsw_fbo_schedule_add : Z → Z → Z → list Z → W → Z * W;
}.

Section file.
Context {CL : CLong} {LC : LimitsConfig} {W CW : Type} {PA : ParamAccess W}.
Variables (commands : command_registry CW) (world : W).

Definition LIMITS_FILE_BYTES_MAX : Z := LIMITS_MAX_RULES * LIMITS_LINE_BYTES * 2.

Record read_line_result := {
  rl_rc : Z; rl_line : list Z; rl_at_end : bool; rl_too_long : bool; rl_bytes : Z;
  rl_rest : list read_result;
}.

(** [used] is the number of characters in [line], kept in reverse. The characters of
    the buffer are read as a string by the parser. *)
Fixpoint read_line (file : list read_result) (bytes : Z) (line : list Z) (too_long : bool)
    : read_line_result :=
  let stop rc at_end bytes rest := {|
    rl_rc := rc; rl_line := reverse line; rl_at_end := at_end; rl_too_long := too_long;
    rl_bytes := bytes; rl_rest := rest |} in
  match file with
  | [] => stop 0 true bytes []
  | ReadError rc :: rest => stop rc false bytes rest
  | ReadChar character :: rest =>
      let bytes := bytes + 1 in
      if bytes >? LIMITS_FILE_BYTES_MAX then stop (- EFBIG) false bytes rest
      else if character =? 10 then stop 0 false bytes rest
      else if character =? 13 then read_line rest bytes line too_long
      else if zlen line + 1 >=? LIMITS_LINE_BYTES then read_line rest bytes line true
      else read_line rest bytes (character :: line) too_long
  end.

(** The outcome: the rules staged, or the error with the line and the reason. *)
Record parse_outcome := {
  po_rc : Z; po_rules : list kfsw_limits_rule; po_error_line : Z; po_reason : option string;
}.

Definition index_rule (index : Z) (rule : kfsw_limits_rule) : kfsw_limits_rule := {|
  lr_index := index; lr_parameter := lr_parameter rule; lr_type := lr_type rule;
  lr_cmp := lr_cmp rule; lr_bound := lr_bound rule; lr_bound_text := lr_bound_text rule;
  lr_dwell := lr_dwell rule; lr_streak := lr_streak rule; lr_latched := lr_latched rule;
  lr_node := lr_node rule; lr_action := lr_action rule |}.

(** The turn of the loop for one line that was read. *)
Definition parse_one (text : list Z) (too_long : bool) (number : Z) (staged : list kfsw_limits_rule)
    : parse_outcome + list kfsw_limits_rule :=
  let refuse reason := inl {|
    po_rc := - EINVAL; po_rules := staged; po_error_line := number; po_reason := Some reason |} in
  if (char_at text 0 =? 35) || ((char_at text 0 =? 0) && negb too_long) then inr staged
  else if too_long then refuse "line is too long"%string
  else if zlen staged =? LIMITS_MAX_RULES then refuse "more rules than this build holds"%string
  else
    match parse_line commands world text with
    | inl reason => refuse reason
    | inr rule => inr (staged ++ [index_rule (u8 (zlen staged)) rule])
    end.

(** A turn consumes a read or reaches the end, so the reads bound the turns. *)
Fixpoint parse_file (fuel : nat) (file : list read_result) (bytes number : Z)
    (staged : list kfsw_limits_rule) : parse_outcome :=
  match fuel with
  | O => {| po_rc := 0; po_rules := staged; po_error_line := 0; po_reason := None |}
  | S fuel =>
      let r := read_line file bytes [] false in
      if negb (rl_rc r =? 0)
      then {| po_rc := rl_rc r; po_rules := staged; po_error_line := 0; po_reason := None |}
      else
        let number := u16 (number + 1) in
        match parse_one (skip_blanks (cut_nul (rl_line r))) (rl_too_long r) number staged with
        | inl outcome => outcome
        | inr staged =>
            if rl_at_end r
            then {| po_rc := 0; po_rules := staged; po_error_line := 0; po_reason := None |}
            else parse_file fuel (rl_rest r) (rl_bytes r) number staged
        end
  end.
Definition parse_whole_file (file : list read_result) : parse_outcome :=
  parse_file (S (length file)) file 0 0 [].
End file.

(** ** The service *)

Section limits_ops.
Context {CL : CLong} {LC : LimitsConfig} {BO : ByteOrder} {W CW : Type}
  {PA : ParamAccess W} {LP : LimitsPlatform W} {ES : EventSink W}.
Variables (clock : W → Z) (commands : command_registry CW).
Implicit Types (s : limits W) (rule : kfsw_limits_rule) (x : kfsw_limits_status).

Definition limits_boot (w : W) : limits W := {|
  limits_enabled := 1; limits_interval_ms := LIMITS_INTERVAL_MS; rules := [];
  limits_state := {|
    ls_rules := 0; ls_sweeps := 0; ls_fires := 0; ls_failures := 0; ls_parse_errors := 0;
    ls_last_fired_index := KFSW_LIMITS_NO_RULE; ls_last_fired_ms := 0; ls_error_line := 0;
    ls_error := ""; ls_running := false |};
  limits_initialized := false; limits_world := w |}.

Definition set_rules (l : list kfsw_limits_rule) s : limits W := {|
  limits_enabled := limits_enabled s; limits_interval_ms := limits_interval_ms s; rules := l;
  limits_state := limits_state s; limits_initialized := limits_initialized s;
  limits_world := limits_world s |}.
Definition set_limits_state x s : limits W := {|
  limits_enabled := limits_enabled s; limits_interval_ms := limits_interval_ms s;
  rules := rules s; limits_state := x; limits_initialized := limits_initialized s;
  limits_world := limits_world s |}.
Definition set_limits_world (w : W) s : limits W := {|
  limits_enabled := limits_enabled s; limits_interval_ms := limits_interval_ms s;
  rules := rules s; limits_state := limits_state s; limits_initialized := limits_initialized s;
  limits_world := w |}.

Definition note_failure s : limits W :=
  let x := limits_state s in
  set_limits_state {|
    ls_rules := ls_rules x; ls_sweeps := ls_sweeps x; ls_fires := ls_fires x;
    ls_failures := sat_inc (ls_failures x); ls_parse_errors := ls_parse_errors x;
    ls_last_fired_index := ls_last_fired_index x; ls_last_fired_ms := ls_last_fired_ms x;
    ls_error_line := ls_error_line x; ls_error := ls_error x; ls_running := ls_running x |} s.

Definition loaded_state (count : Z) x : kfsw_limits_status := {|
  ls_rules := u8 count; ls_sweeps := ls_sweeps x; ls_fires := ls_fires x;
  ls_failures := ls_failures x; ls_parse_errors := ls_parse_errors x;
  ls_last_fired_index := ls_last_fired_index x; ls_last_fired_ms := ls_last_fired_ms x;
  ls_error_line := 0; ls_error := ""; ls_running := ls_running x |}.
Definition refused_state (error_line : Z) (reason : string) x : kfsw_limits_status := {|
  ls_rules := ls_rules x; ls_sweeps := ls_sweeps x; ls_fires := ls_fires x;
  ls_failures := ls_failures x; ls_parse_errors := sat_inc (ls_parse_errors x);
  ls_last_fired_index := ls_last_fired_index x; ls_last_fired_ms := ls_last_fired_ms x;
  ls_error_line := error_line; ls_error := reason; ls_running := ls_running x |}.

Definition has_dotdot (name : list Z) : bool :=
  existsb (λ i, (char_at name i =? 46) && (char_at name (S i) =? 46)) (seq 0 (length name)).

Definition rule_path (name : list Z) : list Z :=
  str_truncate (cstr "/kfsw/ftp/limits/" ++ name) 96.

Definition kfsw_limits_load (name : option (list Z)) s : Z * limits W :=
  match name with
  | None => (- EINVAL, s)
  | Some name =>
      if negb (terminated_within name KFSW_FBO_NAME_MAX) || (char_at name 0 =? 0)
         || mem_has 47 name || has_dotdot name then (- EINVAL, s)
      else if negb (limits_storage_ready (limits_world s)) then (- ENODEV, s)
      else
        let '(result, file) := limits_open (rule_path name) (limits_world s) in
        if negb (result =? 0) then (result, s)
        else
          let outcome := parse_whole_file commands (limits_world s) file in
          if po_rc outcome =? 0 then
            let s := set_rules (po_rules outcome) s in
            (0, set_limits_state (loaded_state (zlen (po_rules outcome)) (limits_state s)) s)
          else
            match po_reason outcome with
            | Some reason =>
                (po_rc outcome,
                 set_limits_state (refused_state (po_error_line outcome) reason (limits_state s)) s)
            | None => (po_rc outcome, s)
            end
  end.

Definition fired_state rule (now : Z) x : kfsw_limits_status := {|
  ls_rules := ls_rules x; ls_sweeps := ls_sweeps x; ls_fires := sat_inc (ls_fires x);
  ls_failures := ls_failures x; ls_parse_errors := ls_parse_errors x;
  ls_last_fired_index := lr_index rule; ls_last_fired_ms := Z.min now UINT32_MAX;
  ls_error_line := ls_error_line x; ls_error := ls_error x; ls_running := ls_running x |}.

Definition release rule s : bool * limits W :=
  let '(result, w) := kfsw_fbo_schedule_add KFSW_FBO_TIME_RELATIVE LIMITS_RELEASE_DELAY_S
                        (lr_node rule) (lr_action rule) (limits_world s) in
  let s := set_limits_world w s in
  if result =? - EEXIST then (true, s)
  else if negb (result =? 0) then (false, note_failure s)
  else
    let s := set_limits_state (fired_state rule (limits_uptime_ms w) (limits_state s)) s in
    let payload := [lr_index rule] ++ put_be16 (lr_node rule) in
    (true, set_limits_world
       (sink_emit (clock w) KFSW_EVENT_SOURCE_LIMITS KFSW_EVENT_LIMITS_FIRED KFSW_EVENT_WARNING
          (Some payload) 3 w) s).

Definition set_progress (streak : Z) (latched : bool) rule : kfsw_limits_rule := {|
  lr_index := lr_index rule; lr_parameter := lr_parameter rule; lr_type := lr_type rule;
  lr_cmp := lr_cmp rule; lr_bound := lr_bound rule; lr_bound_text := lr_bound_text rule;
  lr_dwell := lr_dwell rule; lr_streak := streak; lr_latched := latched;
  lr_node := lr_node rule; lr_action := lr_action rule |}.

(** The rule's comparison on a value of its parameter. *)
Definition crossed rule (scalar : kfsw_param_scalar) : bool :=
  holds (lr_cmp rule) (order (widen (lr_type rule) scalar) (widen (lr_type rule) (lr_bound rule))).

Definition evaluate rule s : kfsw_limits_rule * limits W :=
  let '(result, value, w) := access_get (lr_parameter rule) (limits_world s) in
  let s := set_limits_world w s in
  if negb (result =? 0) then (rule, note_failure s)
  else if negb (crossed rule value) then (set_progress 0 false rule, s)
  else
    let streak := if lr_streak rule <? UINT8_MAX then u8 (lr_streak rule + 1) else lr_streak rule in
    let rule := set_progress streak (lr_latched rule) rule in
    if negb (lr_latched rule) && (lr_streak rule >=? lr_dwell rule) then
      let '(latched, s) := release rule s in (set_progress streak latched rule, s)
    else (rule, s).

(** The rules are evaluated in place, one after the other. *)
Fixpoint evaluate_rules (l : list kfsw_limits_rule) s : list kfsw_limits_rule * limits W :=
  match l with
  | [] => ([], s)
  | rule :: l =>
      let '(rule, s) := evaluate rule s in
      let '(l, s) := evaluate_rules l s in (rule :: l, s)
  end.

Definition swept_state x : kfsw_limits_status := {|
  ls_rules := ls_rules x; ls_sweeps := sat_inc (ls_sweeps x); ls_fires := ls_fires x;
  ls_failures := ls_failures x; ls_parse_errors := ls_parse_errors x;
  ls_last_fired_index := ls_last_fired_index x; ls_last_fired_ms := ls_last_fired_ms x;
  ls_error_line := ls_error_line x; ls_error := ls_error x; ls_running := ls_running x |}.

Definition kfsw_limits_sweep s : Z * limits W :=
  if limits_enabled s =? 0 then
    (- EACCES, set_rules ((λ rule, set_progress 0 (lr_latched rule) rule) <$> rules s) s)
  else
    let '(l, s) := evaluate_rules (rules s) s in
    let s := set_rules l s in
    (zlen l, set_limits_state (swept_state (limits_state s)) s).

Definition work_handler s : limits W :=
  let s := (kfsw_limits_sweep s).2 in
  if ls_running (limits_state s)
  then set_limits_world (limits_reschedule (limits_interval_ms s) (limits_world s)) s
  else s.

Definition running_state (running : bool) x : kfsw_limits_status := {|
  ls_rules := ls_rules x; ls_sweeps := ls_sweeps x; ls_fires := ls_fires x;
  ls_failures := ls_failures x; ls_parse_errors := ls_parse_errors x;
  ls_last_fired_index := ls_last_fired_index x; ls_last_fired_ms := ls_last_fired_ms x;
  ls_error_line := ls_error_line x; ls_error := ls_error x; ls_running := running |}.

Definition kfsw_limits_set_interval_ms (interval_ms : Z) s : Z * limits W :=
  if negb (interval_ms =? 0) && ((interval_ms <? KFSW_LIMITS_INTERVAL_MIN_MS)
       || (interval_ms >? KFSW_LIMITS_INTERVAL_MAX_MS)) then (- ERANGE, s)
  else
    let s := {| limits_enabled := limits_enabled s; limits_interval_ms := interval_ms;
                rules := rules s; limits_state := limits_state s;
                limits_initialized := limits_initialized s; limits_world := limits_world s |} in
    if negb (limits_initialized s) then (0, s)
    else
      let s := set_limits_state (running_state (negb (interval_ms =? 0)) (limits_state s)) s in
      (0, set_limits_world
            (if negb (interval_ms =? 0) then limits_reschedule interval_ms (limits_world s)
             else limits_cancel (limits_world s)) s).

(** The directories a rule file may arrive in. *)
Definition make_directories (w : W) : W :=
  let '(result, w) := limits_mkdir (cstr "/kfsw/ftp") w in
  if (result =? 0) || (result =? - EEXIST) then (limits_mkdir (cstr "/kfsw/ftp/limits") w).2 else w.

Definition kfsw_limits_init s : Z * limits W :=
  if limits_initialized s then (0, s)
  else
    let s := {| limits_enabled := limits_enabled s; limits_interval_ms := limits_interval_ms s;
                rules := rules s; limits_state := limits_state s; limits_initialized := true;
                limits_world := limits_world s |} in
    let s := if limits_storage_ready (limits_world s)
             then set_limits_world (make_directories (limits_world s)) s else s in
    let '(result, s) := kfsw_limits_set_interval_ms (limits_interval_ms s) s in
    let s := if negb (result =? 0) then (kfsw_limits_set_interval_ms LIMITS_INTERVAL_MS s).2 else s in
    let '(result, s) := kfsw_limits_load (Some LIMITS_FILE) s in
    if (result =? - ENOENT) || (result =? - ENODEV) then (0, s) else (result, s).

Definition kfsw_limits_get_status (status : option kfsw_limits_status) s
    : option kfsw_limits_status :=
  match status with
  | None => None
  | Some _ => Some (limits_state s)
  end.

Fixpoint visit_rules {C} (visitor : kfsw_limits_rule → C → C * bool) (l : list kfsw_limits_rule)
    (c : C) : C :=
  match l with
  | [] => c
  | rule :: l => let '(c', more) := visitor rule c in if more then visit_rules visitor l c' else c'
  end.
Definition kfsw_limits_visit_rules {C} (visitor : option (kfsw_limits_rule → C → C * bool)) s (c : C)
    : C :=
  match visitor with
  | None => c
  | Some visitor => visit_rules visitor (rules s) c
  end.
End limits_ops.

(** ** Parsing *)

Section parse_proofs.
Context {CL : CLong} {LC : LimitsConfig} {W CW : Type} {PA : ParamAccess W}.
Variables (commands : command_registry CW) (world : W).
Implicit Types (rule : kfsw_limits_rule) (file : list read_result).

(** A rule the service may run. *)
Definition rule_ok rule : Prop :=
  1 <= lr_dwell rule <= 255 ∧ lr_streak rule = 0 ∧ lr_latched rule = false ∧
  0 <= lr_cmp rule <= 5 ∧ is_numeric (lr_type rule) = true ∧
  (is_float (lr_type rule) = true → lr_cmp rule ≠ KFSW_LIMITS_EQ ∧ lr_cmp rule ≠ KFSW_LIMITS_NE) ∧
  strlen (lr_parameter rule) <= KFSW_PARAM_NAME_MAX ∧
  strlen (lr_bound_text rule) < KFSW_LIMITS_BOUND_TEXT_MAX ∧
  access_parse (W := W) (lr_bound_text rule) (lr_type rule) = (0, lr_bound rule) ∧
  lr_action rule ≠ [] ∧ check_action commands (lr_action rule) = None ∧
  is_u16 (lr_node rule) ∧ (LIMITS_COMMAND_CSP = false → lr_node rule = 0).

Lemma parse_unsigned_range text maximum v :
  parse_unsigned text maximum = Some v → 0 <= v <= maximum.
Proof.
  unfold parse_unsigned. intros H. destruct ((_ <? 48) || _); [done|].
  pose proof (strtoul_nonneg text 10 ltac:(lia)) as Hn.
  destruct (strtoul text 10) as [[value rest] erange]. cbn in Hn.
  destruct (_ && (value <=? maximum)) eqn:G; [|done]. injection H as <-. lia.
Qed.

Lemma parse_comparison_range text cmp : parse_comparison text = Some cmp → 0 <= cmp <= 5.
Proof.
  unfold parse_comparison. destruct (List.find _ comparisons) as [c|] eqn:E; [|done].
  intros [= <-]. apply List.find_some in E as [Hin _]. unfold comparisons in Hin. cbn in Hin.
  repeat (destruct Hin as [<-|Hin]; [done|]). done.
Qed.

Lemma parse_line_ok text rule : parse_line commands world text = inr rule → rule_ok rule.
Proof.
  unfold parse_line. intros H.
  destruct (take_fields LIMITS_FIELDS text) as [[fields cursor]|]; [|done].
  destruct fields as [|f0 [|f1 [|f2 [|f3 [|f4 [|]]]]]]; try done.
  case_bool_decide as Ha; [done|].
  destruct (strlen f0 >? KFSW_PARAM_NAME_MAX) eqn:G0; [done|].
  destruct (access_info f0 world) as [rc0 type].
  destruct (negb (rc0 =? 0)); [done|].
  destruct (negb (is_numeric type)) eqn:G1; [done|].
  destruct (parse_comparison f1) as [cmp|] eqn:G2; [|done].
  destruct (is_float type && _) eqn:G3; [done|].
  destruct (strlen f2 >=? KFSW_LIMITS_BOUND_TEXT_MAX) eqn:G4; [done|].
  destruct (access_parse f2 type) as [rc1 bound] eqn:G5.
  destruct (negb (rc1 =? 0)) eqn:G6; [done|].
  destruct (parse_unsigned f3 KFSW_LIMITS_DWELL_MAX) as [dwell|] eqn:G7; [|done].
  assert (dwell ≠ 0 ∧ (match parse_unsigned f4 UINT16_MAX with
    | None => inl "node is not an address"%string
    | Some node => if negb LIMITS_COMMAND_CSP && negb (node =? 0)
        then inl "this build has no remote commanding"%string
        else match check_action commands (trim_blanks cursor) with
             | Some reason => inl reason
             | None => inr {|
                 lr_index := 0; lr_parameter := f0; lr_type := type; lr_cmp := cmp;
                 lr_bound := bound; lr_bound_text := f2; lr_dwell := u8 dwell;
                 lr_streak := 0; lr_latched := false; lr_node := u16 node;
                 lr_action := trim_blanks cursor |} end end) = inr rule) as [Hd H'] by (by destruct dwell).
  clear H. destruct (parse_unsigned f4 UINT16_MAX) as [node|] eqn:G8; [|done].
  destruct (negb LIMITS_COMMAND_CSP && negb (node =? 0)) eqn:G9; [done|].
  destruct (check_action commands (trim_blanks cursor)) eqn:G10; [done|]. injection H' as <-.
  apply parse_unsigned_range in G7, G8. apply parse_comparison_range in G2.
  unfold KFSW_LIMITS_DWELL_MAX in G7. unfold rule_ok. cbn.
  assert (rc1 = 0) as -> by lia. rewrite u8_id, u16_id by clia.
  split_and!; try done; try lia; try clia.
  - by apply negb_false_iff in G1.
  - intros Hf. rewrite Hf in G3. cbn in G3. lia.
  - intros Hc. rewrite Hc in G9. cbn in G9. lia.
Qed.

Definition staged_ok (l : list kfsw_limits_rule) : Prop :=
  zlen l <= LIMITS_MAX_RULES ∧
  ∀ (i : nat) rule, l !! i = Some rule → rule_ok rule ∧ lr_index rule = Z.of_nat i.

Lemma parse_one_staged text too_long number l l' :
  parse_one commands world text too_long number l = inr l' → staged_ok l → staged_ok l'.
Proof.
  unfold parse_one. intros H [Hl Hr]. destruct (_ || _) in H; [by injection H as <-|].
  destruct too_long; [done|]. destruct (zlen l =? LIMITS_MAX_RULES) eqn:G; [done|].
  destruct (parse_line commands world text) as [|rule] eqn:E; [done|]. injection H as <-.
  apply parse_line_ok in E. pose proof LIMITS_MAX_RULES_range. pose proof (zlen_nonneg l).
  split; [rewrite zlen_app; change (zlen [_]) with 1; lia|]. intros i r Hi.
  apply lookup_app_Some in Hi as [Hi|[Hge Hi]]; [by apply Hr|].
  apply list_lookup_singleton_Some in Hi as [Hz <-]. split; [done|]. cbn.
  rewrite u8_id by clia. unfold zlen. lia.
Qed.

Lemma parse_one_refuses text too_long number l outcome :
  parse_one commands world text too_long number l = inl outcome → po_rc outcome = - EINVAL.
Proof.
  unfold parse_one. intros H. repeat case_match; try done; by injection H as <-.
Qed.

Lemma read_line_progress file bytes line too_long :
  rl_rc (read_line file bytes line too_long) = 0 →
  rl_at_end (read_line file bytes line too_long) = false →
  (length (rl_rest (read_line file bytes line too_long)) < length file)%nat ∨
  ∃ rest, file = ReadError 0 :: rest.
Proof.
  revert bytes line too_long. induction file as [|[c|rc] file IH]; intros bytes line too_long; cbn;
    [done| |left; cbn; lia].
  intros Hrc Hend. left.
  assert (∀ b l t, rl_rc (read_line file b l t) = 0 → rl_at_end (read_line file b l t) = false →
    (length (rl_rest (read_line file b l t)) < S (length file))%nat) as Hrec.
  { intros b l t H1 H2. destruct (IH b l t H1 H2) as [H|[rest ->]]; [lia|cbn; lia]. }
  repeat case_match; simplify_eq/=; try lia; auto.
Qed.

Lemma parse_file_staged fuel file bytes number l :
  staged_ok l → po_rc (parse_file commands world fuel file bytes number l) = 0 →
  staged_ok (po_rules (parse_file commands world fuel file bytes number l)).
Proof.
  revert file bytes number l. induction fuel as [|fuel IH]; intros file bytes number l Hl; cbn [parse_file].
  { done. }
  destruct (negb (rl_rc (read_line file bytes [] false) =? 0)); [done|].
  destruct (parse_one _ _ _ _ _) as [outcome|l'] eqn:E.
  - apply parse_one_refuses in E. intros H. rewrite E in H. done.
  - apply parse_one_staged in E; [|done]. destruct (rl_at_end _); [done|]. by apply IH.
Qed.

(** The reads bound the turns: more fuel changes nothing. *)
Lemma parse_file_fuel fuel fuel' file bytes number l :
  (length file < fuel)%nat → (length file < fuel')%nat →
  parse_file commands world fuel file bytes number l = parse_file commands world fuel' file bytes number l.
Proof.
  revert fuel' file bytes number l. induction fuel as [|fuel IH]; intros [|fuel'] file bytes number l H H';
    [lia..|]. cbn [parse_file].
  destruct (negb (rl_rc (read_line file bytes [] false) =? 0)) eqn:Hrc; [done|].
  destruct (parse_one _ _ _ _ _); [done|]. destruct (rl_at_end _) eqn:Hend; [done|].
  destruct (read_line_progress file bytes [] false) as [Hp|[rest ->]]; [lia|done| |].
  - apply IH; lia.
  - apply IH; cbn in *; lia.
Qed.
End parse_proofs.


(** ** The lines of a file *)

(** The reference reading of a rule file: its lines, without the carriage returns. *)
Fixpoint break_line (chars : list Z) : list Z * option (list Z) :=
  match chars with
  | [] => ([], None)
  | c :: chars =>
      if c =? 10 then ([], Some chars)
      else let '(l, rest) := break_line chars in ((if c =? 13 then l else c :: l), rest)
  end.
Fixpoint file_lines (chars : list Z) : list (list Z) :=
  match chars with
  | [] => [[]]
  | c :: chars =>
      if c =? 10 then [] :: file_lines chars
      else match file_lines chars with
           | l :: ls => (if c =? 13 then l else c :: l) :: ls
           | [] => []
           end
  end.

Section lines_spec.
Context {CL : CLong} {LC : LimitsConfig} {W CW : Type} {PA : ParamAccess W}.
Variables (commands : command_registry CW) (world : W).

(** Every line is a comment, is blank or is a rule; the first that is none is refused. *)
Fixpoint parse_lines (number : Z) (ls : list (list Z)) (staged : list kfsw_limits_rule)
    : parse_outcome :=
  match ls with
  | [] => {| po_rc := 0; po_rules := staged; po_error_line := 0; po_reason := None |}
  | l :: ls =>
      match parse_one commands world (skip_blanks (cut_nul (take 191 l))) (191 <? zlen l)
              (u16 (number + 1)) staged with
      | inl outcome => outcome
      | inr staged => parse_lines (u16 (number + 1)) ls staged
      end
  end.

Lemma file_lines_break chars :
  file_lines chars = (break_line chars).1 ::
    match (break_line chars).2 with Some rest => file_lines rest | None => [] end.
Proof.
  induction chars as [|c chars IH]; cbn; [done|]. destruct (c =? 10); [done|].
  rewrite IH. by destruct (break_line chars).
Qed.

Lemma break_line_shorter chars rest :
  (break_line chars).2 = Some rest → zlen rest < zlen chars.
Proof.
  revert rest. induction chars as [|c chars IH]; cbn; [done|]. intros rest. rewrite zlen_cons.
  destruct (c =? 10); cbn; [intros [= <-]; lia|].
  destruct (break_line chars) as [l r]; cbn in *. intros ->. specialize (IH _ eq_refl). lia.
Qed.

Lemma read_line_chars chars bytes line too_long :
  bytes + zlen chars <= LIMITS_FILE_BYTES_MAX → zlen line <= 191 →
  let l := (break_line chars).1 in
  let r := read_line (ReadChar <$> chars) bytes line too_long in
  rl_rc r = 0 ∧ rl_line r = reverse line ++ take (Z.to_nat (191 - zlen line)) l ∧
  rl_at_end r = bool_decide ((break_line chars).2 = None) ∧
  rl_too_long r = too_long || (191 <? zlen line + zlen l) ∧
  rl_bytes r = bytes + (zlen chars - zlen (default [] (break_line chars).2)) ∧
  rl_rest r = ReadChar <$> default [] (break_line chars).2.
Proof.
  revert bytes line too_long. induction chars as [|c chars IH]; intros bytes line too_long Hb Hl.
  { cbn. rewrite take_nil, app_nil_r. split_and!; try done; [|unfold zlen; cbn; lia].
    destruct too_long; [done|]. symmetry. apply Z.ltb_ge. unfold zlen in *. cbn. lia. }
  rewrite zlen_cons in *. cbn.
  replace (bytes + 1 >? LIMITS_FILE_BYTES_MAX) with false by (pose proof (zlen_nonneg chars); lia).
  destruct (c =? 10) eqn:Hc.
  { cbn. rewrite take_nil, app_nil_r. split_and!; try done; [|lia].
    destruct too_long; [done|]. symmetry. apply Z.ltb_ge. unfold zlen in *. cbn. lia. }
  assert (bytes + 1 + zlen chars <= LIMITS_FILE_BYTES_MAX) as Hb' by lia.
  destruct (break_line chars) as [l r] eqn:E; cbn in *.
  destruct (c =? 13); cbn.
  { destruct (IH (bytes + 1) line too_long Hb' Hl) as (-> & -> & -> & -> & -> & ->).
    split_and!; try done. lia. }
  unfold LIMITS_LINE_BYTES. destruct (zlen line + 1 >=? 192) eqn:Hfull.
  - destruct (IH (bytes + 1) line true Hb' Hl) as (-> & -> & -> & -> & -> & ->).
    replace (191 - zlen line) with 0 by lia. rewrite zlen_cons. pose proof (zlen_nonneg l).
    split_and!; try done; [|lia]. destruct too_long; cbn; lia.
  - destruct (IH (bytes + 1) (c :: line) too_long Hb' ltac:(rewrite zlen_cons; lia))
      as (-> & -> & -> & -> & -> & ->).
    rewrite !zlen_cons, reverse_cons, <- app_assoc. cbn.
    replace (Z.to_nat (191 - zlen line)) with (S (Z.to_nat (191 - (zlen line + 1)))) by lia.
    split_and!; try done; [|lia]. f_equal. lia.
Qed.

(** A file within the size limit is read as the reference reads it. *)
Lemma parse_file_lines fuel chars bytes number staged :
  (length chars < fuel)%nat → bytes + zlen chars <= LIMITS_FILE_BYTES_MAX →
  parse_file commands world fuel (ReadChar <$> chars) bytes number staged =
    parse_lines number (file_lines chars) staged.
Proof.
  revert chars bytes number staged. induction fuel as [|fuel IH]; intros chars bytes number staged Hf Hb;
    [lia|].
  cbn [parse_file]. rewrite file_lines_break.
  destruct (read_line_chars chars bytes [] false Hb ltac:(done)) as (Hr & Hl & He & Ht & Hn & Hrest).
  rewrite Hr, Hl, He, Ht, Hn, Hrest. cbn. rewrite !zlen_nil.
  destruct (parse_one _ _ _ _ _); [done|].
  destruct (break_line chars).2 as [rest|] eqn:E; cbn; [|done].
  apply break_line_shorter in E. rewrite IH; [done|..]; unfold zlen in *; lia.
Qed.
End lines_spec.

(** ** Evaluating *)

Section evaluate_proofs.
Context {CL : CLong} {LC : LimitsConfig} {BO : ByteOrder} {W CW : Type}
  {PA : ParamAccess W} {LP : LimitsPlatform W} {ES : EventSink W}.
Variables (clock : W → Z).
Implicit Types (s : limits W) (rule : kfsw_limits_rule).

(** What a rule reads in a state: nothing, or whether its bound is crossed. *)
Definition reading rule s : option bool :=
  let '(rc, value, _) := access_get (lr_parameter rule) (limits_world s) in
  if rc =? 0 then Some (crossed rule value) else None.

(** A rule evaluated in the states its sweeps find. *)
Fixpoint watch rule (ss : list (limits W)) : kfsw_limits_rule :=
  match ss with
  | [] => rule
  | s :: ss => watch (evaluate clock rule s).1 ss
  end.

(** The length of the run of crossings that ends the history, failed reads aside. *)
Definition run_length (l : list (option bool)) : Z :=
  fold_left (λ n r, match r with Some true => n + 1 | Some false => 0 | None => n end) l 0.

Definition same_rule rule rule' : Prop :=
  rule' = set_progress (lr_streak rule') (lr_latched rule') rule.

Lemma rule_evaluate_same rule s : same_rule rule (evaluate clock rule s).1.
Proof.
  unfold same_rule, evaluate. destruct (access_get _ _) as [[rc v] w].
  destruct rule. repeat case_match; by simplify_eq/=.
Qed.

Lemma same_rule_reading rule rule' s : same_rule rule rule' → reading rule' s = reading rule s.
Proof. intros ->. done. Qed.

Lemma same_rule_trans rule rule' rule'' :
  same_rule rule rule' → same_rule rule' rule'' → same_rule rule rule''.
Proof. unfold same_rule. intros H1 H2. rewrite H2, H1. done. Qed.

Lemma watch_same rule ss : same_rule rule (watch rule ss).
Proof.
  revert rule. induction ss as [|s ss IH]; intros rule; cbn; [by destruct rule|].
  eapply same_rule_trans; [apply rule_evaluate_same|apply IH].
Qed.

Lemma watch_app rule ss ss' : watch rule (ss ++ ss') = watch (watch rule ss) ss'.
Proof. revert rule. induction ss as [|s ss IH]; intros rule; cbn; auto. Qed.

(** One evaluation: the streak and the latch of the rule it leaves. *)
Lemma evaluate_cases rule s :
  0 <= lr_streak rule <= 255 →
  let r := (evaluate clock rule s).1 in
  match reading rule s with
  | None => r = rule
  | Some false => r = set_progress 0 false rule
  | Some true =>
      lr_streak r = Z.min 255 (lr_streak rule + 1) ∧
      (lr_latched rule = true → lr_latched r = true) ∧
      (lr_latched r = true → lr_latched rule = true ∨ lr_dwell rule <= lr_streak r)
  end.
Proof.
  intros Hs. unfold evaluate, reading. destruct (access_get _ _) as [[rc v] w].
  destruct (rc =? 0); cbn; [|done]. destruct (crossed rule v); cbn; [|done].
  set (streak := if lr_streak rule <? UINT8_MAX then u8 (lr_streak rule + 1) else lr_streak rule).
  assert (streak = Z.min 255 (lr_streak rule + 1)) as ->.
  { subst streak. destruct (lr_streak rule <? UINT8_MAX) eqn:E; unfold UINT8_MAX in E; [|lia].
    rewrite u8_id by clia. lia. }
  destruct (lr_latched rule) eqn:Hlat; cbn; [by auto|].
  destruct (_ >=? _) eqn:Hdue; cbn; [|by split_and!].
  destruct (release clock _ _) as [latched s'] eqn:E. cbn. split_and!; [done|done|]. right. lia.
Qed.

Lemma run_length_snoc l r :
  run_length (l ++ [r]) =
    match r with Some true => run_length l + 1 | Some false => 0 | None => run_length l end.
Proof. unfold run_length. by rewrite fold_left_app. Qed.

Lemma run_length_nonneg l : 0 <= run_length l.
Proof.
  induction l as [|r l IH] using rev_ind; [done|]. rewrite run_length_snoc. repeat case_match; lia.
Qed.

Lemma watch_streak rule ss :
  lr_streak rule = 0 → lr_latched rule = false → 1 <= lr_dwell rule <= 255 →
  lr_streak (watch rule ss) = Z.min 255 (run_length (reading rule <$> ss)) ∧
  (lr_latched (watch rule ss) = true → lr_dwell rule <= run_length (reading rule <$> ss)).
Proof.
  intros H0 H1 Hd. induction ss as [|s ss [IHs IHl]] using rev_ind.
  { cbn. rewrite H0, H1. done. }
  rewrite watch_app, fmap_app. cbn [watch fmap list_fmap]. rewrite run_length_snoc.
  pose proof (run_length_nonneg (reading rule <$> ss)) as Hn.
  assert (0 <= lr_streak (watch rule ss) <= 255) as Hb by (rewrite IHs; lia).
  pose proof (evaluate_cases (watch rule ss) s Hb) as Hc. cbn zeta in Hc.
  rewrite (same_rule_reading rule) in Hc by apply watch_same.
  assert (lr_dwell (watch rule ss) = lr_dwell rule) as Hdw by (by rewrite (watch_same rule ss)).
  destruct (reading rule s) as [[]|].
  - destruct Hc as (Hst & Hk & Hl). rewrite Hst, IHs. split; [lia|]. intros Hlat.
    apply Hl in Hlat as [Hlat|Hlat]; [specialize (IHl Hlat); lia|].
    rewrite Hdw, Hst, IHs in Hlat. lia.
  - rewrite Hc. done.
  - rewrite Hc. done.
Qed.
End evaluate_proofs.

Section limits_steps.
Context {CL : CLong} {LC : LimitsConfig} {BO : ByteOrder} {W CW : Type}
  {PA : ParamAccess W} {LP : LimitsPlatform W} {ES : EventSink W}.
Variables (clock : W → Z) (commands : command_registry CW).
Implicit Types (s : limits W) (rule : kfsw_limits_rule).

(** The state after the parameter was read. *)
Definition after_get rule s : limits W :=
  set_limits_world (access_get (lr_parameter rule) (limits_world s)).2 s.

Lemma evaluate_no_release rule s :
  lr_latched rule = true → reading rule s ≠ Some false →
  lr_latched (evaluate clock rule s).1 = true ∧
  ((evaluate clock rule s).2 = after_get rule s ∨
   (evaluate clock rule s).2 = note_failure (after_get rule s)).
Proof.
  intros Hl. unfold reading, evaluate, after_get. destruct (access_get _ _) as [[rc v] w].
  destruct (rc =? 0); cbn; [|by auto]. destruct (crossed rule v); cbn; [|done].
  rewrite Hl. by auto.
Qed.

Lemma watch_latched rule (ss : list (limits W)) :
  lr_latched rule = true → Forall (λ s, reading rule s ≠ Some false) ss →
  lr_latched (watch clock rule ss) = true.
Proof.
  intros Hl. induction ss as [|s ss IH] using rev_ind; [done|].
  intros [Hss [Hs _]%Forall_cons]%Forall_app. rewrite watch_app. cbn.
  apply evaluate_no_release; [auto|]. by rewrite (same_rule_reading rule) by apply watch_same.
Qed.

(** A rule as it was loaded, with any progress. *)
Definition rule_inv rule : Prop :=
  0 <= lr_streak rule <= 255 ∧ rule_ok commands (set_progress 0 false rule).

Definition limits_wf s : Prop :=
  ls_rules (limits_state s) = zlen (rules s) ∧ zlen (rules s) <= LIMITS_MAX_RULES ∧
  ∀ (i : nat) rule, rules s !! i = Some rule → rule_inv rule ∧ lr_index rule = Z.of_nat i.

Lemma rule_evaluate_inv rule s : rule_inv rule → rule_inv (evaluate clock rule s).1.
Proof.
  intros [Hs Hr]. split.
  - pose proof (evaluate_cases clock rule s Hs) as Hc. cbn zeta in Hc.
    destruct (reading rule s) as [[]|]; [destruct Hc as [-> _]; lia|rewrite Hc; cbn; lia|by rewrite Hc].
  - by rewrite (rule_evaluate_same clock rule s).
Qed.

Lemma release_frame rule s :
  rules (release clock rule s).2 = rules s ∧
  ls_rules (limits_state (release clock rule s).2) = ls_rules (limits_state s).
Proof. unfold release. destruct (kfsw_fbo_schedule_add _ _ _ _ _). by repeat case_match; simplify_eq/=. Qed.

Lemma evaluate_frame rule s :
  rules (evaluate clock rule s).2 = rules s ∧
  ls_rules (limits_state (evaluate clock rule s).2) = ls_rules (limits_state s).
Proof.
  unfold evaluate. destruct (access_get _ _) as [[rc v] w]. repeat case_match; simplify_eq/=; try done.
  all: match goal with H : release _ ?r ?x = _ |- _ =>
    pose proof (release_frame r x) as Hf; by rewrite H in Hf end.
Qed.

Lemma evaluate_rules_frame l s :
  ls_rules (limits_state (evaluate_rules clock l s).2) = ls_rules (limits_state s) ∧
  length (evaluate_rules clock l s).1 = length l ∧
  ∀ (i : nat) rule', (evaluate_rules clock l s).1 !! i = Some rule' →
    ∃ rule, l !! i = Some rule ∧ same_rule rule rule' ∧ (rule_inv rule → rule_inv rule').
Proof.
  revert s. induction l as [|rule l IH]; intros s; cbn; [by split_and!|].
  destruct (evaluate clock rule s) as [rule1 s1] eqn:E1.
  pose proof (evaluate_frame rule s) as [_ Hf]. pose proof (rule_evaluate_same clock rule s) as Hsame.
  pose proof (rule_evaluate_inv rule s) as Hinv. rewrite E1 in *. cbn in *.
  specialize (IH s1). destruct (evaluate_rules clock l s1) as [l1 s2]. cbn in *.
  destruct IH as (Hr & Hl & Hi). split_and!; [congruence|congruence|].
  intros [|i] rule' H; cbn in *; [|by apply Hi]. injection H as <-. by eauto.
Qed.

Lemma kfsw_limits_sweep_wf s : limits_wf s → limits_wf (kfsw_limits_sweep clock s).2.
Proof.
  intros (Hn & Hm & Hr). unfold kfsw_limits_sweep. destruct (limits_enabled s =? 0); cbn.
  - unfold limits_wf. cbn. unfold zlen in *. rewrite length_fmap. split_and!; try done.
    intros i rule' H. apply list_lookup_fmap_Some in H as (rule & -> & H).
    destruct (Hr _ _ H) as [[_ Hok] Hi]. split; [split; [cbn; lia|exact Hok]|exact Hi].
  - pose proof (evaluate_rules_frame (rules s) s) as (Hf & Hl & Hi).
    destruct (evaluate_rules clock (rules s) s) as [l s1]. cbn in *. unfold limits_wf. cbn.
    unfold zlen in *. split_and!; [congruence|congruence|]. intros i rule' H.
    destruct (Hi _ _ H) as (rule & Hrule & Hsame & Hinv). destruct (Hr _ _ Hrule) as [Hok Hidx].
    split; [auto|]. by rewrite Hsame.
Qed.

Ltac unchanged := split; [done|]; split; [done|]; right; split; [try done|done].

Lemma kfsw_limits_load_spec name s :
  let '(rc, s') := kfsw_limits_load commands name s in
  limits_world s' = limits_world s ∧ limits_enabled s' = limits_enabled s ∧
  (rc = 0 ∧ staged_ok commands (rules s') ∧ ls_rules (limits_state s') = zlen (rules s') ∧
     ls_error_line (limits_state s') = 0 ∨
   rc ≠ 0 ∧ rules s' = rules s ∧ ls_rules (limits_state s') = ls_rules (limits_state s)).
Proof.
  unfold kfsw_limits_load. destruct name as [name|]; [|by unchanged].
  destruct (_ || _ || _ || _); [by unchanged|]. destruct (negb (limits_storage_ready _)); [by unchanged|].
  destruct (limits_open _ _) as [result file]. destruct (negb (result =? 0)) eqn:E.
  { unchanged. lia. }
  unfold parse_whole_file. destruct (po_rc _ =? 0) eqn:Hrc.
  - assert (staged_ok commands []) as H0.
    { pose proof LIMITS_MAX_RULES_range. split; [rewrite zlen_nil; lia|]. intros i r. by rewrite lookup_nil. }
    apply Z.eqb_eq in Hrc. pose proof (parse_file_staged commands _ _ _ _ _ _ H0 Hrc) as Hok.
    generalize dependent (parse_file commands (limits_world s) (S (length file)) file 0 0 []). intros outcome Hrc Hok.
    split; [done|]. split; [done|]. left. split_and!; try done. destruct Hok as [Hmax _].
    pose proof LIMITS_MAX_RULES_range. pose proof (zlen_nonneg (po_rules outcome)).
    cbn. by rewrite u8_id by clia.
  - apply Z.eqb_neq in Hrc. by destruct (po_reason _); unchanged.
Qed.

Lemma kfsw_limits_load_wf name s : limits_wf s → limits_wf (kfsw_limits_load commands name s).2.
Proof.
  intros (Hn & Hm & Hr). pose proof (kfsw_limits_load_spec name s) as H.
  destruct (kfsw_limits_load commands name s) as [rc s']. cbn.
  destruct H as (_ & _ & [(_ & [Hmax Hok] & Hrules & _)|(_ & Hrules & Hn')]).
  - split_and!; [done|done|]. intros i rule Hi. destruct (Hok _ _ Hi) as [Hrule Hidx].
    split; [|done]. pose proof Hrule as (_ & Hs & Hl & _). split; [lia|].
    replace (set_progress 0 false rule) with rule; [done|].
    destruct rule; cbn in *. by subst.
  - unfold limits_wf. rewrite Hrules, Hn'. by split_and!.
Qed.

Lemma set_interval_wf interval_ms s :
  limits_wf s → limits_wf (kfsw_limits_set_interval_ms interval_ms s).2.
Proof. unfold kfsw_limits_set_interval_ms. by repeat case_match. Qed.

Lemma kfsw_limits_init_wf s : limits_wf s → limits_wf (kfsw_limits_init commands s).2.
Proof.
  intros H. unfold kfsw_limits_init. destruct (limits_initialized s); [done|].
  match goal with |- context [if limits_storage_ready ?w then ?a else ?b] =>
    assert (limits_wf (if limits_storage_ready w then a else b)) as H1 by (by case_match);
    generalize dependent (if limits_storage_ready w then a else b) end.
  intros s1 H1. destruct (kfsw_limits_set_interval_ms (limits_interval_ms s1) s1) as [rc s2] eqn:E2.
  assert (limits_wf s2) as H2 by (pose proof (set_interval_wf (limits_interval_ms s1) s1 H1) as H2; by rewrite E2 in H2).
  match goal with |- context [if negb (rc =? 0) then ?a else ?b] =>
    assert (limits_wf (if negb (rc =? 0) then a else b)) as H3
      by (case_match; [by apply set_interval_wf|done]);
    generalize dependent (if negb (rc =? 0) then a else b) end.
  intros s3 H3. pose proof (kfsw_limits_load_wf (Some LIMITS_FILE) s3 H3) as H4.
  destruct (kfsw_limits_load commands (Some LIMITS_FILE) s3) as [rc' s4]. by case_match.
Qed.

(** The operations, and the environment, that may write the parameters and the world. *)
Inductive limits_step : limits W → limits W → Prop :=
  | limits_step_init s : limits_step s (kfsw_limits_init commands s).2
  | limits_step_load name s : limits_step s (kfsw_limits_load commands name s).2
  | limits_step_work s : limits_step s (work_handler clock s)
  | limits_step_sweep s : limits_step s (kfsw_limits_sweep clock s).2
  | limits_step_interval interval_ms s :
      limits_step s (kfsw_limits_set_interval_ms interval_ms s).2
  | limits_step_environment s enabled interval_ms w : limits_step s {|
      limits_enabled := enabled; limits_interval_ms := interval_ms; rules := rules s;
      limits_state := limits_state s; limits_initialized := limits_initialized s;
      limits_world := w |}.

Lemma limits_step_wf s s' : limits_step s s' → limits_wf s → limits_wf s'.
Proof.
  intros [] H; auto using kfsw_limits_init_wf, kfsw_limits_load_wf, kfsw_limits_sweep_wf, set_interval_wf.
  unfold work_handler. apply kfsw_limits_sweep_wf in H. by case_match.
Qed.
End limits_steps.

(** ** Properties *)

Section limits_properties.
Context {CL : CLong} {LC : LimitsConfig} {BO : ByteOrder} {W CW : Type}
  {PA : ParamAccess W} {LP : LimitsPlatform W} {ES : EventSink W}.
Variables (clock : W → Z) (commands : command_registry CW).
Implicit Types (s : limits W) (rule : kfsw_limits_rule).

(** C10: a rule counts consecutive crossings, up to 255: a reading within the bound
    resets the count and the latch, a failed reading changes neither. The sweep that
    finds the count at the dwell asks for the release, once: a latched rule, or one
    whose count is short of the dwell, asks for nothing. *)
Theorem limits_dwell_exact rule (ss : list (limits W)) s :
  lr_streak rule = 0 → lr_latched rule = false → 1 <= lr_dwell rule <= 255 →
  let r := watch clock rule ss in
  let n := run_length (reading rule <$> ss) in
  lr_streak r = Z.min 255 n ∧
  evaluate clock r s =
    match reading rule s with
    | None => (r, note_failure (after_get rule s))
    | Some false => (set_progress 0 false r, after_get rule s)
    | Some true =>
        let r' := set_progress (Z.min 255 (n + 1)) (lr_latched r) rule in
        if lr_latched r || (n + 1 <? lr_dwell rule) then (r', after_get rule s)
        else let '(latched, s') := release clock r' (after_get rule s) in
             (set_progress (Z.min 255 (n + 1)) latched r', s')
    end.
Proof.
  intros H0 H1 Hd r n. destruct (watch_streak clock rule ss H0 H1 Hd) as [Hs _]. fold r n in Hs.
  split; [done|]. pose proof (watch_same clock rule ss) as Hsame. fold r in Hsame.
  pose proof (run_length_nonneg (reading rule <$> ss)) as Hn. fold n in Hn.
  clearbody r n. unfold same_rule in Hsame. destruct r as [idx par ty cmp b bt dw st la no ac].
  destruct rule as [idx' par' ty' cmp' b' bt' dw' st' la' no' ac'].
  unfold set_progress in Hsame. cbn in *. injection Hsame. intros. subst.
  unfold reading, evaluate, after_get. cbn. destruct (access_get par' _) as [[rc v] w].
  destruct (rc =? 0); cbn; [|done]. unfold crossed. cbn.
  destruct (holds cmp' _); cbn; [|done].
  assert ((if Z.min 255 n <? UINT8_MAX then u8 (Z.min 255 n + 1) else Z.min 255 n) = Z.min 255 (n + 1)) as ->.
  { destruct (Z.min 255 n <? UINT8_MAX) eqn:E; unfold UINT8_MAX in E; [|lia]. rewrite u8_id by clia. lia. }
  replace (Z.min 255 (n + 1) >=? dw') with (negb (n + 1 <? dw')) by lia.
  destruct la; cbn; [done|]. by destruct (n + 1 <? dw').
Qed.

(** C28: a rule that has released stays silent, and stays latched, through any number
    of sweeps that do not find its parameter back within the bound; the failed
    readings among them are counted. *)
Theorem limits_fires_once rule (ss : list (limits W)) s :
  lr_latched rule = true → Forall (λ s, reading rule s ≠ Some false) ss →
  reading rule s ≠ Some false →
  lr_latched (watch clock rule ss) = true ∧
  (evaluate clock (watch clock rule ss) s).2 =
    (if bool_decide (reading rule s = None) then note_failure (after_get rule s)
     else after_get rule s).
Proof.
  intros Hl Hss Hs. pose proof (watch_latched clock rule ss Hl Hss) as Hw. split; [done|].
  rewrite <- (same_rule_reading rule (watch clock rule ss) s) in Hs |- * by apply watch_same.
  assert (lr_parameter (watch clock rule ss) = lr_parameter rule) as Hp by (by rewrite (watch_same clock rule ss)).
  unfold reading, evaluate, after_get in *. rewrite <- Hp.
  destruct (access_get _ _) as [[rc v] w].
  destruct (rc =? 0); cbn; [|done]. destruct (crossed _ v); cbn; [|done]. by rewrite Hw.
Qed.


(** C29: a file within the size limit is parsed line by line: the reader with its
    bounded buffer sees the lines of the file, without carriage returns, and the
    first line that is neither blank, a comment nor a rule refuses the file. *)
Theorem limits_file_by_lines (world : W) (chars : list Z) :
  zlen chars <= LIMITS_FILE_BYTES_MAX →
  parse_whole_file commands world (ReadChar <$> chars) = parse_lines commands world 0 (file_lines chars) [].
Proof.
  clear clock. intros H. unfold parse_whole_file. apply parse_file_lines; [|lia]. rewrite length_fmap. lia.
Qed.

(** C36: at every reachable state the rules in force are rules a file may hold, within
    the table, indexed in order, and the status counts them; evaluation only ever
    changes their streak and latch. *)
Theorem limits_reachable_ok w s :
  rtc (limits_step clock commands) (limits_boot w) s → limits_wf commands s.
Proof.
  intros H. assert (limits_wf commands (limits_boot w)) as H0.
  { pose proof LIMITS_MAX_RULES_range. unfold limits_wf. cbn. split_and!; [done|unfold zlen; cbn; lia|].
    intros i r. by rewrite lookup_nil. }
  revert H0. induction H as [|s1 s2 s3 Hstep _ IH]; [done|]. intros H0. apply IH.
  by eapply limits_step_wf.
Qed.

(** the six operators compare what the values denote: signed and unsigned values
    as the integers of their width, and a NaN on either side crosses no bound, not
    even under the negated operators. *)
Theorem limits_comparison cmp (a b : kfsw_param_scalar) type :
  0 <= cmp <= 5 →
  let rule_holds := holds cmp (order (widen type a) (widen type b)) in
  let relation (x y : Z) := List.nth (Z.to_nat cmp)
    [x >? y; x >=? y; x <? y; x <=? y; x =? y; negb (x =? y)] false in
  (type = KFSW_PARAM_U32 → rule_holds = relation (u32 a) (u32 b)) ∧
  (type = KFSW_PARAM_I32 → rule_holds = relation (i32 a) (i32 b)) ∧
  (type = KFSW_PARAM_U8 → rule_holds = relation (u8 a) (u8 b)) ∧
  (type = KFSW_PARAM_FLOAT → sc_f32 a = S754_nan ∨ sc_f32 b = S754_nan → rule_holds = false).
Proof.
  intros Hc rule_holds relation.
  assert (∀ x y, holds cmp (order_z x y) = relation x y) as Hz.
  { intros x y. unfold relation.
    assert (cmp = 0 ∨ cmp = 1 ∨ cmp = 2 ∨ cmp = 3 ∨ cmp = 4 ∨ cmp = 5) as Hcases by lia.
    unfold holds, order_z, ORDER_NONE, Z.gtb, Z.ltb, Z.geb, Z.leb. rewrite (Z.eqb_compare x y).
    by destruct (x ?= y); destruct Hcases as [->|[->|[->|[->|[->| ->]]]]]. }
  split_and!; intros ->; unfold rule_holds; [apply Hz..|].
  intros [H|H]; cbn; rewrite H; [done|]. by destruct (sc_f32 a) as [[]|[]| |[]].
Qed.
End limits_properties.

(** ** Witnesses *)

Section limits_witnesses.
#[local] Existing Instance limits_config_default.
#[local] Existing Instance event_config_default.
#[local] Existing Instance big_endian.
#[local] Existing Instance clong32.

(** A board with one 16-bit parameter, [temp], whose reading is the first component
    (negative when it cannot be read), the releases asked of the scheduler and the
    events. Its rule file has a comment, a blank line and a rule. *)
Definition board : Type := Z * list (list Z) * event_state.
Definition temp : list Z := cstr "temp".
Definition sim_params : ParamAccess board := {|
  access_info name w := if str_eq name temp then (0, KFSW_PARAM_U16) else (- ENOENT, 0);
  access_get name w := if w.1.1 <? 0 then (- EIO, 0, w) else (0, w.1.1, w);
  access_parse text type := (0, (strtoul text 10).1.1) |}.
#[local] Existing Instance sim_params.
Definition rule_chars : list Z :=
  cstr "# thermal" ++ [10; 13; 10] ++ cstr "temp >= 80 2 0 heater" ++ [13; 10].
Definition sim_platform : LimitsPlatform board := {|
  limits_storage_ready w := true; limits_open path w := (0, ReadChar <$> rule_chars);
  limits_mkdir path w := (0, w); limits_uptime_ms w := 7; limits_reschedule ms w := w;
  limits_cancel w := w;
  kfsw_fbo_schedule_add time delay node action w := (0, (w.1.1, w.1.2 ++ [action], w.2)) |}.
#[local] Existing Instance sim_platform.
Definition board_sink : EventSink board := {|
  sink_emit now source id severity payload size w :=
    (w.1, sink_emit now source id severity payload size w.2);
  sink_log w := sink_log w.2; sink_ok w := sink_ok w.2;
  sink_emit_ok now source id severity payload size w :=
    sink_emit_ok now source id severity payload size w.2;
  sink_refuses now source id severity payload size w :=
    sink_refuses now source id severity payload size w.2;
  sink_records now source id severity payload size w :=
    sink_records now source id severity payload size w.2 |}.
#[local] Existing Instance board_sink.

Definition heater : kfsw_command_definition unit := {|
  def_id := 10; def_name := Some (cstr "heater"); def_help := None; def_flags := 0;
  def_arg_count := 0; def_arg_types := None; def_handler := None |}.
Definition heater_registry : command_registry unit :=
  {| registry := [heater]; registry_ready := true |}.
Definition board_at (value : Z) : limits board := limits_boot (value, [], event_boot).
Definition loaded : limits board :=
  (kfsw_limits_load heater_registry (Some (cstr "rules.txt")) (board_at 20)).2.
#[local] Instance rule_inhabited : Inhabited kfsw_limits_rule := populate {|
  lr_index := 0; lr_parameter := []; lr_type := 0; lr_cmp := 0; lr_bound := 0;
  lr_bound_text := []; lr_dwell := 0; lr_streak := 0; lr_latched := false; lr_node := 0;
  lr_action := [] |}.
Definition hot_rule : kfsw_limits_rule := rules loaded !!! 0%nat.
Definition latched_rule : kfsw_limits_rule := set_progress 2 true hot_rule.

Example loads_one_rule : (zlen (rules loaded), lr_dwell hot_rule, lr_bound hot_rule) = (1, 2, 80).
Proof. vm_compute. reflexivity. Qed.

Lemma limits_dwell_exact_witness :
  lr_streak (watch (λ _, 0) hot_rule [board_at 90; board_at (-1)]) = 1 ∧
  lr_latched (evaluate (λ _, 0) (watch (λ _, 0) hot_rule [board_at 90; board_at (-1)]) (board_at 80)).1 = true.
Proof.
  assert (1 <= lr_dwell hot_rule <= 255) as Hd by (vm_compute; split; discriminate).
  destruct (limits_dwell_exact (λ _, 0) hot_rule [board_at 90; board_at (-1)] (board_at 80)
    eq_refl eq_refl Hd) as [Hs He].
  split; [rewrite Hs; vm_compute; reflexivity|rewrite He; vm_compute; reflexivity].
Defined.

Lemma limits_fires_once_witness :
  (limits_world (evaluate (λ _, 0) (watch (λ _, 0) latched_rule [board_at 90; board_at (-1)])
    (board_at 95)).2).1.2 = [].
Proof.
  assert (Forall (λ s, reading latched_rule s ≠ Some false) [board_at 90; board_at (-1)]) as Hss.
  { repeat constructor; vm_compute; discriminate. }
  assert (reading latched_rule (board_at 95) ≠ Some false) as Hs by (vm_compute; discriminate).
  destruct (limits_fires_once (λ _, 0) latched_rule _ (board_at 95) eq_refl Hss Hs) as [_ He].
  rewrite He. vm_compute. reflexivity.
Defined.

Lemma limits_file_by_lines_witness :
  length (po_rules (parse_whole_file heater_registry (20, [], event_boot) (ReadChar <$> rule_chars))) = 1%nat.
Proof.
  assert (zlen rule_chars <= LIMITS_FILE_BYTES_MAX) as H by (vm_compute; discriminate).
  rewrite (limits_file_by_lines heater_registry (20, [], event_boot) rule_chars H). vm_compute. reflexivity.
Defined.

Lemma limits_reachable_ok_witness : limits_wf heater_registry loaded.
Proof.
  exact (limits_reachable_ok (λ _, 0) heater_registry (20, [], event_boot) loaded
    (rtc_once _ _ (limits_step_load _ heater_registry (Some (cstr "rules.txt")) (board_at 20)))).
Defined.

Lemma limits_comparison_witness :
  holds KFSW_LIMITS_GT (order (widen KFSW_PARAM_I32 4294967295) (widen KFSW_PARAM_I32 1)) = false.
Proof.
  assert (0 <= KFSW_LIMITS_GT <= 5) as H by (vm_compute; split; discriminate).
  destruct (limits_comparison KFSW_LIMITS_GT 4294967295 1 KFSW_PARAM_I32 H) as (_ & H1 & _).
  rewrite (H1 eq_refl). vm_compute. reflexivity.
Defined.
End limits_witnesses.
